(* ===== verification/_CoqProject ===== *)
-Q . S2P
Prelude.v
Checksum.v
StdMap.v
Addresses.v
Text.v
Ethernet.v
Arp.v
ArpCache.v
Ipv4.v
Icmp.v
Udp.v
Tcp.v
SeqNum.v
TcpState.v
TcpCongestion.v
TcpSegments.v
TcpSender.v
TcpSack.v
TcpReceiver.v
TcpHandler.v
TcpTable.v
TcpInvariant.v
TcpProperties.v
TcpStream.v
TcpStates.v
TcpTimers.v
TcpSending.v
TcpOpening.v
Dns.v
Http.v
HttpClient.v
RuntimeOptions.v
Stack.v
EventLoop.v
StackSafety.v
StackServices.v
StackTimers.v
StackRuns.v
TcpOutput.v
TcpFlow.v
TcpHandshake.v
TcpEndToEnd.v
TcpReports.v
StackOutput.v
Link.v
Fetch.v
SysCalls.v
TapDevice.v
SystemIsn.v
Program.v
TapSend.v
Fuzz.v
