(* ===== verification/Prelude.v ===== *)
(** * Wirestack: a verification development

    Wirestack is a userspace network stack over a TAP device: Ethernet, ARP,
    IPv4, ICMP echo, UDP, TCP, and small DNS and HTTP applications on top.
    This library models the whole program, from the system calls of the
    device to the applications, and proves what makes it correct.

    ** The program and where it is modelled

    Frames read from the TAP device go through [parseEthernetFrame]; ARP
    packets update the neighbour cache and are answered; IPv4 packets are
    parsed and dispatched by protocol to ICMP echo, to the UDP endpoint table
    and the DNS client, or to the TCP connection table, whose results feed the
    HTTP server and client. Timers poll the ARP cache, the DNS session and the
    TCP table, and their next deadlines bound how long the event loop sleeps.

    - [Prelude]: record update, machine integers, big-endian fields, sorting,
      deadlines; the tactics and hint databases of the development.
    - [StdMap]: [std::map] as a key-ordered association list, used by the
      tables; the key order is a class ([KeyOrder]) with instances for
      integers, addresses and connection keys.
    - [Checksum]: src/src/checksum.cpp.
    - [Addresses], [Text]: mac_address.cpp and ipv4_address.cpp, the address
      types and their wire forms; character strings and their text forms.
    - [Ethernet], [Arp], [Ipv4], [Icmp], [Udp]: the parsers, serializers and
      reply builders of the files of the same name, and udp_endpoint.cpp.
    - [ArpCache]: src/src/arp_cache.cpp, all operations.
    - [Tcp]: src/src/tcp.cpp, segments and options on the wire.
    - [SeqNum], [TcpState], [TcpCongestion], [TcpSegments], [TcpSender],
      [TcpReceiver], [TcpHandler], [TcpTable]: src/src/tcp_connection.cpp and
      its header, in the order the functions use each other. [Connection] is
      the C++ struct field by field; [TcpConnectionTable] the class.
      [handleSynchronized] is split at its comments into [processAck],
      [congestionStep], [localFinStep], [finishPureAck], [finishOutside],
      [storePayload], [deliver] and [finishReceive].
    - [TcpInvariant]: the connection and table invariants, their preservation
      by every operation, and the step relation [step] with [reachable].
    - [TcpProperties], [TcpStream], [TcpStates], [TcpTimers], [TcpSending],
      [TcpSack], [TcpOpening]: the theorems about TCP. [TcpOutput] types the
      connections and the segments they send; [TcpFlow] relates
      them to what was written; [TcpHandshake] is a connection before it is
      synchronized; [TcpEndToEnd] puts two tables together;
      [TcpReports] is the application's view of them.
    - [Dns]: src/src/dns.cpp, queries, responses with name compression, and
      the resolver session.
    - [Http], [HttpClient]: http.cpp and http_client.cpp, and what main.cpp
      does with a connection's bytes ([serveHttp], [receiveResponse]).
    - [RuntimeOptions]: runtime_options.cpp, the options of the command line.
    - [Stack], [EventLoop]: src/src/main.cpp. [Stack] holds the variables of
      [main] as a record and each handler as an action; [EventLoop] the command
      line ([startup]), the initial state, the wait ([loopDeadline],
      [timeout_ms]), the timers and one [iteration] of the loop.
    - [StackSafety]: the invariant of the whole stack and the relation
      [running] of the states the program reaches. [StackServices],
      [StackTimers], [StackRuns], [StackOutput]: the theorems about the whole
      stack. [Link], [Fetch]: two programs on a link.
    - [SysCalls]: the system calls as events of interaction trees, what the
      kernel asks and promises for each (the class [EventSpec] and its instance
      [kernel]), and a program logic ([wp], [reaches]) for programs that may
      run for ever.
    - [TapDevice]: src/src/tap_device.cpp, the operations of the device and the
      ownership of its descriptor, against that interface.
    - [SystemIsn]: [systemIsn] of src/src/tcp_connection.cpp, the default
      generator of initial sequence numbers.
    - [Program]: [main] of src/src/main.cpp, the stack on the device.
    - [TapSend]: src/tools/tap_send.cpp, a second program on the device.
    - [Fuzz]: the fuzz targets of src/fuzz/.

    ** How the code is represented

    Unsigned integers are [Z] with the wrap-around written out ([u8], [u16],
    [u32], [i32]); byte buffers are lists of [Z]; time points and durations
    are nanoseconds in [Z], and every operation takes the current time as the
    C++ one does. Functions that mutate a connection or a table return the
    new one. A result of [None] from a parser or a handler means that the C++
    function would read outside a buffer, so a theorem that the result is
    [Some] is a memory-safety theorem. Error enumerations are inductive types
    and results are sums. The initial-sequence-number generator, a callback of
    the table, is an argument: the value it returns. UDP handlers are
    functions from request bytes to response bytes. Text is a list of character
    codes. A handler of main.cpp is an [action]: a function of the stack that
    returns the new stack and the frames written to the device, in order, or
    [None] for a read outside a buffer. A frame that was read, the readings of
    the clock ([Clock]; consecutive readings within one handler count as one)
    and random numbers are arguments of an iteration.

    The device and the program are interaction trees of system calls. The
    clock and random readings of one iteration are one event before it, and
    its frames are written in order at its end: the result of a write is only
    logged, so nothing in between depends on it. A read outside a buffer is an
    event the program may never raise. The kernel is specified, not
    implemented: a descriptor it opens is fresh, it reads at most the size of
    the buffer, it takes a frame written to a TAP whole or fails, and the
    frames it delivers are admissible in the sense of C4. The text of
    [strerror] and what a moved-from string holds are parameters.

    Loops that are not structural take fuel, and always enough of it: two
    rounds of the carry loop settle any 32-bit sum ([foldCarries_exits]); the
    option loop gets one round more than there are bytes and each consumes
    one ([parseTcpOptions_loop_total]); the congestion-avoidance loop gets
    more rounds than the acknowledged bytes hold windows
    ([avoidance_loop_ok]); padding to four bytes needs at most three rounds
    ([pad4_spec]); the scheduling loop gets the 128 rounds the code caps a
    pass at, which is enough for the bytes it caps ([schedule_loop_spec]);
    decoding a DNS name gets one round for each of the 16 hops and 253 bytes it
    allows, and one more ([decodeName_loop_total]); splitting a request head
    one round per byte ([head_lines_total]); a decimal number 20 digits.
    The program itself needs none: only [run], which executes a tree for a
    given number of steps on a concrete environment, does, and its theorems say
    how many are enough.

    ** What the theorems show

    - End to end: between two tables joined by an unreliable network, from
      before either side dials, what is read is what was written (C1).
      [TcpHandshake] shows that SYNs lost, repeated or late leave both sides at
      the agreed positions, [TcpFlow] that whatever a connection sends is a
      slice of what its application wrote, [TcpStream] that slices in any order
      are delivered as the stream; [TcpEndToEnd] puts the three together for two
      tables and their histories. Each side opens the connection at most once:
      a second incarnation on the same ports is not covered.
    - Fetching: two whole programs on an Ethernet link that treats frames the
      same way, one started to fetch a page from the other: every iteration of
      either completes, and a complete session holds the page the server has
      (C2). [TcpReports] says what an application may conclude from what the
      table reports; [Link] relates what the handlers of a program do to its
      side of the conversation (the logic [does]), for any application that
      meets the class [Application]; [Fetch] shows that the HTTP client and
      server do. What C1 assumes of the applications is thereby discharged: the
      client writes one request and the server at most one response.
    - Tables: every reachable table respects its limits and every connection
      its invariant (C3); segments whose sequence number is not almost 2^31
      away from the next expected byte are processed without out-of-bounds
      reads (C4), and that restriction is needed: such a distant segment does
      read outside its buffer (C5). [reachable] is therefore closed under
      all operations on such admissible segments; between two Wirestacks no
      other segment occurs (C1).
    - Receiving: reassembly and delivery implement a reliable byte stream
      whoever the peer is (C6), except that a buffer full of fragments never
      recovers (C10).
    - States and opening: only edges of the TCP diagram are taken (C7), both
      handshakes establish (C20, C21), resets act only when acceptable (C22).
    - Sending: cumulative acknowledgement, scheduling, sends and closes handle
      exactly the right bytes (C8, C9, C18, C19); SACK marking, fast
      retransmit, congestion window and RTT estimation follow their
      specifications (C11, C12, C16, C17).
    - Timers: deadlines are exact, a timeout retransmits the oldest entry, and
      queued data always has a timer (C13, C14, C15).
    - Wire formats: every connection keeps its type and every segment it sends
      is read back by its peer (C23).
    - Neighbours: the ARP cache retries as specified (C24).
    - The whole stack: every iteration of the event loop completes in bounds
      from any command line and any admissible frames (C25); ARP, ping and UDP
      are answered from frame bytes to frame bytes (C26); two stacks resolve
      each other (C27); the loop neither oversleeps nor misses a deadline
      (C28); every frame sent is well formed, of a bounded size and from our
      addresses (C29); and a session that outlives its connection makes the
      server ignore a client (C40).
    - The program and the device: in any run, finite or not, the program makes
      only calls it may make, and sends only such frames (C30); descriptors are
      neither leaked nor closed twice (C31); interrupted and partial calls
      complete (C32). The default generator of initial sequence numbers
      returns what the table assumes of one ([wp_systemIsn],
      [systemIsn_returns]); the frame writer sends its frame and nothing else
      ([tap_send_obeys_kernel]).
    - Applications and configuration: DNS queries, responses and sessions (C33
      to C35), text forms of addresses (C36), the HTTP server and the client
      (C37, C38), the command line (C39).

    The round trips of Ethernet, ARP, IPv4, ICMP, UDP and TCP segments, the
    detection of a corrupted word by the checksum, the honesty of advertised
    windows, what the ARP cache keeps and evicts, and the exchange of a request
    and its response in any chunks are theorems of their files too. Every fuzz
    target returns on every input ([fuzzers_find_nothing]).

    ** What is not modelled

    The kernel's side of the system calls, its random sources among them, which
    is specified in [SysCalls]; and log messages. The tests and scripts of the
    repository are not part of the program. *)

From stdpp Require Export base list numbers option list_numbers sorting.
From Stdlib Require Export ZArith Lia.

#[global] Open Scope Z_scope.

(** ** Functional record update

    The source mutates struct fields in place ([connection.snd_una = ack]).
    A record type that gives an [Eta] instance gets the notation
    [c <| field := v |>] for the copy of [c] with one field replaced. *)

Class Eta (R : Type) := eta_expand : R -> R.

Class Field {R T : Type} (proj : R -> T) := update : (T -> T) -> R -> R.

Ltac build_update R proj :=
  let e := eval cbv [eta_expand] in (eta_expand (R := R)) in
  let e := eval hnf in e in
  let e := eval pattern proj in e in
  match e with
  | ?body _ =>
      let r := constr:(fun g (x : R) => body (fun y => g (proj y)) x) in
      let r := eval cbv beta in r in
      exact r
  end.

#[export] Hint Mode Field - - ! : typeclass_instances.
#[export] Hint Extern 1 (@Field ?R ?T ?p) => build_update R p : typeclass_instances.

Declare Scope wire_scope.
Delimit Scope wire_scope with wire.
#[global] Open Scope wire_scope.

Notation "x <| p := v |>" := (update (proj := p) (fun _ => v) x)
  (at level 1, left associativity, p at level 10, v at level 200,
   format "x  <|  p  :=  v  |>") : wire_scope.

(** ** Machine integers

    A value of an unsigned w-bit type is a [Z] in [0, 2^w); every operation
    of the source that can leave the range is followed by the reduction. *)

Definition u8 (x : Z) : Z := x mod 2 ^ 8.
Definition u16 (x : Z) : Z := x mod 2 ^ 16.
Definition u32 (x : Z) : Z := x mod 2 ^ 32.

(** [static_cast<std::int32_t>] of a [std::uint32_t]. *)
Definition i32 (x : Z) : Z := if u32 x <? 2 ^ 31 then u32 x else u32 x - 2 ^ 32.

Definition is_u8 (x : Z) : Prop := 0 <= x < 2 ^ 8.
Definition is_u16 (x : Z) : Prop := 0 <= x < 2 ^ 16.
Definition is_u32 (x : Z) : Prop := 0 <= x < 2 ^ 32.

(** A byte buffer ([std::vector<std::byte>] or a span of one). *)
Definition bytes_ok (l : list Z) : Prop := Forall is_u8 l.

(** [container.size()] as an integer. *)
Definition Zlen {A} (l : list A) : Z := Z.of_nat (length l).

(** [std::map::find(k) == end()] and the like on optional values. *)
Definition has_value {A} (o : option A) : bool := match o with Some _ => true | None => false end.
Definition empty {A} (l : list A) : bool := match l with [] => true | _ => false end.

#[global] Arguments Z.land : simpl never.
#[global] Arguments Z.lor : simpl never.
#[global] Arguments Z.shiftl : simpl never.
#[global] Arguments Z.shiftr : simpl never.
#[global] Arguments u8 : simpl never.
#[global] Arguments u16 : simpl never.
#[global] Arguments u32 : simpl never.
#[global] Arguments i32 : simpl never.
#[global] Arguments Zlen : simpl never.

(** ** Tactics *)

Create HintDb wire discriminated.
Create Rewrite HintDb u32.

(** Linear arithmetic with the machine-integer reductions unfolded and
    quotients and remainders replaced by their defining equations. *)
Ltac unfold_ints := unfold is_u8, is_u16, is_u32, u8, u16, u32 in *.
Ltac ulia := unfold_ints; change (2 ^ 8) with 256 in *; change (2 ^ 16) with 65536 in *;
  change (2 ^ 32) with 4294967296 in *; change (2 ^ 31) with 2147483648 in *;
  Z.div_mod_to_equations; lia.

(** Destruct every [if] on a [Z] comparison, leaving the order facts. *)
Ltac zcases :=
  repeat match goal with
  | |- context [Z.ltb ?a ?b] => destruct (Z.ltb_spec a b)
  | |- context [Z.leb ?a ?b] => destruct (Z.leb_spec a b)
  | |- context [Z.eqb ?a ?b] => destruct (Z.eqb_spec a b)
  | H : context [Z.ltb ?a ?b] |- _ => destruct (Z.ltb_spec a b)
  | H : context [Z.leb ?a ?b] |- _ => destruct (Z.leb_spec a b)
  | H : context [Z.eqb ?a ?b] |- _ => destruct (Z.eqb_spec a b)
  end.

(** Boolean facts to propositions. *)
Ltac bprop :=
  repeat match goal with
  | H : (_ && _)%bool = true |- _ => apply andb_true_iff in H; destruct H
  | H : (_ || _)%bool = false |- _ => apply orb_false_iff in H; destruct H
  | H : (_ || _)%bool = true |- _ => apply orb_true_iff in H
  | H : (_ && _)%bool = false |- _ => apply andb_false_iff in H
  | H : negb _ = true |- _ => apply negb_true_iff in H
  | H : negb _ = false |- _ => apply negb_false_iff in H
  | H : (_ <? _) = true |- _ => apply Z.ltb_lt in H
  | H : (_ <? _) = false |- _ => apply Z.ltb_ge in H
  | H : (_ <=? _) = true |- _ => apply Z.leb_le in H
  | H : (_ <=? _) = false |- _ => apply Z.leb_gt in H
  | H : (_ =? _) = true |- _ => apply Z.eqb_eq in H
  | H : (_ =? _) = false |- _ => apply Z.eqb_neq in H
  end.

(** ** Lemmas on machine integers *)

Lemma u32_range x : is_u32 (u32 x).
Proof. apply Z.mod_pos_bound; lia. Qed.

Lemma u16_range x : is_u16 (u16 x).
Proof. apply Z.mod_pos_bound; lia. Qed.

Lemma u8_range x : is_u8 (u8 x).
Proof. apply Z.mod_pos_bound; lia. Qed.

Lemma u32_id x : is_u32 x -> u32 x = x.
Proof. apply Z.mod_small. Qed.

Lemma u16_id x : is_u16 x -> u16 x = x.
Proof. apply Z.mod_small. Qed.

Lemma u8_id x : is_u8 x -> u8 x = x.
Proof. apply Z.mod_small. Qed.

Lemma u32_add_l x y : u32 (u32 x + y) = u32 (x + y).
Proof. apply Zplus_mod_idemp_l. Qed.

Lemma u32_add_r x y : u32 (x + u32 y) = u32 (x + y).
Proof. apply Zplus_mod_idemp_r. Qed.

Lemma u32_sub_l x y : u32 (u32 x - y) = u32 (x - y).
Proof. apply Zminus_mod_idemp_l. Qed.

Lemma u32_sub_r x y : u32 (x - u32 y) = u32 (x - y).
Proof. apply Zminus_mod_idemp_r. Qed.

Lemma u32_u32 x : u32 (u32 x) = u32 x.
Proof. apply Zmod_mod. Qed.

#[export] Hint Resolve u32_range u16_range u8_range : wire.
#[export] Hint Rewrite u32_add_l u32_add_r u32_sub_l u32_sub_r u32_u32 : u32.

(** Normalise nested 32-bit reductions. *)
Ltac u32_norm := autorewrite with u32 in *.

(** A shifted value or-ed with one that fits below the shift is their sum. *)
Lemma lor_shiftl_add hi lo n : 0 <= n -> 0 <= lo < 2 ^ n -> Z.lor (Z.shiftl hi n) lo = hi * 2 ^ n + lo.
Proof.
  intros Hn Hlo. rewrite <- Z.shiftl_mul_pow2 by lia.
  assert (Hd : Z.land (Z.shiftl hi n) lo = 0).
  { apply Z.bits_inj'; intros i Hi. rewrite Z.land_spec, Z.bits_0.
    destruct (Z.lt_ge_cases i n).
    - rewrite Z.shiftl_spec_low by lia. reflexivity.
    - assert (Hb : Z.testbit lo i = false).
      { destruct (Z.eq_dec lo 0) as [->|]; [apply Z.bits_0|].
        apply Z.bits_above_log2; [lia|]. apply Z.log2_lt_pow2; [lia|].
        apply Z.lt_le_trans with (2 ^ n); [lia | apply Z.pow_le_mono_r; lia]. }
      rewrite Hb. apply andb_false_r. }
  rewrite Z.add_nocarry_lxor, Z.lxor_lor by assumption. reflexivity.
Qed.

Lemma lor_mul_add hi lo n : 0 <= n -> (2 ^ n | hi) -> 0 <= lo < 2 ^ n -> Z.lor hi lo = hi + lo.
Proof.
  intros Hn [q ->] Hlo. rewrite <- Z.shiftl_mul_pow2, lor_shiftl_add, Z.shiftl_mul_pow2 by lia.
  reflexivity.
Qed.

Lemma land_255 x : Z.land x 255 = x mod 256.
Proof. change 255 with (Z.ones 8). rewrite Z.land_ones by lia. reflexivity. Qed.

Lemma land_65535 x : Z.land x 65535 = x mod 65536.
Proof. change 65535 with (Z.ones 16). rewrite Z.land_ones by lia. reflexivity. Qed.

(** ** Big-endian fields

    [readBigEndian16], [writeBigEndian16] and their 32-bit versions are
    repeated in every protocol file of the source. A read returns [None]
    where the source would index past the end of the span. *)

Definition readBigEndian16 (data : list Z) (offset : nat) : option Z :=
  hi ← data !! offset;
  lo ← data !! (offset + 1)%nat;
  Some (u16 (Z.lor (Z.shiftl hi 8) lo)).

Definition readBigEndian32 (data : list Z) (offset : nat) : option Z :=
  b0 ← data !! offset;
  b1 ← data !! (offset + 1)%nat;
  b2 ← data !! (offset + 2)%nat;
  b3 ← data !! (offset + 3)%nat;
  Some (Z.lor (Z.lor (Z.lor (u32 (Z.shiftl b0 24)) (Z.shiftl b1 16)) (Z.shiftl b2 8)) b3).

#[global] Arguments readBigEndian16 : simpl never.
#[global] Arguments readBigEndian32 : simpl never.

Definition writeBigEndian16 (out : list Z) (value : Z) : list Z :=
  out ++ [Z.land (Z.shiftr value 8) 255; Z.land value 255].

Definition writeBigEndian32 (out : list Z) (value : Z) : list Z :=
  out ++ [Z.land (Z.shiftr value 24) 255; Z.land (Z.shiftr value 16) 255;
          Z.land (Z.shiftr value 8) 255; Z.land value 255].

(** Bytes of a 16-bit and of a 32-bit value, most significant first. *)
Definition be16 (v : Z) : list Z := [Z.land (Z.shiftr v 8) 255; Z.land v 255].
Definition be32 (v : Z) : list Z :=
  [Z.land (Z.shiftr v 24) 255; Z.land (Z.shiftr v 16) 255; Z.land (Z.shiftr v 8) 255; Z.land v 255].

Lemma be16_value v : is_u16 v ->
  u16 (Z.lor (Z.shiftl (Z.land (Z.shiftr v 8) 255) 8) (Z.land v 255)) = v.
Proof.
  intros Hv. rewrite !land_255, Z.shiftr_div_pow2 by lia.
  rewrite lor_shiftl_add by (try apply Z.mod_pos_bound; lia). ulia.
Qed.

Lemma be32_value v : is_u32 v ->
  Z.lor (Z.lor (Z.lor (u32 (Z.shiftl (Z.land (Z.shiftr v 24) 255) 24))
    (Z.shiftl (Z.land (Z.shiftr v 16) 255) 16)) (Z.shiftl (Z.land (Z.shiftr v 8) 255) 8))
    (Z.land v 255) = v.
Proof.
  intros Hv. rewrite !land_255, !Z.shiftr_div_pow2 by lia.
  rewrite u32_id by (rewrite Z.shiftl_mul_pow2 by lia; ulia).
  rewrite !Z.shiftl_mul_pow2 by lia.
  rewrite (lor_mul_add (v / 2 ^ 24 mod 256 * 2 ^ 24) _ 24); [| lia | eexists; reflexivity | ulia].
  rewrite (lor_mul_add (_ + _) (v / 2 ^ 8 mod 256 * 2 ^ 8) 16);
    [| lia | exists (v / 2 ^ 24 mod 256 * 2 ^ 8 + v / 2 ^ 16 mod 256); lia | ulia].
  rewrite (lor_mul_add _ _ 8);
    [| lia | exists (v / 2 ^ 24 mod 256 * 2 ^ 16 + v / 2 ^ 16 mod 256 * 2 ^ 8 + v / 2 ^ 8 mod 256); lia
     | ulia].
  ulia.
Qed.

(** Recursion on a list two elements at a time. *)
Lemma list_pair_ind {A} (P : list A -> Prop) :
  P [] -> (forall a, P [a]) -> (forall a b l, P l -> P (a :: b :: l)) -> forall l, P l.
Proof.
  intros H0 H1 H2 l. enough (P l /\ forall a, P (a :: l)) by tauto.
  induction l as [|x l [IH1 IH2]]; split; intros; auto.
Qed.

Lemma be16_ok v : bytes_ok (be16 v).
Proof. unfold be16. rewrite !land_255. repeat constructor; ulia. Qed.

Lemma be32_ok v : bytes_ok (be32 v).
Proof. unfold be32. rewrite !land_255. repeat constructor; ulia. Qed.

Lemma Zlen_app {A} (l1 l2 : list A) : Zlen (l1 ++ l2) = Zlen l1 + Zlen l2.
Proof. unfold Zlen. rewrite length_app. lia. Qed.

Lemma Zlen_nonneg {A} (l : list A) : 0 <= Zlen l.
Proof. unfold Zlen. lia. Qed.

Lemma Zlen_cons {A} (x : A) l : Zlen (x :: l) = 1 + Zlen l.
Proof. unfold Zlen. simpl length. lia. Qed.

Lemma Zlen_nil {A} : Zlen (@nil A) = 0.
Proof. reflexivity. Qed.

#[export] Hint Resolve be16_ok be32_ok Zlen_nonneg : wire.

(** Reading back a written field. *)
Lemma readBigEndian16_be16 data offset v :
  is_u16 v -> data !! offset = Some (Z.land (Z.shiftr v 8) 255) ->
  data !! (offset + 1)%nat = Some (Z.land v 255) -> readBigEndian16 data offset = Some v.
Proof. intros Hv H1 H2. unfold readBigEndian16. rewrite H1, H2. simpl. by rewrite be16_value. Qed.

Lemma readBigEndian32_be32 data offset v :
  is_u32 v -> data !! offset = Some (Z.land (Z.shiftr v 24) 255) ->
  data !! (offset + 1)%nat = Some (Z.land (Z.shiftr v 16) 255) ->
  data !! (offset + 2)%nat = Some (Z.land (Z.shiftr v 8) 255) ->
  data !! (offset + 3)%nat = Some (Z.land v 255) -> readBigEndian32 data offset = Some v.
Proof.
  intros Hv H1 H2 H3 H4. unfold readBigEndian32. rewrite H1, H2, H3, H4. simpl. by rewrite be32_value.
Qed.

(** A read inside the buffer succeeds and stays in range. *)
Lemma lookup_in_range {A} (data : list A) i : Z.of_nat i < Zlen data -> exists x, data !! i = Some x.
Proof. intros H. apply lookup_lt_is_Some. unfold Zlen in H. lia. Qed.

Lemma readBigEndian16_Some data offset :
  Z.of_nat offset + 1 < Zlen data -> exists v, readBigEndian16 data offset = Some v /\ is_u16 v.
Proof.
  intros H. destruct (lookup_in_range data offset) as [a Ha]; [lia|].
  destruct (lookup_in_range data (offset + 1)) as [b Hb]; [lia|].
  eexists. unfold readBigEndian16. rewrite Ha, Hb. split; [reflexivity | apply u16_range].
Qed.

Lemma readBigEndian32_Some data offset :
  Z.of_nat offset + 3 < Zlen data -> exists v, readBigEndian32 data offset = Some v.
Proof.
  intros H. destruct (lookup_in_range data offset) as [a Ha]; [lia|].
  destruct (lookup_in_range data (offset + 1)) as [b Hb]; [lia|].
  destruct (lookup_in_range data (offset + 2)) as [c Hc]; [lia|].
  destruct (lookup_in_range data (offset + 3)) as [d Hd]; [lia|].
  eexists. unfold readBigEndian32. rewrite Ha, Hb, Hc, Hd. reflexivity.
Qed.

(** Discharge the checked reads of a parser from the length facts in scope. *)
Ltac read_ok :=
  repeat match goal with
  | |- context [@lookup nat Z (list Z) _ ?i ?d] =>
      let x := fresh "x" in let Hx := fresh "Hx" in
      destruct (lookup_in_range d i) as [x Hx]; [unfold Zlen in *; simpl in *; lia | rewrite Hx; simpl]
  | |- context [readBigEndian16 ?d ?i] =>
      let x := fresh "v" in let Hx := fresh "Hv" in let Hr := fresh "Hr" in
      destruct (readBigEndian16_Some d i) as (x & Hx & Hr);
      [unfold Zlen in *; simpl in *; lia | rewrite Hx; simpl]
  | |- context [readBigEndian32 ?d ?i] =>
      let x := fresh "v" in let Hx := fresh "Hv" in
      destruct (readBigEndian32_Some d i) as (x & Hx);
      [unfold Zlen in *; simpl in *; lia | rewrite Hx; simpl]
  end.

(** Decide the comparisons of the goal that the context settles. *)
Ltac zdec1 :=
  match goal with
  | |- context [Z.ltb ?a ?b] =>
      first [rewrite (proj2 (Z.ltb_lt a b)) by lia | rewrite (proj2 (Z.ltb_ge a b)) by lia]
  | |- context [Z.leb ?a ?b] =>
      first [rewrite (proj2 (Z.leb_le a b)) by lia | rewrite (proj2 (Z.leb_gt a b)) by lia]
  | |- context [Z.eqb ?a ?b] =>
      first [rewrite (proj2 (Z.eqb_eq a b)) by lia | rewrite (proj2 (Z.eqb_neq a b)) by lia]
  end.
Ltac zdec := repeat (zdec1; cbn [negb andb orb]).

Lemma bytes_ok_lookup data i x : bytes_ok data -> data !! i = Some x -> is_u8 x.
Proof. intros H. by apply Forall_lookup_1. Qed.

Lemma readBigEndian32_range data offset v :
  bytes_ok data -> readBigEndian32 data offset = Some v -> is_u32 v.
Proof.
  intros Hok. unfold readBigEndian32.
  destruct (data !! offset) as [a|] eqn:Ea; simpl; [|done].
  destruct (data !! (offset + 1)%nat) as [b|] eqn:Eb; simpl; [|done].
  destruct (data !! (offset + 2)%nat) as [c|] eqn:Ec; simpl; [|done].
  destruct (data !! (offset + 3)%nat) as [d|] eqn:Ed; simpl; [|done].
  intros [= <-]. pose proof (bytes_ok_lookup _ _ _ Hok Ea). pose proof (bytes_ok_lookup _ _ _ Hok Eb).
  pose proof (bytes_ok_lookup _ _ _ Hok Ec). pose proof (bytes_ok_lookup _ _ _ Hok Ed).
  rewrite u32_id by (rewrite Z.shiftl_mul_pow2 by lia; ulia).
  rewrite !Z.shiftl_mul_pow2 by lia.
  rewrite (lor_mul_add (a * 2 ^ 24) (b * 2 ^ 16) 24); [| lia | by eexists | ulia].
  rewrite (lor_mul_add _ (c * 2 ^ 8) 16); [| lia | exists (a * 2 ^ 8 + b); lia | ulia].
  rewrite (lor_mul_add _ d 8); [| lia | exists (a * 2 ^ 16 + b * 2 ^ 8 + c); lia | ulia].
  ulia.
Qed.

(** ** [std::sort]

    A stable insertion sort by a strict comparison; the source sorts by keys
    that are distinct, or whose ties the next step makes irrelevant. *)
Section Sort.
Context {A : Type} (lt : A -> A -> bool).

Fixpoint sort_insert (x : A) (l : list A) : list A :=
  match l with
  | [] => [x]
  | y :: l' => if lt y x then y :: sort_insert x l' else x :: l
  end.

Fixpoint sort (l : list A) : list A :=
  match l with
  | [] => []
  | x :: l => sort_insert x (sort l)
  end.

Lemma sort_insert_perm x l : sort_insert x l ≡ₚ x :: l.
Proof.
  induction l as [|y l IH]; simpl; [done|]. destruct (lt y x); [|done].
  rewrite IH. apply Permutation_swap.
Qed.

Lemma sort_perm l : sort l ≡ₚ l.
Proof. induction l as [|x l IH]; simpl; [done|]. by rewrite sort_insert_perm, IH. Qed.

(** Sorting by an integer key gives an ascending list. *)
Lemma sort_ascending (key : A -> Z) l :
  Forall (fun x => Forall (fun y => lt x y = (key x <? key y)) l) l ->
  StronglySorted (fun x y => key x <= key y) (sort l).
Proof.
  intros H. assert (Hsub : forall l', (forall x, x ∈ l' -> x ∈ l) ->
    StronglySorted (fun x y => key x <= key y) (sort l')); [|by apply Hsub].
  induction l' as [|x l' IH]; intros Hin; simpl; [constructor|].
  specialize (IH ltac:(intros; apply Hin; by right)).
  assert (Hs : forall y, y ∈ sort l' -> lt y x = (key y <? key x)).
  { intros y Hy. rewrite sort_perm in Hy. rewrite Forall_forall in H.
    specialize (H y ltac:(apply Hin; by right)). rewrite Forall_forall in H. apply H, Hin. by left. }
  clear H Hin. induction IH as [|y m Hm IHm Hy]; simpl; [repeat constructor|].
  rewrite Hs by left. destruct (Z.ltb_spec (key y) (key x)).
  - constructor; [apply IHm; intros; apply Hs; by right|]. rewrite sort_insert_perm. constructor; [lia | done].
  - constructor; [by constructor|]. constructor; [lia|]. eapply Forall_impl; [exact Hy|]. simpl. lia.
Qed.
End Sort.

(** An ascending list is its own sorting. *)
Lemma sort_id {A} (lt : A -> A -> bool) l :
  StronglySorted (fun x y => lt y x = false) l -> sort lt l = l.
Proof.
  induction 1 as [|x l Hl IH Hx]; simpl; [done|]. rewrite IH. destruct Hx as [|y l Hy _]; simpl; [done|]. by rewrite Hy.
Qed.

(** Sorting commutes with a map that respects the comparison. *)
Lemma sort_map {A B} (f : A -> B) (P : A -> Prop) ltA ltB l :
  (forall x y, P x -> P y -> ltB (f x) (f y) = ltA x y) -> Forall P l ->
  sort ltB (map f l) = map f (sort ltA l).
Proof.
  intros H. induction 1 as [|x l Hx Hl IH]; simpl; [done|]. rewrite IH.
  assert (Hs : Forall P (sort ltA l)) by (by rewrite sort_perm).
  clear IH Hl. induction Hs as [|y m Hy Hm IH]; simpl; [done|]. rewrite H by done.
  destruct (ltA y x); simpl; [by rewrite IH | done].
Qed.

(** ** Time

    A [std::chrono::steady_clock] time point or duration, in nanoseconds. *)
Definition milliseconds (n : Z) : Z := n * 1000000.
Definition seconds (n : Z) : Z := n * 1000000000.

(** The loop of the three deadline queries: the earliest of the deadlines the
    entries of a table report. *)
Definition earliestDeadline (deadlines : list (option Z)) : option Z :=
  foldl (fun earliest deadline =>
    match deadline, earliest with
    | Some d, None => Some d
    | Some d, Some e => if d <? e then Some d else earliest
    | None, _ => earliest
    end) None deadlines.

Lemma earliest_fold l acc :
  let r := foldl (fun earliest deadline =>
    match deadline, earliest with
    | Some d, None => Some d
    | Some d, Some e => if d <? e then Some d else earliest
    | None, _ => earliest
    end) acc l in
  match r with
  | None => acc = None /\ Forall (fun d => d = None) l
  | Some e => (acc = Some e \/ Some e ∈ l) /\ (forall a, acc = Some a -> e <= a) /\
              forall d, Some d ∈ l -> e <= d
  end.
Proof.
  revert acc. induction l as [|x l IH]; intros acc; simpl.
  { destruct acc as [a|]; [|done]. split_and!; [by left | intros ? [= ->]; lia | intros d Hd; inversion Hd]. }
  set (acc' := match x with Some d => _ | None => acc end). specialize (IH acc').
  destruct (foldl _ acc' l) as [e|].
  - destruct IH as (I1 & I2 & I3).
    assert (Hacc : (acc' = acc \/ acc' = x) /\ (forall a, acc = Some a -> exists a', acc' = Some a' /\ a' <= a) /\
      (forall d, x = Some d -> exists a', acc' = Some a' /\ a' <= d)).
    { unfold acc'. destruct x as [d|], acc as [a|]; try destruct (Z.ltb_spec d a); split_and!; auto;
        intros ? [= <-]; eexists; (split; [reflexivity | lia]). }
    destruct Hacc as (A1 & A2 & A3). split_and!.
    + destruct I1 as [I1|I1]; [|right; by right]. destruct A1 as [A1|A1]; [left; congruence|].
      right. replace x with (Some e) by congruence. left.
    + intros a Ha. destruct (A2 a Ha) as (a' & E & Hle). specialize (I2 a' E). lia.
    + intros d Hd. inversion Hd as [|? ? Hd']; subst; [|auto]. destruct (A3 d eq_refl) as (a' & E & Hle). specialize (I2 a' E). lia.
  - destruct IH as [I1 I2]. unfold acc' in I1.
    destruct x as [d|]; [destruct acc as [a|]; [destruct (d <? a)|]; done|]. split; [done | by constructor].
Qed.

Lemma earliestDeadline_spec l :
  match earliestDeadline l with
  | None => Forall (fun d => d = None) l
  | Some e => Some e ∈ l /\ forall d, Some d ∈ l -> e <= d
  end.
Proof.
  pose proof (earliest_fold l None) as H. unfold earliestDeadline. simpl in H.
  destruct (foldl _ None l) as [e|]; [|apply H]. destruct H as ([?|?] & _ & ?); done.
Qed.
