(* ===== verification/Checksum.v ===== *)
(** * The Internet checksum ([src/src/checksum.cpp])

    The RFC 1071 one's-complement sum that the IPv4, ICMP, UDP and TCP
    code share: the 16-bit word loop with its 32-bit accumulator, the carry
    loop and the final complement, the closed form it computes, and the two
    facts the protocol files rely on: a filled-in checksum verifies, and a
    changed word is detected. *)

From S2P Require Import Prelude.

(** The word loop: two bytes at a time, an odd last byte as the high half. *)
Fixpoint sumWords (data : list Z) (sum : Z) : Z :=
  match data with
  | a :: b :: rest => sumWords rest (u32 (sum + u16 (Z.lor (Z.shiftl a 8) b)))
  | [a] => u32 (sum + u16 (Z.shiftl a 8))
  | [] => sum
  end.

(** The carry loop [while ((sum >> 16) != 0)]. Two rounds always suffice for
    a 32-bit sum ([foldCarries_exits]). *)
Fixpoint foldCarries (fuel : nat) (sum : Z) : Z :=
  match fuel with
  | O => sum
  | S fuel =>
      if Z.shiftr sum 16 =? 0 then sum
      else foldCarries fuel (u32 (Z.land sum 65535 + Z.shiftr sum 16))
  end.

Definition internetChecksum (data : list Z) : Z :=
  let sum := foldCarries 2 (sumWords data 0) in
  u16 (Z.land (u32 (Z.lnot sum)) 65535).

#[global] Arguments internetChecksum : simpl never.

(** ** Reference definitions *)

(** The mathematical sum of the big-endian 16-bit words. *)
Fixpoint word_sum (data : list Z) : Z :=
  match data with
  | a :: b :: rest => a * 256 + b + word_sum rest
  | [a] => a * 256
  | [] => 0
  end.

(** One's-complement reduction: the representative in [1, 65535] of a
    positive sum modulo 65535. *)
Definition ones (s : Z) : Z := if s =? 0 then 0 else (s - 1) mod 65535 + 1.

(** ** The word loop *)

Lemma bytes_ok_cons b l : bytes_ok (b :: l) <-> is_u8 b /\ bytes_ok l.
Proof. apply Forall_cons. Qed.

Lemma bytes_ok_app l1 l2 : bytes_ok (l1 ++ l2) <-> bytes_ok l1 /\ bytes_ok l2.
Proof. apply Forall_app. Qed.

Lemma word_sum_bounds data : bytes_ok data -> 0 <= word_sum data <= 65535 * ((Zlen data + 1) / 2).
Proof.
  induction data as [|a|a b l IH] using list_pair_ind; intros H.
  - split; vm_compute; discriminate.
  - apply bytes_ok_cons in H as [Ha _]. simpl. unfold Zlen; simpl. ulia.
  - apply bytes_ok_cons in H as [Ha H]. apply bytes_ok_cons in H as [Hb H].
    specialize (IH H). simpl word_sum. rewrite !Zlen_cons.
    replace (1 + (1 + Zlen l) + 1) with (1 * 2 + (Zlen l + 1)) by lia.
    rewrite Z.div_add_l by lia. ulia.
Qed.

Lemma sumWords_word_sum data sum :
  bytes_ok data -> 0 <= sum -> sum + word_sum data < 2 ^ 32 -> sumWords data sum = sum + word_sum data.
Proof.
  revert sum; induction data as [|a|a b l IH] using list_pair_ind; intros sum H Hs Hb; simpl in *.
  - lia.
  - apply bytes_ok_cons in H as [Ha _]. rewrite Z.shiftl_mul_pow2 by lia. ulia.
  - apply bytes_ok_cons in H as [Ha H]. apply bytes_ok_cons in H as [Hb' H].
    pose proof (word_sum_bounds l H).
    rewrite lor_shiftl_add by (try lia; exact Hb').
    rewrite (u16_id (_ + b)) by ulia. rewrite u32_id by ulia.
    rewrite IH by (auto; ulia). lia.
Qed.

Lemma word_sum_app l1 l2 : Nat.even (length l1) = true -> word_sum (l1 ++ l2) = word_sum l1 + word_sum l2.
Proof.
  induction l1 as [|a|a b l1 IH] using list_pair_ind; intros H; simpl in *; [lia | discriminate |].
  rewrite IH by assumption. lia.
Qed.

Lemma word_sum_be16 v : is_u16 v -> word_sum (be16 v) = v.
Proof.
  intros Hv. unfold be16. simpl. rewrite !land_255, Z.shiftr_div_pow2 by lia. ulia.
Qed.

(** ** The carry loop *)

Lemma foldCarries_exits s : is_u32 s -> Z.shiftr (foldCarries 2 s) 16 = 0.
Proof.
  intros Hs. cbn [foldCarries]. rewrite !land_65535. rewrite !Z.shiftr_div_pow2 by lia.
  repeat case_match; bprop; rewrite ?Z.shiftr_div_pow2 in * by lia; ulia.
Qed.

Lemma foldCarries_ones s : is_u32 s -> foldCarries 2 s = ones s.
Proof.
  intros Hs. unfold ones. cbn [foldCarries]. rewrite !land_65535. rewrite !Z.shiftr_div_pow2 by lia.
  repeat case_match; bprop; rewrite ?Z.shiftr_div_pow2 in * by lia; try ulia.
Qed.

Lemma ones_range s : 0 <= s -> 0 <= ones s <= 65535.
Proof. intros. unfold ones. case_match; ulia. Qed.

(** ** The checksum *)

(** The closed form: on any buffer of at most 131072 bytes the 32-bit
    accumulator never wraps, and the result is the complement of the
    one's-complement sum. *)
Lemma internetChecksum_ones data :
  bytes_ok data -> Zlen data <= 131072 -> internetChecksum data = 65535 - ones (word_sum data).
Proof.
  intros Hok Hlen. pose proof (word_sum_bounds data Hok) as Hb.
  assert (word_sum data < 2 ^ 32) by ulia.
  unfold internetChecksum. rewrite sumWords_word_sum by (auto; lia).
  rewrite Z.add_0_l, foldCarries_ones by ulia.
  pose proof (ones_range (word_sum data)). rewrite land_65535. unfold Z.lnot. ulia.
Qed.

Lemma internetChecksum_zero_iff data :
  bytes_ok data -> Zlen data <= 131072 ->
  internetChecksum data = 0 <-> word_sum data <> 0 /\ word_sum data mod 65535 = 0.
Proof.
  intros Hok Hlen. rewrite internetChecksum_ones by assumption.
  pose proof (word_sum_bounds data Hok). unfold ones. case_match; bprop; ulia.
Qed.

Lemma internetChecksum_u16 data : is_u16 (internetChecksum data).
Proof. apply u16_range. Qed.

(** Splicing a word into an even position of a buffer. *)
Lemma word_sum_splice pre post v :
  Nat.even (length pre) = true -> is_u16 v ->
  word_sum (pre ++ be16 v ++ post) = word_sum pre + v + word_sum post.
Proof.
  intros He Hv. rewrite word_sum_app, (word_sum_app (be16 v)), word_sum_be16 by auto. lia.
Qed.

(** The receiver's check accepts what the sender fills in, also when UDP
    replaces a computed zero by 0xffff. *)
Lemma checksum_fill_verifies pre post c :
  bytes_ok pre -> bytes_ok post -> Nat.even (length pre) = true ->
  Zlen pre + Zlen post + 2 <= 131072 ->
  c = internetChecksum (pre ++ be16 0 ++ post) \/
    internetChecksum (pre ++ be16 0 ++ post) = 0 /\ c = 65535 ->
  internetChecksum (pre ++ be16 c ++ post) = 0.
Proof.
  intros Hpre Hpost He Hlen Hc.
  assert (Hok : forall v, bytes_ok (pre ++ be16 v ++ post))
    by (intros; rewrite !bytes_ok_app; auto with wire).
  assert (Hl : forall v, Zlen (pre ++ be16 v ++ post) <= 131072)
    by (intros x; rewrite !Zlen_app; change (Zlen (be16 x)) with 2; lia).
  rewrite internetChecksum_ones in Hc by auto. rewrite word_sum_splice in Hc by (auto; ulia).
  pose proof (word_sum_bounds pre Hpre). pose proof (word_sum_bounds post Hpost).
  pose proof (ones_range (word_sum pre + 0 + word_sum post)).
  apply internetChecksum_zero_iff; auto. rewrite word_sum_splice by (auto; ulia).
  unfold ones in *. case_match; bprop; ulia.
Qed.

(** The receiver's check detects corruption of a single
    16-bit word: if two buffers of at most 131072 bytes differ only in one
    aligned word and both pass the check (checksum 0), then the words are
    equal, or are the two one's-complement zeros 0x0000 and 0xffff. *)
Theorem checksum_detects_word pre post v w :
  bytes_ok pre -> bytes_ok post -> Nat.even (length pre) = true ->
  Zlen pre + Zlen post + 2 <= 131072 -> is_u16 v -> is_u16 w ->
  internetChecksum (pre ++ be16 v ++ post) = 0 ->
  internetChecksum (pre ++ be16 w ++ post) = 0 ->
  v = w \/ (v = 0 /\ w = 65535) \/ (v = 65535 /\ w = 0).
Proof.
  intros Hpre Hpost He Hlen Hv Hw H1 H2.
  assert (Hok : forall v, bytes_ok (pre ++ be16 v ++ post))
    by (intros; rewrite !bytes_ok_app; auto with wire).
  assert (Hl : forall v, Zlen (pre ++ be16 v ++ post) <= 131072)
    by (intros x; rewrite !Zlen_app; change (Zlen (be16 x)) with 2; lia).
  apply internetChecksum_zero_iff in H1, H2; auto.
  rewrite !word_sum_splice in * by auto. ulia.
Qed.

Lemma checksum_detects_word_witness :
  internetChecksum ([69; 0] ++ be16 47616 ++ [0; 255]) = 0 /\
  (forall w, is_u16 w -> internetChecksum ([69; 0] ++ be16 w ++ [0; 255]) = 0 ->
    47616 = w \/ (47616 = 0 /\ w = 65535) \/ (47616 = 65535 /\ w = 0)).
Proof.
  split; [vm_compute; reflexivity|]. intros w Hw H.
  apply (checksum_detects_word [69; 0] [0; 255]); try assumption; try (vm_compute; congruence);
    try (repeat constructor; ulia).
Defined.
