(* ===== verification/StdMap.v ===== *)
(** * [std::map]

    The ordered associative container the source keeps its tables in
    ([TcpConnectionTable::connections_], [ArpCache::entries_],
    [UdpEndpointTable::handlers_]): a list of pairs strictly increasing in
    the key. Iteration visits the pairs in list order, which is the order
    the result vectors of the polling functions are built in. *)

From S2P Require Import Prelude.

(** The strict order of a key type ([operator<]). *)
Class KeyOrder (K : Type) := {
  key_ltb : K -> K -> bool;
  key_ltb_irrefl a : key_ltb a a = false;
  key_ltb_trans a b c : key_ltb a b = true -> key_ltb b c = true -> key_ltb a c = true;
  key_ltb_total a b : key_ltb a b = false -> key_ltb b a = false -> a = b
}.

(** The lexicographic order of a defaulted [operator<=>] over integer
    members. *)
Fixpoint lex_ltb (a b : list Z) : bool :=
  match a, b with
  | x :: a, y :: b => if x <? y then true else if y <? x then false else lex_ltb a b
  | [], _ :: _ => true
  | _, [] => false
  end.

Lemma lex_ltb_irrefl a : lex_ltb a a = false.
Proof. induction a as [|x a IH]; simpl; [done|]. by rewrite Z.ltb_irrefl. Qed.

Lemma lex_ltb_trans a b c : lex_ltb a b = true -> lex_ltb b c = true -> lex_ltb a c = true.
Proof.
  revert b c; induction a as [|x a IH]; intros [|y b] [|z c]; simpl; try done.
  intros H1 H2. zcases; try done; try lia; eauto.
Qed.

Lemma lex_ltb_total a b : lex_ltb a b = false -> lex_ltb b a = false -> a = b.
Proof.
  revert b; induction a as [|x a IH]; intros [|y b]; simpl; try done.
  intros H1 H2. zcases; try done; try lia. f_equal; [lia | auto].
Qed.

Program Definition KeyOrder_lex {K} (f : K -> list Z) (inj : forall a b, f a = f b -> a = b) : KeyOrder K :=
  {| key_ltb a b := lex_ltb (f a) (f b) |}.
Next Obligation. intros. apply lex_ltb_irrefl. Qed.
Next Obligation. intros K f inj a b c. apply lex_ltb_trans. Qed.
Next Obligation. intros K f inj a b H1 H2. apply inj. by apply lex_ltb_total. Qed.

#[export] Instance KeyOrder_Z : KeyOrder Z.
Proof.
  refine {| key_ltb := Z.ltb |}.
  - apply Z.ltb_irrefl.
  - intros a b c H1 H2. bprop. apply Z.ltb_lt. lia.
  - intros a b H1 H2. bprop. lia.
Defined.

Section Map.
Context {K V : Type} {O : KeyOrder K}.

Definition key_eqb (a b : K) : bool := negb (key_ltb a b) && negb (key_ltb b a).

Definition map_t : Type := list (K * V).

(** [find(k)]; [None] is [end()]. *)
Fixpoint map_find (m : list (K * V)) (k : K) : option V :=
  match m with
  | [] => None
  | (k', v) :: m => if key_eqb k k' then Some v else map_find m k
  end.

(** [emplace(k, v)] when the key is absent, assignment through the found
    iterator when it is present. *)
Fixpoint map_set (m : list (K * V)) (k : K) (v : V) : list (K * V) :=
  match m with
  | [] => [(k, v)]
  | (k', v') :: m' =>
      if key_ltb k k' then (k, v) :: m
      else if key_ltb k' k then (k', v') :: map_set m' k v
      else (k, v) :: m'
  end.

(** [erase(it)] for the iterator found at [k]. *)
Fixpoint map_erase (m : list (K * V)) (k : K) : list (K * V) :=
  match m with
  | [] => []
  | (k', v) :: m => if key_eqb k k' then m else (k', v) :: map_erase m k
  end.

Definition map_contains (m : list (K * V)) (k : K) : bool := has_value (map_find m k).

(** The container invariant: keys strictly increasing. *)
Definition key_lt (a b : K) : Prop := key_ltb a b = true.
Definition map_ok (m : list (K * V)) : Prop := StronglySorted key_lt (map fst m).

Lemma key_eqb_eq a b : key_eqb a b = true <-> a = b.
Proof.
  unfold key_eqb. rewrite andb_true_iff, !negb_true_iff. split.
  - intros []. by apply key_ltb_total.
  - intros ->. by rewrite key_ltb_irrefl.
Qed.

Lemma key_eqb_refl a : key_eqb a a = true.
Proof. by apply key_eqb_eq. Qed.

Lemma key_eqb_neq a b : key_eqb a b = false <-> a <> b.
Proof. rewrite <- not_true_iff_false, key_eqb_eq. done. Qed.

Lemma map_ok_cons k v m :
  map_ok ((k, v) :: m) <-> Forall (fun p => key_lt k p.1) m /\ map_ok m.
Proof.
  unfold map_ok. simpl. split.
  - intros H. apply StronglySorted_inv in H as [H1 H2]. split; [|done].
    by rewrite List.Forall_map in H2.
  - intros [H1 H2]. constructor; [done|]. by rewrite List.Forall_map.
Qed.

Lemma Forall_map_set (P : K * V -> Prop) m k v : P (k, v) -> Forall P m -> Forall P (map_set m k v).
Proof.
  intros Hk. induction 1 as [|[k' v'] m' Hx Hm IH]; simpl; [by repeat constructor|].
  repeat case_match; repeat constructor; done.
Qed.

Lemma Forall_map_erase (P : K * V -> Prop) m k : Forall P m -> Forall P (map_erase m k).
Proof. induction 1 as [|[k' v'] m' Hx Hm IH]; simpl; [done|]. case_match; by try constructor. Qed.

Lemma map_set_ok m k v : map_ok m -> map_ok (map_set m k v).
Proof.
  induction m as [|[k' v'] m IH]; intros H; simpl.
  - apply map_ok_cons. split; [constructor | constructor].
  - apply map_ok_cons in H as H'. destruct H' as [H1 H2].
    destruct (key_ltb k k') eqn:E1; [|destruct (key_ltb k' k) eqn:E2].
    + apply map_ok_cons. split; [|done]. constructor; [done|].
      eapply Forall_impl; [exact H1|]. intros p. by apply key_ltb_trans.
    + apply map_ok_cons. split; [|auto]. by apply Forall_map_set.
    + assert (k = k') as -> by (by apply key_ltb_total). by apply map_ok_cons.
Qed.

Lemma map_erase_ok m k : map_ok m -> map_ok (map_erase m k).
Proof.
  induction m as [|[k' v'] m IH]; intros H; simpl; [done|].
  apply map_ok_cons in H as [H1 H2]. case_match; [done|].
  apply map_ok_cons. split; [|auto]. by apply Forall_map_erase.
Qed.

Lemma map_find_not_in m k : Forall (fun p => key_lt k p.1) m -> map_find m k = None.
Proof.
  induction 1 as [|[k' v'] m Hx Hm IH]; simpl; [done|].
  destruct (key_eqb k k') eqn:E; [|done]. apply key_eqb_eq in E as ->.
  unfold key_lt in Hx. simpl in Hx. by rewrite key_ltb_irrefl in Hx.
Qed.

Lemma map_find_set m k v k' :
  map_ok m -> map_find (map_set m k v) k' = if key_eqb k' k then Some v else map_find m k'.
Proof.
  induction m as [|[k1 v1] m IH]; intros H; simpl; [done|].
  apply map_ok_cons in H as [H1 H2].
  destruct (key_ltb k k1) eqn:E1; [|destruct (key_ltb k1 k) eqn:E2]; simpl.
  - done.
  - rewrite IH by done. destruct (key_eqb k' k1) eqn:E3, (key_eqb k' k) eqn:E4; try done.
    apply key_eqb_eq in E3 as ->, E4 as ->. by rewrite key_ltb_irrefl in E2.
  - assert (k = k1) as <- by (by apply key_ltb_total). by destruct (key_eqb k' k).
Qed.

Lemma map_find_erase m k k' :
  map_ok m -> map_find (map_erase m k) k' = if key_eqb k' k then None else map_find m k'.
Proof.
  induction m as [|[k1 v1] m IH]; intros H; simpl; [by case_match|].
  apply map_ok_cons in H as [H1 H2].
  destruct (key_eqb k k1) eqn:E1; simpl.
  - apply key_eqb_eq in E1 as ->. destruct (key_eqb k' k1) eqn:E2; [|done].
    apply key_eqb_eq in E2 as ->. by apply map_find_not_in.
  - rewrite IH by done. destruct (key_eqb k' k1) eqn:E2, (key_eqb k' k) eqn:E3; try done.
    apply key_eqb_eq in E2 as ->, E3 as ->. by rewrite key_eqb_refl in E1.
Qed.

Lemma map_find_Forall (P : K * V -> Prop) m k v : Forall P m -> map_find m k = Some v -> P (k, v).
Proof.
  induction 1 as [|[k1 v1] m Hx Hm IH]; simpl; [done|].
  destruct (key_eqb k k1) eqn:E; [|done]. apply key_eqb_eq in E as ->. by intros [= ->].
Qed.

Lemma map_find_In m k v : map_find m k = Some v -> In (k, v) m.
Proof.
  induction m as [|[k1 v1] m IH]; simpl; [done|].
  destruct (key_eqb k k1) eqn:E; [apply key_eqb_eq in E as ->; intros [= ->]; auto | auto].
Qed.

Lemma In_map_find m k v : map_ok m -> In (k, v) m -> map_find m k = Some v.
Proof.
  induction m as [|[k1 v1] m IH]; simpl; [done|]. intros Hok [[= -> ->]|Hin].
  - by rewrite key_eqb_refl.
  - apply map_ok_cons in Hok as [H1 H2]. destruct (key_eqb k k1) eqn:E; [|auto].
    apply key_eqb_eq in E as ->. rewrite Forall_forall in H1.
    apply list_elem_of_In in Hin. specialize (H1 _ Hin).
    unfold key_lt in H1. simpl in H1. by rewrite key_ltb_irrefl in H1.
Qed.

Lemma map_find_None_length_set m k v : map_find m k = None -> length (map_set m k v) = S (length m).
Proof.
  induction m as [|[k1 v1] m IH]; simpl; [done|].
  destruct (key_eqb k k1) eqn:E; [done|]. intros H. unfold key_eqb in E.
  destruct (key_ltb k k1), (key_ltb k1 k); simpl in *; try done; by rewrite IH.
Qed.

Lemma map_find_Some_length_set m k v v' : map_ok m -> map_find m k = Some v' ->
  length (map_set m k v) = length m.
Proof.
  induction m as [|[k1 v1] m IH]; simpl; [done|]. intros Hok Hf.
  apply map_ok_cons in Hok as [H1 H2].
  unfold key_eqb in Hf.
  destruct (key_ltb k k1) eqn:E1; [|destruct (key_ltb k1 k) eqn:E2]; simpl in *; [|by rewrite IH|done].
  rewrite map_find_not_in in Hf; [done|]. eapply Forall_impl; [exact H1|].
  intros p. by apply key_ltb_trans.
Qed.

Lemma length_map_erase m k : (length (map_erase m k) <= length m)%nat.
Proof. induction m as [|[k1 v1] m IH]; simpl; [lia|]. case_match; simpl; lia. Qed.

(** Erasing in a loop ([it = erase(it)]). *)
Lemma map_filter_ok (f : K * V -> bool) m : map_ok m -> map_ok (List.filter f m).
Proof.
  induction m as [|[k v] m IH]; simpl; [done|]. intros Hok. apply map_ok_cons in Hok as [H1 H2].
  destruct (f (k, v)); [|auto]. apply map_ok_cons. split; [|auto]. apply Forall_forall. intros p Hp.
  rewrite Forall_forall in H1. apply H1. apply list_elem_of_In, filter_In in Hp as [Hp _]. by apply list_elem_of_In.
Qed.

Lemma map_find_filter (f : K * V -> bool) m k : map_ok m ->
  map_find (List.filter f m) k = match map_find m k with Some v => if f (k, v) then Some v else None | None => None end.
Proof.
  induction m as [|[k1 v1] m IH]; simpl; [done|]. intros Hok. apply map_ok_cons in Hok as [H1 H2]. specialize (IH H2).
  destruct (key_eqb k k1) eqn:E.
  - apply key_eqb_eq in E as ->. destruct (f (k1, v1)); simpl; [by rewrite key_eqb_refl|].
    by rewrite IH, map_find_not_in.
  - destruct (f (k1, v1)); simpl; [by rewrite E | done].
Qed.

(** Updating every value in a loop. *)
Lemma map_values_ok (f : V -> V) m : map_ok (map (fun p => (fst p, f (snd p))) m) <-> map_ok m.
Proof. unfold map_ok. by rewrite map_map. Qed.

Lemma map_find_values (f : V -> V) m k : map_find (map (fun p => (fst p, f (snd p))) m) k = option_map f (map_find m k).
Proof. induction m as [|[k1 v1] m IH]; simpl; [done|]. by destruct (key_eqb k k1). Qed.

(** A sum over the values, and how updates change it. *)
Definition map_weight (f : V -> Z) (m : list (K * V)) : Z := foldr (fun p n => f p.2 + n) 0 m.

Definition weight_at (f : V -> Z) (m : list (K * V)) (k : K) : Z :=
  match map_find m k with Some v => f v | None => 0 end.

Lemma map_weight_set f m k v : map_ok m ->
  map_weight f (map_set m k v) = map_weight f m - weight_at f m k + f v.
Proof.
  unfold weight_at. induction m as [|[k1 v1] m IH]; intros Hok; [simpl; lia|].
  apply map_ok_cons in Hok as [H1 H2]. specialize (IH H2). simpl. unfold key_eqb.
  destruct (key_ltb k k1) eqn:E1; [|destruct (key_ltb k1 k) eqn:E2]; simpl in *; try lia.
  rewrite map_find_not_in; [lia|]. eapply Forall_impl; [exact H1|]. intros p. by apply key_ltb_trans.
Qed.

Lemma map_weight_erase f m k : map_weight f (map_erase m k) = map_weight f m - weight_at f m k.
Proof.
  unfold weight_at. induction m as [|[k1 v1] m IH]; [simpl; lia|]. simpl.
  destruct (key_eqb k k1); simpl; lia.
Qed.

Lemma map_weight_length m : map_weight (fun _ => 1) m = Zlen m.
Proof. induction m as [|p m IH]; [done|]. simpl. rewrite Zlen_cons. lia. Qed.
End Map.

#[export] Hint Resolve map_set_ok map_erase_ok map_filter_ok : wire.
