(* ===== verification/Addresses.v ===== *)
(** * Link and network addresses

    [MacAddress] and [Ipv4Address] ([src/include/wirestack/mac_address.hpp],
    [src/include/wirestack/ipv4_address.hpp]): the fixed-size byte arrays,
    their ordering, and the field readers and writers the protocol files
    repeat. *)

From S2P Require Import Prelude StdMap.

(** [std::array<std::uint8_t, 6>]. *)
Inductive MacAddress := Mac (b0 b1 b2 b3 b4 b5 : Z).

(** [std::array<std::uint8_t, 4>]. *)
Inductive Ipv4Address := Ipv4 (b0 b1 b2 b3 : Z).

Definition mac_bytes (m : MacAddress) : list Z :=
  let 'Mac a b c d e f := m in [a; b; c; d; e; f].

Definition ip_bytes (ip : Ipv4Address) : list Z := let 'Ipv4 a b c d := ip in [a; b; c; d].

Definition mac_ok (m : MacAddress) : Prop := bytes_ok (mac_bytes m).
Definition ip_ok (ip : Ipv4Address) : Prop := bytes_ok (ip_bytes ip).

(** [MacAddress{}] and [MacAddress::kBroadcast]. *)
Definition mac_zero : MacAddress := Mac 0 0 0 0 0 0.
Definition kBroadcast : MacAddress := Mac 255 255 255 255 255 255.

#[export] Instance MacAddress_eq_dec : EqDecision MacAddress.
Proof. solve_decision. Defined.

#[export] Instance Ipv4Address_eq_dec : EqDecision Ipv4Address.
Proof. solve_decision. Defined.

Definition mac_eqb (a b : MacAddress) : bool := bool_decide (a = b).
Definition ip_eqb (a b : Ipv4Address) : bool := bool_decide (a = b).

Definition isBroadcast (m : MacAddress) : bool := mac_eqb m kBroadcast.

Lemma ip_bytes_inj a b : ip_bytes a = ip_bytes b -> a = b.
Proof. destruct a, b; simpl; congruence. Qed.

#[export] Instance KeyOrder_Ipv4Address : KeyOrder Ipv4Address := KeyOrder_lex ip_bytes ip_bytes_inj.

(** Readers ([None] where the source would read past the span) and writers. *)
Definition readMacAddress (data : list Z) (offset : nat) : option MacAddress :=
  b0 ← data !! (offset + 0)%nat; b1 ← data !! (offset + 1)%nat; b2 ← data !! (offset + 2)%nat;
  b3 ← data !! (offset + 3)%nat; b4 ← data !! (offset + 4)%nat; b5 ← data !! (offset + 5)%nat;
  Some (Mac b0 b1 b2 b3 b4 b5).

Definition readIpv4Address (data : list Z) (offset : nat) : option Ipv4Address :=
  b0 ← data !! (offset + 0)%nat; b1 ← data !! (offset + 1)%nat;
  b2 ← data !! (offset + 2)%nat; b3 ← data !! (offset + 3)%nat;
  Some (Ipv4 b0 b1 b2 b3).

Definition writeMacAddress (out : list Z) (mac : MacAddress) : list Z := out ++ mac_bytes mac.
Definition writeIpv4Address (out : list Z) (ip : Ipv4Address) : list Z := out ++ ip_bytes ip.

Lemma readMacAddress_Some data offset :
  Z.of_nat offset + 5 < Zlen data -> exists m, readMacAddress data offset = Some m.
Proof. intros. unfold readMacAddress. read_ok. eauto. Qed.

Lemma readIpv4Address_Some data offset :
  Z.of_nat offset + 3 < Zlen data -> exists ip, readIpv4Address data offset = Some ip.
Proof. intros. unfold readIpv4Address. read_ok. eauto. Qed.

(** As [read_ok], for the address readers. *)
Ltac read_addr_ok :=
  repeat match goal with
  | |- context [readMacAddress ?d ?i] =>
      let x := fresh "mac" in let Hx := fresh "Hmac" in
      destruct (readMacAddress_Some d i) as (x & Hx);
      [unfold Zlen in *; simpl in *; lia | rewrite Hx; simpl]
  | |- context [readIpv4Address ?d ?i] =>
      let x := fresh "ip" in let Hx := fresh "Hip" in
      destruct (readIpv4Address_Some d i) as (x & Hx);
      [unfold Zlen in *; simpl in *; lia | rewrite Hx; simpl]
  end.
