(* ===== verification/Text.v ===== *)
(** * Text

    Strings as lists of byte values, the searches of [std::string_view] the
    source uses, character classes, decimal numbers, and the text forms of
    addresses ([src/src/ipv4_address.cpp], [src/src/mac_address.cpp]). *)

From Stdlib Require Import String Ascii.
From S2P Require Import Prelude StdMap Addresses.

(** A literal of the source. *)
Fixpoint str (s : string) : list Z :=
  match s with
  | EmptyString => []
  | String c s => Z.of_N (N_of_ascii c) :: str s
  end.

Definition ch (c : ascii) : Z := Z.of_N (N_of_ascii c).
#[global] Arguments ch : simpl never.

#[export] Instance text_eq_dec : EqDecision (list Z) := _.
Definition text_eqb (a b : list Z) : bool := bool_decide (a = b).

(** ** Searching *)

Fixpoint starts_with (pat s : list Z) : bool :=
  match pat, s with
  | [], _ => true
  | p :: pat, c :: s => (p =? c) && starts_with pat s
  | _ :: _, [] => false
  end.

(** [s.find(pat)]; [None] is [npos]. *)
Fixpoint find_sub (pat s : list Z) : option nat :=
  if starts_with pat s then Some O else
  match s with
  | [] => None
  | _ :: s => option_map S (find_sub pat s)
  end.

Definition find_char (c : Z) (s : list Z) : option nat := find_sub [c] s.

(** The loop [find(sep, start)] ... [substr]: the fields between separators. *)
Fixpoint split_on (sep : Z) (s : list Z) : list (list Z) :=
  match s with
  | [] => [[]]
  | c :: s =>
      if c =? sep then [] :: split_on sep s else
      match split_on sep s with
      | f :: fs => (c :: f) :: fs
      | [] => [[c]]
      end
  end.

Fixpoint join (sep : Z) (fs : list (list Z)) : list Z :=
  match fs with
  | [] => []
  | [f] => f
  | f :: fs => f ++ sep :: join sep fs
  end.

(** ** Characters *)

Definition is_digit (c : Z) : bool := (48 <=? c) && (c <=? 57).
Definition is_upper (c : Z) : bool := (65 <=? c) && (c <=? 90).
Definition is_lower (c : Z) : bool := (97 <=? c) && (c <=? 122).

(** [std::tolower] in the C locale. *)
Definition tolower (c : Z) : Z := if is_upper c then c + 32 else c.
Definition toLower (s : list Z) : list Z := map tolower s.

(** The value of a string of decimal digits. *)
Definition decimal_value (s : list Z) : Z := foldl (fun v c => v * 10 + (c - 48)) 0 s.

(** ** Lemmas on searching *)

Lemma find_sub_skip p pat l s : Forall (fun c => c <> p) l ->
  find_sub (p :: pat) (l ++ s) = option_map (fun n => (length l + n)%nat) (find_sub (p :: pat) s).
Proof.
  induction 1 as [|c l Hc Hl IH]; simpl.
  - by destruct (find_sub (p :: pat) s).
  - rewrite (proj2 (Z.eqb_neq p c)) by congruence. cbn [andb]. rewrite IH. by destruct (find_sub (p :: pat) s).
Qed.

Lemma starts_with_app pat s : starts_with pat (pat ++ s) = true.
Proof. induction pat as [|p pat IH]; simpl; [done|]. by rewrite Z.eqb_refl. Qed.

Lemma find_sub_here pat s : find_sub pat (pat ++ s) = Some O.
Proof. destruct (pat ++ s) eqn:E; simpl; rewrite <- E, starts_with_app; done. Qed.

(** The first occurrence, after a stretch without the first character. *)
Lemma find_sub_first p pat l s : Forall (fun c => c <> p) l ->
  find_sub (p :: pat) (l ++ (p :: pat) ++ s) = Some (length l).
Proof. intros Hl. rewrite find_sub_skip, find_sub_here by done. simpl. f_equal. lia. Qed.

Lemma starts_with_length pat s : starts_with pat s = true -> (length pat <= length s)%nat.
Proof.
  revert s. induction pat as [|p pat IH]; intros [|c s]; simpl; try done; try lia. intros H. apply andb_true_iff in H as [_ H]. apply IH in H. lia.
Qed.

Lemma starts_with_extend pat s e : (length pat <= length s)%nat -> starts_with pat (s ++ e) = starts_with pat s.
Proof. revert s. induction pat as [|p pat IH]; intros [|c s]; simpl; try done; [lia|]. intros H. by rewrite IH by lia. Qed.

Lemma find_sub_bound pat s n : find_sub pat s = Some n -> (n + length pat <= length s)%nat.
Proof.
  revert n. induction s as [|c s IH]; intros n; cbn [find_sub].
  - destruct (starts_with pat []) eqn:E; [|done]. intros [= <-]. by apply starts_with_length in E.
  - destruct (starts_with pat (c :: s)) eqn:E; [intros [= <-]; by apply starts_with_length in E|].
    destruct (find_sub pat s) as [m|]; [|done]. intros [= <-]. specialize (IH m eq_refl). simpl. lia.
Qed.

(** An occurrence found stays the first one as the text grows. *)
Lemma find_sub_extend pat s e n : find_sub pat s = Some n -> find_sub pat (s ++ e) = Some n.
Proof.
  intros H. pose proof (find_sub_bound _ _ _ H) as Hb. revert n H Hb. induction s as [|c s IH]; intros n; cbn [find_sub].
  - destruct (starts_with pat []) eqn:E; [|done]. intros [= <-] Hb. destruct pat; [|simpl in Hb; lia]. by destruct e.
  - rewrite <- app_comm_cons. cbn [find_sub]. rewrite (app_comm_cons s e c). intros H Hb. rewrite starts_with_extend by lia.
    destruct (starts_with pat (c :: s)); [done|]. destruct (find_sub pat s) as [m|]; [|done]. injection H as <-.
    rewrite (IH m) by (try done; simpl in Hb; lia). done.
Qed.

(** An occurrence that appears as the text grows ends beyond the old text. *)
Lemma find_sub_appears pat s e n : find_sub pat s = None -> find_sub pat (s ++ e) = Some n -> (length s < n + length pat)%nat.
Proof.
  revert n. induction s as [|c s IH]; intros n H Hf.
  - destruct pat; [by destruct e | simpl; lia].
  - destruct (Nat.lt_ge_cases (length (c :: s)) (n + length pat)) as [|Hle]; [done|]. exfalso. revert H Hf.
    rewrite <- app_comm_cons. cbn [find_sub]. rewrite (app_comm_cons s e c).
    rewrite starts_with_extend by (destruct n; lia).
    destruct (starts_with pat (c :: s)); [done|]. destruct (find_sub pat s); [done|]. intros _.
    destruct (find_sub pat (s ++ e)) as [m|]; [|done]. intros [= <-]. specialize (IH m eq_refl eq_refl). simpl in Hle. lia.
Qed.

Lemma find_char_none c s : find_char c s = None <-> Forall (fun x => x <> c) s.
Proof.
  unfold find_char. induction s as [|x s IH]; simpl; [by split|]. rewrite Forall_cons, <- IH.
  destruct (Z.eqb_spec c x) as [->|Hne]; simpl; [split; [done | intros [? _]; done]|].
  destruct (find_sub [c] s); simpl; split; [done | intros [_ ?]; done | done | done].
Qed.

Lemma split_on_nonempty sep s : split_on sep s <> [].
Proof. destruct s as [|c s]; simpl; [done|]. destruct (c =? sep); [done|]. by destruct (split_on sep s). Qed.

Lemma join_split sep s : join sep (split_on sep s) = s.
Proof.
  induction s as [|c s IH]; simpl; [done|]. pose proof (split_on_nonempty sep s) as Hne.
  destruct (Z.eqb_spec c sep) as [->|Hc].
  - simpl. rewrite IH. by destruct (split_on sep s).
  - destruct (split_on sep s) as [|f fs]; [done|]. rewrite <- IH. destruct fs; done.
Qed.

Lemma split_on_app sep f s : Forall (fun c => c <> sep) f ->
  split_on sep (f ++ sep :: s) = f :: split_on sep s.
Proof.
  induction 1 as [|c f Hc Hf IH]; simpl; [by rewrite Z.eqb_refl|].
  rewrite (proj2 (Z.eqb_neq c sep)) by done. by rewrite IH.
Qed.

Lemma split_on_field sep f : Forall (fun c => c <> sep) f -> split_on sep f = [f].
Proof. induction 1 as [|c f Hc Hf IH]; simpl; [done|]. rewrite (proj2 (Z.eqb_neq c sep)) by done. by rewrite IH. Qed.

Lemma split_join sep fs : fs <> [] -> Forall (Forall (fun c => c <> sep)) fs -> split_on sep (join sep fs) = fs.
Proof.
  intros Hne H. induction H as [|f fs Hf Hfs IH]; [done|]. destruct fs as [|g fs]; [by apply split_on_field|].
  change (join sep (f :: g :: fs)) with (f ++ sep :: join sep (g :: fs)). rewrite split_on_app by done. by rewrite IH.
Qed.

Lemma split_on_fields sep s : Forall (Forall (fun c => c <> sep)) (split_on sep s).
Proof.
  induction s as [|c s IH]; simpl; [repeat constructor|]. destruct (Z.eqb_spec c sep); [by constructor|].
  destruct (split_on sep s) as [|f fs]; [by repeat constructor|]. inversion IH; subst. by repeat constructor.
Qed.

Lemma find_char_split sep s :
  match find_char sep s with
  | None => split_on sep s = [s]
  | Some n => split_on sep s = take n s :: split_on sep (drop (S n) s)
  end.
Proof.
  unfold find_char. induction s as [|c s IH]; simpl; [done|]. rewrite (Z.eqb_sym sep c).
  destruct (Z.eqb_spec c sep) as [->|Hc]; simpl; [by rewrite drop_0|].
  destruct (find_sub [sep] s) as [n|]; simpl in *; by rewrite IH.
Qed.

(** ** Decimal numbers ([std::to_string], [%u])

    Twenty digits hold any 64-bit value. *)
Fixpoint decimal_digits (fuel : nat) (v : Z) (acc : list Z) : list Z :=
  match fuel with
  | O => acc
  | S fuel => if v <? 10 then 48 + v :: acc else decimal_digits fuel (v / 10) (48 + v mod 10 :: acc)
  end.

Definition to_string (v : Z) : list Z := decimal_digits 20 v [].

Definition all_digits (s : list Z) : Prop := Forall (fun c => is_digit c = true) s.

Lemma is_digit_iff c : is_digit c = true <-> 48 <= c <= 57.
Proof. unfold is_digit. rewrite andb_true_iff, !Z.leb_le. done. Qed.

Lemma decimal_value_snoc s c : decimal_value (s ++ [c]) = decimal_value s * 10 + (c - 48).
Proof. unfold decimal_value. by rewrite foldl_app. Qed.

Lemma decimal_value_bounds s : all_digits s -> 0 <= decimal_value s < 10 ^ Zlen s.
Proof.
  intros Hs. induction s as [|c s IH] using rev_ind; [done|]. apply Forall_app in Hs as [Hs Hc].
  inversion Hc as [|? ? Hd _]; subst. apply is_digit_iff in Hd. specialize (IH Hs).
  rewrite decimal_value_snoc, Zlen_app. change (Zlen [c]) with 1. pose proof (Zlen_nonneg s). rewrite Z.pow_add_r by lia. lia.
Qed.

(** A number has one spelling without leading zeros, and it is printed. *)
Lemma decimal_digits_value s : forall fuel acc, all_digits s -> s <> [] -> (length s <= fuel)%nat ->
  (length s = 1%nat \/ hd 0 s <> 48) -> decimal_digits fuel (decimal_value s) acc = s ++ acc.
Proof.
  induction s as [|c s IH] using rev_ind; intros fuel acc Hs Hne Hl Hz; [done|]. apply Forall_app in Hs as [Hs Hc].
  inversion Hc as [|? ? Hd _]; subst. apply is_digit_iff in Hd. rewrite decimal_value_snoc. rewrite length_app in Hl, Hz. simpl in Hl, Hz.
  destruct fuel as [|fuel]; [lia|]. destruct s as [|x s].
  - cbn [decimal_digits app]. change (decimal_value []) with 0. zdec1. f_equal. lia.
  - assert (Hx : hd 0 (x :: s) <> 48) by (destruct Hz as [Hz|Hz]; [simpl in Hz; lia | done]).
    assert (Hpos : 1 <= decimal_value (x :: s)).
    { clear -Hs Hx. simpl in Hx. inversion Hs as [|? ? Hd Ht]; subst. apply is_digit_iff in Hd.
      unfold decimal_value. simpl. assert (Hg : forall v l, 1 <= v -> all_digits l -> 1 <= foldl (fun v c => v * 10 + (c - 48)) v l).
      { intros v l Hv Hl. revert v Hv. induction Hl as [|y l Hy Hl IH]; intros v Hv; simpl; [done|]. apply IH. apply is_digit_iff in Hy. lia. }
      apply Hg; [lia | done]. }
    set (v := decimal_value (x :: s)) in *. cbn [decimal_digits]. zdec1.
    replace ((v * 10 + (c - 48)) / 10) with v by (Z.div_mod_to_equations; lia).
    replace ((v * 10 + (c - 48)) mod 10) with (c - 48) by (Z.div_mod_to_equations; lia).
    unfold v. rewrite (IH fuel) by (try done; simpl in *; try lia; auto). simpl. rewrite <- app_assoc. simpl. repeat f_equal. lia.
Qed.

Lemma decimal_digits_spec fuel v acc : 0 <= v < 10 ^ Z.of_nat fuel -> (0 < fuel)%nat ->
  exists s, decimal_digits fuel v acc = s ++ acc /\ all_digits s /\ decimal_value s = v /\ s <> [] /\
    (length s = 1%nat \/ hd 0 s <> 48).
Proof.
  revert v acc. induction fuel as [|fuel IH]; intros v acc Hv Hf; [lia|]. simpl. destruct (Z.ltb_spec v 10).
  - exists [48 + v]. split_and!; [done | | cbn; lia | done | by left]. constructor; [|done]. apply is_digit_iff. lia.
  - rewrite Nat2Z.inj_succ, Z.pow_succ_r in Hv by lia. destruct (IH (v / 10) (48 + v mod 10 :: acc)) as (s & E & Hs & Hval & Hne & Hz);
      [Z.div_mod_to_equations; lia | destruct fuel; [simpl in Hv; lia | lia] |].
    exists (s ++ [48 + v mod 10]). rewrite E, <- app_assoc, decimal_value_snoc, Hval. split_and!; try done.
    + apply Forall_app. split; [done|]. constructor; [|done]. apply is_digit_iff. Z.div_mod_to_equations; lia.
    + Z.div_mod_to_equations; lia.
    + by destruct s.
    + right. destruct s as [|x s]; [done|]. destruct Hz as [Hz|Hz]; [|done]. destruct s; [|done]. simpl in *. cbn in Hval.
      Z.div_mod_to_equations; lia.
Qed.

Lemma to_string_spec v : 0 <= v < 10 ^ 20 ->
  all_digits (to_string v) /\ decimal_value (to_string v) = v /\ to_string v <> [] /\
  (length (to_string v) = 1%nat \/ hd 0 (to_string v) <> 48).
Proof.
  intros Hv. destruct (decimal_digits_spec 20 v []) as (s & E & H); [done | lia |]. unfold to_string.
  rewrite E, app_nil_r. tauto.
Qed.

Lemma to_string_value s : all_digits s -> s <> [] -> (length s <= 20)%nat -> (length s = 1%nat \/ hd 0 s <> 48) ->
  to_string (decimal_value s) = s.
Proof. intros. unfold to_string. rewrite decimal_digits_value by done. apply app_nil_r. Qed.

(** ** Text forms of addresses *)

(** The loop both parsers share: [n] groups separated by [sep], the last one
    without a further separator, each converted by [f]. *)
Fixpoint parse_groups (sep : Z) (f : list Z -> option Z) (n : nat) (text : list Z) : option (list Z) :=
  match n with
  | O => Some []
  | S O =>
      if has_value (find_char sep text) then None else
      v ← f text; Some [v]
  | S n =>
      separator_pos ← find_char sep text;
      v ← f (take separator_pos text);
      vs ← parse_groups sep f n (drop (S separator_pos) text);
      Some (v :: vs)
  end.

Definition parseOctet (group : list Z) : option Z :=
  if empty group || (3 <? Zlen group) then None else
  if (1 <? Zlen group) && (hd 0 group =? ch "0") then None else
  if negb (forallb is_digit group) then None else
  let value := decimal_value group in
  if 255 <? value then None else Some (u8 value).

Definition Ipv4Address_parse (text : list Z) : option Ipv4Address :=
  match parse_groups (ch ".") parseOctet 4 text with
  | Some [a; b; c; d] => Some (Ipv4 a b c d)
  | _ => None
  end.

Definition Ipv4Address_toString (ip : Ipv4Address) : list Z := join (ch ".") (map to_string (ip_bytes ip)).

(** [std::from_chars] in base 16. *)
Definition hex_digit (c : Z) : option Z :=
  if is_digit c then Some (c - 48)
  else if (97 <=? c) && (c <=? 102) then Some (c - 87)
  else if (65 <=? c) && (c <=? 70) then Some (c - 55)
  else None.

Definition parseHexByte (group : list Z) : option Z :=
  match group with
  | [a; b] => x ← hex_digit a; y ← hex_digit b; Some (x * 16 + y)
  | _ => None
  end.

Definition MacAddress_parse (text : list Z) : option MacAddress :=
  match parse_groups (ch ":") parseHexByte 6 text with
  | Some [a; b; c; d; e; f] => Some (Mac a b c d e f)
  | _ => None
  end.

Definition hex_char (v : Z) : Z := if v <? 10 then 48 + v else 87 + v.

(** [%02x]. *)
Definition hex_byte (v : Z) : list Z := [hex_char (v / 16); hex_char (v mod 16)].

Definition MacAddress_toString (m : MacAddress) : list Z := join (ch ":") (map hex_byte (mac_bytes m)).

Lemma parse_groups_split sep f n text vs :
  parse_groups sep f (S n) text = Some vs <->
  length vs = S n /\ Forall2 (fun g v => f g = Some v) (split_on sep text) vs.
Proof.
  revert text vs. induction n as [|n IH]; intros text vs; pose proof (find_char_split sep text) as Hs.
  - simpl. destruct (find_char sep text) as [k|]; rewrite Hs; simpl.
    + split; [done|]. intros [Hl H]. inversion H as [|? ? ? ? _ H']; subst. inversion H' as [Hn|]; subst; [by symmetry in Hn; apply split_on_nonempty in Hn | done].
    + split.
      * destruct (f text) as [v|] eqn:E; [|done]. simpl. intros [= <-]. split; [done|]. by repeat constructor.
      * intros [_ H]. inversion H as [|? v ? ? Hv H']; subst. inversion H'; subst. by rewrite Hv.
  - change (parse_groups sep f (S (S n)) text) with (separator_pos ← find_char sep text;
      v ← f (take separator_pos text); vs ← parse_groups sep f (S n) (drop (S separator_pos) text); Some (v :: vs)).
    destruct (find_char sep text) as [k|]; rewrite Hs; cbn [mbind option_bind].
    + split.
      * destruct (f (take k text)) as [v|] eqn:E; cbn [mbind option_bind]; [|done].
        destruct (parse_groups sep f (S n) (drop (S k) text)) as [ws|] eqn:Ew; cbn [mbind option_bind]; [|done].
        intros [= <-]. apply IH in Ew as [Hl H]. split; [simpl; by rewrite Hl | by constructor].
      * intros [Hl H]. inversion H as [|? v ? ws Hv H']; subst. rewrite Hv. cbn [mbind option_bind].
        rewrite (proj2 (IH _ ws)); [done|]. split; [by injection Hl | done].
    + split; [done|]. intros [Hl H]. inversion H as [|? v ? ws Hv H']; subst. inversion H'; subst. done.
Qed.

Lemma parseOctet_iff g v : parseOctet g = Some v <-> is_u8 v /\ g = to_string v.
Proof.
  unfold parseOctet. split.
  - destruct (empty g || (3 <? Zlen g)) eqn:E1; [done|]. destruct ((1 <? Zlen g) && _) eqn:E2; [done|].
    destruct (forallb is_digit g) eqn:E3; simpl; [|done]. destruct (Z.ltb_spec 255 (decimal_value g)); [done|].
    intros [= <-]. apply orb_false_iff in E1 as [E0 E1]. rewrite forallb_forall in E3. rewrite <- List.Forall_forall in E3. apply Z.ltb_ge in E1.
    pose proof (decimal_value_bounds g E3). rewrite u8_id by (unfold is_u8; lia). split; [unfold is_u8; lia|].
    symmetry. apply to_string_value; [done | by destruct g | unfold Zlen in E1; lia |].
    apply andb_false_iff in E2 as [E2|E2]; [left | right].
    + apply Z.ltb_ge in E2. destruct g; [done|]. unfold Zlen in E2. simpl in *. lia.
    + by apply Z.eqb_neq in E2.
  - intros [Hv ->]. unfold is_u8 in Hv. destruct (to_string_spec v) as (H1 & H2 & H3 & H4); [lia|].
    assert (Hlen : Zlen (to_string v) <= 3).
    { assert (Hall : forallb (fun n => Zlen (to_string (Z.of_nat n)) <=? 3) (seq 0 256) = true) by (vm_compute; reflexivity).
      rewrite forallb_forall in Hall. specialize (Hall (Z.to_nat v)). rewrite Z2Nat.id in Hall by lia. apply Z.leb_le, Hall, in_seq. lia. }
    destruct (to_string v) as [|x s] eqn:E; [done|]. cbn [empty orb]. zdec1.
    destruct ((1 <? Zlen (x :: s)) && _) eqn:E2.
    { bprop. destruct H4 as [H4|H4]; [unfold Zlen in *; simpl in *; lia | simpl in *; change (ch "0") with 48 in *; lia]. }
    rewrite (proj2 (forallb_forall _ _)) by (by apply List.Forall_forall). cbn [negb]. rewrite H2. zdec1. by rewrite u8_id.
Qed.

Lemma hex_digit_char v : 0 <= v < 16 -> hex_digit (hex_char v) = Some v.
Proof.
  intros Hv. unfold hex_char, hex_digit, is_digit. destruct (Z.ltb_spec v 10); zdec; cbn [andb]; f_equal; lia.
Qed.

Lemma hex_digit_tolower c : hex_digit (tolower c) = hex_digit c.
Proof.
  unfold tolower. destruct (is_upper c) eqn:E; [|done]. unfold is_upper in E. bprop. unfold hex_digit, is_digit. zdec.
  destruct (Z.leb_spec c 70); zdec; [f_equal; lia | done].
Qed.

Lemma hex_digit_Some c v : hex_digit c = Some v -> 0 <= v < 16 /\ tolower c = hex_char v.
Proof.
  unfold hex_digit, tolower, is_upper, is_digit, hex_char.
  destruct (Z.leb_spec 48 c), (Z.leb_spec c 57), (Z.leb_spec 97 c), (Z.leb_spec c 102), (Z.leb_spec 65 c), (Z.leb_spec c 70);
    cbn [andb]; intros [= <-]; (split; [lia|]); zdec; lia.
Qed.

Lemma parseHexByte_iff g v : parseHexByte g = Some v <-> is_u8 v /\ toLower g = hex_byte v.
Proof.
  unfold hex_byte, is_u8. split.
  - destruct g as [|a [|b [|]]]; try done. simpl. destruct (hex_digit a) as [x|] eqn:Ea; [|done]. simpl.
    destruct (hex_digit b) as [y|] eqn:Eb; [|done]. intros [= <-].
    apply hex_digit_Some in Ea as [? ->], Eb as [? ->]. split; [lia|].
    replace ((x * 16 + y) / 16) with x by (Z.div_mod_to_equations; lia).
    by replace ((x * 16 + y) mod 16) with y by (Z.div_mod_to_equations; lia).
  - intros [Hv E]. destruct g as [|a [|b [|]]]; try done. injection E as Ea Eb. simpl.
    rewrite <- (hex_digit_tolower a), <- (hex_digit_tolower b), Ea, Eb.
    rewrite !hex_digit_char by (Z.div_mod_to_equations; lia). simpl. f_equal. Z.div_mod_to_equations; lia.
Qed.

Lemma tolower_sep sep c : is_upper sep = false -> is_lower sep = false -> (tolower c =? sep) = (c =? sep).
Proof.
  unfold tolower, is_upper, is_lower. intros H1 H2. destruct ((65 <=? c) && (c <=? 90)) eqn:E; [|done]. bprop.
  destruct (Z.eqb_spec (c + 32) sep), (Z.eqb_spec c sep); try done; exfalso; bprop; destruct H1, H2; bprop; lia.
Qed.

Lemma split_toLower sep s : is_upper sep = false -> is_lower sep = false ->
  split_on sep (toLower s) = map toLower (split_on sep s).
Proof.
  intros Hu Hl. induction s as [|c s IH]; simpl; [done|].
  rewrite tolower_sep, IH by done. destruct (c =? sep); [done|]. by destruct (split_on sep s).
Qed.

Lemma toLower_idem s : toLower (toLower s) = toLower s.
Proof.
  unfold toLower. rewrite map_map. apply map_ext. intros c. unfold tolower. destruct (is_upper c) eqn:E; [|by rewrite E].
  unfold is_upper in *. bprop. by zdec.
Qed.

(** Fields that do not contain the separator are recovered from their join. *)
Lemma split_join_iff {A} sep (print : A -> list Z) vs s :
  vs <> [] -> Forall (fun v => Forall (fun c => c <> sep) (print v)) vs ->
  (split_on sep s = map print vs <-> s = join sep (map print vs)).
Proof.
  intros Hne Hf. split.
  - intros <-. by rewrite join_split.
  - intros ->. apply split_join; [by destruct vs|]. by apply List.Forall_map.
Qed.

#[export] Instance Forall2_iff_proper {A B} :
  Proper (pointwise_relation A (pointwise_relation B iff) ==> eq ==> eq ==> iff) (@Forall2 A B).
Proof.
  intros R S H l _ <- k _ <-. split; intros HF; eapply Forall2_impl; try exact HF; intros x y; apply H.
Qed.

Lemma Forall2_print {A} (P : A -> Prop) (print : A -> list Z) (g : list (list Z)) vs :
  Forall2 (fun s v => P v /\ s = print v) g vs <-> Forall P vs /\ g = map print vs.
Proof.
  split.
  - induction 1 as [|s v g vs [Hp ->] H [IH1 ->]]; [done|]. by split; [constructor|].
  - intros [Hp ->]. induction Hp; simpl; by constructor.
Qed.

Lemma to_string_no_dot v : is_u8 v -> Forall (fun c => c <> ch ".") (to_string v).
Proof.
  intros Hv. destruct (to_string_spec v) as [H _]; [unfold is_u8 in Hv; lia|]. eapply Forall_impl; [exact H|].
  intros c Hc. apply is_digit_iff in Hc. change (ch ".") with 46. lia.
Qed.

Lemma hex_byte_no_colon v : is_u8 v -> Forall (fun c => c <> ch ":") (hex_byte v).
Proof.
  intros Hv. unfold is_u8 in Hv. change (ch ":") with 58. unfold hex_byte, hex_char. repeat constructor;
    match goal with |- context [?a <? 10] => destruct (Z.ltb_spec a 10) end; Z.div_mod_to_equations; lia.
Qed.

Lemma Ipv4Address_parse_iff s ip : Ipv4Address_parse s = Some ip <-> ip_ok ip /\ s = Ipv4Address_toString ip.
Proof.
  destruct ip as [a b c d]. unfold Ipv4Address_parse, Ipv4Address_toString, ip_ok, bytes_ok. cbn [ip_bytes].
  assert (H : parse_groups (ch ".") parseOctet 4 s = Some [a; b; c; d] <->
    Forall is_u8 [a; b; c; d] /\ split_on (ch ".") s = map to_string [a; b; c; d]).
  { rewrite parse_groups_split, <- Forall2_print. setoid_rewrite parseOctet_iff. tauto. }
  assert (Hj : Forall is_u8 [a; b; c; d] -> (split_on (ch ".") s = map to_string [a; b; c; d] <-> s = join (ch ".") (map to_string [a; b; c; d]))).
  { intros Hu. apply split_join_iff; [done|]. eapply Forall_impl; [exact Hu | apply to_string_no_dot]. }
  split.
  + destruct (parse_groups _ _ _ _) as [[|a' [|b' [|c' [|d' [|]]]]]|] eqn:E; try done. intros [= -> -> -> ->].
    destruct (proj1 H eq_refl) as [Hu E']. split; [done | by apply Hj].
  + intros [Hu E]. rewrite (proj2 H); [done|]. split; [done | by apply Hj].
Qed.

Lemma MacAddress_parse_iff s m : MacAddress_parse s = Some m <-> mac_ok m /\ toLower s = MacAddress_toString m.
Proof.
  destruct m as [a b c d e f]. unfold MacAddress_parse, MacAddress_toString, mac_ok, bytes_ok. cbn [mac_bytes].
  assert (H : parse_groups (ch ":") parseHexByte 6 s = Some [a; b; c; d; e; f] <->
    Forall is_u8 [a; b; c; d; e; f] /\ map toLower (split_on (ch ":") s) = map hex_byte [a; b; c; d; e; f]).
  { rewrite parse_groups_split, <- Forall2_print, Forall2_fmap_l. setoid_rewrite parseHexByte_iff. tauto. }
  rewrite <- split_toLower in H by reflexivity.
  assert (Hj : Forall is_u8 [a; b; c; d; e; f] -> (split_on (ch ":") (toLower s) = map hex_byte [a; b; c; d; e; f] <->
    toLower s = join (ch ":") (map hex_byte [a; b; c; d; e; f]))).
  { intros Hu. apply split_join_iff; [done|]. eapply Forall_impl; [exact Hu | apply hex_byte_no_colon]. }
  split.
  + destruct (parse_groups _ _ _ _) as [[|a' [|b' [|c' [|d' [|e' [|f' [|]]]]]]]|] eqn:E; try done. intros [= -> -> -> -> -> ->].
    destruct (proj1 H eq_refl) as [Hu E']. split; [done | by apply Hj].
  + intros [Hu E]. rewrite (proj2 H); [done|]. split; [done | by apply Hj].
Qed.

(** C36: text forms of addresses are exact. An IPv4 address is parsed from
    exactly one text, its own dotted-decimal form without leading zeros, and
    a MAC address from exactly the upper- and lower-case spellings of its own
    colon-separated form; so parsing inverts printing and every other text is
    rejected. *)
Theorem address_text_exact s :
  (forall ip, Ipv4Address_parse s = Some ip <-> ip_ok ip /\ s = Ipv4Address_toString ip) /\
  (forall m, MacAddress_parse s = Some m <-> mac_ok m /\ toLower s = MacAddress_toString m).
Proof. split; intros; [apply Ipv4Address_parse_iff | apply MacAddress_parse_iff]. Qed.
