(* ===== verification/Ethernet.v ===== *)
(** * Ethernet II frames ([src/src/ethernet.cpp]) *)

From S2P Require Import Prelude StdMap Addresses.

Record EthernetFrame := mkEthernetFrame {
  eth_destination : MacAddress;
  eth_source : MacAddress;
  ether_type : Z;
  eth_payload : list Z
}.

Inductive EthernetParseError := EthTooShort | EthTooLong.

Definition kEthHeaderSize : Z := 14.
Definition kMaxEthernetFrameLength : Z := 65535.

(** The outer [option] is [None] when an index would leave the span. *)
Definition parseEthernetFrame (data : list Z) : option (EthernetFrame + EthernetParseError) :=
  if Zlen data <? kEthHeaderSize then Some (inr EthTooShort) else
  if kMaxEthernetFrameLength <? Zlen data then Some (inr EthTooLong) else
  destination ← readMacAddress data 0;
  source ← readMacAddress data 6;
  ether_type ← readBigEndian16 data 12;
  Some (inl {| eth_destination := destination; eth_source := source;
               ether_type := ether_type; eth_payload := drop 14 data |}).

Definition serializeEthernetFrame (frame : EthernetFrame) : list Z :=
  let out := [] in
  let out := writeMacAddress out (eth_destination frame) in
  let out := writeMacAddress out (eth_source frame) in
  let out := writeBigEndian16 out (ether_type frame) in
  out ++ eth_payload frame.

(** Parsing a serialized frame of legal length gives the
    frame back, whatever its addresses, type and payload. *)
Theorem parse_serialize_ethernet frame :
  is_u16 (ether_type frame) -> Zlen (eth_payload frame) <= 65521 ->
  parseEthernetFrame (serializeEthernetFrame frame) = Some (inl frame).
Proof.
  destruct frame as [[] [] t payload]; simpl. intros Ht Hp.
  unfold parseEthernetFrame, serializeEthernetFrame. cbn -[u16].
  pose proof (Zlen_nonneg payload).
  rewrite !Zlen_cons. unfold kEthHeaderSize, kMaxEthernetFrameLength.
  zcases; try lia.
  erewrite readBigEndian16_be16; [reflexivity | done | reflexivity | reflexivity].
Qed.

Lemma parse_serialize_ethernet_witness :
  parseEthernetFrame (serializeEthernetFrame
    (mkEthernetFrame kBroadcast (Mac 2 0 0 0 0 1) 2048 [1; 2; 3])) =
  Some (inl (mkEthernetFrame kBroadcast (Mac 2 0 0 0 0 1) 2048 [1; 2; 3])).
Proof. apply parse_serialize_ethernet; simpl; [ulia | vm_compute; discriminate]. Defined.
