(* ===== verification/Arp.v ===== *)
(** * ARP packets ([src/src/arp.cpp])

    Parsing and serializing the Ethernet/IPv4 form, and the request and
    reply builders. *)

From S2P Require Import Prelude StdMap Addresses.

Inductive ArpOperation := ArpRequest | ArpReply.

Definition arp_op_code (op : ArpOperation) : Z := match op with ArpRequest => 1 | ArpReply => 2 end.

Record ArpPacket := mkArpPacket {
  arp_operation : ArpOperation;
  sender_mac : MacAddress;
  sender_ip : Ipv4Address;
  target_mac : MacAddress;
  target_ip : Ipv4Address
}.

Inductive ArpParseError :=
| ArpTooShort | UnsupportedHardwareType | UnsupportedProtocolType
| InvalidHardwareSize | InvalidProtocolSize | UnsupportedOperation.

Definition parseArpPacket (payload : list Z) : option (ArpPacket + ArpParseError) :=
  if Zlen payload <? 28 then Some (inr ArpTooShort) else
  hardware_type ← readBigEndian16 payload 0;
  if negb (hardware_type =? 1) then Some (inr UnsupportedHardwareType) else
  protocol_type ← readBigEndian16 payload 2;
  if negb (protocol_type =? 2048) then Some (inr UnsupportedProtocolType) else
  hardware_size ← payload !! 4%nat;
  if negb (hardware_size =? 6) then Some (inr InvalidHardwareSize) else
  protocol_size ← payload !! 5%nat;
  if negb (protocol_size =? 4) then Some (inr InvalidProtocolSize) else
  raw_operation ← readBigEndian16 payload 6;
  if negb (raw_operation =? 1) && negb (raw_operation =? 2)
  then Some (inr UnsupportedOperation) else
  sender_mac ← readMacAddress payload 8;
  sender_ip ← readIpv4Address payload 14;
  target_mac ← readMacAddress payload 18;
  target_ip ← readIpv4Address payload 24;
  Some (inl {| arp_operation := if raw_operation =? 1 then ArpRequest else ArpReply;
               sender_mac := sender_mac; sender_ip := sender_ip;
               target_mac := target_mac; target_ip := target_ip |}).

Definition serializeArpPacket (packet : ArpPacket) : list Z :=
  let out := [] in
  let out := writeBigEndian16 out 1 in
  let out := writeBigEndian16 out 2048 in
  let out := out ++ [6] in
  let out := out ++ [4] in
  let out := writeBigEndian16 out (arp_op_code (arp_operation packet)) in
  let out := writeMacAddress out (sender_mac packet) in
  let out := writeIpv4Address out (sender_ip packet) in
  let out := writeMacAddress out (target_mac packet) in
  writeIpv4Address out (target_ip packet).

Definition makeArpRequest (local_ip : Ipv4Address) (local_mac : MacAddress) (target : Ipv4Address) : ArpPacket :=
  {| arp_operation := ArpRequest; sender_mac := local_mac; sender_ip := local_ip;
     target_mac := mac_zero; target_ip := target |}.

Definition isArpReplyFor (packet : ArpPacket) (local_ip : Ipv4Address) (local_mac : MacAddress) : bool :=
  match arp_operation packet with ArpReply => true | ArpRequest => false end &&
  ip_eqb (target_ip packet) local_ip && mac_eqb (target_mac packet) local_mac.

Definition makeArpReply (request : ArpPacket) (local_ip : Ipv4Address) (local_mac : MacAddress) : ArpPacket :=
  {| arp_operation := ArpReply; sender_mac := local_mac; sender_ip := local_ip;
     target_mac := sender_mac request; target_ip := sender_ip request |}.

Definition maybeReply (request : ArpPacket) (local_ip : Ipv4Address) (local_mac : MacAddress) : option ArpPacket :=
  if negb (ip_eqb (target_ip request) local_ip) then None
  else Some (makeArpReply request local_ip local_mac).

(** Parsing ignores Ethernet padding after the 28 bytes. *)
Lemma parse_serialize_arp packet padding :
  parseArpPacket (serializeArpPacket packet ++ padding) = Some (inl packet).
Proof.
  destruct packet as [op [] [] [] []]. unfold parseArpPacket, serializeArpPacket. cbn.
  pose proof (Zlen_nonneg padding). rewrite !Zlen_cons. zcases; try lia.
  destruct op; reflexivity.
Qed.

(** Neighbour resolution end to end on the wire: a host that
    asks for the address [ip] of the station [(ip, mac)] with a padded request
    frame gets back, from that station's parser, reply rule and serializer, a
    frame its own parser reads as a reply addressed to it, carrying [mac] and
    [ip] as the sender; and a station with another address stays silent. *)
Theorem arp_request_reply my_ip my_mac ip mac pad1 pad2 other :
  exists request reply,
    parseArpPacket (serializeArpPacket (makeArpRequest my_ip my_mac ip) ++ pad1) = Some (inl request) /\
    maybeReply request ip mac = Some reply /\
    exists received,
      parseArpPacket (serializeArpPacket reply ++ pad2) = Some (inl received) /\
      isArpReplyFor received my_ip my_mac = true /\
      sender_mac received = mac /\ sender_ip received = ip /\
      (maybeReply request other mac = None <-> other <> ip).
Proof.
  exists (makeArpRequest my_ip my_mac ip), (makeArpReply (makeArpRequest my_ip my_mac ip) ip mac).
  rewrite parse_serialize_arp. split; [done|]. split.
  { unfold maybeReply, ip_eqb. simpl. by rewrite bool_decide_eq_true_2. }
  eexists. rewrite parse_serialize_arp. split; [done|].
  unfold isArpReplyFor, maybeReply, ip_eqb, mac_eqb. simpl.
  rewrite !bool_decide_eq_true_2 by done. repeat split.
  - case_bool_decide; simpl; congruence.
  - intros. rewrite bool_decide_eq_false_2; [done | congruence].
Qed.
