(* ===== verification/ArpCache.v ===== *)
(** * The ARP cache ([src/src/arp_cache.cpp], [src/include/wirestack/arp_cache.hpp])

    A bounded map from IPv4 addresses to neighbour entries. An entry is
    resolved, being resolved (incomplete: a request was sent and a retry is
    scheduled) or failed. Every operation first drops the resolved and failed
    entries that have outlived the entry lifetime; incomplete entries are
    never dropped nor evicted. *)

From S2P Require Import Prelude StdMap Addresses.

Definition kArpRetryInterval : Z := seconds 1.
Definition kArpEntryLifetime : Z := seconds 300.
Definition kArpCacheCapacity : Z := 256.
Definition kArpMaxTransmissions : Z := 3.

Inductive ArpNeighborState := Resolved | Incomplete | Failed.

#[export] Instance ArpNeighborState_eq_dec : EqDecision ArpNeighborState.
Proof. solve_decision. Defined.

Record Entry := mkEntry {
  e_state : ArpNeighborState;
  mac : option MacAddress;
  updated_at : Z;
  next_deadline : option Z;
  transmit_count : Z
}.

#[export] Instance Entry_eta : Eta Entry :=
  fun e => mkEntry (e_state e) (mac e) (updated_at e) (next_deadline e) (transmit_count e).

Record ArpCache := mkArpCache {
  capacity : Z;
  entry_lifetime : Z;
  entries : list (Ipv4Address * Entry)
}.

#[export] Instance ArpCache_eta : Eta ArpCache := fun c => mkArpCache (capacity c) (entry_lifetime c) (entries c).

Record ArpPollResult := mkArpPollResult { requests : list Ipv4Address; failed : list Ipv4Address }.

Definition new_cache (capacity lifetime : Z) : ArpCache := mkArpCache capacity lifetime [].

Definition incomplete (e : Entry) : bool := bool_decide (e_state e = Incomplete).

(** ** Operations *)

(** The search of [makeRoom] for the entry to evict. *)
Fixpoint oldest_loop (l : list (Ipv4Address * Entry)) (oldest : option (Ipv4Address * Entry)) :
    option (Ipv4Address * Entry) :=
  match l with
  | [] => oldest
  | (ip, e) :: l =>
      if incomplete e then oldest_loop l oldest else
      match oldest with
      | None => oldest_loop l (Some (ip, e))
      | Some o => if updated_at e <? updated_at (snd o) then oldest_loop l (Some (ip, e)) else oldest_loop l oldest
      end
  end.

Definition makeRoom (c : ArpCache) : bool * ArpCache :=
  if Zlen (entries c) <? capacity c then (true, c) else
  match oldest_loop (entries c) None with
  | None => (false, c)
  | Some (ip, _) => (true, c <| entries := map_erase (entries c) ip |>)
  end.

Definition outlived (c : ArpCache) (now : Z) (e : Entry) : bool :=
  negb (incomplete e) && (entry_lifetime c <=? now - updated_at e).

Definition expire (c : ArpCache) (now : Z) : ArpCache :=
  c <| entries := List.filter (fun p => negb (outlived c now (snd p))) (entries c) |>.

Definition insert (c : ArpCache) (ip : Ipv4Address) (m : MacAddress) (now : Z) : ArpCache :=
  let c := expire c now in
  let entry := mkEntry Resolved (Some m) now None 0 in
  match map_find (entries c) ip with
  | None =>
      let '(room, c) := makeRoom c in
      if negb room then c else c <| entries := map_set (entries c) ip entry |>
  | Some _ => c <| entries := map_set (entries c) ip entry |>
  end.

Definition lookup (c : ArpCache) (ip : Ipv4Address) (now : Z) : option MacAddress * ArpCache :=
  let c := expire c now in
  match map_find (entries c) ip with
  | None => (None, c)
  | Some e => if negb (bool_decide (e_state e = Resolved)) then (None, c) else (mac e, c)
  end.

Definition beginResolution (c : ArpCache) (ip : Ipv4Address) (now : Z) : bool * ArpCache :=
  let c := expire c now in
  if map_contains (entries c) ip then (false, c) else
  let '(room, c) := makeRoom c in
  if negb room then (false, c) else
  (true, c <| entries := map_set (entries c) ip
                (mkEntry Incomplete None now (Some (now + kArpRetryInterval)) 1) |>).

(** One iteration of the poll: what happens to an entry. *)
Inductive poll_action := Waits | Fails (e : Entry) | Retries (e : Entry).

Definition pollEntry (now : Z) (entry : Entry) : poll_action :=
  match next_deadline entry with
  | Some d =>
      if negb (incomplete entry) || (now <? d) then Waits else
      if kArpMaxTransmissions <=? transmit_count entry
      then Fails (entry <| e_state := Failed |> <| updated_at := now |> <| next_deadline := None |>)
      else Retries (entry <| transmit_count := transmit_count entry + 1 |>
                          <| next_deadline := Some (now + kArpRetryInterval) |>)
  | None => Waits
  end.

Fixpoint poll_loop (now : Z) (l : list (Ipv4Address * Entry)) : ArpPollResult * list (Ipv4Address * Entry) :=
  match l with
  | [] => (mkArpPollResult [] [], [])
  | (ip, e) :: l =>
      let '(r, l) := poll_loop now l in
      match pollEntry now e with
      | Waits => (r, (ip, e) :: l)
      | Fails e => (mkArpPollResult (requests r) (ip :: failed r), (ip, e) :: l)
      | Retries e => (mkArpPollResult (ip :: requests r) (failed r), (ip, e) :: l)
      end
  end.

Definition poll (c : ArpCache) (now : Z) : ArpPollResult * ArpCache :=
  let c := expire c now in
  let '(r, l) := poll_loop now (entries c) in (r, c <| entries := l |>).

(** The time at which an entry next needs attention. *)
Definition entryDeadline (c : ArpCache) (e : Entry) : option Z :=
  if incomplete e then next_deadline e else Some (updated_at e + entry_lifetime c).

Definition nextDeadline (c : ArpCache) : option Z :=
  earliestDeadline (map (fun p => entryDeadline c (snd p)) (entries c)).

Definition stateOf (c : ArpCache) (ip : Ipv4Address) (now : Z) : option ArpNeighborState * ArpCache :=
  let c := expire c now in
  match map_find (entries c) ip with
  | None => (None, c)
  | Some e => (Some (e_state e), c)
  end.

Definition size (c : ArpCache) : Z := Zlen (entries c).

(** ** Invariant *)

Definition neighbor_ok (e : Entry) : Prop :=
  match e_state e with
  | Resolved => has_value (mac e) = true /\ next_deadline e = None /\ transmit_count e = 0
  | Incomplete => mac e = None /\ has_value (next_deadline e) = true /\ 1 <= transmit_count e <= kArpMaxTransmissions
  | Failed => mac e = None /\ next_deadline e = None /\ transmit_count e = kArpMaxTransmissions
  end.

Record cache_ok (c : ArpCache) : Prop := {
  ck_map : map_ok (entries c);
  ck_size : Zlen (entries c) <= Z.max 0 (capacity c);
  ck_entries : Forall (fun p => neighbor_ok (snd p)) (entries c)
}.

(** *** Each operation keeps the invariant *)

Lemma Forall_filter {A} (P : A -> Prop) f l : Forall P l -> Forall P (List.filter f l).
Proof. induction 1; simpl; [done|]. case_match; auto. Qed.

Lemma Zlen_filter {A} (f : A -> bool) l : Zlen (List.filter f l) <= Zlen l.
Proof. unfold Zlen. pose proof (List.filter_length_le f l). lia. Qed.

Lemma expire_ok c now : cache_ok c -> cache_ok (expire c now).
Proof.
  intros [H1 H2 H3]. constructor; simpl.
  - by apply map_filter_ok.
  - pose proof (Zlen_filter (fun p => negb (outlived c now p.2)) (entries c)). lia.
  - by apply Forall_filter.
Qed.

(** The entry [makeRoom] evicts: of those not being resolved, one that was
    updated first. *)
Lemma oldest_loop_spec l acc :
  match oldest_loop l acc with
  | None => acc = None /\ Forall (fun p => incomplete (snd p) = true) l
  | Some o => (acc = Some o \/ (o ∈ l /\ incomplete (snd o) = false)) /\
      (forall a, acc = Some a -> updated_at (snd o) <= updated_at (snd a)) /\
      Forall (fun p => incomplete (snd p) = true \/ updated_at (snd o) <= updated_at (snd p)) l
  end.
Proof.
  revert acc. induction l as [|[ip e] l IH]; intros acc; simpl.
  { destruct acc as [a|]; [|done]. split; [by left|]. split; [|constructor]. intros ? [= ->]. lia. }
  destruct (incomplete e) eqn:Ei.
  { specialize (IH acc). destruct (oldest_loop l acc) as [o|].
    - destruct IH as (I1 & I2 & I3). split_and!; [|done|constructor; auto].
      destruct I1 as [?|[? ?]]; [by left | right; split; [by right | done]].
    - destruct IH. split; [done | by constructor]. }
  assert (Hnew : forall o, oldest_loop l (Some (ip, e)) = Some o -> (forall a, acc = Some a -> updated_at e <= updated_at a.2) ->
    (acc = Some o \/ o ∈ (ip, e) :: l /\ incomplete o.2 = false) /\ (forall a, acc = Some a -> updated_at o.2 <= updated_at a.2) /\
    Forall (fun p => incomplete p.2 = true \/ updated_at o.2 <= updated_at p.2) ((ip, e) :: l)).
  { intros o Eo Ha. specialize (IH (Some (ip, e))). rewrite Eo in IH. destruct IH as (I1 & I2 & I3).
    specialize (I2 _ eq_refl). simpl in I2. split_and!.
    - right. destruct I1 as [[= <-]|[? ?]]; (split; [|done]); [by left | by right].
    - intros a Hacc. specialize (Ha a Hacc). lia.
    - constructor; [by right | done]. }
  assert (Hsome : forall a, oldest_loop l (Some a) <> None).
  { intros a Hn. specialize (IH (Some a)). rewrite Hn in IH. by destruct IH. }
  destruct acc as [o|]; [destruct (Z.ltb_spec (updated_at e) (updated_at o.2))|].
  - destruct (oldest_loop l (Some (ip, e))) as [o'|] eqn:Eo; [|by apply Hsome in Eo].
    apply Hnew; [done|]. intros ? [= <-]. lia.
  - specialize (IH (Some o)). destruct (oldest_loop l (Some o)) as [o'|] eqn:Eo; [|by apply Hsome in Eo].
    destruct IH as (I1 & I2 & I3). specialize (I2 _ eq_refl). split_and!.
    + destruct I1 as [?|[? ?]]; [by left | right; split; [by right | done]].
    + intros ? [= <-]. done.
    + constructor; [right; simpl; lia | done].
  - destruct (oldest_loop l (Some (ip, e))) as [o'|] eqn:Eo; [|by apply Hsome in Eo]. by apply Hnew.
Qed.

Lemma length_map_erase_found {K V} `{KeyOrder K} (m : list (K * V)) k v :
  map_find m k = Some v -> Zlen (map_erase m k) = Zlen m - 1.
Proof.
  induction m as [|[k1 v1] m IH]; simpl; [done|]. destruct (key_eqb k k1); rewrite Zlen_cons; [lia|].
  intros Hf. rewrite Zlen_cons, IH by done. lia.
Qed.

(** What [makeRoom] may evict: nothing while there is room, never an entry
    being resolved, and otherwise the one updated longest ago. *)
Definition evictable (c : ArpCache) (ip : Ipv4Address) : Prop :=
  capacity c <= Zlen (entries c) /\
  exists e, map_find (entries c) ip = Some e /\ incomplete e = false /\
    Forall (fun p => incomplete (snd p) = true \/ updated_at e <= updated_at (snd p)) (entries c).

Lemma makeRoom_spec c room c' : cache_ok c -> makeRoom c = (room, c') ->
  (room = true /\ c' = c /\ Zlen (entries c) < capacity c) \/
  (room = false /\ c' = c /\ capacity c <= Zlen (entries c) /\ Forall (fun p => incomplete (snd p) = true) (entries c)) \/
  (room = true /\ exists ip, evictable c ip /\ c' = c <| entries := map_erase (entries c) ip |>).
Proof.
  intros [H1 H2 H3]. unfold makeRoom. destruct (Z.ltb_spec (Zlen (entries c)) (capacity c)) as [Hl|Hl].
  { intros [= <- <-]. by left. }
  pose proof (oldest_loop_spec (entries c) None) as H. destruct (oldest_loop (entries c) None) as [[ip e]|]; intros [= <- <-].
  - right; right. split; [done|]. destruct H as ([?|[Hin Hi]] & _ & Hall); [done|]. exists ip. split; [|done].
    split; [done|]. exists e. split_and!; auto. apply In_map_find; [done|]. by apply list_elem_of_In.
  - right; left. by destruct H.
Qed.

Lemma makeRoom_ok c room c' : cache_ok c -> makeRoom c = (room, c') ->
  cache_ok c' /\ capacity c' = capacity c /\ entry_lifetime c' = entry_lifetime c /\
  (room = true -> Zlen (entries c') < capacity c).
Proof.
  intros Hc E. destruct (makeRoom_spec c room c' Hc E) as [(-> & -> & H)|[(-> & -> & H)|(-> & ip & (Hl & e & Hf & _) & ->)]]; try (by auto).
  destruct Hc as [H1 H2 H3]. pose proof (length_map_erase_found _ _ _ Hf) as Hlen. pose proof (Zlen_nonneg (map_erase (entries c) ip)).
  split_and!; auto.
  - constructor; simpl; [by apply map_erase_ok | lia | by apply Forall_map_erase].
  - intros _. simpl. lia.
Qed.

(** A new entry, given room. *)
Lemma cache_ok_add c ip e : cache_ok c -> Zlen (entries c) < capacity c -> neighbor_ok e ->
  cache_ok (c <| entries := map_set (entries c) ip e |>).
Proof.
  intros [H1 H2 H3] Hl He. constructor; simpl; [by apply map_set_ok | | by apply Forall_map_set].
  destruct (map_find (entries c) ip) as [e'|] eqn:E; unfold Zlen in *.
  - by rewrite (map_find_Some_length_set _ _ _ _ H1 E).
  - rewrite (map_find_None_length_set _ _ _ E). lia.
Qed.

Lemma cache_ok_replace c ip e e' : cache_ok c -> map_find (entries c) ip = Some e' -> neighbor_ok e ->
  cache_ok (c <| entries := map_set (entries c) ip e |>).
Proof.
  intros [H1 H2 H3] Hf He. constructor; simpl; [by apply map_set_ok | | by apply Forall_map_set].
  unfold Zlen in *. by rewrite (map_find_Some_length_set _ _ _ _ H1 Hf).
Qed.

Lemma insert_ok c ip m now : cache_ok c -> cache_ok (insert c ip m now).
Proof.
  intros Hc. unfold insert. apply (expire_ok c now) in Hc. set (c1 := expire c now) in *. clearbody c1.
  destruct (map_find (entries c1) ip) eqn:Hf; [by eapply cache_ok_replace|].
  destruct (makeRoom c1) as [room c2] eqn:E. destruct (makeRoom_ok _ _ _ Hc E) as (H1 & H2 & _ & H3).
  destruct room; simpl; [|done]. apply cache_ok_add; [done | rewrite H2; auto | done].
Qed.

Lemma beginResolution_ok c ip now ok c' : cache_ok c -> beginResolution c ip now = (ok, c') -> cache_ok c'.
Proof.
  intros Hc. unfold beginResolution. apply (expire_ok c now) in Hc. set (c1 := expire c now) in *. clearbody c1.
  destruct (map_contains (entries c1) ip); [by intros [= <- <-]|].
  destruct (makeRoom c1) as [room c2] eqn:E. destruct (makeRoom_ok _ _ _ Hc E) as (H1 & H2 & _ & H3).
  destruct room; simpl; intros [= <- <-]; [|done]. apply cache_ok_add; [done | rewrite H2; auto |].
  by unfold neighbor_ok.
Qed.

Definition polled (now : Z) (e : Entry) : Entry :=
  match pollEntry now e with Waits => e | Fails e => e | Retries e => e end.

Definition fails (now : Z) (p : Ipv4Address * Entry) : bool := match pollEntry now (snd p) with Fails _ => true | _ => false end.
Definition retries (now : Z) (p : Ipv4Address * Entry) : bool := match pollEntry now (snd p) with Retries _ => true | _ => false end.

(** The poll updates each entry in place and lists, in key order, those it
    retries and those it gives up. *)
Lemma poll_loop_spec now l :
  poll_loop now l = (mkArpPollResult (map fst (List.filter (retries now) l)) (map fst (List.filter (fails now) l)),
                     map (fun p => (fst p, polled now (snd p))) l).
Proof.
  induction l as [|[ip e] l IH]; simpl; [done|]. rewrite IH.
  change (retries now (ip, e)) with (match pollEntry now e with Retries _ => true | _ => false end).
  change (fails now (ip, e)) with (match pollEntry now e with Fails _ => true | _ => false end).
  change (polled now e) with (match pollEntry now e with Waits => e | Fails e => e | Retries e => e end).
  by destruct (pollEntry now e).
Qed.

Lemma polled_ok now e : neighbor_ok e -> neighbor_ok (polled now e).
Proof.
  unfold polled, pollEntry, incomplete. destruct (next_deadline e) as [d|] eqn:Ed; [|done].
  destruct (bool_decide_reflect (e_state e = Incomplete)) as [Hs|Hs]; simpl; [|done].
  destruct (now <? d); simpl; [done|]. unfold neighbor_ok. rewrite Hs. intros (H1 & _ & H3).
  destruct (Z.leb_spec kArpMaxTransmissions (transmit_count e)); simpl; [|rewrite Hs]; split_and!; auto; lia.
Qed.

Lemma poll_ok c now r c' : cache_ok c -> poll c now = (r, c') -> cache_ok c'.
Proof.
  intros Hc. unfold poll. apply (expire_ok c now) in Hc. set (c1 := expire c now) in *. clearbody c1.
  rewrite poll_loop_spec. intros [= <- <-]. destruct Hc as [H1 H2 H3]. constructor; simpl.
  - by apply map_values_ok.
  - unfold Zlen in *. by rewrite length_map.
  - apply List.Forall_map. eapply Forall_impl; [exact H3|]. intros p. apply polled_ok.
Qed.

Lemma lookup_state c ip now : snd (lookup c ip now) = expire c now.
Proof. unfold lookup. destruct (map_find _ _); [|done]. by case_match. Qed.

Lemma stateOf_state c ip now : snd (stateOf c ip now) = expire c now.
Proof. unfold stateOf. by destruct (map_find _ _). Qed.

(** ** Histories *)

Inductive operation :=
| Insert (ip : Ipv4Address) (m : MacAddress) (now : Z)
| Lookup (ip : Ipv4Address) (now : Z)
| Begin (ip : Ipv4Address) (now : Z)
| Poll (now : Z)
| Query (ip : Ipv4Address) (now : Z).

Definition exec (c : ArpCache) (o : operation) : ArpCache :=
  match o with
  | Insert ip m now => insert c ip m now
  | Lookup ip now => snd (lookup c ip now)
  | Begin ip now => snd (beginResolution c ip now)
  | Poll now => snd (poll c now)
  | Query ip now => snd (stateOf c ip now)
  end.

(** The caches the program can have. *)
Definition history (capacity lifetime : Z) (ops : list operation) : ArpCache := foldl exec (new_cache capacity lifetime) ops.

Lemma exec_ok c o : cache_ok c -> cache_ok (exec c o).
Proof.
  intros Hc. destruct o; simpl.
  - by apply insert_ok.
  - rewrite lookup_state. by apply expire_ok.
  - destruct (beginResolution c ip now) eqn:E. by eapply beginResolution_ok.
  - destruct (poll c now) eqn:E. by eapply poll_ok.
  - rewrite stateOf_state. by apply expire_ok.
Qed.

Lemma foldl_exec_ok ops c : cache_ok c -> cache_ok (foldl exec c ops).
Proof. revert c. induction ops as [|o ops IH]; intros c Hc; simpl; [done|]. by apply IH, exec_ok. Qed.

Lemma new_cache_ok cap life : cache_ok (new_cache cap life).
Proof. constructor; simpl; [constructor | change (Zlen []) with 0; lia | constructor]. Qed.

Lemma history_ok cap life ops : cache_ok (history cap life ops).
Proof. apply foldl_exec_ok, new_cache_ok. Qed.

Lemma exec_config c o : cache_ok c -> capacity (exec c o) = capacity c /\ entry_lifetime (exec c o) = entry_lifetime c.
Proof.
  intros Hc. destruct o; simpl; rewrite ?lookup_state, ?stateOf_state; try done.
  - unfold insert. destruct (map_find _ _); [done|]. destruct (makeRoom _) as [[] c2] eqn:E; simpl;
      apply makeRoom_ok in E as (_ & ? & ? & _); auto using expire_ok.
  - unfold beginResolution. destruct (map_contains _ _); [done|]. destruct (makeRoom _) as [[] c2] eqn:E; simpl;
      apply makeRoom_ok in E as (_ & ? & ? & _); auto using expire_ok.
  - unfold poll. by rewrite poll_loop_spec.
Qed.

Lemma history_config cap life ops : capacity (history cap life ops) = cap /\ entry_lifetime (history cap life ops) = life.
Proof.
  unfold history. assert (H : forall c, cache_ok c -> capacity c = cap /\ entry_lifetime c = life ->
    capacity (foldl exec c ops) = cap /\ entry_lifetime (foldl exec c ops) = life).
  { induction ops as [|o ops IH]; intros c Hc E; simpl; [done|]. apply IH; [by apply exec_ok|].
    destruct (exec_config c o Hc) as [-> ->]. done. }
  apply H; [apply new_cache_ok | done].
Qed.

(** ** Invariant of every cache *)

(** After any sequence of operations the cache holds at most its
    capacity of entries, its keys are distinct and ordered, a resolved entry
    has an address and no timer, an entry being resolved has a timer and
    between one and three requests behind it, and a failed one has used up
    all three. *)
Theorem arp_cache_invariant cap life ops : 0 <= cap ->
  let c := history cap life ops in
  size c <= cap /\ map_ok (entries c) /\
  forall ip e, map_find (entries c) ip = Some e ->
    match e_state e with
    | Resolved => has_value (mac e) = true /\ next_deadline e = None
    | Incomplete => has_value (next_deadline e) = true /\ 1 <= transmit_count e <= kArpMaxTransmissions
    | Failed => mac e = None /\ next_deadline e = None /\ transmit_count e = kArpMaxTransmissions
    end.
Proof.
  intros Hcap c. destruct (history_ok cap life ops) as [H1 H2 H3]. fold c in H1, H2, H3.
  destruct (history_config cap life ops) as [E _]. fold c in E. split_and!; [unfold size; lia | done|].
  intros ip e Hf. pose proof (map_find_Forall _ _ _ _ H3 Hf) as He. simpl in He. unfold neighbor_ok in He.
  destruct (e_state e); tauto.
Qed.

Module Sample.
Definition host (n : Z) : Ipv4Address := Ipv4 10 0 0 n.
Definition station (n : Z) : MacAddress := Mac 2 0 0 0 0 n.
End Sample.

(** [arp_cache_invariant] for three insertions into a cache for two. *)
Lemma arp_cache_invariant_witness :
  let c := history 2 kArpEntryLifetime
    [Insert (Sample.host 1) (Sample.station 1) 0; Insert (Sample.host 2) (Sample.station 2) 1; Insert (Sample.host 3) (Sample.station 3) 2] in
  size c = 2 /\ size c <= 2.
Proof.
  intros c. split; [vm_compute; reflexivity|].
  apply (arp_cache_invariant 2 kArpEntryLifetime
    [Insert (Sample.host 1) (Sample.station 1) 0; Insert (Sample.host 2) (Sample.station 2) 1; Insert (Sample.host 3) (Sample.station 3) 2]).
  lia.
Defined.

(** ** Insertion, lookup and eviction *)

Lemma expire_find c now ip : map_ok (entries c) ->
  map_find (entries (expire c now)) ip =
    match map_find (entries c) ip with Some e => if outlived c now e then None else Some e | None => None end.
Proof.
  intros H. simpl. rewrite map_find_filter by done. destruct (map_find (entries c) ip) as [e|]; [|done]. simpl. by destruct (outlived c now e).
Qed.

(** The three ways an insertion can go. *)
Inductive insertion (c : ArpCache) (ip : Ipv4Address) (e : Entry) : ArpCache -> Prop :=
| stored_directly : map_find (entries c) ip <> None \/ Zlen (entries c) < capacity c ->
    insertion c ip e (c <| entries := map_set (entries c) ip e |>)
| stored_evicting old : map_find (entries c) ip = None -> evictable c old ->
    insertion c ip e (c <| entries := map_set (map_erase (entries c) old) ip e |>)
| refused : map_find (entries c) ip = None -> capacity c <= Zlen (entries c) ->
    Forall (fun p => incomplete (snd p) = true) (entries c) -> insertion c ip e c.

Lemma insert_cases c ip m now : cache_ok c ->
  insertion (expire c now) ip (mkEntry Resolved (Some m) now None 0) (insert c ip m now).
Proof.
  intros Hc. unfold insert. apply (expire_ok c now) in Hc. set (c1 := expire c now) in *. clearbody c1.
  destruct (map_find (entries c1) ip) eqn:Hf; [apply stored_directly; left; by rewrite Hf|].
  destruct (makeRoom c1) as [room c2] eqn:E.
  destruct (makeRoom_spec _ _ _ Hc E) as [(-> & -> & H)|[(-> & -> & H)|(-> & old & Hev & ->)]]; simpl.
  - apply stored_directly. by right.
  - apply refused; [done | apply H | apply H].
  - by apply (stored_evicting c1 ip _ old).
Qed.

(** A stored neighbour is found until its lifetime is over. *)
Lemma lookup_stored c m1 ip m now later : map_ok m1 ->
  fst (lookup (c <| entries := map_set m1 ip (mkEntry Resolved (Some m) now None 0) |>) ip later) =
  if entry_lifetime c <=? later - now then None else Some m.
Proof.
  intros Hm. unfold lookup. rewrite expire_find by (by apply map_set_ok). simpl.
  rewrite map_find_set, key_eqb_refl by done. unfold outlived. simpl. by destruct (entry_lifetime c <=? later - now).
Qed.

(** An insertion for an address already present, or with room, succeeds. *)
Lemma insert_found c ip m now later : cache_ok c ->
  map_find (entries (expire c now)) ip <> None \/ Exists (fun p => incomplete (snd p) = false) (entries (expire c now)) \/ size (expire c now) < capacity c ->
  fst (lookup (insert c ip m now) ip later) = if entry_lifetime c <=? later - now then None else Some m.
Proof.
  intros Hc H. destruct (expire_ok c now Hc) as [H1 _ _]. destruct (insert_cases c ip m now Hc) as [Hd|old Hn Hev|Hn Hfull Hall].
  - by rewrite lookup_stored.
  - by rewrite lookup_stored by (by apply map_erase_ok).
  - exfalso. destruct H as [H|[H|H]]; [done| |unfold size in H; simpl in *; lia].
    apply Exists_exists in H as (p & Hp & Hi). rewrite Forall_forall in Hall. by rewrite Hall in Hi.
Qed.

(** Insertion and lookup. An insertion first drops what has expired. It
    is refused only when the address is new and the cache is full of
    addresses being resolved; otherwise a lookup within the lifetime returns
    the inserted address, and one after it nothing. Every other live mapping
    stays, except that a full cache gives up one: the least recently updated
    of those not being resolved. *)
Theorem arp_insert_lookup cap life ops ip m now : 
  let c := expire (history cap life ops) now in
  let c' := insert (history cap life ops) ip m now in
  (map_find (entries c) ip = None /\ cap <= size c /\ Forall (fun p => incomplete (snd p) = true) (entries c) /\ c' = c) \/
  ((forall later, fst (lookup c' ip later) = if life <=? later - now then None else Some m) /\
   exists old, (old = ip \/ evictable c old) /\
     forall other, other <> ip -> other <> old -> map_find (entries c') other = map_find (entries c) other).
Proof.
  set (c0 := history cap life ops). intros c c'. pose proof (history_ok cap life ops) as Hc0. fold c0 in Hc0.
  destruct (history_config cap life ops) as [Ecap Elife]. fold c0 in Ecap, Elife.
  pose proof (expire_ok c0 now Hc0) as Hc. pose proof (insert_cases c0 ip m now Hc0) as Hins. fold c c' in Hins. fold c in Hc.
  destruct Hc as [H1 _ _]. assert (Elife' : entry_lifetime c = life) by done.
  inversion Hins as [Hd E|old Hn Hev E|Hn Hfull Hall E].
  - right. split; [intros; by rewrite lookup_stored, Elife'|]. exists ip. split; [by left|]. intros other Ho _. simpl.
    rewrite map_find_set by done. by rewrite (proj2 (key_eqb_neq _ _) Ho).
  - right. split; [intros; by rewrite lookup_stored, Elife' by (by apply map_erase_ok)|]. exists old. split; [by right|]. intros other Ho1 Ho2. simpl.
    rewrite map_find_set by (by apply map_erase_ok). rewrite (proj2 (key_eqb_neq _ _) Ho1).
    rewrite map_find_erase by done. by rewrite (proj2 (key_eqb_neq _ _) Ho2).
  - left. split_and!; auto. rewrite <- Ecap. done.
Qed.

(** ** Deadlines *)

Definition quiet : ArpPollResult := mkArpPollResult [] [].

(** An entry the poll at [now] would drop, retry or give up. *)
Definition due (c : ArpCache) (now : Z) (e : Entry) : Prop := outlived c now e = true \/ pollEntry now e <> Waits.

Lemma due_deadline c now e : neighbor_ok e -> (due c now e <-> exists d, entryDeadline c e = Some d /\ d <= now).
Proof.
  unfold due, outlived, pollEntry, entryDeadline, neighbor_ok, incomplete.
  destruct (e_state e) eqn:Es; simpl; intros Hok.
  - destruct Hok as (_ & -> & _). destruct (Z.leb_spec (entry_lifetime c) (now - updated_at e)); split; try tauto.
    + intros _. eexists. split; [reflexivity | lia].
    + intros [?|?]; done.
    + intros (d & [= <-] & Hd). lia.
  - destruct Hok as (_ & Hd & _). destruct (next_deadline e) as [d|]; [|done]. destruct (Z.ltb_spec now d); split.
    + intros [?|?]; done.
    + intros (? & [= <-] & ?). lia.
    + intros _. by exists d.
    + intros _. right. by destruct (_ <=? _).
  - destruct Hok as (_ & -> & _). destruct (Z.leb_spec (entry_lifetime c) (now - updated_at e)); split; try tauto.
    + intros _. eexists. split; [reflexivity | lia].
    + intros [?|?]; done.
    + intros (d & [= <-] & Hd). lia.
Qed.

Lemma nextDeadline_due c now : Forall (fun p => neighbor_ok (snd p)) (entries c) ->
  ((exists d, nextDeadline c = Some d /\ d <= now) <-> Exists (fun p => due c now (snd p)) (entries c)).
Proof.
  intros Hok. unfold nextDeadline. set (ds := map _ _). pose proof (earliestDeadline_spec ds) as H. rewrite Exists_exists.
  rewrite Forall_forall in Hok. split.
  - intros (d & Hd & Hle). rewrite Hd in H. destruct H as [H _]. apply list_elem_of_In, in_map_iff in H as (p & Hp & Hin).
    apply list_elem_of_In in Hin. exists p. split; [done|]. apply due_deadline; [by apply Hok | by exists d].
  - intros (p & Hin & Hp). apply due_deadline in Hp as (d & Hd & Hle); [|by apply Hok].
    assert (Hds : Some d ∈ ds) by (apply list_elem_of_In, in_map_iff; exists p; split; [done | by apply list_elem_of_In]).
    destruct (earliestDeadline ds) as [e|]; [|rewrite Forall_forall in H; by apply H in Hds].
    exists e. split; [done|]. destruct H as [_ H]. specialize (H d Hds). lia.
Qed.

Lemma filter_all {A} (f : A -> bool) l : Forall (fun x => f x = true) l -> List.filter f l = l.
Proof. induction 1 as [|x l Hx Hl IH]; simpl; [done|]. by rewrite Hx, IH. Qed.

Lemma filter_none {A} (f : A -> bool) l : Forall (fun x => f x = false) l -> List.filter f l = [].
Proof. induction 1 as [|x l Hx Hl IH]; simpl; [done|]. by rewrite Hx, IH. Qed.

(** A poll with nothing due is a no-op. *)
Lemma poll_idle c now : Forall (fun p => ~ due c now (snd p)) (entries c) -> poll c now = (quiet, c).
Proof.
  intros H. unfold poll.
  assert (Hex : expire c now = c).
  { unfold expire. rewrite filter_all; [by destruct c|]. eapply Forall_impl; [exact H|]. intros p Hp. simpl.
    destruct (outlived c now p.2) eqn:E; [|done]. destruct Hp. by left. }
  assert (Hw : Forall (fun p => pollEntry now (snd p) = Waits) (entries c)).
  { eapply Forall_impl; [exact H|]. intros p Hp. destruct (pollEntry now p.2) eqn:E; [done | |]; destruct Hp; right; by rewrite E. }
  rewrite Hex, poll_loop_spec, !filter_none.
  - assert (Em : map (fun p => (fst p, polled now (snd p))) (entries c) = entries c).
    { clear - Hw. induction Hw as [|[ip e] l Hx Hl IH]; simpl; [done|]. rewrite IH. unfold polled. simpl in Hx. by rewrite Hx. }
    rewrite Em. by destruct c.
  - eapply Forall_impl; [exact Hw|]. intros p Hp. unfold fails. by rewrite Hp.
  - eapply Forall_impl; [exact Hw|]. intros p Hp. unfold retries. by rewrite Hp.
Qed.

Lemma filter_shorter {A} (f : A -> bool) l : (exists x, x ∈ l /\ f x = false) -> Zlen (List.filter f l) < Zlen l.
Proof.
  induction l as [|y l IH]; intros (x & Hin & Hx); [inversion Hin|]. simpl. rewrite Zlen_cons.
  pose proof (Zlen_filter f l). destruct (f y) eqn:E; [|lia]. rewrite Zlen_cons.
  inversion Hin; subst; [congruence|]. enough (Zlen (List.filter f l) < Zlen l) by lia. apply IH. by exists x.
Qed.

Lemma Zlen_map {A B} (f : A -> B) l : Zlen (map f l) = Zlen l.
Proof. unfold Zlen. by rewrite length_map. Qed.

(** A poll with something due drops, retries or gives up an entry. *)
Lemma poll_active c now : Exists (fun p => due c now (snd p)) (entries c) ->
  let '(r, c') := poll c now in size c' < size c \/ r <> quiet.
Proof.
  intros H. unfold poll. rewrite poll_loop_spec. unfold size. simpl. rewrite (Zlen_map _).
  destruct (Z.lt_ge_cases (Zlen (entries (expire c now))) (Zlen (entries c))) as [Hlt|Hge]; [by left|right].
  apply Exists_exists in H as (p & Hin & Hp).
  assert (Hkeep : outlived c now (snd p) = false).
  { destruct (outlived c now (snd p)) eqn:E; [|done]. exfalso. revert Hge. simpl.
    apply Z.lt_nge, filter_shorter. exists p. split; [done | by rewrite E]. }
  destruct Hp as [Hp|Hp]; [congruence|]. assert (Hin' : p ∈ entries (expire c now)).
  { simpl. apply list_elem_of_In, filter_In. split; [by apply list_elem_of_In | by rewrite Hkeep]. }
  apply list_elem_of_In in Hin'. unfold quiet. intros [= H1 H2].
  assert (Hr : retries now p = true \/ fails now p = true) by (unfold retries, fails; destruct (pollEntry now p.2); auto).
  destruct Hr as [Hr|Hr].
  - apply map_eq_nil in H1. assert (Hx : In p []) by (rewrite <- H1; by apply filter_In). inversion Hx.
  - apply map_eq_nil in H2. assert (Hx : In p []) by (rewrite <- H2; by apply filter_In). inversion Hx.
Qed.

(** [nextDeadline] is exact. A poll before the deadline it reports (or
    at any time when it reports none) changes nothing and reports nothing; a
    poll at or after it drops an expired entry, retries a request or reports
    a failure. *)
Theorem arp_next_deadline_exact cap life ops now :
  let c := history cap life ops in
  ((forall d, nextDeadline c = Some d -> now < d) -> poll c now = (quiet, c)) /\
  ((exists d, nextDeadline c = Some d /\ d <= now) ->
     let '(r, c') := poll c now in size c' < size c \/ r <> quiet).
Proof.
  intros c. pose proof (ck_entries _ (history_ok cap life ops)) as Hok. fold c in Hok. split.
  - intros H. apply poll_idle. apply Forall_Exists_neg. intros Hex. apply (nextDeadline_due c now Hok) in Hex as (d & Hd & Hle).
    specialize (H d Hd). lia.
  - intros H. apply poll_active. by apply nextDeadline_due.
Qed.

(** ** Resolution of one neighbour

    The specification of address resolution, seen from one address: while it
    is being resolved, the time of the next retry and the number of requests
    sent; and what each poll does with it. *)

Inductive neighbor_event := RequestSent | GaveUp.

Definition resolution : Type := option (Z * Z).

Definition tick (s : resolution) (now : Z) : option neighbor_event * resolution :=
  match s with
  | None => (None, None)
  | Some (deadline, sent) =>
      if now <? deadline then (None, s)
      else if kArpMaxTransmissions <=? sent then (Some GaveUp, None)
      else (Some RequestSent, Some (now + kArpRetryInterval, sent + 1))
  end.

(** The events at the polls of a history. *)
Fixpoint ticks (s : resolution) (ops : list operation) : list neighbor_event :=
  match ops with
  | [] => []
  | Poll now :: ops => let '(e, s) := tick s now in option_list e ++ ticks s ops
  | _ :: ops => ticks s ops
  end.

(** What the cache says about one address: the abstraction function, and the
    events of one address in the poll results. *)
Definition resolving (c : ArpCache) (ip : Ipv4Address) : resolution :=
  match map_find (entries c) ip with
  | Some e => if incomplete e then option_map (fun d => (d, transmit_count e)) (next_deadline e) else None
  | None => None
  end.

Definition event_of (r : ArpPollResult) (ip : Ipv4Address) : option neighbor_event :=
  if bool_decide (ip ∈ requests r) then Some RequestSent else if bool_decide (ip ∈ failed r) then Some GaveUp else None.

Fixpoint events (c : ArpCache) (ip : Ipv4Address) (ops : list operation) : list neighbor_event :=
  match ops with
  | [] => []
  | Poll now :: ops => let '(r, c) := poll c now in option_list (event_of r ip) ++ events c ip ops
  | o :: ops => events (exec c o) ip ops
  end.

(** The operations that start or settle the resolution of an address. *)
Definition concerns (ip : Ipv4Address) (o : operation) : bool :=
  match o with Insert ip' _ _ | Begin ip' _ => key_eqb ip ip' | _ => false end.

Lemma resolving_expire c now ip : cache_ok c -> resolving (expire c now) ip = resolving c ip.
Proof.
  intros Hc. unfold resolving. rewrite expire_find by apply Hc. unfold outlived. destruct (map_find (entries c) ip) as [e|]; [|done].
  destruct (incomplete e) eqn:Ei; simpl; [by rewrite Ei|]. destruct (_ <=? _); simpl; by rewrite ?Ei.
Qed.

Lemma resolving_makeRoom c room c' ip : cache_ok c -> makeRoom c = (room, c') -> resolving c' ip = resolving c ip.
Proof.
  intros Hc E. destruct (makeRoom_spec c room c' Hc E) as [(-> & -> & H)|[(-> & -> & H)|(-> & old & (Hl & e & Hf & Hi & _) & ->)]]; try done.
  unfold resolving. simpl. rewrite map_find_erase by apply Hc. destruct (key_eqb ip old) eqn:Ek; [|done].
  apply key_eqb_eq in Ek as ->. by rewrite Hf, Hi.
Qed.

Lemma resolving_set c ip ip' e : cache_ok c -> key_eqb ip ip' = false ->
  resolving (c <| entries := map_set (entries c) ip' e |>) ip = resolving c ip.
Proof. intros Hc Hk. unfold resolving. simpl. rewrite map_find_set by apply Hc. by rewrite Hk. Qed.

(** Operations on other addresses do not disturb a resolution. *)
Lemma resolving_exec c o ip : cache_ok c -> concerns ip o = false -> (forall now, o <> Poll now) ->
  resolving (exec c o) ip = resolving c ip.
Proof.
  intros Hc Hn Hp. destruct o as [ip' m now|ip' now|ip' now|now|ip' now]; simpl in *; try by exfalso; eapply Hp.
  - unfold insert. pose proof (expire_ok c now Hc) as He. rewrite <- (resolving_expire c now ip Hc).
    set (c1 := expire c now) in *. clearbody c1. destruct (map_find (entries c1) ip'); [by apply resolving_set|].
    destruct (makeRoom c1) as [[] c2] eqn:E; simpl.
    + rewrite resolving_set by (try done; by apply (makeRoom_ok c1 _ _ He E)). by eapply resolving_makeRoom.
    + by eapply resolving_makeRoom.
  - rewrite lookup_state. by apply resolving_expire.
  - unfold beginResolution. pose proof (expire_ok c now Hc) as He. rewrite <- (resolving_expire c now ip Hc).
    set (c1 := expire c now) in *. clearbody c1. destruct (map_contains (entries c1) ip'); [done|].
    destruct (makeRoom c1) as [[] c2] eqn:E; simpl.
    + rewrite resolving_set by (try done; by apply (makeRoom_ok c1 _ _ He E)). by eapply resolving_makeRoom.
    + by eapply resolving_makeRoom.
  - rewrite stateOf_state. by apply resolving_expire.
Qed.

Lemma elem_of_keys (f : Ipv4Address * Entry -> bool) l ip : map_ok l ->
  (ip ∈ map fst (List.filter f l)) <-> exists e, map_find l ip = Some e /\ f (ip, e) = true.
Proof.
  intros Hl. rewrite list_elem_of_In, in_map_iff. setoid_rewrite filter_In. split.
  - intros ([ip' e] & <- & Hin & Hf). exists e. split; [by apply In_map_find | done].
  - intros (e & Hf & Hr). exists (ip, e). split; [done|]. split; [by apply map_find_In | done].
Qed.

Lemma event_of_poll now l ip : map_ok l ->
  event_of (mkArpPollResult (map fst (List.filter (retries now) l)) (map fst (List.filter (fails now) l))) ip =
  match map_find l ip with
  | Some e => match pollEntry now e with Waits => None | Fails _ => Some GaveUp | Retries _ => Some RequestSent end
  | None => None
  end.
Proof.
  intros Hl. pose proof (elem_of_keys (retries now) l ip Hl) as Hr. pose proof (elem_of_keys (fails now) l ip Hl) as Hf.
  unfold event_of. simpl. destruct (bool_decide_reflect (ip ∈ map fst (List.filter (retries now) l))) as [H1|H1].
  - apply Hr in H1 as (e & -> & H1). unfold retries in H1. simpl in H1. by destruct (pollEntry now e).
  - destruct (bool_decide_reflect (ip ∈ map fst (List.filter (fails now) l))) as [H2|H2].
    + apply Hf in H2 as (e & -> & H2). unfold fails in H2. simpl in H2. by destruct (pollEntry now e).
    + destruct (map_find l ip) as [e|]; [|done]. destruct (pollEntry now e) eqn:E; [done | |].
      * destruct H2. apply Hf. exists e. split; [done|]. unfold fails. simpl. by rewrite E.
      * destruct H1. apply Hr. exists e. split; [done|]. unfold retries. simpl. by rewrite E.
Qed.

(** A poll does to each address what the specification says. *)
Lemma poll_tick c now r c' ip : cache_ok c -> poll c now = (r, c') -> tick (resolving c ip) now = (event_of r ip, resolving c' ip).
Proof.
  intros Hc. rewrite <- (resolving_expire c now ip Hc). apply (expire_ok c now) in Hc. unfold poll.
  set (c1 := expire c now) in *. clearbody c1. rewrite poll_loop_spec. intros [= <- <-].
  destruct Hc as [Hm _ Hok]. rewrite event_of_poll by done. unfold resolving. simpl. rewrite map_find_values.
  destruct (map_find (entries c1) ip) as [e|] eqn:Hf; simpl; [|done].
  pose proof (map_find_Forall _ _ _ _ Hok Hf) as He. simpl in He. unfold neighbor_ok in He.
  unfold polled, pollEntry, incomplete.
  destruct (e_state e) eqn:Es; destruct He as (_ & Hd & Hn); try (rewrite Hd; simpl; rewrite Es; done).
  destruct (next_deadline e) as [d|] eqn:Ed; [|done]. simpl. destruct (now <? d); simpl; [by rewrite Es, Ed|].
  destruct (kArpMaxTransmissions <=? transmit_count e); simpl; [done | by rewrite Es].
Qed.

Lemma events_ticks c ip ops : cache_ok c -> forallb (fun o => negb (concerns ip o)) ops = true ->
  events c ip ops = ticks (resolving c ip) ops.
Proof.
  revert c. induction ops as [|o ops IH]; intros c Hc Hn; simpl; [done|]. simpl in Hn. bprop.
  pose proof (exec_ok c o Hc) as Hx. destruct o as [ip' m now|ip' now|ip' now|now|ip' now];
    try (rewrite IH by done; rewrite resolving_exec by done; done).
  destruct (poll c now) as [r c'] eqn:E. rewrite (poll_tick c now r c' ip Hc E). simpl in Hx. rewrite E in Hx. by rewrite IH.
Qed.

(** The events of a resolution, from one with [n] requests left. *)
Definition script (n : nat) : list neighbor_event := replicate n RequestSent ++ [GaveUp].

Lemma ticks_done ops : ticks None ops = [].
Proof. induction ops as [|[] ops IH]; simpl; done. Qed.

Lemma ticks_prefix n d ops : (n < 3)%nat -> prefix (ticks (Some (d, 3 - Z.of_nat n)) ops) (script n).
Proof.
  revert n d. induction ops as [|o ops IH]; intros n d Hn; simpl; [apply prefix_nil|].
  destruct o as [| | |now|]; auto. destruct (now <? d); simpl; [auto|]. unfold kArpMaxTransmissions.
  destruct n as [|n].
  - simpl. rewrite ticks_done. done.
  - zdec1. simpl. apply prefix_cons. replace (3 - Z.of_nat (S n) + 1) with (3 - Z.of_nat n) by lia. apply IH. lia.
Qed.

(** C24: address resolution. When a resolution begins, the polls of any later
    history -- whatever happens to other addresses -- report for that address
    exactly the events of the specification [tick]: at most two more requests,
    each a full retry interval after the one before, and then one failure;
    three polls spaced by the retry interval report all of them. *)
Theorem arp_resolution_schedule cap life past ip now c future :
  beginResolution (history cap life past) ip now = (true, c) -> forallb (fun o => negb (concerns ip o)) future = true ->
  events c ip future = ticks (Some (now + kArpRetryInterval, 1)) future /\
  prefix (events c ip future) [RequestSent; RequestSent; GaveUp] /\
  forall t1 t2 t3, now + kArpRetryInterval <= t1 -> t1 + kArpRetryInterval <= t2 -> t2 + kArpRetryInterval <= t3 ->
    events c ip [Poll t1; Poll t2; Poll t3] = [RequestSent; RequestSent; GaveUp].
Proof.
  intros E Hn. pose proof (beginResolution_ok _ _ _ _ _ (history_ok cap life past) E) as Hc.
  assert (Hr : resolving c ip = Some (now + kArpRetryInterval, 1)).
  { revert E. unfold beginResolution. pose proof (expire_ok _ now (history_ok cap life past)) as He.
    set (c1 := expire _ now) in *. clearbody c1. destruct (map_contains _ _); [done|].
    destruct (makeRoom c1) as [room c2] eqn:E. destruct (makeRoom_ok _ _ _ He E) as (H2 & _).
    destruct room; simpl; [|done]. intros [= <-]. unfold resolving. simpl. rewrite map_find_set by apply H2. by rewrite key_eqb_refl. }
  rewrite events_ticks, Hr by done. split; [done|]. split; [exact (ticks_prefix 2 _ future ltac:(lia))|].
  intros t1 t2 t3 H1 H2 H3. rewrite events_ticks, Hr by done. simpl. unfold kArpMaxTransmissions. zdec. simpl. zdec. simpl. zdec. done.
Qed.

(** [arp_resolution_schedule] for one resolution, polled while another
    neighbour is learnt. *)
Lemma arp_resolution_schedule_witness :
  let c := snd (beginResolution (history 4 kArpEntryLifetime []) (Sample.host 1) 0) in
  events c (Sample.host 1)
    [Poll (milliseconds 500); Poll (seconds 1); Insert (Sample.host 2) (Sample.station 2) (seconds 1); Poll (seconds 2)] =
    [RequestSent; RequestSent] /\
  events c (Sample.host 1) [Poll (seconds 1); Poll (seconds 2); Poll (seconds 3)] = [RequestSent; RequestSent; GaveUp].
Proof.
  intros c. destruct (arp_resolution_schedule 4 kArpEntryLifetime [] (Sample.host 1) 0 c
    [Poll (milliseconds 500); Poll (seconds 1); Insert (Sample.host 2) (Sample.station 2) (seconds 1); Poll (seconds 2)])
    as (H1 & _ & H3); [reflexivity | reflexivity |].
  split; [rewrite H1; reflexivity | apply H3; vm_compute; discriminate].
Defined.
