(* ===== verification/Ipv4.v ===== *)
(** * IPv4 packets ([src/src/ipv4.cpp]) *)

From S2P Require Import Prelude StdMap Checksum Addresses.

Record Ipv4Packet := mkIpv4Packet {
  dscp_ecn : Z;
  identification : Z;
  ttl : Z;
  protocol : Z;
  ip_source : Ipv4Address;
  ip_destination : Ipv4Address;
  ip_payload : list Z
}.

Inductive Ipv4ParseError :=
| IpTooShort | UnsupportedVersion | InvalidHeaderLength | UnsupportedOptions
| InvalidTotalLength | Fragmented | IpBadChecksum.

Inductive Ipv4SerializeError := IpPayloadTooLarge.

Definition kIpHeaderSize : Z := 20.
Definition kFlagMoreFragments : Z := 8192.
Definition kFragmentOffsetMask : Z := 8191.

Definition parseIpv4Packet (data : list Z) : option (Ipv4Packet + Ipv4ParseError) :=
  if Zlen data <? kIpHeaderSize then Some (inr IpTooShort) else
  version_ihl ← data !! 0%nat;
  let version := u8 (Z.shiftr version_ihl 4) in
  let ihl := u8 (Z.land version_ihl 15) in
  if negb (version =? 4) then Some (inr UnsupportedVersion) else
  if ihl <? 5 then Some (inr InvalidHeaderLength) else
  if negb (ihl =? 5) then Some (inr UnsupportedOptions) else
  if negb (internetChecksum (take 20 data) =? 0) then Some (inr IpBadChecksum) else
  total_length ← readBigEndian16 data 2;
  if (total_length <? kIpHeaderSize) || (Zlen data <? total_length)
  then Some (inr InvalidTotalLength) else
  flags_fragment ← readBigEndian16 data 6;
  let more_fragments := negb (Z.land flags_fragment kFlagMoreFragments =? 0) in
  let fragment_offset := Z.land flags_fragment kFragmentOffsetMask in
  if more_fragments || negb (fragment_offset =? 0) then Some (inr Fragmented) else
  dscp_ecn ← data !! 1%nat;
  identification ← readBigEndian16 data 4;
  ttl ← data !! 8%nat;
  protocol ← data !! 9%nat;
  source ← readIpv4Address data 12;
  destination ← readIpv4Address data 16;
  Some (inl {| dscp_ecn := dscp_ecn; identification := identification; ttl := ttl;
               protocol := protocol; ip_source := source; ip_destination := destination;
               ip_payload := take (Z.to_nat (total_length - kIpHeaderSize)) (drop 20 data) |}).

Definition serializeIpv4Packet (packet : Ipv4Packet) : list Z + Ipv4SerializeError :=
  let total_length := kIpHeaderSize + Zlen (ip_payload packet) in
  if 65535 <? total_length then inr IpPayloadTooLarge else
  let out := [Z.lor (Z.shiftl 4 4) 5] in
  let out := out ++ [dscp_ecn packet] in
  let out := writeBigEndian16 out (u16 total_length) in
  let out := writeBigEndian16 out (identification packet) in
  let out := writeBigEndian16 out 0 in
  let out := out ++ [ttl packet] in
  let out := out ++ [protocol packet] in
  let out := writeBigEndian16 out 0 in
  let out := writeIpv4Address out (ip_source packet) in
  let out := writeIpv4Address out (ip_destination packet) in
  let checksum := internetChecksum (take 20 out) in
  let out := <[10%nat := Z.land (Z.shiftr checksum 8) 255]> out in
  let out := <[11%nat := Z.land checksum 255]> out in
  inl (out ++ ip_payload packet).

Definition ipv4_ok (p : Ipv4Packet) : Prop :=
  is_u8 (dscp_ecn p) /\ is_u16 (identification p) /\ is_u8 (ttl p) /\ is_u8 (protocol p) /\
  ip_ok (ip_source p) /\ ip_ok (ip_destination p) /\ bytes_ok (ip_payload p).

(** The header fields are within their widths. *)
Definition ipv4_header_ok (p : Ipv4Packet) : Prop :=
  is_u8 (dscp_ecn p) /\ is_u16 (identification p) /\ is_u8 (ttl p) /\ is_u8 (protocol p) /\ ip_ok (ip_source p) /\ ip_ok (ip_destination p).

Lemma serialize_parse_ipv4 p padding :
  ipv4_header_ok p ->
  match serializeIpv4Packet p with
  | inl bytes => parseIpv4Packet (bytes ++ padding) = Some (inl p) /\
                 Zlen bytes = 20 + Zlen (ip_payload p)
  | inr IpPayloadTooLarge => Zlen (ip_payload p) > 65515
  end.
Proof.
  destruct p as [dscp ident ttl proto [s0 s1 s2 s3] [d0 d1 d2 d3] payload].
  intros (Hd & Hi & Ht & Hpr & Hs & Hds). unfold ip_ok in *. simpl in *.
  pose proof (Zlen_nonneg payload). pose proof (Zlen_nonneg padding).
  pose (total := u16 (20 + Zlen payload)).
  pose (pre := [69; dscp] ++ be16 total ++ be16 ident ++ be16 0 ++ [ttl; proto]).
  pose (post := [s0; s1; s2; s3] ++ [d0; d1; d2; d3]).
  pose (ck := internetChecksum (pre ++ be16 0 ++ post)).
  assert (Hser : serializeIpv4Packet (mkIpv4Packet dscp ident ttl proto (Ipv4 s0 s1 s2 s3)
      (Ipv4 d0 d1 d2 d3) payload) =
    if 65535 <? 20 + Zlen payload then inr IpPayloadTooLarge
    else inl (pre ++ be16 ck ++ post ++ payload)) by reflexivity.
  rewrite Hser. destruct (Z.ltb_spec 65535 (20 + Zlen payload)) as [|Hlen]; [lia|].
  assert (Ht' : total = 20 + Zlen payload) by (apply u16_id; ulia).
  assert (Hck : internetChecksum (pre ++ be16 ck ++ post) = 0).
  { apply checksum_fill_verifies; try done; [| | by left].
    - unfold pre. rewrite !bytes_ok_app. repeat split; auto with wire; repeat constructor; done || ulia.
    - unfold post. by apply bytes_ok_app. }
  assert (is_u16 ck) by apply internetChecksum_u16. clearbody ck. clear Hser.
  split; [|unfold pre, post; cbn; rewrite !Zlen_cons; lia].
  unfold parseIpv4Packet. cbn in *. rewrite !Zlen_cons, Zlen_app. unfold kIpHeaderSize.
  zdec1. change (u8 (Z.shiftr 69 4)) with 4.
  change (u8 (Z.land 69 15)) with 5. cbn. rewrite take_0, Hck. cbn.
  erewrite (readBigEndian16_be16 _ 2 total); [| unfold total; auto with wire | done | done]. cbn.
  rewrite Ht'.
  zdec. cbn.
  erewrite (readBigEndian16_be16 _ 6 0); [| ulia | done | done]. cbn.
  erewrite (readBigEndian16_be16 _ 4 ident); [| done | done | done]. cbn.
  do 3 f_equal. rewrite drop_0, take_app_le by (unfold Zlen; lia). apply take_ge. unfold Zlen. lia.
Qed.

(** A packet whose payload fits is serialized to bytes that
    the parser accepts and decodes to the same packet, also when Ethernet
    padding follows; a larger payload is refused, never truncated. *)
Theorem ipv4_roundtrip p padding :
  ipv4_ok p ->
  match serializeIpv4Packet p with
  | inl bytes => parseIpv4Packet (bytes ++ padding) = Some (inl p) /\
                 Zlen bytes = 20 + Zlen (ip_payload p)
  | inr IpPayloadTooLarge => Zlen (ip_payload p) > 65515
  end.
Proof. intros (H1 & H2 & H3 & H4 & H5 & H6 & _). by apply serialize_parse_ipv4. Qed.

Lemma ipv4_roundtrip_witness :
  ipv4_ok (mkIpv4Packet 0 7 64 6 (Ipv4 10 0 0 1) (Ipv4 10 0 0 2) [1; 2]) /\
  match serializeIpv4Packet (mkIpv4Packet 0 7 64 6 (Ipv4 10 0 0 1) (Ipv4 10 0 0 2) [1; 2]) with
  | inl bytes => parseIpv4Packet (bytes ++ [0; 0]) =
      Some (inl (mkIpv4Packet 0 7 64 6 (Ipv4 10 0 0 1) (Ipv4 10 0 0 2) [1; 2])) /\ Zlen bytes = 20 + Zlen [1; 2]
  | inr IpPayloadTooLarge => Zlen [1; 2] > 65515
  end.
Proof.
  assert (H : ipv4_ok (mkIpv4Packet 0 7 64 6 (Ipv4 10 0 0 1) (Ipv4 10 0 0 2) [1; 2])).
  { unfold ipv4_ok, ip_ok; simpl. repeat split; try ulia; repeat constructor; ulia. }
  split; [exact H | exact (ipv4_roundtrip _ [0; 0] H)].
Defined.
