(* ===== verification/Icmp.v ===== *)
(** * ICMP echo messages ([src/src/icmp.cpp]) *)

From S2P Require Import Prelude StdMap Checksum.

Inductive IcmpEchoType := EchoReply | EchoRequest.

Definition icmp_type_code (t : IcmpEchoType) : Z := match t with EchoReply => 0 | EchoRequest => 8 end.

Record IcmpEcho := mkIcmpEcho {
  icmp_type : IcmpEchoType;
  icmp_identifier : Z;
  icmp_sequence : Z;
  icmp_payload : list Z
}.

Inductive IcmpParseError := IcmpTooShort | UnsupportedType | InvalidCode | IcmpBadChecksum.

Definition parseIcmpEcho (data : list Z) : option (IcmpEcho + IcmpParseError) :=
  if Zlen data <? 8 then Some (inr IcmpTooShort) else
  raw_type ← data !! 0%nat;
  if negb (raw_type =? 8) && negb (raw_type =? 0) then Some (inr UnsupportedType) else
  code ← data !! 1%nat;
  if negb (code =? 0) then Some (inr InvalidCode) else
  if negb (internetChecksum data =? 0) then Some (inr IcmpBadChecksum) else
  identifier ← readBigEndian16 data 4;
  sequence ← readBigEndian16 data 6;
  Some (inl {| icmp_type := if raw_type =? 8 then EchoRequest else EchoReply;
               icmp_identifier := identifier; icmp_sequence := sequence;
               icmp_payload := drop 8 data |}).

Definition serializeIcmpEcho (message : IcmpEcho) : list Z :=
  let out := [icmp_type_code (icmp_type message)] in
  let out := out ++ [0] in
  let out := writeBigEndian16 out 0 in
  let out := writeBigEndian16 out (icmp_identifier message) in
  let out := writeBigEndian16 out (icmp_sequence message) in
  let out := out ++ icmp_payload message in
  let checksum := internetChecksum out in
  let out := <[2%nat := Z.land (Z.shiftr checksum 8) 255]> out in
  <[3%nat := Z.land checksum 255]> out.

Definition makeEchoReply (request : IcmpEcho) : IcmpEcho :=
  {| icmp_type := EchoReply; icmp_identifier := icmp_identifier request;
     icmp_sequence := icmp_sequence request; icmp_payload := icmp_payload request |}.

Definition icmp_ok (m : IcmpEcho) : Prop :=
  is_u16 (icmp_identifier m) /\ is_u16 (icmp_sequence m) /\ bytes_ok (icmp_payload m) /\
  Zlen (icmp_payload m) <= 65507.

Lemma icmp_parse_serialize m : icmp_ok m -> parseIcmpEcho (serializeIcmpEcho m) = Some (inl m).
Proof.
  destruct m as [t ident sq payload]. intros (Hi & Hs & Hp & Hl). simpl in *.
  pose proof (Zlen_nonneg payload).
  pose (pre := [icmp_type_code t; 0]).
  pose (post := be16 ident ++ be16 sq ++ payload).
  pose (ck := internetChecksum (pre ++ be16 0 ++ post)).
  change (serializeIcmpEcho _) with (pre ++ be16 ck ++ post).
  assert (Hck : internetChecksum (pre ++ be16 ck ++ post) = 0).
  { apply checksum_fill_verifies; try done; [| | | by left].
    - unfold pre. repeat constructor; destruct t; cbn; ulia.
    - unfold post. rewrite !bytes_ok_app. auto with wire.
    - unfold post. rewrite !Zlen_app. change (Zlen pre) with 2. change (Zlen (be16 ident)) with 2.
      change (Zlen (be16 sq)) with 2. lia. }
  clearbody ck. unfold parseIcmpEcho. cbn in *. rewrite Hck.
  rewrite !Zlen_cons. zdec1.
  erewrite (readBigEndian16_be16 _ 4 ident); [| done | done | done].
  erewrite (readBigEndian16_be16 _ 6 sq); [| done | done | done].
  cbn. rewrite drop_0. by destruct t.
Qed.

(** Ping, end to end on the wire: the bytes of an echo
    request parse to that request, and the reply built from what was parsed
    parses, at the requester, as an echo reply with the identifier, sequence
    number and payload that were sent. *)
Theorem icmp_echo_roundtrip ident sq payload :
  icmp_ok (mkIcmpEcho EchoRequest ident sq payload) ->
  exists request,
    parseIcmpEcho (serializeIcmpEcho (mkIcmpEcho EchoRequest ident sq payload)) = Some (inl request) /\
    icmp_type request = EchoRequest /\
    parseIcmpEcho (serializeIcmpEcho (makeEchoReply request)) =
      Some (inl (mkIcmpEcho EchoReply ident sq payload)).
Proof.
  intros H. eexists. rewrite icmp_parse_serialize by exact H. split; [done|]. split; [done|].
  by rewrite icmp_parse_serialize.
Qed.

Lemma icmp_echo_roundtrip_witness :
  exists request,
    parseIcmpEcho (serializeIcmpEcho (mkIcmpEcho EchoRequest 7 1 [1; 2; 3])) = Some (inl request) /\
    icmp_type request = EchoRequest /\
    parseIcmpEcho (serializeIcmpEcho (makeEchoReply request)) =
      Some (inl (mkIcmpEcho EchoReply 7 1 [1; 2; 3])).
Proof.
  apply icmp_echo_roundtrip. unfold icmp_ok; simpl.
  repeat split; try ulia; [repeat constructor; ulia | vm_compute; discriminate].
Defined.
