(* ===== verification/Udp.v ===== *)
(** * UDP datagrams and endpoints ([src/src/udp.cpp], [src/src/udp_endpoint.cpp]) *)

From S2P Require Import Prelude StdMap Checksum Addresses.

Record UdpDatagram := mkUdpDatagram {
  udp_source_port : Z;
  udp_destination_port : Z;
  udp_payload : list Z
}.

Inductive UdpParseError := UdpTooShort | UdpInvalidLength | UdpBadChecksum.
Inductive UdpSerializeError := UdpPayloadTooLarge.

(** Checksum over the IPv4 pseudo-header and the datagram. *)
Definition udpChecksum (source destination : Ipv4Address) (udp_bytes : list Z) : Z :=
  let buffer := [] in
  let buffer := writeIpv4Address buffer source in
  let buffer := writeIpv4Address buffer destination in
  let buffer := buffer ++ [0] in
  let buffer := buffer ++ [17] in
  let buffer := writeBigEndian16 buffer (u16 (Zlen udp_bytes)) in
  internetChecksum (buffer ++ udp_bytes).

Definition parseUdpDatagram (bytes : list Z) (source destination : Ipv4Address) :
    option (UdpDatagram + UdpParseError) :=
  if Zlen bytes <? 8 then Some (inr UdpTooShort) else
  length ← readBigEndian16 bytes 4;
  if (length <? 8) || (Zlen bytes <? length) then Some (inr UdpInvalidLength) else
  let logical_bytes := take (Z.to_nat length) bytes in
  checksum ← readBigEndian16 bytes 6;
  if negb (checksum =? 0) && negb (udpChecksum source destination logical_bytes =? 0)
  then Some (inr UdpBadChecksum) else
  source_port ← readBigEndian16 bytes 0;
  destination_port ← readBigEndian16 bytes 2;
  Some (inl {| udp_source_port := source_port; udp_destination_port := destination_port;
               udp_payload := drop 8 logical_bytes |}).

Definition serializeUdpDatagram (datagram : UdpDatagram) (source destination : Ipv4Address) :
    list Z + UdpSerializeError :=
  let total_length := 8 + Zlen (udp_payload datagram) in
  if 65535 <? total_length then inr UdpPayloadTooLarge else
  let out := [] in
  let out := writeBigEndian16 out (udp_source_port datagram) in
  let out := writeBigEndian16 out (udp_destination_port datagram) in
  let out := writeBigEndian16 out (u16 total_length) in
  let out := writeBigEndian16 out 0 in
  let out := out ++ udp_payload datagram in
  let checksum := udpChecksum source destination out in
  let checksum := if checksum =? 0 then 65535 else checksum in
  let out := <[6%nat := Z.land (Z.shiftr checksum 8) 255]> out in
  inl (<[7%nat := Z.land checksum 255]> out).

Definition udp_ok (d : UdpDatagram) : Prop :=
  is_u16 (udp_source_port d) /\ is_u16 (udp_destination_port d) /\ bytes_ok (udp_payload d).

(** The pseudo-header's length field does not depend on the checksum bytes. *)
Lemma udpChecksum_fill s d head payload c :
  ip_ok s -> ip_ok d -> bytes_ok head -> length head = 6%nat -> bytes_ok payload ->
  Zlen payload <= 65527 ->
  let ck := udpChecksum s d (head ++ be16 0 ++ payload) in
  c = ck \/ ck = 0 /\ c = 65535 -> udpChecksum s d (head ++ be16 c ++ payload) = 0.
Proof.
  intros Hs Hd Hh Hl Hp Hlen ck. subst ck. unfold udpChecksum, writeIpv4Address, writeBigEndian16.
  rewrite !Zlen_app. change (Zlen (be16 c)) with 2. change (Zlen (be16 0)) with 2.
  set (len := u16 _). fold (be16 len). rewrite !app_assoc.
  set (pre := _ ++ head).
  rewrite <- !(app_assoc _ _ payload). intros Hc. apply checksum_fill_verifies; auto.
  - unfold pre. rewrite !bytes_ok_app. repeat split; auto with wire; repeat constructor; ulia.
  - unfold pre. rewrite !length_app, Hl. by destruct s, d.
  - unfold pre, Zlen in *. rewrite !length_app, Hl. destruct s, d; simpl. lia.
Qed.

(** A datagram that fits is serialized with a checksum that
    is never the "not provided" zero and is accepted by the parser, which
    gives the datagram back even with trailing bytes; a larger one is refused. *)
Theorem udp_roundtrip dg s d padding :
  udp_ok dg -> ip_ok s -> ip_ok d ->
  match serializeUdpDatagram dg s d with
  | inl bytes => parseUdpDatagram (bytes ++ padding) s d = Some (inl dg) /\
                 readBigEndian16 bytes 6 <> Some 0
  | inr UdpPayloadTooLarge => Zlen (udp_payload dg) > 65527
  end.
Proof.
  destruct dg as [sp dp payload]. intros (Hsp & Hdp & Hpl) Hs Hd. simpl in *.
  pose proof (Zlen_nonneg payload). pose proof (Zlen_nonneg padding).
  pose (total := u16 (8 + Zlen payload)).
  pose (head := be16 sp ++ be16 dp ++ be16 total).
  pose (ck0 := udpChecksum s d (head ++ be16 0 ++ payload)).
  pose (ck := if ck0 =? 0 then 65535 else ck0).
  assert (Hser : serializeUdpDatagram (mkUdpDatagram sp dp payload) s d =
    if 65535 <? 8 + Zlen payload then inr UdpPayloadTooLarge
    else inl (head ++ be16 ck ++ payload)) by reflexivity.
  rewrite Hser. clear Hser. destruct (Z.ltb_spec 65535 (8 + Zlen payload)) as [|Hlen]; [lia|].
  assert (Ht : total = 8 + Zlen payload) by (apply u16_id; ulia).
  assert (Hck0 : is_u16 ck0) by apply internetChecksum_u16.
  assert (Hck : is_u16 ck /\ ck <> 0).
  { unfold ck. destruct (Z.eqb_spec ck0 0); [ulia | done]. }
  assert (Hv : udpChecksum s d (head ++ be16 ck ++ payload) = 0).
  { apply udpChecksum_fill; auto; [| lia |].
    - unfold head. rewrite !bytes_ok_app. auto with wire.
    - unfold ck. fold ck0. destruct (Z.eqb_spec ck0 0); auto. }
  assert (Hhead : length (head ++ be16 ck) = 8%nat) by done.
  clearbody ck. split.
  2: { erewrite (readBigEndian16_be16 _ 6 ck); [| tauto | done | done]. destruct Hck. congruence. }
  unfold parseUdpDatagram. rewrite <- !app_assoc, !Zlen_app.
  change (Zlen head) with 6. change (Zlen (be16 ck)) with 2. zdec1.
  erewrite (readBigEndian16_be16 _ 4 total); [| unfold total; auto with wire | done | done]. cbn [mbind option_bind].
  rewrite Ht. zdec.
  erewrite (readBigEndian16_be16 _ 6 ck); [| tauto | done | done]. cbn [mbind option_bind].
  replace (take _ _) with (head ++ be16 ck ++ payload).
  2: { symmetry. rewrite !app_assoc, <- app_assoc with (n := padding). rewrite <- !app_assoc.
       rewrite !app_assoc, take_app_length'; [done|]. rewrite length_app, Hhead. unfold Zlen. lia. }
  rewrite Hv. change (negb (0 =? 0)) with false. rewrite andb_false_r.
  erewrite (readBigEndian16_be16 _ 0 sp); [| done | done | done]. cbn [mbind option_bind].
  erewrite (readBigEndian16_be16 _ 2 dp); [| done | done | done]. cbn [mbind option_bind].
  rewrite app_assoc, drop_app_length' by done. done.
Qed.

Lemma udp_roundtrip_witness :
  match serializeUdpDatagram (mkUdpDatagram 9000 53 [1; 2]) (Ipv4 10 0 0 1) (Ipv4 10 0 0 2) with
  | inl bytes => parseUdpDatagram (bytes ++ [0]) (Ipv4 10 0 0 1) (Ipv4 10 0 0 2) =
                   Some (inl (mkUdpDatagram 9000 53 [1; 2])) /\
                 readBigEndian16 bytes 6 <> Some 0
  | inr UdpPayloadTooLarge => Zlen [1; 2] > 65527
  end.
Proof.
  apply (udp_roundtrip (mkUdpDatagram 9000 53 [1; 2]) (Ipv4 10 0 0 1) (Ipv4 10 0 0 2) [0]).
  - unfold udp_ok; simpl. repeat split; try ulia. repeat constructor; ulia.
  - repeat constructor; ulia.
  - repeat constructor; ulia.
Defined.

(** ** Endpoint table

    A handler is a function of the request payload; the table maps ports to
    handlers. *)
Definition UdpHandler : Type := list Z -> list Z.
Definition UdpEndpointTable : Type := list (Z * UdpHandler).

Definition udp_bind (handlers : UdpEndpointTable) (port : Z) (handler : UdpHandler) : bool * UdpEndpointTable :=
  if port =? 0 then (false, handlers) else
  match map_find handlers port with
  | Some _ => (false, handlers)
  | None => (true, map_set handlers port handler)
  end.

Definition udp_deliver (handlers : UdpEndpointTable) (port : Z) (payload : list Z) : option (list Z) :=
  match map_find handlers port with
  | None => None
  | Some handler => Some (handler payload)
  end.

(** A successful bind makes exactly that port answer with the
    new handler and leaves the others alone; a bind of port 0 or of a taken
    port changes nothing, so the first binding wins. *)
Theorem udp_bind_deliver handlers port handler p payload :
  map_ok handlers ->
  let (ok, handlers') := udp_bind handlers port handler in
  map_ok handlers' /\
  (ok = true <-> port <> 0 /\ udp_deliver handlers port payload = None) /\
  udp_deliver handlers' p payload =
    if ok && (p =? port) then Some (handler payload) else udp_deliver handlers p payload.
Proof.
  intros Hok. unfold udp_bind, udp_deliver.
  destruct (Z.eqb_spec port 0) as [->|Hp]; [simpl; naive_solver|].
  destruct (map_find handlers port) eqn:E; simpl; [naive_solver|].
  split; [by apply map_set_ok|]. split; [done|].
  rewrite map_find_set by done.
  destruct (Z.eqb_spec p port) as [->|Hne]; [by rewrite key_eqb_refl|].
  by rewrite (proj2 (key_eqb_neq p port)).
Qed.

Lemma udp_bind_deliver_witness :
  map_ok ([] : UdpEndpointTable) /\
  let (ok, handlers') := udp_bind [] 9000 (fun l => l) in
  map_ok handlers' /\
  (ok = true <-> 9000 <> 0 /\ udp_deliver [] 9000 [1] = None) /\
  udp_deliver handlers' 9000 [1] = if ok && (9000 =? 9000) then Some [1] else udp_deliver [] 9000 [1].
Proof.
  split; [constructor|]. apply (udp_bind_deliver [] 9000 (fun l => l) 9000 [1]). constructor.
Defined.
