(* ===== verification/Tcp.v ===== *)
(** * TCP segments and options on the wire ([src/src/tcp.cpp])

    Segment parsing and serializing with the pseudo-header checksum, and the
    option parser. A result of [None] stands for a read outside the buffer or
    a loop that does not finish; both are proved impossible. *)

From S2P Require Import Prelude StdMap Checksum Addresses.

Record TcpFlags := mkTcpFlags {
  fin : bool; syn : bool; rst : bool; psh : bool;
  ack : bool; urg : bool; ece : bool; cwr : bool
}.

#[export] Instance eta_TcpFlags : Eta TcpFlags := fun f =>
  mkTcpFlags (fin f) (syn f) (rst f) (psh f) (ack f) (urg f) (ece f) (cwr f).

(** [TcpFlags{}]: every member initialised to false. *)
Definition no_flags : TcpFlags := mkTcpFlags false false false false false false false false.

Record TcpSegment := mkTcpSegment {
  source_port : Z;
  destination_port : Z;
  sequence_number : Z;
  acknowledgment_number : Z;
  flags : TcpFlags;
  window_size : Z;
  urgent_pointer : Z;
  options : list Z;
  payload : list Z
}.

#[export] Instance eta_TcpSegment : Eta TcpSegment := fun s =>
  mkTcpSegment (source_port s) (destination_port s) (sequence_number s) (acknowledgment_number s)
    (flags s) (window_size s) (urgent_pointer s) (options s) (payload s).

Inductive TcpParseError := TooShort | TooLong | InvalidDataOffset | BadChecksum.
Inductive TcpSerializeError := PayloadTooLarge | UnalignedOptions | OptionsTooLong.

Definition kMaxTcpSegmentLength : Z := 65535.
Definition kMaxTcpOptionsLength : Z := 40.
Definition kMinHeaderSize : Z := 20.

Definition bit_set (byte mask : Z) : bool := negb (Z.land byte mask =? 0).

Definition decodeFlags (byte : Z) : TcpFlags :=
  {| fin := bit_set byte 1; syn := bit_set byte 2; rst := bit_set byte 4; psh := bit_set byte 8;
     ack := bit_set byte 16; urg := bit_set byte 32; ece := bit_set byte 64; cwr := bit_set byte 128 |}.

Definition encodeFlags (f : TcpFlags) : Z :=
  let byte := 0 in
  let byte := if fin f then Z.lor byte 1 else byte in
  let byte := if syn f then Z.lor byte 2 else byte in
  let byte := if rst f then Z.lor byte 4 else byte in
  let byte := if psh f then Z.lor byte 8 else byte in
  let byte := if ack f then Z.lor byte 16 else byte in
  let byte := if urg f then Z.lor byte 32 else byte in
  let byte := if ece f then Z.lor byte 64 else byte in
  if cwr f then Z.lor byte 128 else byte.

Definition tcpChecksum (source destination : Ipv4Address) (tcp_bytes : list Z) : Z :=
  let buffer := [] in
  let buffer := writeIpv4Address buffer source in
  let buffer := writeIpv4Address buffer destination in
  let buffer := buffer ++ [0] in
  let buffer := buffer ++ [6] in
  let buffer := writeBigEndian16 buffer (u16 (Zlen tcp_bytes)) in
  internetChecksum (buffer ++ tcp_bytes).

Definition parseTcpSegment (bytes : list Z) (source destination : Ipv4Address) :
    option (TcpSegment + TcpParseError) :=
  if Zlen bytes <? kMinHeaderSize then Some (inr TooShort) else
  if kMaxTcpSegmentLength <? Zlen bytes then Some (inr TooLong) else
  data_offset_byte ← bytes !! 12%nat;
  let data_offset_field := u8 (Z.shiftr data_offset_byte 4) in
  let header_length := data_offset_field * 4 in
  if (data_offset_field <? 5) || (Zlen bytes <? header_length) then Some (inr InvalidDataOffset) else
  if negb (tcpChecksum source destination bytes =? 0) then Some (inr BadChecksum) else
  source_port ← readBigEndian16 bytes 0;
  destination_port ← readBigEndian16 bytes 2;
  sequence_number ← readBigEndian32 bytes 4;
  acknowledgment_number ← readBigEndian32 bytes 8;
  flags_byte ← bytes !! 13%nat;
  window_size ← readBigEndian16 bytes 14;
  urgent_pointer ← readBigEndian16 bytes 18;
  Some (inl {| source_port := source_port; destination_port := destination_port;
               sequence_number := sequence_number; acknowledgment_number := acknowledgment_number;
               flags := decodeFlags flags_byte; window_size := window_size;
               urgent_pointer := urgent_pointer;
               options := take (Z.to_nat (header_length - kMinHeaderSize)) (drop 20 bytes);
               payload := drop (Z.to_nat header_length) bytes |}).

Definition serializeTcpSegment (segment : TcpSegment) (source destination : Ipv4Address) :
    list Z + TcpSerializeError :=
  if negb (Zlen (options segment) mod 4 =? 0) then inr UnalignedOptions else
  if kMaxTcpOptionsLength <? Zlen (options segment) then inr OptionsTooLong else
  let total_length := kMinHeaderSize + Zlen (options segment) + Zlen (payload segment) in
  if kMaxTcpSegmentLength <? total_length then inr PayloadTooLarge else
  let data_offset := u8 ((kMinHeaderSize + Zlen (options segment)) / 4) in
  let out := [] in
  let out := writeBigEndian16 out (source_port segment) in
  let out := writeBigEndian16 out (destination_port segment) in
  let out := writeBigEndian32 out (sequence_number segment) in
  let out := writeBigEndian32 out (acknowledgment_number segment) in
  let out := out ++ [u8 (Z.shiftl data_offset 4)] in
  let out := out ++ [encodeFlags (flags segment)] in
  let out := writeBigEndian16 out (window_size segment) in
  let out := writeBigEndian16 out 0 in
  let out := writeBigEndian16 out (urgent_pointer segment) in
  let out := out ++ options segment in
  let out := out ++ payload segment in
  let checksum := tcpChecksum source destination out in
  let out := <[16%nat := Z.land (Z.shiftr checksum 8) 255]> out in
  inl (<[17%nat := Z.land checksum 255]> out).

(** ** Options *)

Record TcpSackBlock := mkTcpSackBlock { left_edge : Z; right_edge : Z }.

Record TcpParsedOptions := mkTcpParsedOptions {
  maximum_segment_size : option Z;
  window_scale : option Z;
  opt_sack_permitted : bool;
  sack_blocks : list TcpSackBlock
}.

#[export] Instance eta_TcpParsedOptions : Eta TcpParsedOptions := fun o =>
  mkTcpParsedOptions (maximum_segment_size o) (window_scale o) (opt_sack_permitted o) (sack_blocks o).

Definition no_options : TcpParsedOptions := mkTcpParsedOptions None None false [].

Inductive TcpOptionParseError :=
| MissingLength | InvalidLength | TruncatedOption | DuplicateMss | DuplicateWindowScale
| InvalidMss | DuplicateSackPermitted | DuplicateSack | InvalidSackPermittedLength | InvalidSackLength.

(** The inner loop over [block_count] SACK blocks from [block_offset]. *)
Fixpoint readSackBlocks (block_count : nat) (options : list Z) (block_offset : nat) :
    option (list TcpSackBlock) :=
  match block_count with
  | O => Some []
  | S n =>
      left ← readBigEndian32 options block_offset;
      right ← readBigEndian32 options (block_offset + 4);
      rest ← readSackBlocks n options (block_offset + 8);
      Some (mkTcpSackBlock left right :: rest)
  end.

(** One option of a known or unknown kind at index [i], with its declared
    [length] already checked against the buffer. *)
Definition parseOneOption (options : list Z) (i : nat) (kind length : Z) (parsed : TcpParsedOptions) :
    option (TcpParsedOptions + TcpOptionParseError) :=
  if kind =? 2 then
    if negb (length =? 4) then Some (inr TruncatedOption) else
    if has_value (maximum_segment_size parsed) then Some (inr DuplicateMss) else
    value ← readBigEndian16 options (i + 2);
    if value =? 0 then Some (inr InvalidMss) else
    Some (inl (parsed <| maximum_segment_size := Some value |>))
  else if kind =? 3 then
    if negb (length =? 3) then Some (inr TruncatedOption) else
    if has_value (window_scale parsed) then Some (inr DuplicateWindowScale) else
    shift ← options !! (i + 2)%nat;
    Some (inl (parsed <| window_scale := Some shift |>))
  else if kind =? 4 then
    if negb (length =? 2) then Some (inr InvalidSackPermittedLength) else
    if opt_sack_permitted parsed then Some (inr DuplicateSackPermitted) else
    Some (inl (parsed <| opt_sack_permitted := true |>))
  else if kind =? 5 then
    if negb (length =? 10) && negb (length =? 18) && negb (length =? 26) && negb (length =? 34)
    then Some (inr InvalidSackLength) else
    if negb (empty (sack_blocks parsed)) then Some (inr DuplicateSack) else
    let block_count := (length - 2) / 8 in
    blocks ← readSackBlocks (Z.to_nat block_count) options (i + 2);
    Some (inl (parsed <| sack_blocks := sack_blocks parsed ++ blocks |>))
  else Some (inl parsed).

(** The [while (i < options.size())] loop; each round advances [i], so
    [S (length options)] rounds are enough. *)
Fixpoint parseTcpOptions_loop (fuel : nat) (options : list Z) (i : nat) (parsed : TcpParsedOptions) :
    option (TcpParsedOptions + TcpOptionParseError) :=
  match fuel with
  | O => None
  | S fuel =>
      if negb (Z.of_nat i <? Zlen options) then Some (inl parsed) else
      kind ← options !! i;
      if kind =? 0 then Some (inl parsed) else
      if kind =? 1 then parseTcpOptions_loop fuel options (i + 1) parsed else
      if Zlen options <=? Z.of_nat i + 1 then Some (inr MissingLength) else
      length ← options !! (i + 1)%nat;
      if length <? 2 then Some (inr InvalidLength) else
      if Zlen options <? Z.of_nat i + length then Some (inr TruncatedOption) else
      r ← parseOneOption options i kind length parsed;
      match r with
      | inr e => Some (inr e)
      | inl parsed => parseTcpOptions_loop fuel options (i + Z.to_nat length) parsed
      end
  end.

Definition parseTcpOptions (options : list Z) : option (TcpParsedOptions + TcpOptionParseError) :=
  parseTcpOptions_loop (S (length options)) options 0 no_options.

(** ** The option parser is total and its results are well formed *)

Definition sack_block_ok (b : TcpSackBlock) : Prop := is_u32 (left_edge b) /\ is_u32 (right_edge b).

(** What the connection code relies on: a present MSS is positive, a present
    shift is a byte, and there are at most four SACK blocks. *)
Definition options_ok (o : TcpParsedOptions) : Prop :=
  (forall v, maximum_segment_size o = Some v -> 1 <= v < 2 ^ 16) /\
  (forall s, window_scale o = Some s -> is_u8 s) /\
  (length (sack_blocks o) <= 4)%nat /\ Forall sack_block_ok (sack_blocks o).

Lemma readSackBlocks_total n opts off :
  Z.of_nat off + 8 * Z.of_nat n <= Zlen opts ->
  exists bs, readSackBlocks n opts off = Some bs /\ length bs = n /\
    (bytes_ok opts -> Forall sack_block_ok bs).
Proof.
  revert off; induction n as [|n IH]; intros off H; simpl; [eauto|].
  destruct (readBigEndian32_Some opts off) as [l Hl]; [lia|].
  destruct (readBigEndian32_Some opts (off + 4)) as [r Hr]; [lia|].
  destruct (IH (off + 8)%nat) as (bs & Hbs & Hlen & Hok); [lia|].
  rewrite Hl, Hr, Hbs. simpl. eexists. split; [done|]. split; [simpl; lia|].
  intros Hb. constructor; [|auto]. split; by eapply readBigEndian32_range.
Qed.

Lemma parseOneOption_total opts i kind len parsed :
  2 <= len -> Z.of_nat i + len <= Zlen opts ->
  exists r, parseOneOption opts i kind len parsed = Some r /\
    (bytes_ok opts -> options_ok parsed -> match r with inl p => options_ok p | inr _ => True end).
Proof.
  intros Hlen Hi. unfold parseOneOption.
  destruct (Z.eqb_spec kind 2).
  { destruct (Z.eqb_spec len 4); simpl; [|by eexists]. destruct (has_value _); [by eexists|].
    destruct (readBigEndian16_Some opts (i + 2)) as (v & Hv & Hr); [lia|]. rewrite Hv. simpl.
    destruct (Z.eqb_spec v 0); eexists; (split; [done|]); [done|].
    intros _ (_ & H2 & H3 & H4). split; [|done]. simpl. intros ? [= <-]. unfold is_u16 in Hr. lia. }
  destruct (Z.eqb_spec kind 3).
  { destruct (Z.eqb_spec len 3); simpl; [|by eexists]. destruct (has_value _); [by eexists|].
    destruct (lookup_in_range opts (i + 2)) as [v Hv]; [lia|]. rewrite Hv. simpl.
    eexists; split; [done|]. intros Hb (H1 & _ & H3 & H4). split; [done|]. split; [|done]. simpl.
    intros ? [= <-]. by eapply bytes_ok_lookup. }
  destruct (Z.eqb_spec kind 4).
  { destruct (Z.eqb_spec len 2); simpl; [|by eexists]. destruct (opt_sack_permitted parsed); by eexists. }
  destruct (Z.eqb_spec kind 5); [|by eexists].
  destruct (negb (len =? 10) && negb (len =? 18) && negb (len =? 26) && negb (len =? 34)) eqn:E; [by eexists|].
  destruct (sack_blocks parsed) eqn:Es; simpl; [|by eexists].
  assert (Hc : (len - 2) / 8 <= 4 /\ (len - 2) / 8 * 8 <= len - 2).
  { split; [|ulia]. rewrite !andb_false_iff, !negb_false_iff, !Z.eqb_eq in E.
    destruct E as [[[->| ->]| ->]| ->]; vm_compute; discriminate. }
  destruct (readSackBlocks_total (Z.to_nat ((len - 2) / 8)) opts (i + 2)) as (bs & Hbs & Hl & Hok);
    [ulia|].
  rewrite Hbs. simpl. eexists; split; [done|]. intros Hb (H1 & H2 & _ & _).
  unfold options_ok. simpl. split_and!; auto. lia.
Qed.

Lemma parseTcpOptions_loop_total fuel opts i parsed :
  Z.of_nat i <= Zlen opts < Z.of_nat i + Z.of_nat fuel ->
  exists r, parseTcpOptions_loop fuel opts i parsed = Some r /\
    (bytes_ok opts -> options_ok parsed -> match r with inl p => options_ok p | inr _ => True end).
Proof.
  revert i parsed; induction fuel as [|fuel IH]; intros i parsed Hf; [lia|].
  cbn [parseTcpOptions_loop].
  destruct (Z.ltb_spec (Z.of_nat i) (Zlen opts)); cbn [negb]; [|by eexists].
  destruct (lookup_in_range opts i) as [kind Hk]; [lia|]. rewrite Hk. cbn [mbind option_bind].
  destruct (kind =? 0); [by eexists|]. destruct (kind =? 1); [apply IH; lia|].
  destruct (Z.leb_spec (Zlen opts) (Z.of_nat i + 1)); [by eexists|].
  destruct (lookup_in_range opts (i + 1)) as [len Hl]; [lia|]. rewrite Hl. cbn [mbind option_bind].
  destruct (Z.ltb_spec len 2); [by eexists|].
  destruct (Z.ltb_spec (Zlen opts) (Z.of_nat i + len)); [by eexists|].
  destruct (parseOneOption_total opts i kind len parsed) as (r & Hr & Hok); [lia | lia |].
  rewrite Hr. cbn [mbind option_bind]. destruct r as [p|e]; [|by eexists].
  destruct (IH (i + Z.to_nat len)%nat p) as (r & Hr' & Hok'); [lia|].
  rewrite Hr'. eexists. split; [done|]. intros. by apply Hok', Hok.
Qed.

Lemma options_ok_no_options : options_ok no_options.
Proof. unfold options_ok; simpl. split_and!; try done. lia. Qed.

(** The form the connection code uses: some outcome, and if it is a value it
    is well formed. *)
Lemma parseTcpOptions_total opts :
  exists r, parseTcpOptions opts = Some r /\
    (bytes_ok opts -> match r with inl p => options_ok p | inr _ => True end).
Proof.
  destruct (parseTcpOptions_loop_total (S (length opts)) opts 0 no_options) as (r & Hr & Hok).
  { unfold Zlen. lia. }
  exists r. split; [exact Hr|]. intros. apply Hok; auto using options_ok_no_options.
Qed.

(** Every parser that sees bytes from the wire terminates and
    stays inside its buffer on every input: the TCP segment parser and the
    option parser always produce a value or one of their declared errors, and
    a parsed option set has a positive MSS, a byte-sized window shift and at
    most four SACK blocks. *)
Theorem tcp_parsers_memory_safe bytes opts source destination :
  (exists r, parseTcpSegment bytes source destination = Some r) /\
  (exists r, parseTcpOptions opts = Some r) /\
  (forall o, bytes_ok opts -> parseTcpOptions opts = Some (inl o) -> options_ok o).
Proof.
  split; [|split].
  - unfold parseTcpSegment, kMinHeaderSize, kMaxTcpSegmentLength.
    destruct (Z.ltb_spec (Zlen bytes) 20); [eauto|]. destruct (Z.ltb_spec 65535 (Zlen bytes)); [eauto|].
    destruct (lookup_in_range bytes 12) as [b Hb]; [lia|]. rewrite Hb. cbn [mbind option_bind].
    destruct (_ || _); [eauto|]. destruct (negb _); [eauto|]. read_ok. eauto.
  - destruct (parseTcpOptions_total opts) as (r & Hr & _). eauto.
  - intros o Hok Ho. destruct (parseTcpOptions_total opts) as (r & Hr & H).
    rewrite Hr in Ho. injection Ho as ->. auto.
Qed.

Lemma tcp_parsers_memory_safe_witness :
  bytes_ok [2; 4; 5; 180; 1; 3; 3; 2] /\
  (exists o, parseTcpOptions [2; 4; 5; 180; 1; 3; 3; 2] = Some (inl o) /\ options_ok o).
Proof.
  assert (H : bytes_ok [2; 4; 5; 180; 1; 3; 3; 2]) by (repeat constructor; ulia).
  split; [exact H|]. eexists. split; [vm_compute; reflexivity|].
  apply (proj2 (proj2 (tcp_parsers_memory_safe [] [2; 4; 5; 180; 1; 3; 3; 2]
    (Ipv4 0 0 0 0) (Ipv4 0 0 0 0)))); [exact H | vm_compute; reflexivity].
Defined.

(** ** Segment round trip *)

Definition segment_ok (s : TcpSegment) : Prop :=
  is_u16 (source_port s) /\ is_u16 (destination_port s) /\ is_u32 (sequence_number s) /\
  is_u32 (acknowledgment_number s) /\ is_u16 (window_size s) /\ is_u16 (urgent_pointer s) /\
  bytes_ok (options s) /\ bytes_ok (payload s).

Lemma decode_encodeFlags f : decodeFlags (encodeFlags f) = f.
Proof. destruct f as [[] [] [] [] [] [] [] []]; reflexivity. Qed.

Lemma encodeFlags_u8 f : is_u8 (encodeFlags f).
Proof. destruct f as [[] [] [] [] [] [] [] []]; vm_compute; split; congruence. Qed.

Lemma tcpChecksum_fill s d head rest :
  ip_ok s -> ip_ok d -> bytes_ok head -> length head = 16%nat -> bytes_ok rest ->
  Zlen rest <= 65517 ->
  tcpChecksum s d (head ++ be16 (tcpChecksum s d (head ++ be16 0 ++ rest)) ++ rest) = 0.
Proof.
  intros Hs Hd Hh Hl Hp Hlen. set (c := tcpChecksum s d (head ++ be16 0 ++ rest)).
  assert (Hc : c = tcpChecksum s d (head ++ be16 0 ++ rest)) by done. clearbody c. revert Hc.
  unfold tcpChecksum, writeIpv4Address, writeBigEndian16.
  rewrite !Zlen_app. change (Zlen (be16 c)) with 2. change (Zlen (be16 0)) with 2.
  set (len := u16 _). fold (be16 len). rewrite !app_assoc.
  set (pre := _ ++ head).
  rewrite <- !(app_assoc _ _ rest). intros Hc. apply checksum_fill_verifies; auto.
  - unfold pre. rewrite !bytes_ok_app. repeat split; auto with wire; repeat constructor; ulia.
  - unfold pre. rewrite !length_app, Hl. by destruct s, d.
  - unfold pre, Zlen in *. rewrite !length_app, Hl. destruct s, d; simpl. lia.
Qed.

(** The bytes of a segment before and after its checksum. *)
Definition segment_offset (seg : TcpSegment) : Z := u8 ((20 + Zlen (options seg)) / 4).
Definition segment_head (seg : TcpSegment) : list Z :=
  be16 (source_port seg) ++ be16 (destination_port seg) ++ be32 (sequence_number seg) ++ be32 (acknowledgment_number seg) ++
  [u8 (Z.shiftl (segment_offset seg) 4); encodeFlags (flags seg)] ++ be16 (window_size seg).
Definition segment_rest (seg : TcpSegment) : list Z := be16 (urgent_pointer seg) ++ options seg ++ payload seg.

Lemma serialize_layout seg s d : serializeTcpSegment seg s d =
  if negb (Zlen (options seg) mod 4 =? 0) then inr UnalignedOptions else
  if 40 <? Zlen (options seg) then inr OptionsTooLong else
  if 65535 <? 20 + Zlen (options seg) + Zlen (payload seg) then inr PayloadTooLarge else
  inl (segment_head seg ++ be16 (tcpChecksum s d (segment_head seg ++ be16 0 ++ segment_rest seg)) ++ segment_rest seg).
Proof.
  destruct seg. unfold serializeTcpSegment. simpl payload. rewrite <- app_assoc. reflexivity.
Qed.

Lemma segment_verifies seg s d : segment_ok seg -> ip_ok s -> ip_ok d -> Zlen (options seg) + Zlen (payload seg) <= 65515 ->
  tcpChecksum s d (segment_head seg ++ be16 (tcpChecksum s d (segment_head seg ++ be16 0 ++ segment_rest seg)) ++ segment_rest seg) = 0.
Proof.
  intros (Hsp & Hdp & Hsq & Han & Hwin & Hup & Hopts & Hpl) Hs Hd Hl. apply tcpChecksum_fill; auto.
  - unfold segment_head. rewrite !bytes_ok_app. repeat split; auto with wire.
    repeat constructor; auto using encodeFlags_u8 with wire. 1,2: apply u8_range. all: apply encodeFlags_u8.
  - unfold segment_rest. rewrite !bytes_ok_app. auto with wire.
  - unfold segment_rest. rewrite !Zlen_app. change (Zlen (be16 _)) with 2. lia.
Qed.

(** A segment laid out with a checksum that verifies parses to itself. *)
Lemma parse_layout seg s d ck : segment_ok seg -> is_u16 ck -> Zlen (options seg) mod 4 = 0 -> Zlen (options seg) <= 40 ->
  20 + Zlen (options seg) + Zlen (payload seg) <= 65535 -> tcpChecksum s d (segment_head seg ++ be16 ck ++ segment_rest seg) = 0 ->
  parseTcpSegment (segment_head seg ++ be16 ck ++ segment_rest seg) s d = Some (inl seg).
Proof.
  destruct seg as [sp dp sq an fl win up opts pl]. intros (Hsp & Hdp & Hsq & Han & Hwin & Hup & Hopts & Hpl) Hck Hm H40 Hl Hv.
  unfold segment_head, segment_rest in *. cbn [options payload source_port destination_port sequence_number acknowledgment_number flags window_size urgent_pointer] in *.
  pose proof (Zlen_nonneg opts). pose proof (Zlen_nonneg pl). set (off := segment_offset _) in *.
  assert (Hoff : off = (20 + Zlen opts) / 4) by (apply u8_id; ulia). assert (Hoff4 : off * 4 = 20 + Zlen opts) by ulia. clearbody off.
  assert (Hfield : u8 (Z.shiftr (u8 (Z.shiftl off 4)) 4) = off).
  { rewrite Z.shiftl_mul_pow2, Z.shiftr_div_pow2 by lia. change (2 ^ 4) with 16. ulia. }
  set (head := be16 sp ++ _) in *. set (rest := be16 up ++ _) in *. unfold parseTcpSegment, kMinHeaderSize, kMaxTcpSegmentLength. rewrite Hv.
  assert (Hlen : Zlen (head ++ be16 ck ++ rest) = 20 + Zlen opts + Zlen pl).
  { unfold rest. rewrite !Zlen_app. change (Zlen head) with 16. change (Zlen (be16 _)) with 2. lia. }
  rewrite Hlen. zdec1. zdec1.
  change ((head ++ be16 ck ++ rest) !! 12%nat) with (Some (u8 (Z.shiftl off 4))). cbn [mbind option_bind].
  rewrite Hfield, Hoff4. zdec. change (0 =? 0) with true. cbn [negb].
  erewrite (readBigEndian16_be16 _ 0 sp); [| done | done | done]. cbn [mbind option_bind].
  erewrite (readBigEndian16_be16 _ 2 dp); [| done | done | done]. cbn [mbind option_bind].
  erewrite (readBigEndian32_be32 _ 4 sq); [| done | done | done | done | done]. cbn [mbind option_bind].
  erewrite (readBigEndian32_be32 _ 8 an); [| done | done | done | done | done]. cbn [mbind option_bind].
  change ((head ++ be16 ck ++ rest) !! 13%nat) with (Some (encodeFlags fl)). cbn [mbind option_bind].
  erewrite (readBigEndian16_be16 _ 14 win); [| done | done | done]. cbn [mbind option_bind].
  erewrite (readBigEndian16_be16 _ 18 up); [| done | done | done]. cbn [mbind option_bind].
  rewrite decode_encodeFlags. do 3 f_equal.
  - change (drop 20 (head ++ be16 ck ++ rest)) with (drop 0 (opts ++ pl)).
    rewrite drop_0, take_app_length'; [done|]. unfold Zlen. lia.
  - replace (Z.to_nat (20 + Zlen opts)) with (20 + length opts)%nat by (unfold Zlen; lia).
    rewrite <- drop_drop. change (drop 20 (head ++ be16 ck ++ rest)) with (drop 0 (opts ++ pl)).
    by rewrite drop_0, drop_app_length.
Qed.

(** Serializing a segment either refuses it with the error
    its size calls for (unaligned options, options over 40 bytes, total over
    65535 bytes) or yields bytes whose checksum the parser accepts and that
    parse back to the same segment. *)
Theorem tcp_segment_roundtrip seg s d :
  segment_ok seg -> ip_ok s -> ip_ok d ->
  match serializeTcpSegment seg s d with
  | inl bytes => parseTcpSegment bytes s d = Some (inl seg)
  | inr UnalignedOptions => Zlen (options seg) mod 4 <> 0
  | inr OptionsTooLong => Zlen (options seg) mod 4 = 0 /\ Zlen (options seg) > 40
  | inr PayloadTooLarge => Zlen (options seg) <= 40 /\
      20 + Zlen (options seg) + Zlen (payload seg) > 65535
  end.
Proof.
  intros Hok Hs Hd. rewrite serialize_layout. destruct (Z.eqb_spec (Zlen (options seg) mod 4) 0) as [Hm|]; cbn [negb]; [|done].
  destruct (Z.ltb_spec 40 (Zlen (options seg))); [lia|].
  destruct (Z.ltb_spec 65535 (20 + Zlen (options seg) + Zlen (payload seg))); [lia|].
  apply parse_layout; try done; [apply internetChecksum_u16 | apply segment_verifies; done || lia].
Qed.

Lemma tcp_segment_roundtrip_witness :
  let seg := mkTcpSegment 80 4000 (2 ^ 32 - 1) 7 (no_flags <| syn := true |> <| ack := true |>)
               65535 0 [2; 4; 5; 180] [104; 105] in
  match serializeTcpSegment seg (Ipv4 10 0 0 1) (Ipv4 10 0 0 2) with
  | inl bytes => parseTcpSegment bytes (Ipv4 10 0 0 1) (Ipv4 10 0 0 2) = Some (inl seg)
  | inr UnalignedOptions => Zlen (options seg) mod 4 <> 0
  | inr OptionsTooLong => Zlen (options seg) mod 4 = 0 /\ Zlen (options seg) > 40
  | inr PayloadTooLarge => Zlen (options seg) <= 40 /\
      20 + Zlen (options seg) + Zlen (payload seg) > 65535
  end.
Proof.
  intros seg. apply tcp_segment_roundtrip.
  - unfold segment_ok; simpl. repeat split; try ulia; repeat constructor; ulia.
  - repeat constructor; ulia.
  - repeat constructor; ulia.
Defined.
