(* ===== verification/SeqNum.v ===== *)
(** * Sequence-number arithmetic ([src/src/tcp_connection.cpp], lines 12-30)

    The wraparound comparisons, and the fact every later proof uses: on the
    32-bit images of two positions less than 2^31 apart they decide the
    order of the positions. *)

From S2P Require Import Prelude.

Definition sequenceGreater (a b : Z) : bool := 0 <? i32 (a - b).
Definition sequenceLessOrEqual (a b : Z) : bool := 0 <=? i32 (b - a).
Definition sequenceMax (a b : Z) : Z := if sequenceGreater a b then a else b.
Definition sequenceMin (a b : Z) : Z := if sequenceGreater a b then b else a.

Lemma i32_small x : - 2 ^ 31 <= x < 2 ^ 31 -> i32 x = x.
Proof. intros H. unfold i32. zcases; ulia. Qed.

Lemma i32_u32 x : i32 (u32 x) = i32 x.
Proof. unfold i32. by rewrite u32_u32. Qed.

Lemma i32_sub_u32 x y : i32 (u32 x - u32 y) = i32 (x - y).
Proof. rewrite <- i32_u32, <- (i32_u32 (x - y)). f_equal. by u32_norm. Qed.

Lemma sequenceGreater_abs A B :
  - 2 ^ 31 <= A - B < 2 ^ 31 -> sequenceGreater (u32 A) (u32 B) = (B <? A).
Proof. intros. unfold sequenceGreater. rewrite i32_sub_u32, i32_small by lia. zcases; lia. Qed.

Lemma sequenceLessOrEqual_abs A B :
  - 2 ^ 31 <= B - A < 2 ^ 31 -> sequenceLessOrEqual (u32 A) (u32 B) = (A <=? B).
Proof. intros. unfold sequenceLessOrEqual. rewrite i32_sub_u32, i32_small by lia. zcases; lia. Qed.

Lemma sequenceMax_abs A B :
  - 2 ^ 31 <= A - B < 2 ^ 31 -> sequenceMax (u32 A) (u32 B) = u32 (Z.max A B).
Proof. intros. unfold sequenceMax. rewrite sequenceGreater_abs by lia. zcases; f_equal; lia. Qed.

Lemma sequenceMin_abs A B :
  - 2 ^ 31 <= A - B < 2 ^ 31 -> sequenceMin (u32 A) (u32 B) = u32 (Z.min A B).
Proof. intros. unfold sequenceMin. rewrite sequenceGreater_abs by lia. zcases; f_equal; lia. Qed.

(** The position of [x] closest to [base]: [x] read as a signed distance. *)
Definition near (base x : Z) : Z := base + i32 (x - base).

Lemma i32_range x : - 2 ^ 31 <= i32 x < 2 ^ 31.
Proof. unfold i32. zcases; ulia. Qed.

Lemma u32_i32 x : u32 (i32 x) = u32 x.
Proof. unfold i32. zcases; ulia. Qed.

Lemma near_u32 base x : is_u32 x -> u32 (near base x) = x.
Proof.
  intros Hx. unfold near. rewrite <- u32_add_r, u32_i32, u32_add_r.
  replace (base + (x - base)) with x by lia. by apply u32_id.
Qed.

Lemma near_range base x : - 2 ^ 31 <= near base x - base < 2 ^ 31.
Proof. unfold near. pose proof (i32_range (x - base)). lia. Qed.

Lemma u32_eq_near A B : u32 A = u32 B -> - 2 ^ 32 < A - B < 2 ^ 32 -> A = B.
Proof. intros H1 H2. ulia. Qed.
