(* ===== verification/TcpState.v ===== *)
(** * Connection state ([src/include/wirestack/tcp_connection.hpp])

    The data of the TCP component: constants, the nine connection states,
    the pending-transmission and reassembly entries, the connection control
    block with its defaults, and the result types of the operations. Times
    and durations are integers in nanoseconds ([std::chrono::steady_clock]). *)

From S2P Require Import Prelude StdMap Addresses Tcp.

(** ** Constants *)


Definition kInitialRto : Z := milliseconds 1000.
Definition kMinRto : Z := milliseconds 1000.
Definition kMaxRto : Z := milliseconds 60000.
Definition kRtoGranularity : Z := milliseconds 1.
Definition kMaxRetransmits : Z := 5.
Definition kTimeWaitDuration : Z := seconds 60.
Definition kInitialSsthresh : Z := 65535.
Definition kMaxCongestionWindow : Z := 2 ^ 30.
Definition kInitialCongestionWindowFloor : Z := 14600.
Definition kTcpSendBufferCapacity : Z := 256 * 1024.
Definition kInitialPersistInterval : Z := milliseconds 1000.
Definition kMaxPersistInterval : Z := milliseconds 60000.
Definition kTcpMss : Z := 1460.
Definition kDefaultPeerMss : Z := 536.
Definition kMaxApplicationSendSize : Z := 65535.
Definition kMaxSegmentsPerSend : Z := 128.
Definition kTcpReceiveCapacity : Z := 262140.
Definition kMaxReassemblyFragments : Z := 128.
Definition kLocalWindowScaleShift : Z := 2.
Definition kMaxWindowScaleShift : Z := 14.

(** ** State *)

Inductive TcpState :=
| SynSent | SynReceived | Established | FinWait1 | FinWait2 | CloseWait | Closing | LastAck | TimeWait.

#[export] Instance TcpState_eq_dec : EqDecision TcpState.
Proof. solve_decision. Defined.

Definition state_eqb (a b : TcpState) : bool := bool_decide (a = b).

Record TcpConnectionKey := mkKey {
  local_ip : Ipv4Address;
  local_port : Z;
  remote_ip : Ipv4Address;
  remote_port : Z
}.

Definition key_fields (k : TcpConnectionKey) : list Z :=
  ip_bytes (local_ip k) ++ [local_port k] ++ ip_bytes (remote_ip k) ++ [remote_port k].

Lemma key_fields_inj a b : key_fields a = key_fields b -> a = b.
Proof. destruct a as [[] ? [] ?], b as [[] ? [] ?]. unfold key_fields. simpl. congruence. Qed.

#[export] Instance KeyOrder_TcpConnectionKey : KeyOrder TcpConnectionKey :=
  KeyOrder_lex key_fields key_fields_inj.

Record PendingTransmission := mkPending {
  sequence_start : Z;
  is_syn : bool;
  is_active_syn : bool;
  is_fin : bool;
  p_flags : TcpFlags;
  p_payload : list Z;
  first_sent_at : Z;
  last_sent_at : Z;
  timeout_interval : Z;
  timeout_retransmit_count : Z;
  was_retransmitted : bool;
  rtt_sample_taken : bool;
  sacked : bool;
  retransmitted_in_recovery : bool
}.

#[export] Instance eta_PendingTransmission : Eta PendingTransmission := fun p =>
  mkPending (sequence_start p) (is_syn p) (is_active_syn p) (is_fin p) (p_flags p) (p_payload p)
    (first_sent_at p) (last_sent_at p) (timeout_interval p) (timeout_retransmit_count p)
    (was_retransmitted p) (rtt_sample_taken p) (sacked p) (retransmitted_in_recovery p).

(** [PendingTransmission pending;] with the fields every call site assigns. *)
Definition new_pending (start : Z) (f : TcpFlags) (now timeout : Z) : PendingTransmission :=
  mkPending start false false false f [] now now timeout 0 false false false false.

Definition sequenceEnd (p : PendingTransmission) : Z :=
  u32 (sequence_start p + u32 (Zlen (p_payload p)) +
       (if is_syn p then 1 else 0) + (if is_fin p then 1 else 0)).

Record TcpReassemblyFragment := mkFragment {
  frag_start : Z;
  frag_payload : list Z
}.

Definition frag_sequenceEnd (f : TcpReassemblyFragment) : Z :=
  u32 (frag_start f + u32 (Zlen (frag_payload f))).

Record TcpAckRetirementResult := mkRetirement {
  newly_acked_sequence_space : Z;
  newly_acked_data_bytes : Z;
  ack_advanced : bool;
  r_rtt_sample_taken : bool
}.

Record Connection := mkConnection {
  state : TcpState;
  remote_isn : Z;
  remote_isn_known : bool;
  local_isn : Z;
  rcv_nxt : Z;
  snd_una : Z;
  snd_nxt : Z;
  pending : list PendingTransmission;
  local_fin_seq : option Z;
  time_wait_deadline : option Z;
  pending_removal : bool;
  snd_wnd : Z;
  snd_wl1 : Z;
  snd_wl2 : Z;
  out_of_order : list TcpReassemblyFragment;
  pending_fin_seq : option Z;
  peer_mss : Z;
  effective_send_mss : Z;
  peer_window_scale : Z;
  local_window_scale : Z;
  window_scaling_enabled : bool;
  sack_permitted : bool;
  has_rtt_sample : bool;
  srtt : Z;
  rttvar : Z;
  current_rto : Z;
  cwnd : Z;
  ssthresh : Z;
  duplicate_ack_count : Z;
  in_fast_recovery : bool;
  recovery_point : Z;
  congestion_avoidance_acked_bytes : Z;
  unsent : list Z;
  close_requested : bool;
  persist_deadline : option Z;
  persist_interval : Z
}.

#[export] Instance eta_Connection : Eta Connection := fun c =>
  mkConnection (state c) (remote_isn c) (remote_isn_known c) (local_isn c) (rcv_nxt c) (snd_una c)
    (snd_nxt c) (pending c) (local_fin_seq c) (time_wait_deadline c) (pending_removal c) (snd_wnd c)
    (snd_wl1 c) (snd_wl2 c) (out_of_order c) (pending_fin_seq c) (peer_mss c) (effective_send_mss c)
    (peer_window_scale c) (local_window_scale c) (window_scaling_enabled c) (sack_permitted c)
    (has_rtt_sample c) (srtt c) (rttvar c) (current_rto c) (cwnd c) (ssthresh c)
    (duplicate_ack_count c) (in_fast_recovery c) (recovery_point c)
    (congestion_avoidance_acked_bytes c) (unsent c) (close_requested c) (persist_deadline c)
    (persist_interval c).

(** [Connection connection;] followed by the assignment of [state] and
    [local_isn], the two members without a default. *)
Definition new_connection (s : TcpState) (isn : Z) : Connection :=
  {| state := s; remote_isn := 0; remote_isn_known := true; local_isn := isn;
     rcv_nxt := 0; snd_una := 0; snd_nxt := 0; pending := []; local_fin_seq := None;
     time_wait_deadline := None; pending_removal := false; snd_wnd := 0; snd_wl1 := 0; snd_wl2 := 0;
     out_of_order := []; pending_fin_seq := None; peer_mss := kDefaultPeerMss;
     effective_send_mss := kTcpMss; peer_window_scale := 0; local_window_scale := 0;
     window_scaling_enabled := false; sack_permitted := false; has_rtt_sample := false;
     srtt := 0; rttvar := 0; current_rto := kInitialRto; cwnd := 0; ssthresh := kInitialSsthresh;
     duplicate_ack_count := 0; in_fast_recovery := false; recovery_point := 0;
     congestion_avoidance_acked_bytes := 0; unsent := []; close_requested := false;
     persist_deadline := None; persist_interval := kInitialPersistInterval |}.

(** ** Results *)

Record TcpReceiveResult := mkReceiveResult {
  reply : option TcpSegment;
  fast_retransmit : option TcpSegment;
  scheduled : list TcpSegment;
  accepted_payload : list Z;
  peer_closed : bool;
  connection_reset : bool;
  connection_closed : bool;
  connection_established : bool;
  admission_rejected : bool
}.

#[export] Instance eta_TcpReceiveResult : Eta TcpReceiveResult := fun r =>
  mkReceiveResult (reply r) (fast_retransmit r) (scheduled r) (accepted_payload r) (peer_closed r)
    (connection_reset r) (connection_closed r) (connection_established r) (admission_rejected r).

(** [return {};] *)
Definition no_result : TcpReceiveResult :=
  mkReceiveResult None None [] [] false false false false false.

Inductive TcpSendError := NotSendable | EmptyPayload | SendTooLarge | BufferFull | ConstructionFailed.

Record TcpSendResult := mkSendResult {
  send_segments : list TcpSegment;
  bytes_accepted : Z;
  send_error : option TcpSendError
}.

Record TcpCloseResult := mkCloseResult { close_accepted : bool; close_fin : option TcpSegment }.

Inductive TcpConnectError := InvalidPort | DuplicateConnection | CapacityExhausted | RandomnessUnavailable.

Record TcpConnectResult := mkConnectResult {
  connect_accepted : bool;
  connect_syn : option TcpSegment;
  connect_error : option TcpConnectError
}.

Record TcpTimeoutPollResult := mkTimeoutPoll {
  retransmissions : list (TcpConnectionKey * TcpSegment);
  timed_out : list TcpConnectionKey;
  time_wait_expired : list TcpConnectionKey
}.

(** ** Field groups

    What an operation leaves alone is stated on groups of fields. *)

Definition recv_part (c : Connection) := (rcv_nxt c, out_of_order c, pending_fin_seq c).
Definition nego_part (c : Connection) :=
  (peer_mss c, effective_send_mss c, peer_window_scale c, local_window_scale c, window_scaling_enabled c,
   sack_permitted c, local_isn c, remote_isn c, remote_isn_known c).
Definition send_part (c : Connection) :=
  (snd_una c, snd_nxt c, pending c, local_fin_seq c, unsent c, snd_wnd c).
Definition cong_part (c : Connection) :=
  (cwnd c, ssthresh c, congestion_avoidance_acked_bytes c, in_fast_recovery c).
Definition ctl_part (c : Connection) := (state c, pending_removal c, close_requested c, time_wait_deadline c).
Definition persist_part (c : Connection) := (persist_deadline c, persist_interval c).

(** Turn equal groups into equal fields. *)
Ltac parts :=
  unfold recv_part, nego_part, send_part, cong_part, ctl_part, persist_part in *; simplify_eq/=.
