(* ===== verification/TcpCongestion.v ===== *)
(** * Congestion control and the retransmission-timeout estimator
    ([src/src/tcp_connection.cpp], lines 138-203 and 699-713)

    The Reno window arithmetic, kept inside its bounds by [clampCwnd], and
    the RFC 6298 estimator, with the invariants the rest of the component
    relies on ([congestion_ok], [rto_ok]). *)

From S2P Require Import Prelude StdMap Addresses Tcp TcpState.

Definition availableSendWindow (connection : Connection) : Z :=
  let flight := u32 (snd_nxt connection - snd_una connection) in
  if snd_wnd connection <=? flight then 0 else u32 (snd_wnd connection - flight).

Definition availableCongestionWindow (connection : Connection) : Z :=
  let flight := u32 (snd_nxt connection - snd_una connection) in
  if cwnd connection <=? flight then 0 else u32 (cwnd connection - flight).

Definition clampCwnd (value : Z) : Z := u32 (Z.min value kMaxCongestionWindow).

Definition initialCongestionWindow (smss : Z) : Z :=
  let ten_smss := 10 * smss in
  let two_smss := 2 * smss in
  let floor_value := Z.max two_smss kInitialCongestionWindowFloor in
  clampCwnd (Z.min ten_smss floor_value).

(** The congestion-avoidance loop on [(cwnd, acked bytes)]. *)
Fixpoint avoidance_loop (fuel : nat) (smss cwnd acked : Z) : Z * Z :=
  match fuel with
  | O => (cwnd, acked)
  | S fuel =>
      if (0 <? cwnd) && (cwnd <=? acked)
      then avoidance_loop fuel smss (clampCwnd (cwnd + smss)) (u32 (acked - cwnd))
      else (cwnd, acked)
  end.

(** [cwnd] never shrinks in the loop, so [acked / cwnd] rounds drain it. *)
Definition applyCongestionGrowth (connection : Connection) (data_bytes : Z) : Connection :=
  if data_bytes =? 0 then connection else
  let smss := effective_send_mss connection in
  if cwnd connection <? ssthresh connection then
    let increase := Z.min data_bytes smss in
    connection <| cwnd := clampCwnd (cwnd connection + increase) |>
  else
    let acked := u32 (congestion_avoidance_acked_bytes connection + data_bytes) in
    let '(w, a) := avoidance_loop (S (Z.to_nat (acked / cwnd connection))) smss (cwnd connection) acked in
    connection <| congestion_avoidance_acked_bytes := a |> <| cwnd := w |>.

(** Half the flight, at least two segments: the loss response of both the
    timeout and the fast-retransmit path. *)
Definition lossSsthresh (connection : Connection) : Z :=
  let flight := u32 (snd_nxt connection - snd_una connection) in
  clampCwnd (Z.max (flight / 2) (2 * effective_send_mss connection)).

Definition applyTimeoutCongestionCollapse (connection : Connection) : Connection :=
  connection <| ssthresh := lossSsthresh connection |>
             <| cwnd := effective_send_mss connection |>
             <| duplicate_ack_count := 0 |>
             <| in_fast_recovery := false |>
             <| congestion_avoidance_acked_bytes := 0 |>
             <| pending := map (fun entry => entry <| sacked := false |>
                                                   <| retransmitted_in_recovery := false |>)
                               (pending connection) |>.

(** Duration division truncates toward zero. *)
Definition recordRttSample (connection : Connection) (r : Z) : Connection :=
  let connection :=
    if negb (has_rtt_sample connection) then
      connection <| srtt := r |> <| rttvar := Z.quot r 2 |> <| has_rtt_sample := true |>
    else
      let diff := Z.abs (srtt connection - r) in
      connection <| rttvar := Z.quot (rttvar connection * 3 + diff) 4 |>
                 <| srtt := Z.quot (srtt connection * 7 + r) 8 |> in
  let rto := srtt connection + Z.max kRtoGranularity (rttvar connection * 4) in
  connection <| current_rto := Z.min (Z.max rto kMinRto) kMaxRto |>.

(** ** Invariants *)

(** The window variables as functions of the segment size they are kept for. *)
Definition congestion_vars_ok (smss w thresh acked : Z) (recovery : bool) : Prop :=
  1 <= smss <= kTcpMss /\ smss <= w <= kMaxCongestionWindow /\
  2 * smss <= thresh <= kMaxCongestionWindow /\ 0 <= acked < w /\
  (recovery = true -> acked = 0).

Definition congestion_ok (c : Connection) : Prop :=
  congestion_vars_ok (effective_send_mss c) (cwnd c) (ssthresh c)
    (congestion_avoidance_acked_bytes c) (in_fast_recovery c).

Definition rto_ok (c : Connection) : Prop := kMinRto <= current_rto c <= kMaxRto.

(** Expose the numeric constants for [lia]. *)
Ltac consts :=
  unfold kMaxCongestionWindow, kTcpMss, kMinRto, kMaxRto, kRtoGranularity, kInitialRto, kInitialSsthresh,
    kInitialCongestionWindowFloor, milliseconds, kMaxRetransmits, kTimeWaitDuration, seconds,
    kTcpSendBufferCapacity, kInitialPersistInterval, kMaxPersistInterval, kDefaultPeerMss,
    kMaxApplicationSendSize, kMaxSegmentsPerSend, kTcpReceiveCapacity, kMaxReassemblyFragments,
    kLocalWindowScaleShift, kMaxWindowScaleShift in *.

Lemma clampCwnd_min x : 0 <= x -> clampCwnd x = Z.min x kMaxCongestionWindow.
Proof. intros. unfold clampCwnd. consts. apply u32_id. ulia. Qed.

Lemma initialCongestionWindow_ok smss :
  1 <= smss <= kTcpMss -> 2 * smss <= initialCongestionWindow smss <= 14600.
Proof.
  intros. unfold initialCongestionWindow. consts. rewrite clampCwnd_min by lia. consts. lia.
Qed.

Lemma avoidance_loop_ok fuel smss w a :
  1 <= smss <= kTcpMss -> 1 <= w <= kMaxCongestionWindow -> 0 <= a < 2 ^ 32 ->
  a / w < Z.of_nat fuel ->
  let '(w', a') := avoidance_loop fuel smss w a in
  w <= w' <= kMaxCongestionWindow /\ 0 <= a' < w' /\ a' <= a /\ w' <= w + smss * (a / w).
Proof.
  intros Hs. revert w a; induction fuel as [|fuel IH]; intros w a Hw Ha Hf.
  { exfalso. pose proof (Z.div_pos a w). lia. }
  cbn [avoidance_loop]. pose proof (Z.div_pos a w).
  destruct (Z.ltb_spec 0 w); [|lia]. destruct (Z.leb_spec w a); cbn [andb].
  2: { nia. }
  consts. rewrite u32_id by ulia. rewrite clampCwnd_min by lia. consts.
  set (w1 := Z.min (w + smss) (2 ^ 30)).
  assert (Hw1 : w <= w1 <= 2 ^ 30 /\ w1 <= w + smss) by (unfold w1; lia).
  assert (Hq : (a - w) / w = a / w - 1) by (replace (a - w) with (a + (-1) * w) by lia; rewrite Z.div_add by lia; lia).
  assert (Hd : (a - w) / w1 <= (a - w) / w) by (apply Z.div_le_compat_l; lia).
  pose proof (Z.div_pos (a - w) w1).
  specialize (IH w1 (a - w)). destruct (avoidance_loop fuel smss w1 (a - w)) as [w' a'].
  destruct IH as (L1 & L2 & L3 & L4); [lia | lia | lia |]. nia.
Qed.

(** The fields [applyCongestionGrowth] may change. *)
Lemma applyCongestionGrowth_spec c n :
  congestion_ok c -> in_fast_recovery c = false -> 0 <= n <= kTcpSendBufferCapacity ->
  exists w a, applyCongestionGrowth c n = c <| congestion_avoidance_acked_bytes := a |> <| cwnd := w |> /\
    cwnd c <= w <= kMaxCongestionWindow /\ 0 <= a < w /\
    (cwnd c < ssthresh c -> w <= cwnd c + Z.min n (effective_send_mss c)) /\
    (ssthresh c <= cwnd c ->
       w <= cwnd c + effective_send_mss c * ((congestion_avoidance_acked_bytes c + n) / cwnd c)).
Proof.
  intros (H1 & H2 & H3 & H4 & H5) Hr Hn. unfold applyCongestionGrowth.
  assert (Hc : forall c : Connection, c = c <| congestion_avoidance_acked_bytes := congestion_avoidance_acked_bytes c |>
      <| cwnd := cwnd c |>) by (by intros []).
  destruct (Z.eqb_spec n 0) as [->|Hnz].
  { exists (cwnd c), (congestion_avoidance_acked_bytes c). split; [apply Hc|]. consts.
    rewrite Z.add_0_r, Z.div_small by lia. lia. }
  destruct (Z.ltb_spec (cwnd c) (ssthresh c)).
  { exists (clampCwnd (cwnd c + Z.min n (effective_send_mss c))), (congestion_avoidance_acked_bytes c).
    consts. split; [by destruct c|]. rewrite clampCwnd_min by lia. consts. lia. }
  rewrite u32_id by (consts; ulia).
  pose proof (avoidance_loop_ok
    (S (Z.to_nat ((congestion_avoidance_acked_bytes c + n) / cwnd c))) (effective_send_mss c) (cwnd c)
    (congestion_avoidance_acked_bytes c + n)) as HL.
  destruct (avoidance_loop _ _ _ _) as [w a].
  pose proof (Z.div_pos (congestion_avoidance_acked_bytes c + n) (cwnd c)).
  destruct HL as (L1 & L2 & L3 & L4); [lia | lia | consts; lia | lia |].
  exists w, a. split; [done|]. lia.
Qed.

Lemma lossSsthresh_ok c :
  1 <= effective_send_mss c <= kTcpMss ->
  2 * effective_send_mss c <= lossSsthresh c <= kMaxCongestionWindow /\
  (forall f, 2 * effective_send_mss c <= f -> u32 (snd_nxt c - snd_una c) <= f -> lossSsthresh c <= f).
Proof.
  intros H. unfold lossSsthresh. pose proof (u32_range (snd_nxt c - snd_una c)).
  consts. rewrite clampCwnd_min by ulia. consts. split; [ulia|]. intros. ulia.
Qed.

Lemma recordRttSample_rto c r : rto_ok (recordRttSample c r).
Proof. unfold rto_ok, recordRttSample. destruct (has_rtt_sample c); simpl; consts; lia. Qed.
