(* ===== verification/TcpSegments.v ===== *)
(** * Windows, options and segment builders
    ([src/src/tcp_connection.cpp], lines 51-76, 109-136, 367-485, 536-594, 686-697)

    The receive window Wirestack advertises and the peer window it decodes,
    the option bytes it emits, and the segments it builds from a connection. *)

From S2P Require Import Prelude StdMap Addresses Tcp SeqNum TcpState TcpCongestion.

(** ** Windows *)

Definition bufferedReceiveBytes (connection : Connection) : Z :=
  let total := foldl (fun total fragment => total + Zlen (frag_payload fragment)) 0
                 (out_of_order connection) in
  if has_value (pending_fin_seq connection) then total + 1 else total.

Definition advertisedWindowFor (connection : Connection) (apply_scale : bool) : Z :=
  let buffered := bufferedReceiveBytes connection in
  let available := if kTcpReceiveCapacity <=? buffered then 0 else kTcpReceiveCapacity - buffered in
  let wire :=
    if apply_scale && window_scaling_enabled connection
    then Z.shiftr available (local_window_scale connection)
    else Z.min available 65535 in
  u16 (Z.min wire 65535).

Definition expandLocalAdvertisedWindow (connection : Connection) (wire : Z) : Z :=
  if negb (window_scaling_enabled connection) then wire
  else u32 (Z.shiftl wire (local_window_scale connection)).

Definition advertisedLogicalWindowFor (connection : Connection) : Z :=
  let wire := advertisedWindowFor connection (window_scaling_enabled connection) in
  expandLocalAdvertisedWindow connection wire.

Definition decodePeerWindow (connection : Connection) (raw : Z) : Z :=
  if negb (window_scaling_enabled connection) then raw
  else u32 (Z.shiftl raw (peer_window_scale connection)).

Definition updateSendWindow (connection : Connection) (segment : TcpSegment) : Connection :=
  let accept := sequenceGreater (sequence_number segment) (snd_wl1 connection) ||
                ((sequence_number segment =? snd_wl1 connection) &&
                 sequenceLessOrEqual (snd_wl2 connection) (acknowledgment_number segment)) in
  if negb accept then connection else
  connection <| snd_wnd := decodePeerWindow connection (window_size segment) |>
             <| snd_wl1 := sequence_number segment |>
             <| snd_wl2 := acknowledgment_number segment |>.

(** ** Option bytes *)

(** [while (out.size() % 4 != 0) out.push_back(0)]: at most three rounds. *)
Fixpoint pad4 (fuel : nat) (out : list Z) : list Z :=
  match fuel with
  | O => out
  | S fuel => if Zlen out mod 4 =? 0 then out else pad4 fuel (out ++ [0])
  end.

Definition buildSynAckOptions (connection : Connection) : list Z :=
  let out := [2; 4; Z.land (Z.shiftr kTcpMss 8) 255; Z.land kTcpMss 255] in
  let out := if sack_permitted connection then out ++ [4; 2] else out in
  let out := if window_scaling_enabled connection
             then out ++ [1; 3; 3; local_window_scale connection] else out in
  pad4 3 out.

Definition buildActiveSynOptions : list Z :=
  pad4 3 [2; 4; Z.land (Z.shiftr kTcpMss 8) 255; Z.land kTcpMss 255; 4; 2; 1; 3; 3; kLocalWindowScaleShift].

Definition buildSackOptions (blocks : list TcpSackBlock) : list Z :=
  if empty blocks then [] else
  let out := [5; u8 (2 + 8 * Zlen blocks)] in
  let out := foldl (fun out block => writeBigEndian32 (writeBigEndian32 out (left_edge block))
                                       (right_edge block)) out blocks in
  pad4 3 out.

(** The fragment named by its start goes first; the others follow in
    descending sequence order; at most four blocks. [remove_first] drops the
    one fragment object that was picked. *)
Fixpoint find_fragment (start : Z) (l : list TcpReassemblyFragment) : option TcpReassemblyFragment :=
  match l with
  | [] => None
  | fragment :: l => if frag_start fragment =? start then Some fragment else find_fragment start l
  end.

Fixpoint remove_first (start : Z) (l : list TcpReassemblyFragment) : list TcpReassemblyFragment :=
  match l with
  | [] => []
  | fragment :: l => if frag_start fragment =? start then l else fragment :: remove_first start l
  end.

Definition generateSackBlocks (connection : Connection) (most_recent_fragment_start : option Z) :
    list TcpSackBlock :=
  let fragments := out_of_order connection in
  if empty fragments then [] else
  let most_recent := most_recent_fragment_start ≫= (fun start => find_fragment start fragments) in
  let rest := match most_recent with
              | Some fragment => remove_first (frag_start fragment) fragments
              | None => fragments
              end in
  let rest := sort (fun a b => sequenceGreater (frag_start a) (frag_start b)) rest in
  let ordered := match most_recent with Some fragment => fragment :: rest | None => rest end in
  map (fun fragment => mkTcpSackBlock (frag_start fragment) (frag_sequenceEnd fragment)) (take 4 ordered).

(** ** Segment builders *)

Definition makeSynAck (key : TcpConnectionKey) (connection : Connection) : TcpSegment :=
  {| source_port := local_port key; destination_port := remote_port key;
     sequence_number := local_isn connection;
     acknowledgment_number := u32 (remote_isn connection + 1);
     flags := no_flags <| syn := true |> <| ack := true |>;
     window_size := advertisedWindowFor connection false; urgent_pointer := 0;
     options := buildSynAckOptions connection; payload := [] |}.

Definition makeActiveSyn (key : TcpConnectionKey) (connection : Connection) : TcpSegment :=
  {| source_port := local_port key; destination_port := remote_port key;
     sequence_number := local_isn connection; acknowledgment_number := 0;
     flags := no_flags <| syn := true |>;
     window_size := advertisedWindowFor connection false; urgent_pointer := 0;
     options := buildActiveSynOptions; payload := [] |}.

Definition makePureAck (key : TcpConnectionKey) (connection : Connection)
    (most_recent_fragment_start : option Z) : TcpSegment :=
  {| source_port := local_port key; destination_port := remote_port key;
     sequence_number := snd_nxt connection; acknowledgment_number := rcv_nxt connection;
     flags := no_flags <| ack := true |>;
     window_size := advertisedWindowFor connection (window_scaling_enabled connection);
     urgent_pointer := 0;
     options := if sack_permitted connection
                then buildSackOptions (generateSackBlocks connection most_recent_fragment_start)
                else [];
     payload := [] |}.

Definition makeFin (key : TcpConnectionKey) (connection : Connection) : TcpSegment :=
  {| source_port := local_port key; destination_port := remote_port key;
     sequence_number := snd_nxt connection; acknowledgment_number := rcv_nxt connection;
     flags := no_flags <| fin := true |> <| ack := true |>;
     window_size := advertisedWindowFor connection (window_scaling_enabled connection);
     urgent_pointer := 0; options := []; payload := [] |}.

Definition makeClosedPortReset (incoming : TcpSegment) : TcpSegment :=
  let reset := {| source_port := destination_port incoming; destination_port := source_port incoming;
                  sequence_number := 0; acknowledgment_number := 0;
                  flags := no_flags <| rst := true |>; window_size := 0; urgent_pointer := 0;
                  options := []; payload := [] |} in
  if ack (flags incoming) then
    reset <| sequence_number := acknowledgment_number incoming |>
  else
    let consumed := u32 (u32 (Zlen (payload incoming)) + (if syn (flags incoming) then 1 else 0) +
                         (if fin (flags incoming) then 1 else 0)) in
    reset <| acknowledgment_number := u32 (sequence_number incoming + consumed) |>
          <| flags := no_flags <| rst := true |> <| ack := true |> |>.

(** ** Facts about windows *)

(** The negotiated shifts: Wirestack's own is fixed, the peer's is clamped. *)
Definition scale_ok (c : Connection) : Prop :=
  local_window_scale c = (if window_scaling_enabled c then kLocalWindowScaleShift else 0) /\
  0 <= peer_window_scale c <= kMaxWindowScaleShift.

(** Bytes held by a list of fragments. *)
Definition frag_bytes (l : list TcpReassemblyFragment) : Z :=
  foldr (fun f n => Zlen (frag_payload f) + n) 0 l.

Lemma frag_bytes_nonneg l : 0 <= frag_bytes l.
Proof.
  induction l as [|f l IH]; simpl; [lia|]. pose proof (Zlen_nonneg (frag_payload f)). lia.
Qed.

Lemma bufferedReceiveBytes_eq c :
  bufferedReceiveBytes c = frag_bytes (out_of_order c) + if has_value (pending_fin_seq c) then 1 else 0.
Proof.
  unfold bufferedReceiveBytes.
  assert (H : forall l n, foldl (fun total f => total + Zlen (frag_payload f)) n l = n + frag_bytes l).
  { induction l as [|f l IH]; intros n; simpl; [lia|]. rewrite IH. lia. }
  rewrite H. destruct (has_value _); lia.
Qed.

(** Free space of the receive buffer. *)
Definition receive_free (c : Connection) : Z := Z.max 0 (kTcpReceiveCapacity - bufferedReceiveBytes c).

Lemma advertised_available c :
  (if kTcpReceiveCapacity <=? bufferedReceiveBytes c then 0
   else kTcpReceiveCapacity - bufferedReceiveBytes c) = receive_free c.
Proof. unfold receive_free. zcases; lia. Qed.

Lemma receive_free_range c : 0 <= receive_free c <= kTcpReceiveCapacity.
Proof.
  unfold receive_free. rewrite bufferedReceiveBytes_eq. pose proof (frag_bytes_nonneg (out_of_order c)).
  consts. destruct (has_value _); lia.
Qed.

Lemma advertisedWindowFor_u16 c b : is_u16 (advertisedWindowFor c b).
Proof. apply u16_range. Qed.

Lemma advertisedLogicalWindowFor_eq c :
  scale_ok c ->
  advertisedLogicalWindowFor c =
    if window_scaling_enabled c then receive_free c / 4 * 4 else Z.min (receive_free c) 65535.
Proof.
  intros [Hl _]. unfold advertisedLogicalWindowFor, advertisedWindowFor, expandLocalAdvertisedWindow.
  rewrite advertised_available, Hl. pose proof (receive_free_range c). consts.
  destruct (window_scaling_enabled c); cbn [andb negb].
  - rewrite Z.shiftr_div_pow2, Z.shiftl_mul_pow2 by lia. change (2 ^ 2) with 4.
    rewrite (Z.min_l (_ / 4)) by ulia. rewrite u16_id by ulia. apply u32_id. ulia.
  - rewrite u16_id by ulia. lia.
Qed.

(** What the receiver's acceptance test uses. *)
Lemma advertisedLogicalWindowFor_range c :
  scale_ok c -> 0 <= advertisedLogicalWindowFor c <= receive_free c.
Proof.
  intros H. rewrite advertisedLogicalWindowFor_eq by done. pose proof (receive_free_range c).
  destruct (window_scaling_enabled c); ulia.
Qed.

Lemma decodePeerWindow_range c raw : scale_ok c -> is_u16 raw -> 0 <= decodePeerWindow c raw < 2 ^ 30.
Proof.
  intros [_ Hp] Hr. unfold decodePeerWindow. consts. destruct (window_scaling_enabled c); cbn [negb]; [|ulia].
  assert (Hs : 0 <= Z.shiftl raw (peer_window_scale c) < 2 ^ 30).
  { rewrite Z.shiftl_mul_pow2 by lia.
    assert (1 <= 2 ^ peer_window_scale c <= 2 ^ 14).
    { split; [apply (Z.pow_le_mono_r 2 0); lia | apply Z.pow_le_mono_r; lia]. }
    change (2 ^ 14) with 16384 in *. unfold is_u16 in Hr. change (2 ^ 16) with 65536 in Hr.
    change (2 ^ 30) with 1073741824. nia. }
  rewrite u32_id; [done|]. ulia.
Qed.

(** The window Wirestack puts on the wire never promises space it
    does not have: decoded by the receiver of the segment (shifted by the
    negotiated local scale, or raw on a SYN-ACK) it is at most the free space
    of the reassembly buffer, and with scaling at most three bytes of free
    space are left unpromised. *)
Theorem advertised_window_honest c :
  scale_ok c ->
  is_u16 (advertisedWindowFor c true) /\
  0 <= advertisedLogicalWindowFor c <= receive_free c /\
  (window_scaling_enabled c = true -> receive_free c - 3 <= advertisedLogicalWindowFor c) /\
  (window_scaling_enabled c = false -> advertisedLogicalWindowFor c = Z.min (receive_free c) 65535) /\
  advertisedWindowFor c false = Z.min (receive_free c) 65535.
Proof.
  intros H. split; [apply u16_range|]. split; [by apply advertisedLogicalWindowFor_range|].
  pose proof (receive_free_range c). rewrite advertisedLogicalWindowFor_eq by done.
  split; [intros ->; ulia|]. split; [by intros ->|].
  unfold advertisedWindowFor. rewrite advertised_available. cbn [andb].
  rewrite u16_id by ulia. lia.
Qed.

Lemma advertised_window_honest_witness :
  let c := (new_connection Established 0) <| window_scaling_enabled := true |> <| local_window_scale := 2 |>
             <| out_of_order := [mkFragment 10 [1; 2; 3]] |> in
  scale_ok c /\ advertisedLogicalWindowFor c = 262136 /\
  0 <= advertisedLogicalWindowFor c <= receive_free c.
Proof.
  intros c. assert (H : scale_ok c) by (unfold scale_ok; vm_compute; repeat split; congruence).
  split; [exact H|]. split; [vm_compute; reflexivity|].
  exact (proj1 (proj2 (advertised_window_honest c H))).
Defined.

(** ** Option round trips *)

Lemma pad4_spec out : exists k, pad4 3 out = out ++ replicate k 0 /\ (k <= 3)%nat /\
  (Zlen out + Z.of_nat k) mod 4 = 0.
Proof.
  cbn [pad4]. rewrite !Zlen_app. change (Zlen [0]) with 1.
  destruct (Z.eqb_spec (Zlen out mod 4) 0); [exists 0%nat|
  destruct (Z.eqb_spec ((Zlen out + 1) mod 4) 0); [exists 1%nat|
  destruct (Z.eqb_spec ((Zlen out + 1 + 1) mod 4) 0); [exists 2%nat | exists 3%nat]]];
    (split_and!; [by rewrite <- ?app_assoc, ?app_nil_r | lia | ulia]).
Qed.

Definition sack_bytes (blocks : list TcpSackBlock) : list Z :=
  concat (map (fun b => be32 (left_edge b) ++ be32 (right_edge b)) blocks).

Lemma length_sack_bytes blocks : length (sack_bytes blocks) = (8 * length blocks)%nat.
Proof.
  induction blocks as [|b l IH]; [done|]. unfold sack_bytes in *. cbn [map concat].
  rewrite length_app, IH. simpl. lia.
Qed.

Lemma readSackBlocks_bytes blocks pre post :
  Forall sack_block_ok blocks ->
  readSackBlocks (length blocks) (pre ++ sack_bytes blocks ++ post) (length pre) = Some blocks.
Proof.
  intros H. revert pre. induction H as [|[l r] bs [Hl Hr] Hbs IH]; intros pre; [done|].
  cbn [length readSackBlocks]. unfold sack_bytes. cbn [map concat]. fold (sack_bytes bs). simpl in Hl, Hr.
  assert (E : pre ++ ((be32 l ++ be32 r) ++ sack_bytes bs) ++ post =
              (pre ++ be32 l ++ be32 r) ++ sack_bytes bs ++ post) by (by rewrite !app_assoc).
  assert (Hat : forall i, (pre ++ ((be32 l ++ be32 r) ++ sack_bytes bs) ++ post) !! (length pre + i)%nat =
                     (be32 l ++ be32 r ++ sack_bytes bs ++ post) !! i).
  { intros i. rewrite lookup_app_r by lia. replace (length pre + i - length pre)%nat with i by lia.
    by rewrite !app_assoc. }
  cbn [left_edge right_edge].
  rewrite (readBigEndian32_be32 _ (length pre) l); [| done | | by rewrite Hat.. ].
  2: { replace (length pre) with (length pre + 0)%nat by lia. by rewrite Hat. }
  cbn [mbind option_bind].
  rewrite (readBigEndian32_be32 _ (length pre + 4) r);
    [| done | by rewrite Hat | by rewrite <- Nat.add_assoc, Hat.. ].
  cbn [mbind option_bind].
  rewrite E. specialize (IH (pre ++ be32 l ++ be32 r)). rewrite length_app in IH. simpl length in IH.
  by rewrite IH.
Qed.

Lemma buildSackOptions_eq blocks :
  blocks <> [] -> (length blocks <= 4)%nat ->
  buildSackOptions blocks = [5; 2 + 8 * Zlen blocks] ++ sack_bytes blocks ++ [0; 0].
Proof.
  intros Hne Hl. unfold buildSackOptions. destruct blocks as [|b0 bs]; [done|]. cbn [empty].
  set (blocks := b0 :: bs) in *.
  assert (Hf : forall l out, foldl (fun out b => writeBigEndian32 (writeBigEndian32 out (left_edge b))
      (right_edge b)) out l = out ++ sack_bytes l).
  { induction l as [|b l IH]; intros out; [by rewrite app_nil_r|]. cbn [foldl]. rewrite IH.
    unfold sack_bytes. cbn [map concat]. unfold writeBigEndian32, be32. by rewrite <- !app_assoc. }
  rewrite Hf. rewrite u8_id by (unfold Zlen; ulia).
  destruct (pad4_spec ([5; 2 + 8 * Zlen blocks] ++ sack_bytes blocks)) as (k & -> & Hk & Hm).
  assert (Hz : Zlen (sack_bytes blocks) = 8 * Zlen blocks) by (unfold Zlen; rewrite length_sack_bytes; lia).
  rewrite Zlen_app, Hz in Hm. change (Zlen [_; _]) with 2 in Hm. assert (k = 2)%nat as -> by ulia.
  by rewrite <- app_assoc.
Qed.

Lemma parse_buildSackOptions blocks :
  Forall sack_block_ok blocks -> (length blocks <= 4)%nat -> blocks <> [] ->
  parseTcpOptions (buildSackOptions blocks) = Some (inl (no_options <| sack_blocks := blocks |>)).
Proof.
  intros Hok Hl Hne. rewrite buildSackOptions_eq by done.
  assert (Hz : Zlen (sack_bytes blocks) = 8 * Zlen blocks) by (unfold Zlen; rewrite length_sack_bytes; lia).
  assert (Hn : 1 <= Zlen blocks <= 4) by (unfold Zlen; destruct blocks; simpl in *; [done | lia]).
  set (opts := [5; 2 + 8 * Zlen blocks] ++ sack_bytes blocks ++ [0; 0]).
  assert (Hlen : Zlen opts = 4 + 8 * Zlen blocks).
  { unfold opts. rewrite !Zlen_app, Hz. change (Zlen [_; _]) with 2. lia. }
  assert (Hi : opts !! (0 + Z.to_nat (2 + 8 * Zlen blocks))%nat = Some 0).
  { unfold opts. replace (0 + Z.to_nat (2 + 8 * Zlen blocks))%nat
      with (S (S (length (sack_bytes blocks)))) by (unfold Zlen in *; lia).
    simpl. rewrite lookup_app_r by lia. by rewrite Nat.sub_diag. }
  unfold parseTcpOptions. assert (exists f, length opts = S f) as [f ->] by (eexists; reflexivity).
  cbn [parseTcpOptions_loop]. rewrite Hlen.
  change (opts !! 0%nat) with (Some 5). change (opts !! (0 + 1)%nat) with (Some (2 + 8 * Zlen blocks)).
  cbn [mbind option_bind]. zdec.
  unfold parseOneOption. replace (_ && _ && _ && _) with false by (zcases; try reflexivity; lia).
  replace (Z.to_nat ((2 + 8 * Zlen blocks - 2) / 8)) with (length blocks) by (unfold Zlen; ulia).
  pose proof (readSackBlocks_bytes blocks [5; 2 + 8 * Zlen blocks] [0; 0] Hok) as Hr.
  fold opts in Hr. cbn [length] in Hr. cbn [Z.eqb Pos.eqb no_options sack_blocks empty negb Nat.add].
  rewrite Hr. cbn [mbind option_bind app]. cbn [Nat.add] in Hi. rewrite Hi. reflexivity.
Qed.

Lemma buildSackOptions_fits blocks :
  (length blocks <= 4)%nat ->
  Zlen (buildSackOptions blocks) mod 4 = 0 /\ Zlen (buildSackOptions blocks) <= kMaxTcpOptionsLength.
Proof.
  intros Hl. destruct blocks as [|b0 bs] eqn:Eb; [split; vm_compute; congruence|]. rewrite <- Eb in *.
  assert (blocks <> []) by congruence. rewrite buildSackOptions_eq by done.
  rewrite !Zlen_app. unfold Zlen in *. rewrite length_sack_bytes. simpl length.
  unfold kMaxTcpOptionsLength. ulia.
Qed.

(** The SYN-ACK options depend on the connection only through two flags. *)
Lemma parse_buildSynAckOptions c :
  scale_ok c ->
  parseTcpOptions (buildSynAckOptions c) =
    Some (inl {| maximum_segment_size := Some kTcpMss;
                 window_scale := if window_scaling_enabled c then Some kLocalWindowScaleShift else None;
                 opt_sack_permitted := sack_permitted c; sack_blocks := [] |}) /\
  Zlen (buildSynAckOptions c) mod 4 = 0 /\ Zlen (buildSynAckOptions c) <= kMaxTcpOptionsLength.
Proof.
  intros [Hs _]. unfold buildSynAckOptions. rewrite Hs.
  destruct (sack_permitted c), (window_scaling_enabled c); repeat split; vm_compute; congruence.
Qed.

(** The option bytes Wirestack emits are read back by its own
    parser as what they announce, and always fit a header: up to four SACK
    blocks come back in order, the SYN-ACK options announce the local MSS,
    SACK-Permitted and the window shift exactly when negotiated, and an active
    SYN offers all three. *)
Theorem emitted_options_roundtrip blocks c :
  Forall sack_block_ok blocks -> (length blocks <= 4)%nat -> scale_ok c ->
  parseTcpOptions (buildSackOptions blocks) = Some (inl (no_options <| sack_blocks := blocks |>)) /\
  Zlen (buildSackOptions blocks) mod 4 = 0 /\ Zlen (buildSackOptions blocks) <= kMaxTcpOptionsLength /\
  parseTcpOptions (buildSynAckOptions c) =
    Some (inl {| maximum_segment_size := Some kTcpMss;
                 window_scale := if window_scaling_enabled c then Some kLocalWindowScaleShift else None;
                 opt_sack_permitted := sack_permitted c; sack_blocks := [] |}) /\
  Zlen (buildSynAckOptions c) mod 4 = 0 /\ Zlen (buildSynAckOptions c) <= kMaxTcpOptionsLength /\
  parseTcpOptions buildActiveSynOptions =
    Some (inl {| maximum_segment_size := Some kTcpMss; window_scale := Some kLocalWindowScaleShift;
                 opt_sack_permitted := true; sack_blocks := [] |}).
Proof.
  intros Hok Hl Hs. destruct (buildSackOptions_fits blocks Hl) as [H1 H2].
  destruct (parse_buildSynAckOptions c Hs) as (H3 & H4 & H5). split_and!; auto.
  destruct blocks as [|b bs] eqn:E; [reflexivity|]. rewrite <- E in *.
  apply parse_buildSackOptions; congruence.
Qed.

Lemma emitted_options_roundtrip_witness :
  parseTcpOptions (buildSackOptions [mkTcpSackBlock 5 9; mkTcpSackBlock 1 2]) =
    Some (inl (no_options <| sack_blocks := [mkTcpSackBlock 5 9; mkTcpSackBlock 1 2] |>)).
Proof.
  apply (emitted_options_roundtrip [mkTcpSackBlock 5 9; mkTcpSackBlock 1 2] (new_connection SynSent 0)).
  - repeat constructor; simpl; ulia.
  - simpl; lia.
  - unfold scale_ok; simpl. consts. split; [reflexivity | lia].
Defined.
