(* ===== verification/TcpSender.v ===== *)
(** * The sending side of a connection
    ([src/src/tcp_connection.cpp], lines 205-365 and 596-782)

    Cumulative-ACK retirement of the pending queue, the SACK scoreboard and
    recovery retransmissions, the send-buffer scheduler with the deferred
    FIN, and the zero-window persist timer. *)

From S2P Require Import Prelude StdMap Addresses Tcp SeqNum TcpState TcpCongestion TcpSegments.

(** ** SACK scoreboard *)

Definition validSackBlock (cumulative_ack limit : Z) (block : TcpSackBlock) : bool :=
  sequenceGreater (left_edge block) cumulative_ack &&
  sequenceGreater (right_edge block) (left_edge block) &&
  negb (sequenceGreater (right_edge block) limit).

(** One round of the merge loop; [merged] is kept with its back first. *)
Definition mergeStep (merged : list (Z * Z)) (block : Z * Z) : list (Z * Z) :=
  match merged with
  | (l, r) :: rest =>
      if negb (sequenceGreater (fst block) r) then (l, sequenceMax r (snd block)) :: rest
      else block :: merged
  | [] => [block]
  end.

Definition mergeSackBlocks (valid : list (Z * Z)) : list (Z * Z) :=
  rev (foldl mergeStep [] (sort (fun a b => sequenceGreater (fst b) (fst a)) valid)).

Definition coveredBy (entry : PendingTransmission) (block : Z * Z) : bool :=
  sequenceLessOrEqual (fst block) (sequence_start entry) &&
  sequenceLessOrEqual (sequenceEnd entry) (snd block).

Definition markSacked (merged : list (Z * Z)) (entry : PendingTransmission) : PendingTransmission :=
  if is_syn entry || is_fin entry || sacked entry then entry
  else if existsb (coveredBy entry) merged then entry <| sacked := true |> else entry.

Definition applySackBlocks (connection : Connection) (cumulative_ack : Z) (blocks : list TcpSackBlock) :
    Connection :=
  let valid := map (fun b => (left_edge b, right_edge b))
                 (List.filter (validSackBlock cumulative_ack (snd_nxt connection)) blocks) in
  if empty valid then connection else
  let merged := mergeSackBlocks valid in
  connection <| pending := map (markSacked merged) (pending connection) |>.

(** ** Recovery retransmissions

    A pointer into the pending queue is an index with the entry it names. *)

Fixpoint selectRecovery_from (recovery_point : Z) (i : nat) (entries : list PendingTransmission) :
    option (nat * PendingTransmission) :=
  match entries with
  | [] => None
  | entry :: rest =>
      if is_syn entry || is_fin entry then selectRecovery_from recovery_point (S i) rest
      else if negb (sequenceGreater recovery_point (sequence_start entry)) then None
      else if sacked entry || retransmitted_in_recovery entry
      then selectRecovery_from recovery_point (S i) rest
      else Some (i, entry)
  end.

Definition selectRecoveryRetransmission (connection : Connection) : option (nat * PendingTransmission) :=
  selectRecovery_from (recovery_point connection) 0 (pending connection).

Definition buildRecoveryRetransmission (key : TcpConnectionKey) (connection : Connection)
    (p : nat * PendingTransmission) (now : Z) : TcpSegment * Connection :=
  let '(i, entry) := p in
  ({| source_port := local_port key; destination_port := remote_port key;
      sequence_number := sequence_start entry; acknowledgment_number := rcv_nxt connection;
      flags := p_flags entry;
      window_size := advertisedWindowFor connection (window_scaling_enabled connection);
      urgent_pointer := 0; options := []; payload := p_payload entry |},
   connection <| pending := <[i := entry <| was_retransmitted := true |>
                                         <| retransmitted_in_recovery := true |>
                                         <| last_sent_at := now |>]> (pending connection) |>).

(** [if (entry = selectRecoveryRetransmission(c)) segment = build(...)]. *)
Definition recoveryRetransmit (key : TcpConnectionKey) (connection : Connection) (now : Z) :
    option TcpSegment * Connection :=
  match selectRecoveryRetransmission connection with
  | Some p => let '(segment, connection) := buildRecoveryRetransmission key connection p now in
              (Some segment, connection)
  | None => (None, connection)
  end.

Definition clear_recovery_marks (entries : list PendingTransmission) : list PendingTransmission :=
  map (fun entry => entry <| retransmitted_in_recovery := false |>) entries.

Definition beginFastRecovery (key : TcpConnectionKey) (connection : Connection) (now : Z) :
    option TcpSegment * Connection :=
  let smss := effective_send_mss connection in
  let connection := connection <| ssthresh := lossSsthresh connection |> in
  let connection := connection <| recovery_point := snd_nxt connection |> in
  let connection := connection <| cwnd := clampCwnd (ssthresh connection + 3 * smss) |> in
  let connection := connection <| in_fast_recovery := true |>
                               <| congestion_avoidance_acked_bytes := 0 |> in
  let connection := connection <| pending := clear_recovery_marks (pending connection) |> in
  recoveryRetransmit key connection now.

(** ** Cumulative acknowledgement *)

Record retire_state := mkRetire {
  ret_pending : list PendingTransmission;
  ret_acked : Z;
  ret_sample : option Z;
  ret_front : bool  (* the sampled entry survives at the front of the queue *)
}.

(** The [while (!pending.empty())] loop. *)
Fixpoint retire_loop (ack : Z) (pending : list PendingTransmission) (acked : Z)
    (sample : option Z) (front : bool) : retire_state :=
  match pending with
  | [] => mkRetire [] acked sample front
  | entry :: rest =>
      let eligible := negb (was_retransmitted entry) && negb (rtt_sample_taken entry) in
      if sequenceLessOrEqual (sequenceEnd entry) ack then
        let acked := u32 (acked + u32 (Zlen (p_payload entry))) in
        if eligible then retire_loop ack rest acked (Some (first_sent_at entry)) false
        else retire_loop ack rest acked sample front
      else if sequenceGreater ack (sequence_start entry) then
        let trimmed := u32 (ack - sequence_start entry) in
        let acked := u32 (acked + trimmed) in
        let entry' := entry <| p_payload := drop (Z.to_nat trimmed) (p_payload entry) |>
                            <| sequence_start := ack |>
                            <| retransmitted_in_recovery := false |> in
        if eligible then mkRetire (entry' :: rest) acked (Some (first_sent_at entry)) true
        else mkRetire (entry' :: rest) acked sample front
      else mkRetire (entry :: rest) acked sample front
  end.

Definition mark_front_sampled (entries : list PendingTransmission) : list PendingTransmission :=
  match entries with
  | entry :: rest => entry <| rtt_sample_taken := true |> :: rest
  | [] => []
  end.

Definition retireAcknowledged (connection : Connection) (ack now : Z) :
    TcpAckRetirementResult * Connection :=
  if negb (sequenceGreater ack (snd_una connection)) then (mkRetirement 0 0 false false, connection) else
  let old_snd_una := snd_una connection in
  let connection := connection <| snd_una := ack |> in
  let r := retire_loop ack (pending connection) 0 None false in
  let connection := connection <| pending := ret_pending r |> in
  match ret_sample r with
  | Some first_sent =>
      if first_sent <=? now then
        let connection := recordRttSample connection (now - first_sent) in
        let connection := if ret_front r
          then connection <| pending := mark_front_sampled (pending connection) |> else connection in
        (mkRetirement (u32 (ack - old_snd_una)) (ret_acked r) true true, connection)
      else (mkRetirement (u32 (ack - old_snd_una)) (ret_acked r) true false, connection)
  | None => (mkRetirement (u32 (ack - old_snd_una)) (ret_acked r) true false, connection)
  end.

(** ** Send buffer *)

Definition appOwnedBytes (connection : Connection) : Z :=
  foldl (fun total entry => if negb (is_syn entry) && negb (is_fin entry)
                            then total + Zlen (p_payload entry) else total)
    (Zlen (unsent connection)) (pending connection).

Definition persistEligible (connection : Connection) : bool :=
  (state_eqb (state connection) Established || state_eqb (state connection) CloseWait) &&
  negb (empty (unsent connection)) && (snd_wnd connection =? 0) &&
  (snd_nxt connection =? snd_una connection) && negb (has_value (local_fin_seq connection)).

Definition updatePersistState (connection : Connection) (now : Z) : Connection :=
  if negb (persistEligible connection) then connection <| persist_deadline := None |> else
  match persist_deadline connection with
  | Some _ => connection
  | None => connection <| persist_interval := kInitialPersistInterval |>
                       <| persist_deadline := Some (now + kInitialPersistInterval) |>
  end.

(** The segment sequenced, if any, and the connection after it. *)
Definition maybeSequenceFin (key : TcpConnectionKey) (connection : Connection) (now : Z) :
    list TcpSegment * Connection :=
  if negb (close_requested connection) then ([], connection) else
  if has_value (local_fin_seq connection) then ([], connection) else
  if negb (empty (unsent connection)) then ([], connection) else
  if availableSendWindow connection <? 1 then ([], connection) else
  let segment := makeFin key connection in
  let entry := (new_pending (snd_nxt connection) (flags segment) now (current_rto connection))
                 <| is_fin := true |> in
  let connection := connection <| pending := pending connection ++ [entry] |> in
  let connection := connection <| local_fin_seq := Some (snd_nxt connection) |> in
  let connection := connection <| snd_nxt := u32 (snd_nxt connection + 1) |> in
  let connection := connection <| state :=
    if state_eqb (state connection) Established then FinWait1 else LastAck |> in
  ([segment], connection).

(** One data segment of the scheduling loop. *)
Definition dataSegment (key : TcpConnectionKey) (connection : Connection) (seq : Z) (push : bool)
    (bytes : list Z) : TcpSegment :=
  {| source_port := local_port key; destination_port := remote_port key;
     sequence_number := seq; acknowledgment_number := rcv_nxt connection;
     flags := no_flags <| ack := true |> <| psh := push |>;
     window_size := advertisedWindowFor connection (window_scaling_enabled connection);
     urgent_pointer := 0; options := []; payload := bytes |}.

(** The [while (offset < to_send)] loop: segments, pending entries and the
    final sequence number. At most [kMaxSegmentsPerSend] rounds are needed,
    because [to_send] is capped at that many segment sizes. *)
Fixpoint schedule_loop (fuel : nat) (key : TcpConnectionKey) (connection : Connection) (now : Z)
    (to_send : Z) (draining : bool) (seq offset : Z) : list TcpSegment * list PendingTransmission * Z :=
  match fuel with
  | O => ([], [], seq)
  | S fuel =>
      if negb (offset <? to_send) then ([], [], seq) else
      let chunk := Z.min (effective_send_mss connection) (to_send - offset) in
      let is_last_chunk := offset + chunk =? to_send in
      let bytes := take (Z.to_nat chunk) (drop (Z.to_nat offset) (unsent connection)) in
      let segment := dataSegment key connection seq (is_last_chunk && draining) bytes in
      let entry := (new_pending seq (flags segment) now (current_rto connection))
                     <| p_payload := payload segment |> in
      let '(segments, entries, seq') :=
        schedule_loop fuel key connection now to_send draining (u32 (seq + u32 chunk)) (offset + chunk) in
      (segment :: segments, entry :: entries, seq')
  end.

Definition scheduleQueuedData (key : TcpConnectionKey) (connection : Connection) (now : Z) :
    list TcpSegment * Connection :=
  let send_available := Z.min (availableSendWindow connection) (availableCongestionWindow connection) in
  let pass_cap := kMaxSegmentsPerSend * effective_send_mss connection in
  let to_send := Z.min (Z.min send_available (Zlen (unsent connection))) pass_cap in
  let draining := (to_send =? Zlen (unsent connection)) && (0 <? to_send) in
  let '(segments, connection) :=
    if 0 <? to_send then
      let '(segments, entries, seq) :=
        schedule_loop (Z.to_nat kMaxSegmentsPerSend) key connection now to_send draining
          (snd_nxt connection) 0 in
      let connection := connection <| pending := pending connection ++ entries |> in
      let connection := connection <| unsent := drop (Z.to_nat to_send) (unsent connection) |> in
      (segments, connection <| snd_nxt := seq |>)
    else ([], connection) in
  let '(fin_segments, connection) :=
    if empty (unsent connection) then maybeSequenceFin key connection now else ([], connection) in
  (segments ++ fin_segments, updatePersistState connection now).

(** ** The sender invariant

    The pending queue covers exactly the sequence range from [snd_una] to
    [snd_nxt], entry after entry; a FIN is the last entry; the send buffer
    bounds the application bytes, so the range stays far below half of the
    sequence space and the wraparound comparisons are exact. *)

(** Sequence space an entry occupies. *)
Definition seq_len (p : PendingTransmission) : Z :=
  Zlen (p_payload p) + (if is_syn p then 1 else 0) + (if is_fin p then 1 else 0).

Definition pend_len (l : list PendingTransmission) : Z := foldr (fun e n => seq_len e + n) 0 l.

Fixpoint pend_chain (pos : Z) (l : list PendingTransmission) : Prop :=
  match l with
  | [] => True
  | e :: l => sequence_start e = u32 pos /\ pend_chain (pos + seq_len e) l
  end.

(** Application bytes in a queue, in sequence order. *)
Definition app_bytes (l : list PendingTransmission) : list Z := concat (map p_payload l).

(** No entry but the last is a FIN, and the last is one iff [has]. *)
Fixpoint fin_shape (has : bool) (l : list PendingTransmission) : Prop :=
  match l with
  | [] => True
  | e :: l => match l with [] => is_fin e = has | _ => is_fin e = false /\ fin_shape has l end
  end.

Record entry_ok (e : PendingTransmission) : Prop := {
  eo_kind : if is_syn e then is_fin e = false /\ p_payload e = []
            else if is_fin e then p_payload e = [] else p_payload e <> [];
  eo_len : Zlen (p_payload e) <= kTcpMss;
  eo_bytes : bytes_ok (p_payload e);
  eo_timeout : kMinRto <= timeout_interval e <= kMaxRto;
  eo_count : 0 <= timeout_retransmit_count e <= kMaxRetransmits
}.

Definition data_entry (e : PendingTransmission) : Prop := is_syn e = false /\ is_fin e = false.

Lemma entry_ok_seq_len e : entry_ok e -> 1 <= seq_len e <= kTcpMss.
Proof.
  intros [Hk Hl _ _ _]. unfold seq_len. pose proof (Zlen_nonneg (p_payload e)). consts.
  destruct (is_syn e); [destruct Hk as [-> ->]; change (Zlen []) with 0; lia|].
  destruct (is_fin e); [rewrite Hk; change (Zlen []) with 0; lia|].
  destruct (p_payload e); [done|]. rewrite Zlen_cons in *. pose proof (Zlen_nonneg l). lia.
Qed.

Lemma entry_ok_long e : entry_ok e -> 2 <= seq_len e -> data_entry e.
Proof.
  intros [Hk _ _ _ _] H. unfold seq_len in H. unfold data_entry.
  destruct (is_syn e); [destruct Hk as [E1 E2]; rewrite E1, E2 in H; change (Zlen []) with 0 in H; lia|].
  destruct (is_fin e); [rewrite Hk in H; change (Zlen []) with 0 in H; lia | done].
Qed.

Lemma seq_len_data e : data_entry e -> seq_len e = Zlen (p_payload e).
Proof. intros [H1 H2]. unfold seq_len. rewrite H1, H2. lia. Qed.

Lemma sequenceEnd_pos e pos : sequence_start e = u32 pos -> sequenceEnd e = u32 (pos + seq_len e).
Proof. intros H. unfold sequenceEnd, seq_len. rewrite H. destruct (is_syn e), (is_fin e); ulia. Qed.

Lemma pend_len_app l1 l2 : pend_len (l1 ++ l2) = pend_len l1 + pend_len l2.
Proof. induction l1 as [|e l IH]; simpl; lia. Qed.

Lemma pend_chain_app pos l1 l2 :
  pend_chain pos (l1 ++ l2) <-> pend_chain pos l1 /\ pend_chain (pos + pend_len l1) l2.
Proof.
  revert pos; induction l1 as [|e l IH]; intros pos; simpl.
  - rewrite Z.add_0_r. tauto.
  - rewrite IH, Z.add_assoc. tauto.
Qed.

Lemma pend_chain_u32 p q l : u32 p = u32 q -> pend_chain p l -> pend_chain q l.
Proof.
  revert p q; induction l as [|e l IH]; intros p q Hpq; simpl; [done|]. intros [H1 H2].
  split; [congruence|]. eapply IH; [|exact H2]. rewrite <- u32_add_l, Hpq. by u32_norm.
Qed.

Lemma app_bytes_app l1 l2 : app_bytes (l1 ++ l2) = app_bytes l1 ++ app_bytes l2.
Proof. unfold app_bytes. by rewrite map_app, concat_app. Qed.

Lemma pend_len_nonneg l : Forall entry_ok l -> 0 <= pend_len l.
Proof. induction 1 as [|e l He Hl IH]; simpl; [lia|]. pose proof (entry_ok_seq_len e He). lia. Qed.

Lemma pend_len_zero l : Forall entry_ok l -> pend_len l = 0 -> l = [].
Proof.
  destruct 1 as [|e l He Hl]; [done|]. simpl. intros. pose proof (entry_ok_seq_len e He).
  pose proof (pend_len_nonneg l Hl). lia.
Qed.

Lemma fin_shape_tail has e l : fin_shape has (e :: l) -> fin_shape has l.
Proof. destruct l; simpl; [done | tauto]. Qed.

Lemma fin_shape_head has e e' l : is_fin e = is_fin e' -> fin_shape has (e :: l) -> fin_shape has (e' :: l).
Proof. intros H. destruct l; simpl; by rewrite H. Qed.

Lemma fin_shape_false l : fin_shape false l <-> Forall (fun e => is_fin e = false) l.
Proof.
  induction l as [|e l IH]; simpl; [split; [constructor | done]|]. rewrite Forall_cons, <- IH.
  destruct l; simpl; tauto.
Qed.

Lemma fin_shape_snoc l e : fin_shape false l -> is_fin e = true -> fin_shape true (l ++ [e]).
Proof.
  induction l as [|a l IH]; intros H He; simpl; [done|].
  destruct l as [|b l]; simpl in *; [done|]. split; [tauto|]. apply IH; [tauto | done].
Qed.

(** Queue length in sequence space: the bytes, plus one for a FIN. *)
Lemma pend_len_app_bytes has l :
  Forall (fun e => is_syn e = false) l -> fin_shape has l ->
  Zlen (app_bytes l) <= pend_len l <= Zlen (app_bytes l) + 1.
Proof.
  intros Hs. revert has. induction Hs as [|e l He Hl IH]; intros has Hf; [change (pend_len []) with 0; vm_compute; split; congruence|].
  unfold app_bytes. cbn [map concat]. fold (app_bytes l). rewrite Zlen_app. simpl pend_len.
  unfold seq_len. rewrite He. destruct l as [|e2 l].
  - simpl. change (Zlen (app_bytes [])) with 0. destruct (is_fin e); lia.
  - destruct Hf as [Hf1 Hf2]. specialize (IH has Hf2). rewrite Hf1. lia.
Qed.

(** ** Changing marks only *)

(** [e'] is [e] with other transmission marks: what SACK processing, recovery
    retransmission and RTT sampling do to an entry. *)
Definition remarked (e e' : PendingTransmission) : Prop :=
  sequence_start e' = sequence_start e /\ is_syn e' = is_syn e /\ is_fin e' = is_fin e /\
  is_active_syn e' = is_active_syn e /\ p_flags e' = p_flags e /\ p_payload e' = p_payload e /\
  first_sent_at e' = first_sent_at e /\
  timeout_interval e' = timeout_interval e /\ timeout_retransmit_count e' = timeout_retransmit_count e.

Lemma remarked_refl e : remarked e e.
Proof. unfold remarked. tauto. Qed.

Lemma remarked_list_refl l : Forall2 remarked l l.
Proof. induction l; constructor; auto using remarked_refl. Qed.

Lemma remarked_trans a b c : remarked a b -> remarked b c -> remarked a c.
Proof. unfold remarked. intros. destruct_and!. split_and!; congruence. Qed.

Lemma remarked_list_trans l1 l2 l3 : Forall2 remarked l1 l2 -> Forall2 remarked l2 l3 -> Forall2 remarked l1 l3.
Proof.
  intros H. revert l3; induction H as [|a b l1 l2 Hab Hl IH]; intros l3 H3; inversion H3; subst;
    constructor; eauto using remarked_trans.
Qed.

Lemma remarked_map f l : (forall e, remarked e (f e)) -> Forall2 remarked l (map f l).
Proof. intros H. induction l; constructor; auto. Qed.

Lemma remarked_insert l i e e' : l !! i = Some e -> remarked e e' -> Forall2 remarked l (<[i := e']> l).
Proof.
  intros Hi He. revert i Hi. induction l as [|a l IH]; intros [|i] Hi; simpl in *; try done.
  - injection Hi as ->. constructor; [done | apply remarked_list_refl].
  - constructor; [apply remarked_refl | auto].
Qed.

Lemma remarked_entry_ok e e' : remarked e e' -> entry_ok e -> entry_ok e'.
Proof.
  intros (H1 & H2 & H3 & H4 & H5 & H6 & H7 & H8 & H9) [K1 K2 K3 K4 K5].
  constructor; rewrite ?H2, ?H3, ?H6, ?H8, ?H9; done.
Qed.

Lemma remarked_seq_len e e' : remarked e e' -> seq_len e' = seq_len e.
Proof. intros (H1 & H2 & H3 & H4 & H5 & H6 & _). unfold seq_len. by rewrite H2, H3, H6. Qed.

Section Remarked.
Context (l l' : list PendingTransmission) (H : Forall2 remarked l l').

Lemma remarked_chain pos : pend_chain pos l -> pend_chain pos l'.
Proof.
  revert pos; induction H as [|e e' l l' He Hl IH]; intros pos; simpl; [done|].
  rewrite (remarked_seq_len _ _ He). destruct He as [-> _]. intros []. auto.
Qed.

Lemma remarked_len : pend_len l' = pend_len l.
Proof. induction H as [|e e' l l' He Hl IH]; simpl; [done|]. rewrite (remarked_seq_len _ _ He), IH; auto. Qed.

Lemma remarked_app_bytes : app_bytes l' = app_bytes l.
Proof.
  unfold app_bytes. induction H as [|e e' l l' He Hl IH]; simpl; [done|].
  rewrite IH by done. f_equal. apply He.
Qed.

Lemma remarked_entries : Forall entry_ok l -> Forall entry_ok l'.
Proof. induction H as [|e e' l l' He Hl IH]; intros Hf; inversion Hf; constructor; eauto using remarked_entry_ok. Qed.

Lemma remarked_nosyn : Forall (fun e => is_syn e = false) l -> Forall (fun e => is_syn e = false) l'.
Proof.
  induction H as [|e e' l l' He Hl IH]; intros Hf; inversion Hf; constructor; auto.
  destruct He as (_ & -> & _). done.
Qed.

Lemma remarked_fin_shape has : fin_shape has l -> fin_shape has l'.
Proof.
  induction H as [|e e' l l' He Hl IH]; [done|]. intros Hf.
  assert (is_fin e' = is_fin e) as Hfin by apply He.
  destruct Hl as [|e2 e2' l l' He2 Hl]; simpl in *; [congruence|].
  destruct Hf as [Hf1 Hf2]. split; [congruence|]. apply IH; [by constructor | done].
Qed.
End Remarked.

(** ** Retirement *)

(** What trimming the front of a data entry leaves. *)
Definition trim_entry (e : PendingTransmission) (ack d : Z) : PendingTransmission :=
  e <| p_payload := drop (Z.to_nat d) (p_payload e) |> <| sequence_start := ack |>
    <| retransmitted_in_recovery := false |>.

Lemma entry_ok_trim e ack d :
  entry_ok e -> data_entry e -> 0 <= d < Zlen (p_payload e) -> entry_ok (trim_entry e ack d).
Proof.
  intros [K1 K2 K3 K4 K5] [D1 D2] Hd. rewrite D1, D2 in K1. constructor; simpl; auto.
  - rewrite D1, D2. intros E. apply (f_equal length) in E. rewrite length_drop in E.
    unfold Zlen in Hd. simpl in E. lia.
  - unfold Zlen in *. rewrite length_drop. lia.
  - by apply Forall_drop.
Qed.

Section RetireLoop.
Context (ack : Z).

(** The surviving queue is a suffix, its first entry possibly trimmed. *)
Inductive retired : list PendingTransmission -> list PendingTransmission -> Prop :=
| retired_same l : retired l l
| retired_trim e d l : data_entry e -> retired (e :: l) (trim_entry e ack d :: l)
| retired_drop e l l' : retired l l' -> retired (e :: l) l'.

Lemma retired_Forall (P : PendingTransmission -> Prop) l l' :
  (forall e d, data_entry e -> P e -> P (trim_entry e ack d)) ->
  retired l l' -> Forall P l -> Forall P l'.
Proof.
  intros HP. induction 1; intros Hf; [done | | ]; inversion Hf; subst; auto.
Qed.

Lemma retired_fin_shape has l l' : retired l l' -> fin_shape has l -> fin_shape has l'.
Proof.
  induction 1; intros Hf; [done | | eauto using fin_shape_tail].
  eapply fin_shape_head; [|done]. done.
Qed.

Lemma retire_loop_cons e l acked sample front :
  let elig := negb (was_retransmitted e) && negb (rtt_sample_taken e) in
  retire_loop ack (e :: l) acked sample front =
  if sequenceLessOrEqual (sequenceEnd e) ack then
    retire_loop ack l (u32 (acked + u32 (Zlen (p_payload e))))
      (if elig then Some (first_sent_at e) else sample) (if elig then false else front)
  else if sequenceGreater ack (sequence_start e) then
    mkRetire (trim_entry e ack (u32 (ack - sequence_start e)) :: l)
      (u32 (acked + u32 (ack - sequence_start e)))
      (if elig then Some (first_sent_at e) else sample) (if elig then true else front)
  else mkRetire (e :: l) acked sample front.
Proof. cbn. by destruct (negb (was_retransmitted e) && negb (rtt_sample_taken e)). Qed.

(** An acknowledgement inside the first entry takes a prefix of its data. *)
Lemma retired_partially e l pos d : entry_ok e -> Forall entry_ok l -> pend_chain pos (e :: l) -> ack = u32 (pos + d) -> 0 < d < seq_len e ->
  retired (e :: l) (trim_entry e ack d :: l) /\ pend_chain (pos + d) (trim_entry e ack d :: l) /\
  pend_len (trim_entry e ack d :: l) = pend_len (e :: l) - d /\ Forall entry_ok (trim_entry e ack d :: l) /\
  d <= Zlen (app_bytes (e :: l)) /\ app_bytes (trim_entry e ack d :: l) = drop (Z.to_nat d) (app_bytes (e :: l)).
Proof.
  intros He Hl [Hs Hc] Hack Hd. assert (Hdata : data_entry e) by (apply entry_ok_long; [done | lia]).
  pose proof (seq_len_data e Hdata) as Hsd. pose proof (Zlen_nonneg (app_bytes l)).
  assert (Hab : app_bytes (e :: l) = p_payload e ++ app_bytes l) by done.
  assert (Hsl' : seq_len (trim_entry e ack d) = seq_len e - d).
  { destruct Hdata as [D1 D2]. unfold seq_len. simpl. rewrite D1, D2 in *. unfold Zlen in *. rewrite length_drop. lia. }
  split_and!.
  - by constructor.
  - simpl. rewrite Hsl'. split; [done|]. by replace (pos + d + (seq_len e - d)) with (pos + seq_len e) by lia.
  - simpl pend_len. rewrite Hsl'. lia.
  - constructor; [|done]. apply entry_ok_trim; auto. lia.
  - rewrite Hab, Zlen_app. lia.
  - rewrite Hab. rewrite drop_app_le by (unfold Zlen in *; lia). done.
Qed.

(** The loop consumes exactly [d] units of sequence space from the front. *)
Lemma retire_loop_spec l pos d acked sample front :
  Forall entry_ok l -> pend_chain pos l -> ack = u32 (pos + d) ->
  0 <= d <= pend_len l -> pend_len l < 2 ^ 31 -> 0 <= acked -> acked + pend_len l < 2 ^ 32 ->
  let r := retire_loop ack l acked sample front in
  retired l (ret_pending r) /\
  pend_chain (pos + d) (ret_pending r) /\
  pend_len (ret_pending r) = pend_len l - d /\
  Forall entry_ok (ret_pending r) /\
  0 <= ret_acked r - acked <= d /\ ret_acked r - acked <= Zlen (app_bytes l) /\
  app_bytes (ret_pending r) = drop (Z.to_nat (ret_acked r - acked)) (app_bytes l).
Proof.
  intros Hok. revert pos d acked sample front.
  induction Hok as [|e l He Hl IH]; intros pos d acked sample front Hc Hack Hd Hlen Ha Hb.
  { simpl in *. assert (d = 0) as -> by lia. rewrite ?Z.add_0_r, ?Z.sub_diag.
    split_and!; try done; try lia; try constructor. }
  destruct Hc as [Hs Hc]. simpl pend_len in *.
  pose proof (entry_ok_seq_len e He) as Hsl. pose proof (pend_len_nonneg l Hl) as Hpl. consts.
  assert (Hzl : 0 <= Zlen (p_payload e) <= seq_len e).
  { unfold seq_len. pose proof (Zlen_nonneg (p_payload e)). destruct (is_syn e), (is_fin e); lia. }
  assert (Hab : app_bytes (e :: l) = p_payload e ++ app_bytes l) by done.
  rewrite retire_loop_cons, (sequenceEnd_pos e pos Hs), Hs.
  set (sample' := if negb (was_retransmitted e) && _ then _ else _). clearbody sample'.
  assert (Hle : sequenceLessOrEqual (u32 (pos + seq_len e)) ack = (pos + seq_len e <=? pos + d))
    by (rewrite Hack; apply sequenceLessOrEqual_abs; lia).
  rewrite Hle. clear Hle. destruct (Z.leb_spec (pos + seq_len e) (pos + d)) as [Hle|Hgt].
  - rewrite (u32_id (Zlen _)), (u32_id (acked + _)) by ulia.
    set (r := retire_loop _ _ _ _ _).
    destruct (IH (pos + seq_len e) (d - seq_len e) (acked + Zlen (p_payload e)) sample'
      (if negb (was_retransmitted e) && negb (rtt_sample_taken e) then false else front))
      as (R1 & R2 & R3 & R4 & R5 & R6 & R7); auto; try lia; [rewrite Hack; f_equal; lia|].
    fold r in R1, R2, R3, R4, R5, R6, R7.
    replace (pos + seq_len e + (d - seq_len e)) with (pos + d) in R2 by lia.
    cbv zeta. split_and!; auto; try lia.
    + by constructor.
    + rewrite Hab, Zlen_app. lia.
    + rewrite Hab, R7, drop_app_ge by (unfold Zlen in *; lia). f_equal. unfold Zlen in *. lia.
  - assert (Hg : sequenceGreater ack (u32 pos) = (pos <? pos + d))
      by (rewrite Hack; apply sequenceGreater_abs; lia).
    rewrite Hg. clear Hg. destruct (Z.ltb_spec pos (pos + d)) as [Hpos|Hzero].
    + assert (Htr : u32 (ack - u32 pos) = d).
      { rewrite Hack. u32_norm. replace (pos + d - pos) with d by lia. apply u32_id. ulia. }
      rewrite Htr. rewrite (u32_id (acked + d)) by ulia. cbn [ret_pending ret_acked].
      destruct (retired_partially e l pos d He Hl (conj Hs Hc) Hack) as (T1 & T2 & T3 & T4 & T5 & T6); [lia|].
      replace (acked + d - acked) with d by lia. split_and!; auto; lia.
    + assert (d = 0) as -> by lia. rewrite Z.add_0_r, Z.sub_0_r. cbn [ret_pending ret_acked].
      rewrite Z.sub_diag. split_and!; try done; try lia; [constructor | by constructor | apply Zlen_nonneg].
Qed.

(** Karn's rule: a sample comes only from an entry that was never
    retransmitted and was not sampled before. *)
Lemma retire_loop_sample l acked sample front t :
  ret_sample (retire_loop ack l acked sample front) = Some t ->
  sample = Some t \/ exists e, In e l /\ first_sent_at e = t /\ was_retransmitted e = false /\
                               rtt_sample_taken e = false.
Proof.
  revert acked sample front. induction l as [|e l IH]; intros acked sample front; cbn [retire_loop]; [auto|].
  destruct (negb (was_retransmitted e) && negb (rtt_sample_taken e)) eqn:E.
  - bprop. destruct (sequenceLessOrEqual _ _); [|destruct (sequenceGreater _ _)]; intros Hs.
    + apply IH in Hs as [[= <-]|(e' & Hin & He)]; right; [exists e | exists e']; simpl; tauto.
    + injection Hs as <-. right. exists e. simpl. tauto.
    + auto.
  - destruct (sequenceLessOrEqual _ _); [|destruct (sequenceGreater _ _)]; intros Hs; auto.
    apply IH in Hs as [Hs|(e' & Hin & He)]; [auto|]. right. exists e'. simpl. tauto.
Qed.
End RetireLoop.

(** The invariant of the send side in the synchronized states. *)
Record sender_ok (c : Connection) : Prop := {
  so_una : is_u32 (snd_una c);
  so_nxt : snd_nxt c = u32 (snd_una c + pend_len (pending c));
  so_chain : pend_chain (snd_una c) (pending c);
  so_entries : Forall entry_ok (pending c);
  so_nosyn : Forall (fun e => is_syn e = false) (pending c);
  so_cap : Zlen (app_bytes (pending c)) + Zlen (unsent c) <= kTcpSendBufferCapacity;
  so_unsent : bytes_ok (unsent c);
  so_fin : fin_shape (has_value (local_fin_seq c)) (pending c);
  so_fin_seq : forall f, local_fin_seq c = Some f -> unsent c = [] /\ snd_nxt c = u32 (f + 1) /\ is_u32 f;
  so_wnd : 0 <= snd_wnd c < 2 ^ 30
}.

(** Bytes the application handed over and the peer has not acknowledged. *)
Definition owned (c : Connection) : list Z := app_bytes (pending c) ++ unsent c.

Lemma sender_flight c : sender_ok c ->
  0 <= pend_len (pending c) <= kTcpSendBufferCapacity + 1 /\
  u32 (snd_nxt c - snd_una c) = pend_len (pending c).
Proof.
  intros H. pose proof (pend_len_app_bytes _ _ (so_nosyn _ H) (so_fin _ H)).
  pose proof (pend_len_nonneg _ (so_entries _ H)). pose proof (so_cap _ H).
  pose proof (Zlen_nonneg (unsent c)). split; [lia|].
  rewrite (so_nxt _ H). u32_norm. replace (_ + _ - _) with (pend_len (pending c)) by lia.
  apply u32_id. consts. ulia.
Qed.

Lemma sender_nxt_u32 c : sender_ok c -> is_u32 (snd_nxt c).
Proof. intros H. rewrite (so_nxt _ H). apply u32_range. Qed.

(** A FIN is acknowledged exactly when the queue is empty. *)
Lemma fin_acked_iff c f : sender_ok c -> local_fin_seq c = Some f ->
  sequenceLessOrEqual (u32 (f + 1)) (snd_una c) = true <-> pending c = [].
Proof.
  intros H Hf. destruct (so_fin_seq _ H f Hf) as (_ & Hn & _). rewrite <- Hn, (so_nxt _ H).
  pose proof (sender_flight c H) as [Hl _]. consts.
  rewrite <- (u32_id (snd_una c)) at 2 by apply (so_una _ H).
  rewrite sequenceLessOrEqual_abs by lia. rewrite Z.leb_le. split.
  - intros. apply pend_len_zero; [apply (so_entries _ H) | lia].
  - intros ->. simpl. lia.
Qed.

(** An acknowledgement that passes the handler's tests names a position in
    the outstanding range. *)
Lemma ack_position c a : sender_ok c -> is_u32 a ->
  sequenceLessOrEqual a (snd_nxt c) = true -> sequenceGreater a (snd_una c) = true ->
  exists d, a = u32 (snd_una c + d) /\ 1 <= d <= pend_len (pending c).
Proof.
  intros H Ha Hle Hgt. pose proof (sender_flight c H) as [Hl _]. pose proof (so_una _ H) as Hu.
  consts. set (d := near (snd_una c) a - snd_una c).
  assert (Ea : a = u32 (snd_una c + d)).
  { unfold d. replace (_ + (_ - _)) with (near (snd_una c) a) by lia. by rewrite near_u32. }
  pose proof (near_range (snd_una c) a) as Hr. fold d in Hr.
  exists d. split; [done|]. rewrite Ea in Hle, Hgt. rewrite (so_nxt _ H) in Hle.
  rewrite <- (u32_id (snd_una c) Hu) in Hgt at 2. rewrite sequenceGreater_abs in Hgt by lia.
  apply Z.ltb_lt in Hgt. rewrite sequenceLessOrEqual_abs in Hle by lia. apply Z.leb_le in Hle. lia.
Qed.

(** The fields retirement may change: everything else is the old connection. *)
Definition with_retired (c : Connection) (a : Z) (l : list PendingTransmission) (s v o : Z) (h : bool) :
    Connection :=
  c <| snd_una := a |> <| pending := l |> <| srtt := s |> <| rttvar := v |> <| has_rtt_sample := h |>
    <| current_rto := o |>.

Lemma recordRttSample_frame c r : exists s v o h,
  recordRttSample c r = c <| srtt := s |> <| rttvar := v |> <| has_rtt_sample := h |> <| current_rto := o |> /\
  kMinRto <= o <= kMaxRto.
Proof.
  unfold recordRttSample. destruct (has_rtt_sample c) eqn:E; cbn [negb].
  - exists (Z.quot (srtt c * 7 + r) 8), (Z.quot (rttvar c * 3 + Z.abs (srtt c - r)) 4).
    eexists. exists true. split; [destruct c; simpl in E; subst; reflexivity | consts; lia].
  - exists r, (Z.quot r 2). eexists. exists true. split; [reflexivity | consts; lia].
Qed.

Lemma mark_front_remarked l : Forall2 remarked l (mark_front_sampled l).
Proof.
  destruct l as [|e l]; simpl; constructor; [|apply remarked_list_refl]. unfold remarked. simpl. tauto.
Qed.

Lemma retireAcknowledged_frame c a now res c' :
  retireAcknowledged c a now = (res, c') -> sequenceGreater a (snd_una c) = true ->
  exists l s v o h, c' = with_retired c a l s v o h /\
    Forall2 remarked (ret_pending (retire_loop a (pending c) 0 None false)) l /\
    (rto_ok c -> kMinRto <= o <= kMaxRto) /\
    res = mkRetirement (u32 (a - snd_una c)) (ret_acked (retire_loop a (pending c) 0 None false)) true
            (r_rtt_sample_taken res).
Proof.
  unfold retireAcknowledged. intros Hr Hg. rewrite Hg in Hr. cbn [negb] in Hr.
  cbn -[retire_loop recordRttSample] in Hr. set (r := retire_loop a (pending c) 0 None false) in *.
  assert (Hsame : forall b, (mkRetirement (u32 (a - snd_una c)) (ret_acked r) true b,
      c <| snd_una := a |> <| pending := ret_pending r |>) = (res, c') ->
    exists l s v o h, c' = with_retired c a l s v o h /\ Forall2 remarked (ret_pending r) l /\
      (rto_ok c -> kMinRto <= o <= kMaxRto) /\
      res = mkRetirement (u32 (a - snd_una c)) (ret_acked r) true (r_rtt_sample_taken res)).
  { intros b [= <- <-]. exists (ret_pending r), (srtt c), (rttvar c), (current_rto c), (has_rtt_sample c).
    split; [done|]. split; [apply remarked_list_refl|]. split; [done|]. done. }
  destruct (ret_sample r) as [t|]; [|by eapply Hsame].
  destruct (t <=? now); [|by eapply Hsame]. clear Hsame.
  destruct (recordRttSample_frame (c <| snd_una := a |> <| pending := ret_pending r |>) (now - t))
    as (s & v & o & h & E & Ho).
  rewrite E in Hr. destruct (ret_front r); injection Hr as <- <-.
  - exists (mark_front_sampled (ret_pending r)), s, v, o, h. split_and!; [reflexivity | apply mark_front_remarked | done | reflexivity].
  - exists (ret_pending r), s, v, o, h. split_and!; [reflexivity | apply remarked_list_refl | done | reflexivity].
Qed.

(** Retirement keeps the invariant and releases exactly the acknowledged
    prefix of the byte stream. *)
Lemma retireAcknowledged_spec c a now res c' :
  sender_ok c -> is_u32 a -> sequenceLessOrEqual a (snd_nxt c) = true ->
  retireAcknowledged c a now = (res, c') ->
  sender_ok c' /\
  owned c' = drop (Z.to_nat (newly_acked_data_bytes res)) (owned c) /\
  0 <= newly_acked_data_bytes res <= newly_acked_sequence_space res /\
  newly_acked_data_bytes res <= Zlen (owned c) /\
  newly_acked_sequence_space res = pend_len (pending c) - pend_len (pending c') /\
  (ack_advanced res = true <-> sequenceGreater a (snd_una c) = true) /\
  (ack_advanced res = true -> snd_una c' = a) /\
  (ack_advanced res = false -> c' = c).
Proof.
  intros H Ha Hle Hr. destruct (sequenceGreater a (snd_una c)) eqn:Hg.
  2: { unfold retireAcknowledged in Hr. rewrite Hg in Hr. injection Hr as <- <-. simpl.
       pose proof (Zlen_nonneg (owned c)). split_and!; done || lia. }
  pose proof (sender_flight c H) as [Hl _]. consts.
  destruct (ack_position c a H Ha Hle Hg) as (d & Ed & Hd).
  destruct (retireAcknowledged_frame c a now res c' Hr Hg) as (l & s & v & o & h & -> & Hm & _ & Hres).
  destruct (retire_loop_spec a (pending c) (snd_una c) d 0 None false)
    as (R1 & R2 & R3 & R4 & R5 & R6 & R7);
    [apply (so_entries _ H) | apply (so_chain _ H) | exact Ed | lia..|].
  set (r := retire_loop a (pending c) 0 None false) in *.
  rewrite Z.sub_0_r in R5, R6, R7.
  assert (Hspace : u32 (a - snd_una c) = d).
  { rewrite Ed. u32_norm. replace (_ + d - _) with d by lia. apply u32_id. ulia. }
  pose proof (remarked_len _ _ Hm) as Hlen. pose proof (remarked_app_bytes _ _ Hm) as Hbytes.
  assert (Happ : Zlen (app_bytes l) = Zlen (app_bytes (pending c)) - ret_acked r).
  { rewrite Hbytes, R7. unfold Zlen in *. rewrite length_drop. lia. }
  split.
  { destruct H as [_ S2 S3 S4 S5 S6 S7 S8 S9 S10]. constructor; simpl; auto.
    - rewrite Hlen, R3, S2, Ed. u32_norm. f_equal. lia.
    - apply remarked_chain with (ret_pending r); [done|].
      apply pend_chain_u32 with (snd_una c + d); [by rewrite Ed, u32_u32 | done].
    - by apply remarked_entries with (ret_pending r).
    - apply remarked_nosyn with (ret_pending r); [done|]. eapply retired_Forall; eauto.
    - consts. lia.
    - apply remarked_fin_shape with (ret_pending r); [done|]. eapply retired_fin_shape; eauto. }
  rewrite Hres. cbn [newly_acked_data_bytes newly_acked_sequence_space ack_advanced].
  unfold owned. cbn [with_retired]. rewrite Hspace. simpl. rewrite Hbytes, R7.
  split_and!; try done; try lia.
  - rewrite drop_app_le by (unfold Zlen in *; lia). done.
  - rewrite Zlen_app. pose proof (Zlen_nonneg (unsent c)). lia.
Qed.

(** The invariant reads only the sending fields. *)
Lemma sender_ok_part c c' : send_part c' = send_part c -> sender_ok c -> sender_ok c'.
Proof.
  unfold send_part. intros [= E1 E2 E3 E4 E5 E6] [].
  constructor; rewrite ?E1, ?E2, ?E3, ?E4, ?E5, ?E6; auto.
Qed.

(** Changing transmission marks keeps the invariant. *)
Lemma sender_ok_remark c c' l :
  send_part c' = send_part (c <| pending := l |>) -> Forall2 remarked (pending c) l ->
  sender_ok c -> sender_ok c'.
Proof.
  intros Hp Hm H. apply (sender_ok_part _ _ Hp). destruct H. constructor; simpl; auto.
  - by rewrite (remarked_len _ _ Hm).
  - by apply (remarked_chain _ _ Hm).
  - by apply (remarked_entries _ _ Hm).
  - by apply (remarked_nosyn _ _ Hm).
  - by rewrite (remarked_app_bytes _ _ Hm).
  - by apply (remarked_fin_shape _ _ Hm).
Qed.

(** What SACK processing and recovery retransmission do to a connection. *)
Definition remarked_conn (c c' : Connection) : Prop :=
  exists l, c' = c <| pending := l |> /\ Forall2 remarked (pending c) l.

Lemma remarked_conn_refl c : remarked_conn c c.
Proof. exists (pending c). split; [by destruct c | apply remarked_list_refl]. Qed.

Lemma markSacked_remarked m e : remarked e (markSacked m e).
Proof.
  unfold markSacked. destruct (is_syn e || is_fin e || sacked e); [apply remarked_refl|].
  destruct (existsb _ _); [|apply remarked_refl]. unfold remarked. simpl. tauto.
Qed.

Lemma applySackBlocks_remarked c a blocks : remarked_conn c (applySackBlocks c a blocks).
Proof.
  unfold applySackBlocks. destruct (empty _); [apply remarked_conn_refl|].
  eexists. split; [done|]. apply remarked_map, markSacked_remarked.
Qed.

Lemma clear_recovery_marks_remarked l : Forall2 remarked l (clear_recovery_marks l).
Proof. apply remarked_map. intros e. unfold remarked. simpl. tauto. Qed.

Lemma selectRecovery_from_lookup rp i l j e :
  selectRecovery_from rp i l = Some (j, e) ->
  exists k, j = (i + k)%nat /\ l !! k = Some e /\ data_entry e /\ sacked e = false /\
    retransmitted_in_recovery e = false /\ sequenceGreater rp (sequence_start e) = true.
Proof.
  revert i. induction l as [|a l IH]; intros i; simpl; [done|].
  assert (Hrec : selectRecovery_from rp (S i) l = Some (j, e) -> exists k, j = (i + k)%nat /\
    (a :: l) !! k = Some e /\ data_entry e /\ sacked e = false /\
    retransmitted_in_recovery e = false /\ sequenceGreater rp (sequence_start e) = true).
  { intros H. apply IH in H as (k & -> & H). exists (S k). split; [lia | done]. }
  destruct (is_syn a || is_fin a) eqn:E1; [done|].
  destruct (negb _) eqn:E2; [done|]. destruct (sacked a || _) eqn:E3; [done|].
  intros [= <- <-]. exists 0%nat. bprop. unfold data_entry. split_and!; [lia | done..].
Qed.

Lemma recoveryRetransmit_remarked key c now s c' :
  recoveryRetransmit key c now = (s, c') -> remarked_conn c c'.
Proof.
  unfold recoveryRetransmit, selectRecoveryRetransmission.
  destruct (selectRecovery_from _ _ _) as [[i e]|] eqn:E; [|intros [= <- <-]; apply remarked_conn_refl].
  apply selectRecovery_from_lookup in E as (k & -> & Hk & _). intros [= <- <-].
  eexists. split; [done|]. eapply remarked_insert; [exact Hk|]. unfold remarked. simpl. tauto.
Qed.

(** ** Scheduling *)

(** [s] is the transmission the entry [e] records, acknowledging [c]'s
    receive position. *)
Definition carries (c : Connection) (s : TcpSegment) (e : PendingTransmission) : Prop :=
  sequence_number s = sequence_start e /\ payload s = p_payload e /\ flags s = p_flags e /\
  acknowledgment_number s = rcv_nxt c /\ ack (flags s) = true /\
  fin (flags s) = is_fin e /\ syn (flags s) = false /\ is_active_syn e = false /\ options s = [].

(** Only the last segment of a burst may carry PSH, and does iff [has]. *)
Fixpoint push_shape (has : bool) (l : list TcpSegment) : Prop :=
  match l with
  | [] => True
  | s :: l => match l with [] => psh (flags s) = has | _ => psh (flags s) = false /\ push_shape has l end
  end.

Section Schedule.
Context (key : TcpConnectionKey) (c : Connection) (now to_send : Z) (draining : bool).
Context (Hmss : 1 <= effective_send_mss c <= kTcpMss) (Hrto : rto_ok c).
Context (Hbytes : bytes_ok (unsent c)) (Hsend : to_send <= Zlen (unsent c)).

(** One chunk of the send buffer as a queue entry. *)
Let chunk_bytes (offset n : Z) := take (Z.to_nat n) (drop (Z.to_nat offset) (unsent c)).

Lemma chunk_len offset n : 0 <= offset -> 0 <= n -> offset + n <= to_send -> Zlen (chunk_bytes offset n) = n.
Proof. intros. unfold chunk_bytes, Zlen in *. rewrite length_take, length_drop. lia. Qed.

Lemma chunk_split offset n m : 0 <= offset -> 0 <= n -> 0 <= m ->
  chunk_bytes offset n ++ chunk_bytes (offset + n) m = chunk_bytes offset (n + m).
Proof.
  intros. unfold chunk_bytes. rewrite (Z2Nat.inj_add offset n), (Z2Nat.inj_add n m) by lia.
  rewrite <- drop_drop. apply take_take_drop.
Qed.

Lemma chunk_entry_ok seq f offset n :
  1 <= n <= kTcpMss -> 0 <= offset -> offset + n <= to_send ->
  entry_ok ((new_pending seq f now (current_rto c)) <| p_payload := chunk_bytes offset n |>).
Proof.
  intros Hn Ho Hle. pose proof (chunk_len offset n) as HL. constructor; simpl.
  - intros E. rewrite E in HL. change (Zlen []) with 0 in HL. lia.
  - lia.
  - unfold chunk_bytes. by apply Forall_take, Forall_drop.
  - apply Hrto.
  - consts. lia.
Qed.

Lemma schedule_loop_spec fuel pos offset :
  0 <= offset <= to_send -> to_send - offset <= Z.of_nat fuel * effective_send_mss c ->
  let '(segs, ents, seq) := schedule_loop fuel key c now to_send draining (u32 pos) offset in
  seq = u32 (pos + (to_send - offset)) /\ pend_len ents = to_send - offset /\
  pend_chain pos ents /\ Forall entry_ok ents /\ Forall data_entry ents /\
  app_bytes ents = chunk_bytes offset (to_send - offset) /\
  Forall2 (carries c) segs ents /\ push_shape draining segs /\ (length segs <= fuel)%nat /\
  (segs = [] -> to_send = offset) /\
  Forall (fun e => Zlen (p_payload e) <= effective_send_mss c) ents.
Proof.
  revert pos offset. induction fuel as [|fuel IH]; intros pos offset Ho Hf.
  { assert (to_send = offset) by lia. simpl. unfold chunk_bytes.
    replace (to_send - offset) with 0 by lia. rewrite Z.add_0_r. split_and!; try done; constructor. }
  cbn [schedule_loop]. destruct (Z.ltb_spec offset to_send) as [Hlt|Hge]; cbn [negb].
  2: { assert (to_send = offset) by lia. unfold chunk_bytes.
       replace (to_send - offset) with 0 by lia. rewrite Z.add_0_r.
       split_and!; try done; try constructor; simpl; lia. }
  consts. set (n := Z.min (effective_send_mss c) (to_send - offset)).
  assert (Hn : 1 <= n <= 1460 /\ offset + n <= to_send) by lia.
  assert (Hnext : u32 (u32 pos + u32 n) = u32 (pos + n)) by (u32_norm; done). rewrite Hnext.
  assert (Hdone : offset + n = to_send \/ n = effective_send_mss c) by lia.
  specialize (IH (pos + n) (offset + n)).
  destruct (schedule_loop fuel _ _ _ _ _ _ _) as [[segs ents] seq].
  destruct IH as (I1 & I2 & I3 & I4 & I5 & I6 & I7 & I8 & I9 & I10 & I11); [lia | destruct Hdone; nia |].
  fold (chunk_bytes offset n). pose proof (chunk_len offset n) as HL.
  set (e := _ <| p_payload := _ |>). assert (He : seq_len e = n) by (unfold seq_len; simpl; lia).
  split_and!.
  - rewrite I1. f_equal. lia.
  - simpl pend_len. rewrite He. lia.
  - simpl pend_chain. rewrite He. done.
  - constructor; [apply chunk_entry_ok; consts; lia | done].
  - constructor; [done | done].
  - unfold app_bytes. cbn [map concat]. fold (app_bytes ents). rewrite I6. simpl p_payload.
    rewrite chunk_split by lia. f_equal. lia.
  - constructor; [|done]. unfold carries. simpl. tauto.
  - cbn [push_shape]. destruct segs as [|s segs].
    + simpl. specialize (I10 eq_refl). destruct (Z.eqb_spec (offset + n) to_send); [done | lia].
    + split; [|done]. simpl. destruct (Z.eqb_spec (offset + n) to_send) as [E|]; [|done].
      exfalso. destruct ents as [|e2 ents]; [by inversion I7|]. apply Forall_cons in I4 as [Ie Iee].
      pose proof (entry_ok_seq_len e2 Ie). pose proof (pend_len_nonneg ents Iee). simpl in I2. lia.
  - simpl. lia.
  - done.
  - constructor; [simpl; lia | done].
Qed.
End Schedule.

(** ** The persist timer, the deferred FIN and the whole scheduling pass *)

Lemma updatePersistState_frame c now : exists d i,
  updatePersistState c now = c <| persist_deadline := d |> <| persist_interval := i |> /\
  has_value d = persistEligible c.
Proof.
  unfold updatePersistState. destruct (persistEligible c) eqn:E; simpl.
  - destruct (persist_deadline c) as [d|] eqn:Ed.
    + exists (Some d), (persist_interval c). split; [|done]. destruct c; simpl in *; by subst.
    + eexists _, _. by split.
  - exists None, (persist_interval c). split; [by destruct c | done].
Qed.

Lemma availableSendWindow_eq c : sender_ok c ->
  availableSendWindow c = Z.max 0 (snd_wnd c - pend_len (pending c)).
Proof.
  intros H. unfold availableSendWindow. destruct (sender_flight c H) as [Hl ->].
  pose proof (so_wnd _ H). consts. zcases; [lia|]. rewrite u32_id; ulia.
Qed.

Lemma availableCongestionWindow_eq c : sender_ok c -> 0 <= cwnd c <= kMaxCongestionWindow ->
  availableCongestionWindow c = Z.max 0 (cwnd c - pend_len (pending c)).
Proof.
  intros H Hc. unfold availableCongestionWindow. destruct (sender_flight c H) as [Hl ->].
  consts. zcases; [lia|]. rewrite u32_id; ulia.
Qed.

(** The state a connection enters when its own FIN is sequenced. *)
Definition fin_state (s : TcpState) : TcpState := if state_eqb s Established then FinWait1 else LastAck.

(** The connection after a FIN was sequenced. *)
Definition with_fin (c : Connection) (e : PendingTransmission) : Connection :=
  c <| pending := pending c ++ [e] |> <| local_fin_seq := Some (snd_nxt c) |>
    <| snd_nxt := u32 (snd_nxt c + 1) |> <| state := fin_state (state c) |>.

Definition fin_due (c : Connection) : bool :=
  close_requested c && negb (has_value (local_fin_seq c)) && empty (unsent c) &&
  (1 <=? availableSendWindow c).

Lemma maybeSequenceFin_cases key c now :
  maybeSequenceFin key c now =
    if fin_due c
    then ([makeFin key c], with_fin c ((new_pending (snd_nxt c) (flags (makeFin key c)) now (current_rto c))
                                         <| is_fin := true |>))
    else ([], c).
Proof.
  unfold maybeSequenceFin, fin_due. destruct (close_requested c); [|done].
  destruct (has_value (local_fin_seq c)); [done|]. destruct (empty (unsent c)); [|done].
  cbn [negb andb]. zcases; try lia; done.
Qed.

Lemma with_fin_ok c f now :
  sender_ok c -> rto_ok c -> local_fin_seq c = None -> unsent c = [] ->
  sender_ok (with_fin c ((new_pending (snd_nxt c) f now (current_rto c)) <| is_fin := true |>)).
Proof.
  intros H Hr Hf Hu. set (e := _ <| is_fin := true |>). pose proof (sender_nxt_u32 c H) as Hn.
  destruct H as [S1 S2 S3 S4 S5 S6 S7 S8 S9 S10]. rewrite Hf in S8. constructor; simpl; auto.
  - rewrite pend_len_app. simpl. change (seq_len e) with 1. rewrite S2. u32_norm. f_equal. lia.
  - apply pend_chain_app. split; [done|]. simpl. rewrite S2. done.
  - apply Forall_app. split; [done|]. constructor; [|done].
    constructor; simpl; [done | by vm_compute | constructor | exact Hr | consts; lia].
  - apply Forall_app. split; [done|]. by constructor.
  - rewrite app_bytes_app. change (app_bytes [e]) with (@nil Z). by rewrite app_nil_r.
  - by apply fin_shape_snoc.
  - intros g [= <-]. done.
Qed.

Record scheduled_from (c : Connection) (segs : list TcpSegment) (ents : list PendingTransmission)
    (c' : Connection) : Prop := {
  sf_pending : pending c' = pending c ++ ents;
  sf_carries : Forall2 (carries c) segs ents;
  sf_bytes : app_bytes ents ++ unsent c' = unsent c;
  sf_una : snd_una c' = snd_una c;
  sf_wnd : snd_wnd c' = snd_wnd c;
  sf_recv : recv_part c' = recv_part c;
  sf_nego : nego_part c' = nego_part c;
  sf_cong : cong_part c' = cong_part c;
  sf_rto : current_rto c' = current_rto c;
  sf_removal : pending_removal c' = pending_removal c;
  sf_close : close_requested c' = close_requested c;
  sf_timewait : time_wait_deadline c' = time_wait_deadline c
}.

(** Bytes one scheduling pass moves: what both windows leave open, what is
    queued, and at most [kMaxSegmentsPerSend] full segments. *)
Definition send_allowance (c : Connection) : Z :=
  Z.min (Z.min (Z.max 0 (Z.min (snd_wnd c) (cwnd c) - pend_len (pending c))) (Zlen (unsent c)))
    (kMaxSegmentsPerSend * effective_send_mss c).

(** The data half of the pass. *)
Definition with_data (c : Connection) (n : Z) (ents : list PendingTransmission) : Connection :=
  c <| pending := pending c ++ ents |> <| unsent := drop (Z.to_nat n) (unsent c) |>
    <| snd_nxt := u32 (snd_nxt c + n) |>.

Lemma with_data_ok c n ents :
  sender_ok c -> local_fin_seq c = None -> 0 <= n <= Zlen (unsent c) ->
  pend_len ents = n -> pend_chain (snd_una c + pend_len (pending c)) ents -> Forall entry_ok ents ->
  Forall data_entry ents -> app_bytes ents = take (Z.to_nat n) (unsent c) ->
  sender_ok (with_data c n ents).
Proof.
  intros [S1 S2 S3 S4 S5 S6 S7 S8 S9 S10] Hf Hn Hl Hc He Hd Hb. rewrite Hf in S8. constructor; simpl; auto.
  - rewrite pend_len_app, S2, Hl. u32_norm. f_equal. lia.
  - by apply pend_chain_app.
  - by apply Forall_app.
  - apply Forall_app. split; [done|]. eapply Forall_impl; [exact Hd|]. by intros e [].
  - rewrite app_bytes_app, Hb, Zlen_app. unfold Zlen in *. rewrite length_take, length_drop. lia.
  - by apply Forall_drop.
  - rewrite Hf. simpl. apply fin_shape_false, Forall_app. split; [by apply fin_shape_false|].
    eapply Forall_impl; [exact Hd|]. by intros e [].
  - by rewrite Hf.
Qed.

Lemma scheduled_from_app c segs1 ents1 c1 segs2 ents2 c2 :
  scheduled_from c segs1 ents1 c1 -> scheduled_from c1 segs2 ents2 c2 ->
  scheduled_from c (segs1 ++ segs2) (ents1 ++ ents2) c2.
Proof.
  intros [] []. assert (Hr : rcv_nxt c1 = rcv_nxt c) by (unfold recv_part in *; congruence).
  constructor; try congruence.
  - rewrite sf_pending1, sf_pending0. by rewrite app_assoc.
  - apply Forall2_app; [done|]. eapply Forall2_impl; [exact sf_carries1|].
    intros s e. unfold carries. by rewrite Hr.
  - rewrite app_bytes_app, <- app_assoc, sf_bytes1. done.
Qed.

Lemma scheduled_from_refl c : scheduled_from c [] [] c.
Proof. constructor; try done. by rewrite app_nil_r. Qed.

Section Pass.
Context (key : TcpConnectionKey) (c : Connection) (now : Z).
Context (Hs : sender_ok c) (Hr : rto_ok c) (Hg : congestion_ok c) (Hf : local_fin_seq c = None).

Lemma send_allowance_eq :
  Z.min (Z.min (Z.min (availableSendWindow c) (availableCongestionWindow c)) (Zlen (unsent c)))
    (kMaxSegmentsPerSend * effective_send_mss c) = send_allowance c.
Proof.
  destruct Hg as (? & ? & _). rewrite availableSendWindow_eq, availableCongestionWindow_eq by (done || consts; lia).
  unfold send_allowance. lia.
Qed.

Lemma send_allowance_range :
  0 <= send_allowance c <= Zlen (unsent c) /\ send_allowance c <= kMaxSegmentsPerSend * effective_send_mss c.
Proof.
  destruct Hg as (? & _). unfold send_allowance. pose proof (Zlen_nonneg (unsent c)). consts. lia.
Qed.

Lemma schedule_data_spec draining segs ents seq :
  schedule_loop (Z.to_nat kMaxSegmentsPerSend) key c now (send_allowance c) draining (snd_nxt c) 0
    = (segs, ents, seq) ->
  let c1 := with_data c (send_allowance c) ents in
  c <| pending := pending c ++ ents |> <| unsent := drop (Z.to_nat (send_allowance c)) (unsent c) |>
    <| snd_nxt := seq |> = c1 /\
  sender_ok c1 /\ scheduled_from c segs ents c1 /\ Zlen (app_bytes ents) = send_allowance c /\
  pend_len ents = send_allowance c /\ Forall data_entry ents /\ push_shape draining segs /\
  Zlen segs <= kMaxSegmentsPerSend /\ Forall (fun e => Zlen (p_payload e) <= effective_send_mss c) ents.
Proof.
  intros HE. pose proof send_allowance_range as [Ha1 Ha2]. pose proof (so_cap _ Hs).
  pose proof (Zlen_nonneg (app_bytes (pending c))).
  pose proof (schedule_loop_spec key c now (send_allowance c) draining (proj1 Hg) Hr (so_unsent _ Hs)) as HL.
  specialize (HL ltac:(lia) (Z.to_nat kMaxSegmentsPerSend) (snd_una c + pend_len (pending c)) 0).
  rewrite <- (so_nxt _ Hs), HE in HL. rewrite Z.sub_0_r in HL.
  destruct HL as (L1 & L2 & L3 & L4 & L5 & L6 & L7 & L8 & L9 & L10 & L11); [lia | consts; lia |].
  rewrite drop_0 in L6.
  assert (Hb : Zlen (app_bytes ents) = send_allowance c)
    by (rewrite L6; unfold Zlen in *; rewrite length_take; lia).
  assert (Hseq : seq = u32 (snd_nxt c + send_allowance c)) by (rewrite L1, (so_nxt _ Hs); by u32_norm).
  split_and!; auto.
  - unfold with_data. by rewrite Hseq.
  - by apply with_data_ok.
  - constructor; try done. simpl. rewrite L6. apply take_drop.
  - unfold Zlen. consts. lia.
Qed.
End Pass.

(** What a pass did about the deferred FIN. *)
Definition fin_outcome (c c' : Connection) : Prop :=
  (local_fin_seq c' = None /\ state c' = state c /\ pend_len (pending c') = pend_len (pending c) + send_allowance c) \/
  (exists f, local_fin_seq c' = Some f /\ state c' = fin_state (state c) /\ close_requested c = true /\
     unsent c' = [] /\ pend_len (pending c') = pend_len (pending c) + send_allowance c + 1 /\
     pend_len (pending c') <= snd_wnd c).

Lemma scheduled_from_persist c segs ents c1 d i :
  scheduled_from c segs ents c1 ->
  scheduled_from c segs ents (c1 <| persist_deadline := d |> <| persist_interval := i |>).
Proof. intros []. constructor; done. Qed.

Lemma persistEligible_part c d i :
  persistEligible (c <| persist_deadline := d |> <| persist_interval := i |>) = persistEligible c.
Proof. reflexivity. Qed.

(** The deferred FIN after [c1], the connection [n] scheduled bytes ahead of [c]. *)
Lemma maybeSequenceFin_spec key c1 now segs c2 :
  sender_ok c1 -> rto_ok c1 -> local_fin_seq c1 = None -> maybeSequenceFin key c1 now = (segs, c2) ->
  sender_ok c2 /\ (exists ents, scheduled_from c1 segs ents c2 /\ app_bytes ents = [] /\ Forall (fun e => p_payload e = []) ents) /\
  Zlen segs <= 1 /\
  ((segs = [] /\ c2 = c1) \/
   (exists f, local_fin_seq c2 = Some f /\ state c2 = fin_state (state c1) /\ close_requested c1 = true /\
      unsent c2 = [] /\ pend_len (pending c2) = pend_len (pending c1) + 1 /\
      pend_len (pending c2) <= snd_wnd c1)).
Proof.
  intros Hs Hr Hf. rewrite maybeSequenceFin_cases. destruct (fin_due c1) eqn:E; intros [= <- <-].
  2: { split_and!; [done | exists []; split_and!; [apply scheduled_from_refl | done | constructor] | by vm_compute | by left]. }
  unfold fin_due in E. bprop. set (e := _ <| is_fin := true |>).
  assert (Hu : unsent c1 = []) by (destruct (unsent c1); done).
  split_and!.
  - by apply with_fin_ok.
  - exists [e]. split; [|by repeat constructor]. constructor; try done. constructor; [|constructor].
    unfold carries. simpl. tauto.
  - by vm_compute.
  - right. exists (snd_nxt c1). rewrite availableSendWindow_eq in * by done. split_and!; try done.
    + simpl. rewrite pend_len_app. simpl. change (seq_len e) with 1. lia.
    + simpl. rewrite pend_len_app. simpl. change (seq_len e) with 1. lia.
Qed.

Lemma scheduleQueuedData_spec key c now segs c' :
  sender_ok c -> rto_ok c -> congestion_ok c -> local_fin_seq c = None ->
  scheduleQueuedData key c now = (segs, c') ->
  sender_ok c' /\
  (exists ents, scheduled_from c segs ents c' /\ Zlen (app_bytes ents) = send_allowance c /\
     Forall (fun e => Zlen (p_payload e) <= effective_send_mss c) ents) /\
  fin_outcome c c' /\ Zlen segs <= kMaxSegmentsPerSend + 1 /\
  has_value (persist_deadline c') = persistEligible c'.
Proof.
  intros Hs Hr Hg Hf. unfold scheduleQueuedData. rewrite send_allowance_eq by done.
  set (data := if 0 <? send_allowance c then _ else _).
  assert (HD : exists segs1 ents1 c1, data = (segs1, c1) /\ sender_ok c1 /\ scheduled_from c segs1 ents1 c1 /\
    Zlen (app_bytes ents1) = send_allowance c /\ pend_len ents1 = send_allowance c /\
    Zlen segs1 <= kMaxSegmentsPerSend /\ rto_ok c1 /\ local_fin_seq c1 = None /\ state c1 = state c /\
    Forall (fun e => Zlen (p_payload e) <= effective_send_mss c) ents1).
  { unfold data. destruct (Z.ltb_spec 0 (send_allowance c)).
    - destruct (schedule_loop _ _ _ _ _ _ _ _) as [[segs1 ents1] seq] eqn:E.
      destruct (schedule_data_spec key c now Hs Hr Hg Hf _ _ _ _ E) as (D0 & D1 & D2 & D3 & D4 & _ & _ & D5 & D6).
      exists segs1, ents1, (with_data c (send_allowance c) ents1). split; [by rewrite <- D0|]. split_and!; auto.
    - pose proof (send_allowance_range c Hg). exists [], [], c.
      split_and!; try done; [apply scheduled_from_refl | change (Zlen (app_bytes [])) with 0; lia | simpl; lia]. }
  destruct HD as (segs1 & ents1 & c1 & -> & D1 & D2 & D3 & D4 & D5 & D6 & D7 & D8 & D9).
  set (fins := if empty (unsent c1) then maybeSequenceFin key c1 now else ([], c1)).
  destruct fins as [segs2 c2] eqn:EF.
  assert (HM : maybeSequenceFin key c1 now = (segs2, c2)).
  { rewrite <- EF. unfold fins. rewrite maybeSequenceFin_cases. unfold fin_due.
    destruct (empty (unsent c1)); rewrite ?andb_false_r; done. }
  destruct (maybeSequenceFin_spec _ _ _ _ _ D1 D6 D7 HM) as (M1 & (ents2 & M2 & M3 & M6) & M4 & M5).
  destruct (updatePersistState_frame c2 now) as (d & i & -> & Hp). intros [= <- <-].
  pose proof (sf_pending _ _ _ _ D2) as Hpend. pose proof (f_equal pend_len Hpend) as Hlen.
  rewrite pend_len_app in Hlen. split_and!.
  - by apply (sender_ok_part c2).
  - exists (ents1 ++ ents2). split; [by eapply scheduled_from_persist, scheduled_from_app|].
    split; [by rewrite app_bytes_app, M3, app_nil_r|]. apply Forall_app. split; [done|].
    eapply Forall_impl; [exact M6|]. intros e ->. destruct Hg as (? & _). change (Zlen []) with 0. lia.
  - destruct M5 as [[-> ->]|(f & F1 & F2 & F3 & F4 & F5 & F6)].
    + left. simpl. split_and!; [done | done | lia].
    + right. exists f. simpl. rewrite (sf_close _ _ _ _ D2) in F3. rewrite (sf_wnd _ _ _ _ D2) in F6.
      rewrite <- D8. split_and!; try done. lia.
  - rewrite Zlen_app. consts. lia.
  - simpl. by rewrite persistEligible_part.
Qed.
