(* ===== verification/TcpSack.v ===== *)
(** * What a SACK report marks ([src/src/tcp_connection.cpp], lines 596-645)

    [applySackBlocks] filters the blocks of a report, sorts and merges them
    in wraparound arithmetic, and marks the entries one merged block covers.
    Here the result is related to the plain reading of the report: an entry
    is marked exactly when every byte of it lies in some valid block. *)

From S2P Require Import Prelude StdMap Addresses Tcp SeqNum TcpState TcpCongestion TcpSegments TcpSender.

(** ** Intervals on the unwrapped sequence line *)

Definition covers (l : list (Z * Z)) (x : Z) : Prop := Exists (fun b => fst b <= x < snd b) l.

Definition merge_abs (merged : list (Z * Z)) (block : Z * Z) : list (Z * Z) :=
  match merged with
  | (l, r) :: rest =>
      if fst block <=? r then (l, Z.max r (snd block)) :: rest else block :: merged
  | [] => [block]
  end.

(** Intervals listed from the right, non-empty and with gaps between them. *)
Fixpoint separated (l : list (Z * Z)) : Prop :=
  match l with
  | [] => True
  | b :: l => fst b < snd b /\ Forall (fun b' => snd b' < fst b) l /\ separated l
  end.

Lemma merge_abs_covers m b x :
  fst b < snd b -> (forall h, head m = Some h -> fst h <= fst b) ->
  covers (merge_abs m b) x <-> covers m x \/ fst b <= x < snd b.
Proof.
  intros Hb Hh. unfold covers. destruct m as [|[l r] m]; simpl.
  - rewrite Exists_cons, Exists_nil. tauto.
  - specialize (Hh (l, r) eq_refl). simpl in Hh. destruct (Z.leb_spec (fst b) r); rewrite !Exists_cons; simpl.
    + split; [intros [?|?]|intros [[?|?]|?]]; try tauto; try (left; lia).
      destruct (Z.lt_ge_cases x r); [left; left; lia | right; lia].
    + tauto.
Qed.

Lemma merge_abs_separated m b :
  separated m -> fst b < snd b -> (forall h, head m = Some h -> fst h <= fst b) ->
  separated (merge_abs m b).
Proof.
  intros Hm Hb Hh. destruct m as [|[l r] m]; simpl; [by repeat constructor|].
  specialize (Hh (l, r) eq_refl). simpl in Hh, Hm. destruct Hm as (H1 & H2 & H3).
  destruct (Z.leb_spec (fst b) r); simpl; [split_and!; [lia | done | done]|].
  split_and!; auto. constructor; [simpl; lia|]. eapply Forall_impl; [exact H2|]. simpl. lia.
Qed.

(** Merging an ascending list keeps the union and separates the intervals. *)
Lemma merge_fold bs m :
  StronglySorted (fun a b => fst a <= fst b) bs -> Forall (fun b => fst b < snd b) bs ->
  separated m -> (forall h b, head m = Some h -> b ∈ bs -> fst h <= fst b) ->
  separated (foldl merge_abs m bs) /\
  (forall x, covers (foldl merge_abs m bs) x <-> covers m x \/ covers bs x).
Proof.
  intros Hs. revert m. induction Hs as [|b bs Hs IH Hb]; intros m Hne Hm Hh; simpl.
  - split; [done|]. intros x. unfold covers. rewrite Exists_nil. tauto.
  - apply Forall_cons in Hne as [Hb1 Hne].
    assert (Hhb : forall h, head m = Some h -> fst h <= fst b) by (intros; eapply Hh; [done | left]).
    destruct (IH (merge_abs m b)) as [I1 I2]; [done | by apply merge_abs_separated | |].
    + intros h b' Hhd Hin. rewrite Forall_forall in Hb. specialize (Hb b' Hin).
      destruct m as [|[l r] m]; simpl in Hhd; [injection Hhd as <-; done|].
      specialize (Hhb (l, r) eq_refl). simpl in Hhb.
      destruct (fst b <=? r); injection Hhd as <-; simpl; lia.
    + split; [done|]. intros x. rewrite I2, merge_abs_covers by done.
      unfold covers. rewrite Exists_cons. tauto.
Qed.

(** A non-empty range inside a separated union lies inside one member. *)
Lemma separated_range l p q :
  separated l -> p < q -> (forall x, p <= x < q -> covers l x) ->
  Exists (fun b => fst b <= p /\ q <= snd b) l.
Proof.
  intros Hl Hpq. induction l as [|b l IH]; intros Hc.
  { exfalso. specialize (Hc p ltac:(lia)). inversion Hc. }
  destruct Hl as (Hb & Hsep & Hl).
  assert (Hout : forall x, fst b - 1 <= x -> ~ covers l x).
  { intros x Hx Hcov. apply Exists_exists in Hcov as (b' & Hin & Hx').
    rewrite Forall_forall in Hsep. specialize (Hsep b' Hin). simpl in Hsep. lia. }
  assert (Hin : forall x, p <= x < q -> fst b - 1 <= x -> fst b <= x < snd b).
  { intros x Hx Hge. specialize (Hc x Hx). apply Exists_cons in Hc as [?|Hc]; [done|]. by apply Hout in Hc. }
  destruct (Z.le_gt_cases (fst b) p) as [Hle|Hgt].
  - left. split; [done|]. destruct (Z.le_gt_cases q (snd b)) as [|Hq]; [done|].
    pose proof (Hin p ltac:(lia) ltac:(lia)). specialize (Hin (snd b) ltac:(lia) ltac:(lia)). lia.
  - right. assert (q < fst b \/ q = fst b \/ fst b < q) as [|[|]] by lia.
    3: { specialize (Hin (fst b - 1) ltac:(lia) ltac:(lia)). lia. }
    all: apply IH; [done|]; intros x Hx; specialize (Hc x Hx);
      apply Exists_cons in Hc as [?|?]; [simpl in *; lia | done].
Qed.

(** ** The scoreboard in wraparound arithmetic *)

Definition wrap (b : Z * Z) : Z * Z := (u32 (fst b), u32 (snd b)).
Definition wire_block (b : Z * Z) : TcpSackBlock := mkTcpSackBlock (u32 (fst b)) (u32 (snd b)).

(** A block the report may carry: between the acknowledgement and the send limit. *)
Definition sack_valid (A N : Z) (b : Z * Z) : bool := (A <? fst b) && (fst b <? snd b) && (snd b <=? N).

Section Report.
Context (A N : Z) (HN : A <= N < A + 2 ^ 30).

Definition block_near (b : Z * Z) : Prop :=
  A - 2 ^ 30 <= fst b < A + 2 ^ 30 /\ A - 2 ^ 30 <= snd b < A + 2 ^ 30.

Lemma validSackBlock_abs b : block_near b -> validSackBlock (u32 A) (u32 N) (wire_block b) = sack_valid A N b.
Proof.
  intros [H1 H2]. unfold validSackBlock, sack_valid. simpl. rewrite !sequenceGreater_abs by lia.
  f_equal. zcases; lia || done.
Qed.

Lemma filter_wire blocks : Forall block_near blocks ->
  map (fun b => (left_edge b, right_edge b))
    (List.filter (validSackBlock (u32 A) (u32 N)) (map wire_block blocks)) =
  map wrap (List.filter (sack_valid A N) blocks).
Proof.
  induction 1 as [|b bs Hb Hbs IH]; [done|]. cbn [map List.filter]. rewrite validSackBlock_abs by done.
  destruct (sack_valid A N b); cbn [map]; by rewrite IH.
Qed.

Definition in_report (b : Z * Z) : Prop := A < fst b <= N /\ A < snd b <= N.

Lemma mergeStep_abs m b : Forall in_report m -> in_report b ->
  mergeStep (map wrap m) (wrap b) = map wrap (merge_abs m b) /\ Forall in_report (merge_abs m b).
Proof.
  intros Hm [B1 B2]. destruct m as [|[l r] m]; [split; [done | constructor; [done | constructor]]|].
  apply Forall_cons in Hm as [[L1 L2] Hm]. simpl in L1, L2. simpl.
  rewrite sequenceGreater_abs by lia. rewrite sequenceMax_abs by lia.
  destruct (Z.ltb_spec r (fst b)), (Z.leb_spec (fst b) r); try lia; simpl.
  - split; [done|]. constructor; [done|]. by constructor.
  - split; [done|]. constructor; [|done]. unfold in_report. simpl. lia.
Qed.

Lemma mergeFold_abs bs m : Forall in_report m -> Forall in_report bs ->
  foldl mergeStep (map wrap m) (map wrap bs) = map wrap (foldl merge_abs m bs) /\
  Forall in_report (foldl merge_abs m bs).
Proof.
  intros Hm Hbs. revert m Hm. induction Hbs as [|b bs Hb Hbs IH]; intros m Hm; simpl; [done|].
  destruct (mergeStep_abs m b Hm Hb) as [-> H2]. by apply IH.
Qed.

Lemma mergeSackBlocks_abs bs : Forall in_report bs -> Forall (fun b => fst b < snd b) bs ->
  exists m, mergeSackBlocks (map wrap bs) = rev (map wrap m) /\ separated m /\ Forall in_report m /\
    (forall x, covers m x <-> covers bs x).
Proof.
  intros Hr Hne. unfold mergeSackBlocks.
  rewrite (sort_map wrap in_report (fun a b => fst a <? fst b)); [|intros x y [] []|done].
  2: { simpl. rewrite sequenceGreater_abs by lia. done. }
  set (s := sort _ bs). assert (Hp : s ≡ₚ bs) by apply sort_perm.
  assert (Hs : StronglySorted (fun a b => fst a <= fst b) s).
  { apply sort_ascending. apply Forall_forall. intros x _. by apply Forall_forall. }
  assert (Hsr : Forall in_report s) by (by rewrite Hp).
  destruct (mergeFold_abs s [] ltac:(constructor) Hsr) as [E Hm]. simpl in E. rewrite E.
  destruct (merge_fold s [] Hs) as [M1 M2]; [by rewrite Hp | done | done |].
  eexists. split; [done|]. split_and!; auto. intros x. rewrite M2. unfold covers. rewrite Exists_nil, Hp. tauto.
Qed.

Lemma coveredBy_abs e pos b : sequence_start e = u32 pos -> A <= pos -> 0 <= seq_len e ->
  pos + seq_len e <= N -> in_report b ->
  coveredBy e (wrap b) = true <-> fst b <= pos /\ pos + seq_len e <= snd b.
Proof.
  intros He Hp Hl Hn [B1 B2]. unfold coveredBy. rewrite (sequenceEnd_pos e pos He), He. simpl.
  rewrite !sequenceLessOrEqual_abs by lia. rewrite andb_true_iff, !Z.leb_le. tauto.
Qed.

(** One entry against the merged report. *)
Lemma markSacked_abs m bs e pos :
  separated m -> Forall in_report m -> (forall x, covers m x <-> covers bs x) ->
  sequence_start e = u32 pos -> A <= pos -> pos + seq_len e <= N -> data_entry e -> 1 <= seq_len e ->
  sacked (markSacked (rev (map wrap m)) e) = true <->
  sacked e = true \/ (forall x, pos <= x < pos + seq_len e -> covers bs x).
Proof.
  intros Hsep Hr Hcov He Hp Hn [D1 D2] Hl. unfold markSacked. rewrite D1, D2. cbn [orb].
  destruct (sacked e) eqn:Es; [tauto|].
  assert (Hex : existsb (coveredBy e) (rev (map wrap m)) = true <->
    Exists (fun b => fst b <= pos /\ pos + seq_len e <= snd b) m).
  { rewrite existsb_exists, Exists_exists. rewrite Forall_forall in Hr. split.
    - intros (w & Hw & Hc). rewrite <- in_rev in Hw. apply in_map_iff in Hw as (b & <- & Hin).
      exists b. rewrite list_elem_of_In. split; [done|].
      apply (coveredBy_abs e pos b) in Hc; auto; [lia|]. apply Hr. by apply list_elem_of_In.
    - intros (b & Hin & Hc). exists (wrap b). rewrite <- in_rev. split.
      + apply in_map. by apply list_elem_of_In.
      + apply (coveredBy_abs e pos b); auto. lia. }
  destruct (existsb _ _); simpl; [|rewrite Es]; split; try done.
  - intros _. right. intros x Hx. apply Hcov. destruct Hex as [Hex _]. specialize (Hex eq_refl).
    apply Exists_exists in Hex as (b & Hin & Hb). apply Exists_exists. exists b. split; [done | lia].
  - intros [?|H]; [done|]. apply Hex, separated_range; [done | lia |]. intros x Hx. by apply Hcov, H.
Qed.
End Report.


