(* ===== verification/TcpReceiver.v ===== *)
(** * The receiving side of a connection
    ([src/src/tcp_connection.cpp], lines 793-864)

    The reassembly buffer: [insertReassemblyFragment] and
    [releaseContiguous]. The fragments are related to an abstract buffer, a
    list of byte runs at offsets from the next expected byte on the
    unwrapped sequence line; insertion keeps the first arrival of every byte,
    release hands over the run at offset zero. *)

From S2P Require Import Prelude StdMap Addresses Tcp SeqNum TcpState TcpCongestion TcpSegments.

(** ** Operations *)

(** One round of the inner loop: a gap [s, e) minus the fragment [fs, fe). *)
Definition subtractFragment (f : Z * Z) (gap : Z * Z) : list (Z * Z) :=
  let '(f_start, f_end) := f in
  let '(s, e) := gap in
  if (f_end <=? s) || (e <=? f_start) then [(s, e)]
  else (if s <? f_start then [(s, f_start)] else []) ++ (if f_end <? e then [(f_end, e)] else []).

Definition computeGaps (ranges : list (Z * Z)) (new_range : Z * Z) : list (Z * Z) :=
  foldl (fun gaps f => flat_map (subtractFragment f) gaps) [new_range] ranges.

(** [f_start, f_end] of a buffered fragment. *)
Definition fragmentRange (base : Z) (fragment : TcpReassemblyFragment) : Z * Z :=
  let f_start := u32 (frag_start fragment - base) in
  (f_start, u32 (f_start + u32 (Zlen (frag_payload fragment)))).

Definition sliceOf (payload : list Z) (from to : Z) : list Z :=
  take (Z.to_nat (to - from)) (drop (Z.to_nat from) payload).

(** The loop that appends the new pieces, stopping at the fragment limit. *)
Fixpoint storeGaps (base new_start : Z) (payload : list Z) (gaps : list (Z * Z))
    (out_of_order : list TcpReassemblyFragment) : list TcpReassemblyFragment :=
  match gaps with
  | [] => out_of_order
  | (gap_start, gap_end) :: gaps =>
      if gap_end <=? gap_start then storeGaps base new_start payload gaps out_of_order
      else if kMaxReassemblyFragments <=? Zlen out_of_order then out_of_order
      else
        let piece := sliceOf payload (u32 (gap_start - new_start)) (u32 (gap_end - new_start)) in
        storeGaps base new_start payload gaps
          (out_of_order ++ [mkFragment (u32 (base + gap_start)) piece])
  end.

(** One round of the coalescing loop; [merged] is kept with its back first. *)
Definition coalesceStep (merged : list TcpReassemblyFragment) (fragment : TcpReassemblyFragment) :
    list TcpReassemblyFragment :=
  match merged with
  | back :: rest =>
      if frag_sequenceEnd back =? frag_start fragment
      then mkFragment (frag_start back) (frag_payload back ++ frag_payload fragment) :: rest
      else fragment :: merged
  | [] => [fragment]
  end.

Definition coalesce (l : list TcpReassemblyFragment) : list TcpReassemblyFragment :=
  rev (foldl coalesceStep [] l).

Definition insertReassemblyFragment (connection : Connection) (sequence_start : Z) (payload : list Z) :
    Connection :=
  let base := rcv_nxt connection in
  let new_start := u32 (sequence_start - base) in
  let new_end := u32 (new_start + u32 (Zlen payload)) in
  let gaps := computeGaps (map (fragmentRange base) (out_of_order connection)) (new_start, new_end) in
  let fragments := storeGaps base new_start payload gaps (out_of_order connection) in
  let sorted := sort (fun a b => u32 (frag_start a - base) <? u32 (frag_start b - base)) fragments in
  connection <| out_of_order := coalesce sorted |>.

(** The loop of [releaseContiguous]: released bytes, [rcv_nxt], remaining fragments. *)
Fixpoint release_loop (rcv_nxt : Z) (l : list TcpReassemblyFragment) :
    list Z * Z * list TcpReassemblyFragment :=
  match l with
  | fragment :: rest =>
      if frag_start fragment =? rcv_nxt then
        let '(released, rcv_nxt', remaining) :=
          release_loop (u32 (rcv_nxt + u32 (Zlen (frag_payload fragment)))) rest in
        (frag_payload fragment ++ released, rcv_nxt', remaining)
      else ([], rcv_nxt, l)
  | [] => ([], rcv_nxt, [])
  end.

Definition releaseContiguous (connection : Connection) : list Z * Connection :=
  let '(released, nxt, remaining) := release_loop (rcv_nxt connection) (out_of_order connection) in
  (released, connection <| rcv_nxt := nxt |> <| out_of_order := remaining |>).

(** ** The abstract buffer

    A run is an offset from the next expected byte with its bytes. *)

Definition run : Type := Z * list Z.

Definition run_end (r : run) : Z := fst r + Zlen (snd r).
Definition run_range (r : run) : Z * Z := (fst r, run_end r).

(** The fragment a run is stored as when the next expected byte is at [R]. *)
Definition frag_at (R : Z) (r : run) : TcpReassemblyFragment := mkFragment (u32 (R + fst r)) (snd r).

(** Ascending non-empty runs in [lo, hi], at least [gap] apart. *)
Fixpoint runs_ok (gap lo hi : Z) (l : list run) : Prop :=
  match l with
  | [] => True
  | r :: l => lo <= fst r /\ snd r <> [] /\ bytes_ok (snd r) /\ run_end r <= hi /\
              runs_ok gap (run_end r + gap) hi l
  end.

Record receiver_ok (R : Z) (runs : list run) (c : Connection) : Prop := {
  ro_nxt : rcv_nxt c = u32 R;
  ro_frags : out_of_order c = map (frag_at R) runs;
  ro_runs : runs_ok 1 0 kTcpReceiveCapacity runs;
  ro_count : Zlen runs <= kMaxReassemblyFragments
}.

(** Byte [b] is buffered at offset [x]. *)
Definition holds (l : list run) (x b : Z) : Prop :=
  Exists (fun r => 0 <= x - fst r /\ snd r !! Z.to_nat (x - fst r) = Some b) l.

Definition held (l : list run) (x : Z) : Prop := Exists (fun r => fst r <= x < run_end r) l.

(** ** Gaps *)

Definition in_gaps (gaps : list (Z * Z)) (x : Z) : Prop := Exists (fun g => fst g <= x < snd g) gaps.

Fixpoint gaps_ok (lo hi : Z) (l : list (Z * Z)) : Prop :=
  match l with
  | [] => True
  | g :: l => lo <= fst g /\ fst g < snd g /\ snd g <= hi /\ gaps_ok (snd g) hi l
  end.

Lemma gaps_ok_weaken lo lo' hi l : lo' <= lo -> gaps_ok lo hi l -> gaps_ok lo' hi l.
Proof. destruct l; simpl; [done|]. intros ? (? & ?). split; [lia | done]. Qed.

Lemma subtractFragment_ok f gaps lo hi :
  fst f < snd f -> gaps_ok lo hi gaps -> gaps_ok lo hi (flat_map (subtractFragment f) gaps).
Proof.
  intros Hf. revert lo. induction gaps as [|[s e] gaps IH]; intros lo; [done|]. destruct f as [fs fe]. simpl in *.
  intros (H1 & H2 & H3 & H4). specialize (IH e H4).
  destruct (Z.leb_spec fe s), (Z.leb_spec e fs); simpl; try done.
  destruct (Z.ltb_spec s fs), (Z.ltb_spec fe e); simpl; split_and?; auto; try lia;
    eapply gaps_ok_weaken; try exact IH; lia.
Qed.

Lemma subtractFragment_in f gaps x : fst f < snd f ->
  in_gaps (flat_map (subtractFragment f) gaps) x <-> in_gaps gaps x /\ ~ (fst f <= x < snd f).
Proof.
  destruct f as [fs fe]. simpl. intros Hf. unfold in_gaps.
  induction gaps as [|[s e] gaps IH]; simpl; [rewrite Exists_nil; tauto|].
  rewrite Exists_app, IH, (Exists_cons _ (s, e) gaps). clear IH.
  assert (Hg : Exists (fun g => fst g <= x < snd g) (subtractFragment (fs, fe) (s, e)) <->
    s <= x < e /\ ~ (fs <= x < fe)); [|simpl in *; tauto].
  unfold subtractFragment.
  destruct (Z.leb_spec fe s), (Z.leb_spec e fs), (Z.ltb_spec s fs), (Z.ltb_spec fe e); simpl;
    rewrite ?Exists_cons, ?Exists_nil; simpl; lia.
Qed.

Lemma computeGaps_ok ranges s e : Forall (fun f => fst f < snd f) ranges -> s < e ->
  gaps_ok s e (computeGaps ranges (s, e)).
Proof.
  intros Hr H. unfold computeGaps. assert (H0 : gaps_ok s e [(s, e)]) by (simpl; lia).
  revert H0. generalize [(s, e)]. induction Hr as [|f ranges Hf Hr IH]; intros gaps Hg; simpl; [done|].
  by apply IH, subtractFragment_ok.
Qed.

Lemma computeGaps_in ranges s e x : Forall (fun f => fst f < snd f) ranges ->
  in_gaps (computeGaps ranges (s, e)) x <-> s <= x < e /\ ~ in_gaps ranges x.
Proof.
  intros H. unfold computeGaps.
  assert (Hgen : forall gaps, in_gaps (foldl (fun gaps f => flat_map (subtractFragment f) gaps) gaps ranges) x <->
    in_gaps gaps x /\ ~ in_gaps ranges x).
  { induction H as [|f ranges Hf Hr IH]; intros gaps; simpl; [unfold in_gaps; rewrite (Exists_nil (A:=Z*Z)); tauto|].
    rewrite IH, subtractFragment_in by done. unfold in_gaps. rewrite (Exists_cons _ f). tauto. }
  rewrite Hgen. unfold in_gaps at 1. rewrite Exists_cons, Exists_nil. simpl. tauto.
Qed.

(** ** Runs *)

Lemma runs_ok_weaken g lo lo' hi l : lo' <= lo -> runs_ok g lo hi l -> runs_ok g lo' hi l.
Proof. destruct l; simpl; [done|]. intros ? (? & ?). split; [lia | done]. Qed.

Lemma runs_ok_gap g g' lo hi l : g' <= g -> runs_ok g lo hi l -> runs_ok g' lo hi l.
Proof.
  intros Hg. revert lo. induction l as [|r l IH]; intros lo; simpl; [done|]. intros (H1 & H2 & H3 & H4 & H5).
  split_and!; auto. eapply runs_ok_weaken; [|apply IH; exact H5]. lia.
Qed.

Lemma run_pos r : snd r <> [] -> fst r < run_end r.
Proof. intros H. unfold run_end, Zlen. destruct (snd r); [done|]. simpl. lia. Qed.

Lemma runs_ok_Forall g lo hi l : 0 <= g -> runs_ok g lo hi l ->
  Forall (fun r => lo <= fst r /\ snd r <> [] /\ bytes_ok (snd r) /\ run_end r <= hi) l.
Proof.
  intros Hg. revert lo. induction l as [|r l IH]; intros lo; simpl; [constructor|].
  intros (H1 & H2 & H3 & H4 & H5). constructor; [done|]. eapply Forall_impl; [apply IH; exact H5|].
  simpl. pose proof (run_pos r H2). intros a Ha. destruct_and!. split_and!; auto; lia.
Qed.

Definition apart (a b : run) : Prop := run_end a <= fst b \/ run_end b <= fst a.

Lemma apart_perm l l' : l ≡ₚ l' -> ForallOrdPairs apart l -> ForallOrdPairs apart l'.
Proof.
  induction 1 as [|x l l' Hp IH|x y l|l1 l2 l3 H1 IH1 H2 IH2]; intros H; [done| | |auto].
  - inversion H as [|? ? Hx Hl]; subst. constructor; [by rewrite <- Hp | auto].
  - inversion H as [|? ? Hx Hl]; subst. inversion Hl as [|? ? Hy Hl']; subst.
    apply Forall_cons in Hx as [Hxy Hx]. constructor; [constructor; [|done] | by constructor].
    unfold apart in *. tauto.
Qed.

Lemma apart_app l1 l2 : ForallOrdPairs apart l1 -> ForallOrdPairs apart l2 ->
  Forall (fun a => Forall (apart a) l2) l1 -> ForallOrdPairs apart (l1 ++ l2).
Proof.
  induction 1 as [|x l Hx Hl IH]; intros H2 Hc; simpl; [done|]. apply Forall_cons in Hc as [Hc1 Hc].
  constructor; [by apply Forall_app | auto].
Qed.

Lemma runs_ok_apart g lo hi l : 0 <= g -> runs_ok g lo hi l -> ForallOrdPairs apart l.
Proof.
  intros Hg. revert lo. induction l as [|r l IH]; intros lo; simpl; [constructor|].
  intros (H1 & H2 & H3 & H4 & H5). constructor; [|eauto].
  eapply Forall_impl; [apply (runs_ok_Forall _ _ _ _ Hg H5)|]. intros a (? & ? & ? & ?). left. lia.
Qed.

(** Ascending and pairwise apart: a list of runs with gaps of at least zero. *)
Lemma runs_ok_sorted lo hi l :
  StronglySorted (fun a b => fst a <= fst b) l -> ForallOrdPairs apart l ->
  Forall (fun r => lo <= fst r /\ snd r <> [] /\ bytes_ok (snd r) /\ run_end r <= hi) l ->
  runs_ok 0 lo hi l.
Proof.
  intros Hs. revert lo. induction Hs as [|r l Hs IH Hr]; intros lo Ha Hf; simpl; [done|].
  apply Forall_cons in Hf as [(H1 & H2 & H3 & H4) Hf]. inversion Ha as [|? ? Har Hal]; subst.
  split_and!; auto. apply IH; [done|]. rewrite Forall_forall in Hr, Har, Hf |- *.
  intros a Hin. specialize (Hr a Hin). specialize (Har a Hin). specialize (Hf a Hin). destruct_and!.
  split_and!; auto. pose proof (run_pos r H2). pose proof (run_pos a ltac:(done)). unfold apart in Har. simpl in *. lia.
Qed.

(** ** The steps of an insertion on the abstract buffer *)

Definition piece_run (payload : list Z) (start : Z) (gap : Z * Z) : run :=
  (fst gap, sliceOf payload (fst gap - start) (snd gap - start)).

Lemma storeGaps_spec R start payload gaps out lo hi :
  0 <= start <= lo -> hi < 2 ^ 32 -> gaps_ok lo hi gaps -> Zlen out <= kMaxReassemblyFragments ->
  exists k, storeGaps (u32 R) start payload gaps out =
      out ++ map (frag_at R) (map (piece_run payload start) (take k gaps)) /\
    Zlen (out ++ map (frag_at R) (map (piece_run payload start) (take k gaps))) <= kMaxReassemblyFragments /\
    (Zlen out + Zlen gaps <= kMaxReassemblyFragments -> take k gaps = gaps) /\
    (Zlen out = kMaxReassemblyFragments -> take k gaps = []).
Proof.
  intros Hs Hh. revert lo Hs out. induction gaps as [|[s e] gaps IH]; intros lo Hs out Hg Ho; simpl.
  { exists 0%nat. simpl. by rewrite app_nil_r. }
  simpl in Hg. destruct Hg as (G1 & G2 & G3 & G4). destruct (Z.leb_spec e s); [lia|].
  destruct (Z.leb_spec kMaxReassemblyFragments (Zlen out)).
  { exists 0%nat. simpl. rewrite app_nil_r. split_and!; auto. rewrite Zlen_cons. pose proof (Zlen_nonneg gaps). lia. }
  rename H0 into Hroom0.
  assert (Ep : mkFragment (u32 (u32 R + s)) (sliceOf payload (u32 (s - start)) (u32 (e - start))) =
    frag_at R (piece_run payload start (s, e))).
  { unfold frag_at, piece_run. simpl. u32_norm. by rewrite (u32_id (s - start)), (u32_id (e - start)) by ulia. }
  rewrite Ep. set (f := frag_at R _).
  destruct (IH e ltac:(lia) (out ++ [f]) G4) as (k & -> & K2 & K3 & _).
  { rewrite Zlen_app. change (Zlen [f]) with 1. lia. }
  exists (S k). simpl. rewrite <- app_assoc in K2 |- *. split_and!; [done | done | | lia].
  rewrite Zlen_cons. intros Hroom. rewrite K3; [done|]. rewrite Zlen_app. change (Zlen [f]) with 1. lia.
Qed.

Lemma sort_frag_at R (l : list run) : Forall (fun r => 0 <= fst r < 2 ^ 32) l ->
  sort (fun a b => u32 (frag_start a - u32 R) <? u32 (frag_start b - u32 R)) (map (frag_at R) l) =
  map (frag_at R) (sort (fun a b : run => fst a <? fst b) l).
Proof.
  apply sort_map. intros x y Hx Hy. simpl. u32_norm.
  replace (R + fst x - R) with (fst x) by lia. replace (R + fst y - R) with (fst y) by lia.
  by rewrite !u32_id.
Qed.

(** Coalescing, from the front. *)
Fixpoint coalesce_from (back : run) (l : list run) : list run :=
  match l with
  | [] => [back]
  | r :: l => if run_end back =? fst r then coalesce_from (fst back, snd back ++ snd r) l
              else back :: coalesce_from r l
  end.

Lemma coalesce_fold R l back acc lo hi :
  0 <= lo -> hi < 2 ^ 32 -> runs_ok 0 lo hi (back :: l) ->
  rev (foldl coalesceStep (frag_at R back :: acc) (map (frag_at R) l)) =
  rev acc ++ map (frag_at R) (coalesce_from back l).
Proof.
  intros Hlo Hhi. revert back acc. induction l as [|r l IH]; intros back acc H; [done|].
  simpl in H. destruct H as (H1 & H2 & H3 & H4 & H5 & H6 & H7 & H8 & H9).
  pose proof (run_pos back H2). pose proof (run_pos r H6). simpl.
  assert (Et : (frag_sequenceEnd (frag_at R back) =? u32 (R + fst r)) = (run_end back =? fst r)).
  { unfold frag_sequenceEnd. simpl. u32_norm. rewrite <- Z.add_assoc. fold (run_end back).
    destruct (Z.eqb_spec (u32 (R + run_end back)) (u32 (R + fst r))) as [E|E], (Z.eqb_spec (run_end back) (fst r)); try done.
    - apply u32_eq_near in E; lia.
    - congruence. }
  rewrite Et. destruct (Z.eqb_spec (run_end back) (fst r)) as [E|E].
  - change (mkFragment (u32 (R + fst back)) (snd back ++ snd r)) with (frag_at R (fst back, snd back ++ snd r)).
    apply IH. simpl. assert (Hend : run_end (fst back, snd back ++ snd r) = run_end r).
    { unfold run_end in *. simpl. rewrite Zlen_app. lia. }
    rewrite Hend. split_and!; auto; [by destruct (snd back) | by apply Forall_app].
  - rewrite IH; [simpl; by rewrite <- app_assoc|]. simpl. split_and!; auto. lia.
Qed.

Lemma coalesce_from_ok back l lo hi : runs_ok 0 lo hi (back :: l) -> runs_ok 1 lo hi (coalesce_from back l).
Proof.
  revert lo back. induction l as [|r l IH]; intros lo back (H1 & H2 & H3 & H4 & H5); [by repeat split|].
  simpl in H5. destruct H5 as (H5 & H6 & H7 & H8 & H9). simpl.
  destruct (Z.eqb_spec (run_end back) (fst r)) as [E|E].
  - apply IH. simpl. assert (Hend : run_end (fst back, snd back ++ snd r) = run_end r).
    { unfold run_end in *. simpl. rewrite Zlen_app. lia. }
    rewrite Hend. split_and!; auto; [by destruct (snd back) | by apply Forall_app].
  - simpl. split_and!; auto. apply IH. simpl. split_and!; auto. lia.
Qed.

Lemma coalesce_from_length back l : (length (coalesce_from back l) <= S (length l))%nat.
Proof.
  revert back. induction l as [|r l IH]; intros back; simpl; [lia|].
  destruct (_ =? _); simpl; [specialize (IH (fst back, snd back ++ snd r)) | specialize (IH r)]; lia.
Qed.

Lemma holds_cons r l x b : holds (r :: l) x b <-> (0 <= x - fst r /\ snd r !! Z.to_nat (x - fst r) = Some b) \/ holds l x b.
Proof. apply Exists_cons. Qed.

Lemma holds_app l1 l2 x b : holds (l1 ++ l2) x b <-> holds l1 x b \/ holds l2 x b.
Proof. apply Exists_app. Qed.

Lemma holds_perm l l' x b : l ≡ₚ l' -> holds l x b -> holds l' x b.
Proof. unfold holds. by intros ->. Qed.

(** Two touching runs hold what their concatenation holds. *)
Lemma holds_merge r r' l x b : run_end r = fst r' ->
  holds ((fst r, snd r ++ snd r') :: l) x b <-> holds (r :: r' :: l) x b.
Proof.
  intros E. rewrite !holds_cons. simpl. unfold run_end, Zlen in E. rewrite lookup_app_Some. split.
  - intros [[Hx [H|[Hge H]]]|H]; [tauto | right; left | tauto]. split; [lia|]. rewrite <- H. f_equal. lia.
  - intros [[Hx H]|[[Hx H]|H]]; [left; tauto | left | tauto]. split; [lia|]. right. split; [lia|].
    rewrite <- H. f_equal. lia.
Qed.

Lemma holds_coalesce back l x b : holds (coalesce_from back l) x b <-> holds (back :: l) x b.
Proof.
  revert back. induction l as [|r l IH]; intros back; [done|]. simpl.
  destruct (Z.eqb_spec (run_end back) (fst r)) as [E|E].
  - rewrite IH. by apply holds_merge.
  - rewrite (holds_cons back (coalesce_from r l)), IH. by rewrite <- holds_cons.
Qed.

Lemma holds_piece payload start s e x b :
  start <= s < e -> e <= start + Zlen payload ->
  0 <= x - s /\ sliceOf payload (s - start) (e - start) !! Z.to_nat (x - s) = Some b <->
  s <= x < e /\ payload !! Z.to_nat (x - start) = Some b.
Proof.
  intros Hs He. unfold sliceOf, Zlen in *. rewrite lookup_take_Some, lookup_drop. split.
  - intros (Hx & H & Hlt). split; [lia|]. rewrite <- H. f_equal. lia.
  - intros (Hx & H). split; [lia|]. split; [|lia]. rewrite <- H. f_equal. lia.
Qed.

Lemma fragmentRange_at R l hi : hi < 2 ^ 32 ->
  Forall (fun r => 0 <= fst r /\ snd r <> [] /\ bytes_ok (snd r) /\ run_end r <= hi) l ->
  map (fragmentRange (u32 R)) (map (frag_at R) l) = map run_range l.
Proof.
  intros Hh. induction 1 as [|r l (H1 & H2 & _ & H3) Hl IH]; [done|]. cbn [map]. rewrite IH. f_equal.
  pose proof (run_pos r H2). unfold run_range, fragmentRange. simpl. unfold run_end, Zlen in *. u32_norm.
  replace (R + fst r - R) with (fst r) by lia. rewrite !u32_id by ulia. done.
Qed.

Lemma gaps_ok_take lo hi k l : gaps_ok lo hi l -> gaps_ok lo hi (take k l).
Proof.
  revert lo k. induction l as [|g l IH]; intros lo [|k]; simpl; try done.
  intros (? & ? & ? & ?). split_and!; auto.
Qed.

Lemma gaps_ok_Forall lo hi l : gaps_ok lo hi l -> Forall (fun g => lo <= fst g < snd g /\ snd g <= hi) l.
Proof.
  revert lo. induction l as [|g l IH]; intros lo; simpl; [constructor|]. intros (H1 & H2 & H3 & H4).
  constructor; [lia|]. eapply Forall_impl; [apply IH; exact H4|]. simpl. lia.
Qed.

Section Insert.
Context (payload : list Z) (start : Z) (Hbytes : bytes_ok payload).
Let stop := start + Zlen payload.

Lemma piece_end g : start <= fst g < snd g -> snd g <= stop -> run_end (piece_run payload start g) = snd g.
Proof.
  intros H1 H2. unfold stop in H2. unfold run_end, piece_run, sliceOf, Zlen in *. simpl.
  rewrite length_take, length_drop. lia.
Qed.

Lemma pieces_runs lo gaps : start <= lo -> gaps_ok lo stop gaps ->
  runs_ok 0 lo stop (map (piece_run payload start) gaps).
Proof.
  revert lo. induction gaps as [|g gaps IH]; intros lo Hlo; simpl; [done|]. intros (H1 & H2 & H3 & H4).
  pose proof (piece_end g ltac:(lia) H3) as He. rewrite He. split_and!; auto.
  - intros E. unfold run_end in He. simpl in He. rewrite E in He. change (Zlen []) with 0 in He. lia.
  - by apply Forall_take, Forall_drop.
  - rewrite Z.add_0_r. apply IH; [lia | done].
Qed.

Lemma pieces_apart runs gaps lo hi :
  runs_ok 1 lo hi runs -> gaps_ok start stop gaps ->
  (forall x, in_gaps gaps x -> ~ in_gaps (map run_range runs) x) ->
  ForallOrdPairs apart (runs ++ map (piece_run payload start) gaps).
Proof.
  intros Hr Hg Hdis. apply apart_app.
  - by apply (runs_ok_apart 1 lo hi).
  - apply (runs_ok_apart 0 start stop); [lia|]. apply pieces_runs; [lia | done].
  - apply Forall_forall. intros r Hin. apply Forall_forall. intros p Hp.
    apply list_elem_of_In, in_map_iff in Hp as (g & <- & Hgin).
    pose proof (gaps_ok_Forall _ _ _ Hg) as Hgf. rewrite Forall_forall in Hgf.
    specialize (Hgf g ltac:(by apply list_elem_of_In)).
    pose proof (runs_ok_Forall 1 lo hi _ ltac:(lia) Hr) as Hrf. rewrite Forall_forall in Hrf.
    destruct (Hrf r Hin) as (_ & Hne & _). pose proof (run_pos r Hne).
    unfold apart. rewrite piece_end by lia. simpl.
    destruct (Z.le_gt_cases (run_end r) (fst g)); [by left|].
    destruct (Z.le_gt_cases (snd g) (fst r)); [by right|]. exfalso.
    apply (Hdis (Z.max (fst r) (fst g))).
    + apply Exists_exists. exists g. split; [by apply list_elem_of_In | lia].
    + apply Exists_exists. exists (run_range r). split; [|simpl; lia].
      apply list_elem_of_In, in_map. by apply list_elem_of_In.
Qed.

Lemma holds_pieces gaps x b : gaps_ok start stop gaps ->
  holds (map (piece_run payload start) gaps) x b <->
  in_gaps gaps x /\ payload !! Z.to_nat (x - start) = Some b.
Proof.
  intros Hg. apply gaps_ok_Forall in Hg. unfold in_gaps, holds.
  induction Hg as [|g gaps Hg Hgs IH]; [rewrite !Exists_nil; tauto|]. cbn [map]. rewrite !Exists_cons, IH.
  destruct g as [s e]. simpl in *. rewrite holds_piece by (unfold stop in *; lia). tauto.
Qed.
End Insert.

Lemma in_gaps_take k gaps x : in_gaps (take k gaps) x -> in_gaps gaps x.
Proof. intros H. rewrite <- (take_drop k gaps). apply Exists_app. by left. Qed.

(** Separated runs are neither moved nor merged. *)
Lemma runs_ok_ascending g lo hi l : 0 <= g -> runs_ok g lo hi l ->
  StronglySorted (fun x y : run => (fst y <? fst x) = false) l.
Proof.
  intros Hg. revert lo. induction l as [|r l IH]; intros lo; simpl; [constructor|].
  intros (H1 & H2 & H3 & H4 & H5). constructor; [eauto|]. pose proof (run_pos r H2).
  eapply Forall_impl; [apply (runs_ok_Forall g _ hi l Hg H5)|]. intros a (? & _). apply Z.ltb_ge. lia.
Qed.

Lemma coalesce_from_id r l lo hi : runs_ok 1 lo hi (r :: l) -> coalesce_from r l = r :: l.
Proof.
  revert r lo. induction l as [|r' l IH]; intros r lo; [done|]. intros (_ & _ & _ & _ & H). simpl.
  pose proof H as (H1 & _). destruct (Z.eqb_spec (run_end r) (fst r')); [lia|]. f_equal. by eapply IH.
Qed.

(** Sorting and coalescing the old runs with pieces that avoid them. *)
Lemma coalesce_insert R runs p s gaps :
  runs_ok 1 0 kTcpReceiveCapacity runs -> bytes_ok p -> 0 <= s -> s + Zlen p <= kTcpReceiveCapacity ->
  gaps_ok s (s + Zlen p) gaps -> (forall x, in_gaps gaps x -> ~ in_gaps (map run_range runs) x) ->
  exists runs', coalesce (sort (fun a b => u32 (frag_start a - u32 R) <? u32 (frag_start b - u32 R))
      (map (frag_at R) (runs ++ map (piece_run p s) gaps))) = map (frag_at R) runs' /\
    runs_ok 1 0 kTcpReceiveCapacity runs' /\
    (length runs' <= length (runs ++ map (piece_run p s) gaps))%nat /\
    (forall x b, holds runs' x b <-> holds runs x b \/ (in_gaps gaps x /\ p !! Z.to_nat (x - s) = Some b)) /\
    (gaps = [] -> runs' = runs).
Proof.
  intros Hr Hb Hs Hcap Hg Hdis. set (all := runs ++ _).
  assert (Hall : Forall (fun r => 0 <= fst r /\ snd r <> [] /\ bytes_ok (snd r) /\ run_end r <= kTcpReceiveCapacity) all).
  { apply Forall_app. split.
    - by apply (runs_ok_Forall 1).
    - eapply Forall_impl; [apply (runs_ok_Forall 0 s (s + Zlen p)); [lia | by apply pieces_runs]|].
      simpl. intros r (? & ? & ? & ?). split_and!; auto; lia. }
  rewrite sort_frag_at.
  2: { eapply Forall_impl; [exact Hall|]. simpl. intros r (? & Hr2 & ? & ?). pose proof (run_pos r Hr2). consts. lia. }
  set (sorted := sort (fun a b : run => fst a <? fst b) all). assert (Hp : sorted ≡ₚ all) by apply sort_perm.
  assert (Hok : runs_ok 0 0 kTcpReceiveCapacity sorted).
  { apply runs_ok_sorted.
    - apply sort_ascending. apply Forall_forall. intros x _. by apply Forall_forall.
    - apply (apart_perm all); [done|]. by apply (pieces_apart p s Hb runs gaps 0 kTcpReceiveCapacity).
    - by rewrite Hp. }
  assert (Hh : forall x b, holds sorted x b <-> holds runs x b \/ (in_gaps gaps x /\ p !! Z.to_nat (x - s) = Some b)).
  { intros x b. rewrite <- (holds_pieces p s gaps x b Hg), <- holds_app. fold all. split; apply holds_perm; [done | by symmetry]. }
  assert (Hsame : gaps = [] -> runs = sorted).
  { intros ->. unfold sorted, all. simpl. rewrite app_nil_r. symmetry. apply sort_id. by apply (runs_ok_ascending 1 0 kTcpReceiveCapacity). }
  pose proof (Permutation_length Hp) as Hlen. clearbody sorted. destruct sorted as [|r l].
  { exists []. split; [reflexivity|]. split; [exact I|]. split; [simpl; lia|]. split; [exact Hh|].
    intros Hg0. by rewrite (Hsame Hg0). }
  exists (coalesce_from r l). split_and!.
  - apply (coalesce_fold R l r [] 0 kTcpReceiveCapacity); [lia | consts; lia | done].
  - by apply coalesce_from_ok.
  - pose proof (coalesce_from_length r l). simpl in Hlen. lia.
  - intros x b. by rewrite holds_coalesce.
  - intros Hg0. specialize (Hsame Hg0). rewrite Hsame in Hr |- *. by apply coalesce_from_id in Hr.
Qed.

(** The room left for new fragments. *)
Definition insert_room (runs : list run) (s : Z) (payload : list Z) : Prop :=
  Zlen runs + Zlen (computeGaps (map run_range runs) (s, s + Zlen payload)) <= kMaxReassemblyFragments.

(** Insertion: what was buffered stays, what is new comes from the payload,
    and everything new is stored when there is room for it. *)
Lemma insertReassemblyFragment_spec R runs c s p :
  receiver_ok R runs c -> p <> [] -> bytes_ok p -> 0 <= s -> s + Zlen p <= kTcpReceiveCapacity ->
  exists runs', insertReassemblyFragment c (u32 (R + s)) p = c <| out_of_order := map (frag_at R) runs' |> /\
    runs_ok 1 0 kTcpReceiveCapacity runs' /\ Zlen runs' <= kMaxReassemblyFragments /\
    (forall x b, holds runs x b -> holds runs' x b) /\
    (forall x b, holds runs' x b -> holds runs x b \/
       (~ in_gaps (map run_range runs) x /\ s <= x < s + Zlen p /\ p !! Z.to_nat (x - s) = Some b)) /\
    (insert_room runs s p -> forall x b, ~ in_gaps (map run_range runs) x -> s <= x < s + Zlen p ->
       p !! Z.to_nat (x - s) = Some b -> holds runs' x b) /\
    (Zlen runs = kMaxReassemblyFragments -> runs' = runs).
Proof.
  intros [Hn Hf Hr Hc] Hp Hb Hs Hcap. pose proof (run_pos (s, p) Hp) as Hlen. unfold run_end in Hlen. simpl in Hlen.
  pose proof (runs_ok_Forall 1 0 _ _ ltac:(lia) Hr) as Hrf.
  unfold insertReassemblyFragment. rewrite Hn, Hf. consts. u32_norm.
  replace (R + s - R) with s by lia. rewrite (u32_id s), (u32_id (s + _)) by ulia.
  rewrite (fragmentRange_at R runs 262140) by done. set (gaps := computeGaps _ _).
  assert (Hne : Forall (fun f => fst f < snd f) (map run_range runs)).
  { apply Forall_fmap. eapply Forall_impl; [exact Hrf|]. intros r (_ & Hr2 & _). by apply run_pos. }
  assert (Hgo : gaps_ok s (s + Zlen p) gaps) by (apply computeGaps_ok; [done | lia]).
  assert (Hgi : forall x, in_gaps gaps x <-> s <= x < s + Zlen p /\ ~ in_gaps (map run_range runs) x)
    by (intros; by apply computeGaps_in).
  destruct (storeGaps_spec R s p gaps (map (frag_at R) runs) s (s + Zlen p)) as (k & -> & K2 & K3 & K4);
    [lia | lia | done | unfold Zlen in *; rewrite length_map; consts; lia |].
  rewrite <- map_app in K2 |- *. unfold Zlen in K2 at 1. rewrite length_map in K2.
  destruct (coalesce_insert R runs p s (take k gaps)) as (runs' & -> & C1 & C2 & C3 & C4);
    [done | done | done | done | by apply gaps_ok_take | |].
  { intros x Hx. apply Hgi. by apply in_gaps_take in Hx. }
  exists runs'. split; [done|]. split_and!; [done | unfold Zlen in *; consts; lia | | | |].
  - intros x b Hx. apply C3. by left.
  - intros x b Hx. apply C3 in Hx as [Hx|[Hx1 Hx2]]; [by left|]. right. apply in_gaps_take, Hgi in Hx1. tauto.
  - intros Hroom x b Hx1 Hx2 Hx3. apply C3. right. split; [|done]. rewrite K3; [apply Hgi; tauto|].
    unfold insert_room in Hroom. fold gaps in Hroom. unfold Zlen in *. rewrite length_map. consts. lia.
  - intros Hfull. apply C4, K4. unfold Zlen in *. rewrite length_map. exact Hfull.
Qed.

(** ** Release *)

Definition shift (n : Z) (r : run) : run := (fst r - n, snd r).

Lemma frag_at_shift R n r : frag_at (R + n) (shift n r) = frag_at R r.
Proof. unfold frag_at, shift. simpl. f_equal. f_equal. lia. Qed.

Lemma runs_ok_shift g n lo hi l : 0 <= n -> runs_ok g lo hi l -> runs_ok g (lo - n) hi (map (shift n) l).
Proof.
  intros Hn. revert lo. induction l as [|r l IH]; intros lo; simpl; [done|].
  intros (H1 & H2 & H3 & H4 & H5). assert (E : run_end (shift n r) = run_end r - n) by (unfold run_end; simpl; lia).
  rewrite E. split_and!; auto; try lia. replace (run_end r - n + g) with (run_end r + g - n) by lia. by apply IH.
Qed.

Lemma holds_shift n l x b : holds (map (shift n) l) x b <-> holds l (x + n) b.
Proof.
  unfold holds. induction l as [|r l IH]; [by rewrite !Exists_nil|]. cbn [map]. rewrite !Exists_cons, IH. simpl.
  replace (x - (fst r - n)) with (x + n - fst r) by lia. tauto.
Qed.

Lemma holds_lower g lo hi l x b : 0 <= g -> runs_ok g lo hi l -> holds l x b -> lo <= x.
Proof.
  intros Hg Hr Hh. apply runs_ok_Forall in Hr; [|done]. apply Exists_exists in Hh as (r & Hin & Hx & _).
  rewrite Forall_forall in Hr. destruct (Hr r Hin) as [? _]. lia.
Qed.

Lemma release_loop_stop R l : runs_ok 1 1 kTcpReceiveCapacity l ->
  release_loop (u32 R) (map (frag_at R) l) = ([], u32 R, map (frag_at R) l).
Proof.
  destruct l as [|r l]; [done|]. intros (H1 & H2 & H3 & H4 & H5). pose proof (run_pos r H2). simpl.
  destruct (Z.eqb_spec (u32 (R + fst r)) (u32 R)) as [E|]; [|done]. apply u32_eq_near in E; consts; lia.
Qed.

(** The released bytes are the run at offset zero; nothing is buffered at the
    new position. *)
Lemma releaseContiguous_spec R runs c :
  rcv_nxt c = u32 R -> out_of_order c = map (frag_at R) runs ->
  runs_ok 1 0 kTcpReceiveCapacity runs -> Zlen runs <= kMaxReassemblyFragments ->
  exists out rest c', releaseContiguous c = (out, c') /\
    c' = c <| rcv_nxt := u32 (R + Zlen out) |> <| out_of_order := map (frag_at (R + Zlen out)) rest |> /\
    receiver_ok (R + Zlen out) rest c' /\ runs_ok 1 1 kTcpReceiveCapacity rest /\ bytes_ok out /\
    (forall k b, out !! k = Some b -> holds runs (Z.of_nat k) b) /\
    (forall x b, 0 <= x -> (holds rest x b <-> holds runs (x + Zlen out) b)) /\
    (forall b, ~ holds runs (Zlen out) b) /\ (out = [] -> rest = runs).
Proof.
  intros Hn Hf Hr Hc. unfold releaseContiguous. rewrite Hn, Hf.
  destruct runs as [|r runs].
  { simpl. exists [], []. eexists. split; [done|]. change (Zlen []) with 0. rewrite Z.add_0_r.
    split; [done|]. split; [by constructor|]. split; [done|]. split; [constructor|]. split; [done|].
    split; [intros; by rewrite Z.add_0_r|]. split; [intros b H; inversion H | done]. }
  pose proof Hr as (H1 & H2 & H3 & H4 & H5). pose proof (run_pos r H2). consts.
  destruct (Z.eqb_spec (fst r) 0) as [E0|E0].
  - assert (El : run_end r = Zlen (snd r)) by (unfold run_end; lia). rewrite Zlen_cons in Hc.
    cbn [map release_loop]. simpl frag_start. rewrite E0, Z.add_0_r, Z.eqb_refl. simpl frag_payload. u32_norm.
    assert (Hrest : runs_ok 1 1 262140 (map (shift (Zlen (snd r))) runs)).
    { replace 1 with (run_end r + 1 - Zlen (snd r)) at 2 by lia. apply runs_ok_shift; [lia | done]. }
    assert (Em : map (frag_at R) runs = map (frag_at (R + Zlen (snd r))) (map (shift (Zlen (snd r))) runs)).
    { rewrite map_map. apply map_ext. intros. by rewrite frag_at_shift. }
    rewrite Em, release_loop_stop by done. rewrite app_nil_r.
    eexists _, (map (shift (Zlen (snd r))) runs), _. split; [done|]. split_and!; [done | | done | done | | | | done].
    + constructor; simpl; [done | done | apply (runs_ok_weaken 1 1); [lia | consts; done] | unfold Zlen in *; rewrite length_map; consts; lia].
    + intros k b Hk. apply holds_cons. left. rewrite E0. split; [lia|]. rewrite <- Hk. f_equal. lia.
    + intros x b Hx. rewrite holds_shift, holds_cons. split; [tauto|]. intros [[_ H']|]; [|done].
      apply lookup_lt_Some in H'. unfold Zlen in H'. lia.
    + intros b Hb. apply holds_cons in Hb as [[_ H']|Hb].
      * apply lookup_lt_Some in H'. unfold Zlen in H'. lia.
      * apply (holds_lower 1 (run_end r + 1) 262140) in Hb; [lia | lia | done].
  - assert (Hr1 : runs_ok 1 1 262140 (r :: runs)) by (cbn [runs_ok]; split_and!; auto; lia).
    rewrite release_loop_stop by done.
    exists [], (r :: runs). eexists. split; [done|]. change (Zlen []) with 0. rewrite Z.add_0_r.
    split; [done|]. split; [by constructor|]. split; [done|]. split; [constructor|]. split; [done|].
    split; [intros; by rewrite Z.add_0_r|]. split; [|done]. intros b Hb. apply (holds_lower 1 1 262140) in Hb; [lia | lia | done].
Qed.

(** ** The peer's byte stream

    [S p] is the byte at position [p] of the unwrapped sequence line. *)
Section Stream.
Context (S : Z -> Z).

Definition stream_bytes (pos : Z) (n : nat) : list Z := map (fun k => S (pos + Z.of_nat k)) (seq 0 n).

(** Buffered bytes are bytes of the stream at their position. *)
Definition content (R : Z) (runs : list run) : Prop := forall x b, holds runs x b -> b = S (R + x).

Lemma stream_bytes_app pos n m :
  stream_bytes pos (n + m) = stream_bytes pos n ++ stream_bytes (pos + Z.of_nat n) m.
Proof.
  unfold stream_bytes. rewrite seq_app, map_app. f_equal. simpl.
  rewrite <- (Nat.add_0_r n) at 1. rewrite <- fmap_add_seq. rewrite map_map. apply map_ext.
  intros k. f_equal. lia.
Qed.

Lemma stream_bytes_intro pos l : (forall k b, l !! k = Some b -> b = S (pos + Z.of_nat k)) ->
  l = stream_bytes pos (length l).
Proof.
  intros H. apply list_eq. intros k. unfold stream_bytes. rewrite list_lookup_fmap.
  destruct (l !! k) as [b|] eqn:E.
  - rewrite lookup_seq_lt by (by apply lookup_lt_Some in E). simpl. f_equal. by apply H.
  - rewrite lookup_seq_ge by (by apply lookup_ge_None in E). done.
Qed.

Lemma stream_bytes_lookup pos n k b : stream_bytes pos n !! k = Some b -> b = S (pos + Z.of_nat k).
Proof.
  unfold stream_bytes. rewrite list_lookup_fmap. destruct (seq 0 n !! k) as [j|] eqn:E; [|done].
  apply lookup_seq in E as [-> _]. simpl. congruence.
Qed.
End Stream.
