(* ===== verification/TcpHandler.v ===== *)
(** * Segment processing of one connection
    ([src/src/tcp_connection.cpp], lines 784-791 and 866-1294)

    [handleSynchronized] and its stages, [handleSynSent] and
    [handleTimeWait]. A handler returns the result with the connection after
    it; [None] stands for a read outside a buffer, which the C++ program
    leaves undefined. *)

From S2P Require Import Prelude StdMap Addresses Tcp SeqNum TcpState TcpCongestion TcpSegments TcpSender TcpReceiver.

Definition startTimeWait (connection : Connection) (now : Z) : Connection :=
  connection <| state := TimeWait |> <| time_wait_deadline := Some (now + kTimeWaitDuration) |>
             <| pending := [] |>.

(** [vector(begin + from, begin + from + len)]. *)
Definition subRange (l : list Z) (from len : Z) : option (list Z) :=
  if from + len <=? Zlen l then Some (take (Z.to_nat len) (drop (Z.to_nat from) l)) else None.

(** ** Acknowledgement processing *)

(** Retirement, SACK marks and the peer window. *)
Definition processAck (connection : Connection) (segment : TcpSegment) (blocks : list TcpSackBlock) (now : Z) :
    TcpAckRetirementResult * bool * Connection :=
  let '(ack_result, connection) := retireAcknowledged connection (acknowledgment_number segment) now in
  let connection := if sack_permitted connection
    then applySackBlocks connection (acknowledgment_number segment) blocks else connection in
  let snd_wnd_before := snd_wnd connection in
  let connection := updateSendWindow connection segment in
  (ack_result, negb (snd_wnd connection =? snd_wnd_before), connection).

Definition fullAckExit (connection : Connection) : Connection :=
  connection <| cwnd := ssthresh connection |> <| in_fast_recovery := false |>
             <| congestion_avoidance_acked_bytes := 0 |>
             <| pending := clear_recovery_marks (pending connection) |>.

Definition partialAckDeflate (connection : Connection) (deflate_by : Z) : Connection :=
  let smss := effective_send_mss connection in
  let deflated := if deflate_by <? cwnd connection then cwnd connection - deflate_by else 0 in
  let deflated := Z.max deflated smss in
  let deflated := if smss <=? deflate_by then deflated + smss else deflated in
  connection <| cwnd := clampCwnd deflated |>.

Definition isDuplicateAck (connection : Connection) (segment : TcpSegment) (window_changed : bool) : bool :=
  let has_outstanding_data := existsb (fun p => negb (is_syn p) && negb (is_fin p)) (pending connection) in
  (acknowledgment_number segment =? snd_una connection) && empty (payload segment) &&
  negb (syn (flags segment)) && negb (fin (flags segment)) && negb window_changed && has_outstanding_data.

(** Reno/NewReno reaction to the acknowledgement: a retransmission, if any.
    [duplicate_ack_count] is an [int]; it stays far below its range. *)
Definition congestionStep (key : TcpConnectionKey) (connection : Connection) (segment : TcpSegment)
    (ack_result : TcpAckRetirementResult) (window_changed : bool) (now : Z) : option TcpSegment * Connection :=
  if ack_advanced ack_result then
    let connection := connection <| duplicate_ack_count := 0 |> in
    if in_fast_recovery connection then
      if sequenceLessOrEqual (recovery_point connection) (acknowledgment_number segment)
      then (None, fullAckExit connection)
      else
        let connection := partialAckDeflate connection (newly_acked_sequence_space ack_result) in
        recoveryRetransmit key connection now
    else (None, applyCongestionGrowth connection (newly_acked_data_bytes ack_result))
  else if isDuplicateAck connection segment window_changed then
    let connection := connection <| duplicate_ack_count := duplicate_ack_count connection + 1 |> in
    if in_fast_recovery connection then
      let connection := connection <| cwnd := clampCwnd (cwnd connection + effective_send_mss connection) |> in
      if sack_permitted connection then recoveryRetransmit key connection now else (None, connection)
    else if duplicate_ack_count connection =? 3 then beginFastRecovery key connection now
    else (None, connection)
  else if window_changed then (None, connection <| duplicate_ack_count := 0 |>)
  else (None, connection).

(** The state change an acknowledged local FIN causes. *)
Definition localFinStep (connection : Connection) (now : Z) : Connection :=
  let local_fin_acked := match local_fin_seq connection with
    | Some fin_seq => sequenceLessOrEqual (u32 (fin_seq + 1)) (snd_una connection)
    | None => false
    end in
  if state_eqb (state connection) FinWait1 && local_fin_acked then connection <| state := FinWait2 |>
  else if state_eqb (state connection) Closing && local_fin_acked then startTimeWait connection now
  else if state_eqb (state connection) LastAck && local_fin_acked then connection <| pending_removal := true |>
  else connection.

(** ** Receive processing *)

Definition scheduleIfSendable (key : TcpConnectionKey) (connection : Connection) (now : Z) :
    list TcpSegment * Connection :=
  if negb (pending_removal connection) &&
     (state_eqb (state connection) Established || state_eqb (state connection) CloseWait)
  then scheduleQueuedData key connection now
  else ([], updatePersistState connection now).

(** A segment with neither payload nor FIN. *)
Definition finishPureAck (key : TcpConnectionKey) (connection : Connection) (retransmit : option TcpSegment)
    (now : Z) : TcpReceiveResult * Connection :=
  let result := no_result <| connection_closed := pending_removal connection |>
                          <| fast_retransmit := retransmit |> in
  let '(segments, connection) := scheduleIfSendable key connection now in
  let result := result <| scheduled := segments |> in
  let result := if sack_permitted connection && negb (empty (out_of_order connection))
    then result <| reply := Some (makePureAck key connection None) |> else result in
  (result, connection).

(** Nothing of the segment lies in the receive window. *)
Definition finishOutside (key : TcpConnectionKey) (connection : Connection) (retransmit : option TcpSegment)
    (now : Z) : TcpReceiveResult * Connection :=
  let '(segments, connection) := scheduleIfSendable key connection now in
  let result := no_result <| fast_retransmit := retransmit |> <| scheduled := segments |> in
  let result := if empty segments || (sack_permitted connection && negb (empty (out_of_order connection)))
    then result <| reply := Some (makePureAck key connection None) |> else result in
  (result, connection).

(** The fragment that contains the inserted range. *)
Definition containingFragment (usable_start : Z) (l : list TcpReassemblyFragment) : option Z :=
  option_map frag_start
    (List.find (fun fragment => sequenceLessOrEqual (frag_start fragment) usable_start &&
                                sequenceGreater (frag_sequenceEnd fragment) usable_start) l).

(** Insertion of the payload bytes inside the window. *)
Definition storePayload (connection : Connection) (segment : TcpSegment) (usable_start usable_end : Z) :
    option (option Z * Connection) :=
  let prefix_trim := u32 (usable_start - sequence_number segment) in
  let usable_len := u32 (usable_end - usable_start) in
  usable_payload ← subRange (payload segment) prefix_trim usable_len;
  let connection := insertReassemblyFragment connection usable_start usable_payload in
  Some (containingFragment usable_start (out_of_order connection), connection).

(** Release, and consumption of a FIN that became next in order. *)
Definition deliver (connection : Connection) (now : Z) : list Z * bool * Connection :=
  let '(released, connection) := releaseContiguous connection in
  match pending_fin_seq connection with
  | Some fin_seq =>
      if fin_seq =? rcv_nxt connection then
        let connection := connection <| rcv_nxt := u32 (rcv_nxt connection + 1) |>
                                     <| pending_fin_seq := None |> in
        let connection :=
          if state_eqb (state connection) Established then connection <| state := CloseWait |>
          else if state_eqb (state connection) FinWait1 then connection <| state := Closing |>
          else if state_eqb (state connection) FinWait2 then startTimeWait connection now
          else connection in
        (released, true, connection)
      else (released, false, connection)
  | None => (released, false, connection)
  end.

Definition finishReceive (key : TcpConnectionKey) (connection : Connection) (retransmit : option TcpSegment)
    (most_recent_fragment_start : option Z) (now : Z) : TcpReceiveResult * Connection :=
  let '(released, closed, connection) := deliver connection now in
  let result := no_result <| accepted_payload := released |> <| fast_retransmit := retransmit |>
                          <| peer_closed := closed |> in
  let '(segments, connection) := scheduleIfSendable key connection now in
  let result := result <| scheduled := segments |> in
  let result := if (empty released && empty segments) ||
                   (sack_permitted connection && negb (empty (out_of_order connection)))
    then result <| reply := Some (makePureAck key connection most_recent_fragment_start) |> else result in
  (result, connection).

Definition fin_events_open (s : TcpState) : bool :=
  state_eqb s Established || state_eqb s FinWait1 || state_eqb s FinWait2.

(** The window acceptance test and what follows it. *)
Definition receiveSegment (key : TcpConnectionKey) (connection : Connection) (segment : TcpSegment)
    (retransmit : option TcpSegment) (now : Z) : option (TcpReceiveResult * Connection) :=
  let window := advertisedLogicalWindowFor connection in
  let window_end := u32 (rcv_nxt connection + window) in
  let seg_start := sequence_number segment in
  let seg_end := u32 (seg_start + u32 (Zlen (payload segment))) in
  let usable_start := sequenceMax (rcv_nxt connection) seg_start in
  let usable_end := sequenceMin seg_end window_end in
  let any_payload_in_window := sequenceGreater usable_end usable_start in
  let fin_in_window := fin_events_open (state connection) && fin (flags segment) &&
                       sequenceLessOrEqual (rcv_nxt connection) seg_end &&
                       sequenceGreater window_end seg_end in
  if negb any_payload_in_window && negb fin_in_window then Some (finishOutside key connection retransmit now) else
  '(most_recent, connection) ←
    (if any_payload_in_window then storePayload connection segment usable_start usable_end
     else Some (None, connection));
  let connection := if fin_in_window then connection <| pending_fin_seq := Some seg_end |> else connection in
  Some (finishReceive key connection retransmit most_recent now).

(** ** Handlers *)

Definition handleSynchronized (key : TcpConnectionKey) (connection : Connection) (segment : TcpSegment)
    (now : Z) : option (TcpReceiveResult * Connection) :=
  if syn (flags segment) then
    let duplicate_handshake_syn_ack :=
      ack (flags segment) && negb (rst (flags segment)) && negb (fin (flags segment)) &&
      empty (payload segment) && remote_isn_known connection &&
      (sequence_number segment =? remote_isn connection) &&
      (acknowledgment_number segment =? u32 (local_isn connection + 1)) in
    if negb duplicate_handshake_syn_ack then Some (no_result, connection)
    else Some (no_result <| reply := Some (makePureAck key connection None) |>, connection)
  else
  parsed ← parseTcpOptions (options segment);
  match parsed with
  | inr _ => Some (no_result, connection)
  | inl parsed_options =>
      if rst (flags segment) then
        if sequence_number segment =? rcv_nxt connection
        then Some (no_result <| connection_reset := true |>, connection <| pending_removal := true |>)
        else Some (no_result, connection)
      else if negb (ack (flags segment)) then Some (no_result, connection)
      else if negb (sequenceLessOrEqual (acknowledgment_number segment) (snd_nxt connection))
      then Some (no_result, connection)
      else
        let '(ack_result, window_changed, connection) :=
          processAck connection segment (sack_blocks parsed_options) now in
        let '(retransmit, connection) :=
          congestionStep key connection segment ack_result window_changed now in
        let connection := localFinStep connection now in
        if empty (payload segment) && negb (fin (flags segment))
        then Some (finishPureAck key connection retransmit now)
        else receiveSegment key connection segment retransmit now
  end.

(** The negotiation both open paths share: peer MSS, window scale, SACK. *)
Definition negotiate (connection : Connection) (parsed : TcpParsedOptions) : Connection :=
  let connection := connection <| peer_mss := default kDefaultPeerMss (maximum_segment_size parsed) |> in
  let connection := connection <| effective_send_mss := Z.min kTcpMss (peer_mss connection) |> in
  let connection := connection <| cwnd := initialCongestionWindow (effective_send_mss connection) |> in
  let connection := match window_scale parsed with
    | Some shift => connection <| window_scaling_enabled := true |>
                               <| peer_window_scale := Z.min shift kMaxWindowScaleShift |>
                               <| local_window_scale := kLocalWindowScaleShift |>
    | None => connection
    end in
  connection <| sack_permitted := opt_sack_permitted parsed |>.

Definition handleSynSent (key : TcpConnectionKey) (connection : Connection) (segment : TcpSegment) (now : Z) :
    option (TcpReceiveResult * Connection) :=
  parsed ← parseTcpOptions (options segment);
  match parsed with
  | inr _ => Some (no_result, connection)
  | inl parsed_options =>
      if rst (flags segment) then
        if ack (flags segment) && (acknowledgment_number segment =? snd_nxt connection)
        then Some (no_result <| connection_reset := true |>, connection <| pending_removal := true |>)
        else Some (no_result, connection)
      else if negb (syn (flags segment)) then Some (no_result, connection)
      else if negb (ack (flags segment)) then Some (no_result, connection)
      else if fin (flags segment) || negb (empty (payload segment)) then Some (no_result, connection)
      else if negb (acknowledgment_number segment =? snd_nxt connection) then Some (no_result, connection)
      else
        let connection := connection <| remote_isn := sequence_number segment |>
                                     <| remote_isn_known := true |>
                                     <| rcv_nxt := u32 (sequence_number segment + 1) |> in
        let connection := negotiate connection parsed_options in
        let connection := connection <| state := Established |> in
        let '(_, connection) := retireAcknowledged connection (acknowledgment_number segment) now in
        let connection := connection <| snd_wnd := window_size segment |>
                                     <| snd_wl1 := sequence_number segment |>
                                     <| snd_wl2 := acknowledgment_number segment |> in
        let final_ack := {| source_port := local_port key; destination_port := remote_port key;
          sequence_number := snd_nxt connection; acknowledgment_number := rcv_nxt connection;
          flags := no_flags <| ack := true |>;
          window_size := advertisedWindowFor connection (window_scaling_enabled connection);
          urgent_pointer := 0; options := []; payload := [] |} in
        Some (no_result <| reply := Some final_ack |> <| connection_established := true |>, connection)
  end.

Definition handleTimeWait (key : TcpConnectionKey) (connection : Connection) (segment : TcpSegment) (now : Z) :
    TcpReceiveResult * Connection :=
  if rst (flags segment) then
    if sequence_number segment =? rcv_nxt connection
    then (no_result, connection <| pending_removal := true |>) else (no_result, connection)
  else if syn (flags segment) || negb (empty (payload segment)) then (no_result, connection)
  else if fin (flags segment) && (u32 (sequence_number segment + 1) =? rcv_nxt connection) then
    let connection := connection <| time_wait_deadline := Some (now + kTimeWaitDuration) |> in
    (no_result <| reply := Some (makePureAck key connection None) |>, connection)
  else (no_result, connection).

(** ** The stages of acknowledgement processing keep the invariants *)

Lemma retireAcknowledged_parts c a now res c' :
  retireAcknowledged c a now = (res, c') -> rto_ok c ->
  rto_ok c' /\ recv_part c' = recv_part c /\ nego_part c' = nego_part c /\ cong_part c' = cong_part c /\
  ctl_part c' = ctl_part c /\ snd_nxt c' = snd_nxt c /\ local_fin_seq c' = local_fin_seq c /\
  unsent c' = unsent c /\ snd_wnd c' = snd_wnd c /\ recovery_point c' = recovery_point c.
Proof.
  intros Hr Hrto. destruct (sequenceGreater a (snd_una c)) eqn:Hg.
  - destruct (retireAcknowledged_frame c a now res c' Hr Hg) as (l & s & v & o & h & -> & _ & Ho & _).
    split; [by apply Ho | done].
  - unfold retireAcknowledged in Hr. rewrite Hg in Hr. by injection Hr as <- <-.
Qed.

Lemma updateSendWindow_parts c seg : scale_ok c -> is_u16 (window_size seg) -> sender_ok c ->
  let c' := updateSendWindow c seg in
  sender_ok c' /\ current_rto c' = current_rto c /\ recv_part c' = recv_part c /\ nego_part c' = nego_part c /\
  cong_part c' = cong_part c /\ ctl_part c' = ctl_part c /\ local_fin_seq c' = local_fin_seq c /\
  owned c' = owned c /\ pending c' = pending c /\ recovery_point c' = recovery_point c /\ snd_una c' = snd_una c.
Proof.
  intros Hs Hw H. unfold updateSendWindow. destruct (negb _); [done|]. split; [|done].
  destruct H. constructor; simpl; auto. by apply decodePeerWindow_range.
Qed.

Lemma remarked_conn_parts c c' : remarked_conn c c' -> sender_ok c ->
  sender_ok c' /\ owned c' = owned c /\ current_rto c' = current_rto c /\ recv_part c' = recv_part c /\
  nego_part c' = nego_part c /\ cong_part c' = cong_part c /\ ctl_part c' = ctl_part c /\
  local_fin_seq c' = local_fin_seq c /\ pend_len (pending c') = pend_len (pending c) /\
  recovery_point c' = recovery_point c /\ snd_una c' = snd_una c.
Proof.
  intros (l & -> & Hm) H. split; [by eapply sender_ok_remark|]. split.
  - unfold owned. simpl. by rewrite (remarked_app_bytes _ _ Hm).
  - simpl. rewrite (remarked_len _ _ Hm). done.
Qed.

Lemma pending_nil_mono c c' : sender_ok c' -> pend_len (pending c') <= pend_len (pending c) ->
  pending c = [] -> pending c' = [].
Proof.
  intros H Hl E. apply pend_len_zero; [apply H|]. rewrite E in Hl. simpl in Hl.
  pose proof (pend_len_nonneg _ (so_entries _ H)). lia.
Qed.

Lemma owned_len c : sender_ok c -> Zlen (owned c) <= kTcpSendBufferCapacity.
Proof. intros H. unfold owned. rewrite Zlen_app. apply H. Qed.

Lemma scale_ok_part c c' : nego_part c' = nego_part c -> scale_ok c -> scale_ok c'.
Proof. unfold nego_part, scale_ok. intros [= E1 E2 E3 E4 E5 E6 E7 E8 E9]. by rewrite E3, E4, E5. Qed.

Lemma rto_ok_part c c' : current_rto c' = current_rto c -> rto_ok c -> rto_ok c'.
Proof. unfold rto_ok. by intros ->. Qed.

Lemma processAck_spec c seg blocks now res changed c' :
  sender_ok c -> rto_ok c -> scale_ok c -> is_u32 (acknowledgment_number seg) -> is_u16 (window_size seg) ->
  sequenceLessOrEqual (acknowledgment_number seg) (snd_nxt c) = true ->
  processAck c seg blocks now = (res, changed, c') ->
  sender_ok c' /\ rto_ok c' /\
  recv_part c' = recv_part c /\ nego_part c' = nego_part c /\ cong_part c' = cong_part c /\
  ctl_part c' = ctl_part c /\ local_fin_seq c' = local_fin_seq c /\ recovery_point c' = recovery_point c /\
  owned c' = drop (Z.to_nat (newly_acked_data_bytes res)) (owned c) /\
  0 <= newly_acked_data_bytes res <= kTcpSendBufferCapacity /\
  newly_acked_sequence_space res = pend_len (pending c) - pend_len (pending c') /\
  0 <= newly_acked_sequence_space res /\ (pending c = [] -> pending c' = []).
Proof.
  intros Hs Hrto Hsc Ha Hw Hle. unfold processAck.
  destruct (retireAcknowledged c (acknowledgment_number seg) now) as [res1 c1] eqn:E1.
  destruct (retireAcknowledged_spec _ _ _ _ _ Hs Ha Hle E1) as (R1 & R2 & R3 & R4 & R5 & _).
  destruct (retireAcknowledged_parts _ _ _ _ _ E1 Hrto) as (P1 & P2 & P3 & P4 & P5 & P6 & P7 & P8 & P9 & P10).
  set (c2 := if sack_permitted c1 then _ else _).
  assert (Hm : remarked_conn c1 c2).
  { unfold c2. destruct (sack_permitted c1); [apply applySackBlocks_remarked | apply remarked_conn_refl]. }
  destruct (remarked_conn_parts _ _ Hm R1) as (Q1 & Q2 & Q3 & Q4 & Q5 & Q6 & Q7 & Q8 & Q9 & Q10 & _).
  assert (Hsc2 : scale_ok c2) by (apply (scale_ok_part c); [congruence | done]).
  destruct (updateSendWindow_parts c2 seg Hsc2 Hw Q1) as (U1 & U2 & U3 & U4 & U5 & U6 & U7 & U8 & U9 & U10 & _).
  intros [= <- <- <-].
  pose proof (owned_len c Hs). assert (pend_len (pending (updateSendWindow c2 seg)) = pend_len (pending c1)) by congruence.
  split_and!; try congruence; try lia.
  - apply (rto_ok_part c1); [congruence | done].
  - apply pending_nil_mono; [done | lia].
Qed.

(** ** Congestion reaction *)

(** What a congestion reaction may touch besides the window variables. *)
Definition reacted (c c' : Connection) : Prop :=
  send_part c' = send_part (c <| pending := pending c' |>) /\ Forall2 remarked (pending c) (pending c') /\
  current_rto c' = current_rto c /\ recv_part c' = recv_part c /\ nego_part c' = nego_part c /\
  ctl_part c' = ctl_part c.

Lemma reacted_same c c' : pending c' = pending c -> send_part c' = send_part c ->
  current_rto c' = current_rto c -> recv_part c' = recv_part c -> nego_part c' = nego_part c ->
  ctl_part c' = ctl_part c -> reacted c c'.
Proof.
  intros H1 H2 H3 H4 H5 H6. unfold reacted. rewrite H1, H2. split_and!; auto. apply remarked_list_refl.
Qed.

Lemma reacted_marks c l c' : c' = c <| pending := l |> -> Forall2 remarked (pending c) l -> reacted c c'.
Proof. intros -> H. unfold reacted. simpl. tauto. Qed.

Lemma reacted_trans a b c : reacted a b -> reacted b c -> reacted a c.
Proof.
  intros (A1 & A2 & A3 & A4 & A5 & A6) (B1 & B2 & B3 & B4 & B5 & B6). unfold reacted.
  split_and!; try congruence; [|by eapply remarked_list_trans].
  rewrite B1. unfold send_part in *. simpl in *. congruence.
Qed.

Lemma recoveryRetransmit_reacted key c now s c' :
  recoveryRetransmit key c now = (s, c') -> reacted c c' /\ cong_part c' = cong_part c.
Proof.
  intros H. apply recoveryRetransmit_remarked in H as (l & -> & Hm). split; [by eapply reacted_marks | done].
Qed.

Lemma congestion_ok_part c c' : cong_part c' = cong_part c -> nego_part c' = nego_part c ->
  congestion_ok c -> congestion_ok c'.
Proof.
  unfold cong_part, nego_part, congestion_ok. intros [= -> -> -> ->] [= _ -> _ _ _ _ _ _ _]. done.
Qed.

Lemma beginFastRecovery_spec key c now s c' :
  congestion_ok c -> beginFastRecovery key c now = (s, c') ->
  reacted c c' /\ congestion_ok c' /\ in_fast_recovery c' = true /\ ssthresh c' = lossSsthresh c /\
  recovery_point c' = snd_nxt c /\ cwnd c' = clampCwnd (lossSsthresh c + 3 * effective_send_mss c).
Proof.
  unfold beginFastRecovery. intros Hc H. set (c1 := _ <| pending := _ |>) in H.
  assert (Hr1 : reacted c c1).
  { unfold reacted. simpl. split_and!; try done. apply clear_recovery_marks_remarked. }
  assert (Hc1 : congestion_ok c1).
  { destruct Hc as (C1 & C2 & C3 & C4 & C5). destruct (lossSsthresh_ok c C1) as [L _].
    unfold congestion_ok, congestion_vars_ok. simpl. consts.
    change (lossSsthresh _) with (lossSsthresh c). rewrite clampCwnd_min by lia. consts. lia. }
  pose proof H as H'. apply recoveryRetransmit_reacted in H as [H2 H3]. split_and!.
  - by eapply reacted_trans.
  - eapply congestion_ok_part; [done | apply H2 | done].
  - unfold cong_part in H3. simpl in H3. congruence.
  - unfold cong_part in H3. simpl in H3. congruence.
  - apply recoveryRetransmit_remarked in H' as (l & -> & _). done.
  - unfold cong_part in H3. simpl in H3. congruence.
Qed.

Lemma fullAckExit_spec c : congestion_ok c -> reacted c (fullAckExit c) /\ congestion_ok (fullAckExit c).
Proof.
  intros (C1 & C2 & C3 & C4 & C5). split.
  - unfold reacted. simpl. split_and!; try done. apply clear_recovery_marks_remarked.
  - unfold congestion_ok, congestion_vars_ok. simpl. split_and!; lia || done.
Qed.

(** A partial acknowledgement leaves at least one segment of window and never
    opens it further. *)
Lemma partialAckDeflate_spec c n : congestion_ok c -> in_fast_recovery c = true -> 0 <= n ->
  reacted c (partialAckDeflate c n) /\ congestion_ok (partialAckDeflate c n) /\
  cwnd (partialAckDeflate c n) <= cwnd c + effective_send_mss c.
Proof.
  intros (C1 & C2 & C3 & C4 & C5) Hr Hn. specialize (C5 Hr). split; [by apply reacted_same|].
  unfold congestion_ok, congestion_vars_ok, partialAckDeflate. simpl. consts.
  rewrite clampCwnd_min by (zcases; lia). consts. split_and!; zcases; lia || done.
Qed.

Lemma duplicateAck_inflate c : congestion_ok c ->
  congestion_ok (c <| cwnd := clampCwnd (cwnd c + effective_send_mss c) |>).
Proof.
  intros (C1 & C2 & C3 & C4 & C5). unfold congestion_ok, congestion_vars_ok. simpl.
  consts. rewrite clampCwnd_min by lia. consts. split_and!; lia || done.
Qed.

Lemma applyCongestionGrowth_ok c n : congestion_ok c -> in_fast_recovery c = false ->
  0 <= n <= kTcpSendBufferCapacity ->
  reacted c (applyCongestionGrowth c n) /\ congestion_ok (applyCongestionGrowth c n).
Proof.
  intros Hc Hr Hn. destruct (applyCongestionGrowth_spec c n Hc Hr Hn) as (w & a & -> & G1 & G2 & _).
  split; [by apply reacted_same|]. destruct Hc as (C1 & C2 & C3 & C4 & C5).
  unfold congestion_ok, congestion_vars_ok. simpl. split_and!; try lia; congruence.
Qed.

Lemma congestionStep_spec key c seg res changed now s c' :
  congestion_ok c -> 0 <= newly_acked_data_bytes res <= kTcpSendBufferCapacity ->
  0 <= newly_acked_sequence_space res ->
  congestionStep key c seg res changed now = (s, c') -> reacted c c' /\ congestion_ok c'.
Proof.
  intros Hc Hd Hsp. unfold congestionStep.
  assert (Hdup : forall n, reacted c (c <| duplicate_ack_count := n |>) /\
    congestion_ok (c <| duplicate_ack_count := n |>)) by (intros; split; [by apply reacted_same | done]).
  destruct (ack_advanced res).
  - destruct (Hdup 0) as [D1 D2]. set (c0 := c <| duplicate_ack_count := 0 |>) in *.
    destruct (in_fast_recovery c0) eqn:Hr.
    + destruct (sequenceLessOrEqual _ _).
      * intros [= <- <-]. destruct (fullAckExit_spec c0 D2). split; [by eapply reacted_trans | done].
      * intros H. apply recoveryRetransmit_reacted in H as [H1 H2].
        destruct (partialAckDeflate_spec c0 _ D2 Hr Hsp) as (P1 & P2 & _).
        split; [by eauto using reacted_trans|]. eapply congestion_ok_part; [done | apply H1 | done].
    + intros [= <- <-]. destruct (applyCongestionGrowth_ok c0 _ D2 Hr Hd). split; [by eapply reacted_trans | done].
  - destruct (isDuplicateAck _ _ _); [|destruct changed; intros [= <- <-]; auto; split; [by apply reacted_same | done]].
    destruct (Hdup (duplicate_ack_count c + 1)) as [D1 D2]. set (c0 := _ <| duplicate_ack_count := _ |>) in *.
    destruct (in_fast_recovery c0) eqn:Hr.
    + set (c1 := c0 <| cwnd := _ |>). assert (I1 : reacted c0 c1) by (by apply reacted_same).
      pose proof (duplicateAck_inflate c0 D2) as I2. fold c1 in I2.
      destruct (sack_permitted c1).
      * intros H. apply recoveryRetransmit_reacted in H as [H1 H2].
        split; [by eauto using reacted_trans|]. eapply congestion_ok_part; [done | apply H1 | done].
      * intros [= <- <-]. split; [by eapply reacted_trans | done].
    + destruct (_ =? 3); [|intros [= <- <-]; done]. intros H.
      destruct (beginFastRecovery_spec _ _ _ _ _ D2 H) as (B1 & B2 & _). split; [by eapply reacted_trans | done].
Qed.

(** ** The connection invariant of the synchronized states *)

Definition state_ok (c : Connection) : Prop :=
  match state c with
  | Established => local_fin_seq c = None
  | CloseWait => local_fin_seq c = None /\ pending_fin_seq c = None
  | FinWait1 => has_value (local_fin_seq c) = true /\ pending c <> []
  | Closing | LastAck => has_value (local_fin_seq c) = true /\ pending c <> [] /\ pending_fin_seq c = None
  | FinWait2 => has_value (local_fin_seq c) = true /\ pending c = []
  | TimeWait => has_value (local_fin_seq c) = true /\ pending c = [] /\ pending_fin_seq c = None /\
                has_value (time_wait_deadline c) = true
  | SynSent | SynReceived => False
  end.

Record sync_ok (R : Z) (runs : list run) (c : Connection) : Prop := {
  sy_send : sender_ok c;
  sy_recv : receiver_ok R runs c;
  sy_cong : congestion_ok c;
  sy_rto : rto_ok c;
  sy_scale : scale_ok c;
  sy_state : if pending_removal c then state c = LastAck else state_ok c
}.

Lemma receiver_ok_part R runs c c' : recv_part c' = recv_part c -> receiver_ok R runs c -> receiver_ok R runs c'.
Proof. unfold recv_part. intros [= E1 E2 E3] []. constructor; congruence. Qed.

(** The state of the connection after its acknowledgement was processed: the
    FIN is still outstanding exactly when the queue is not empty. *)
Lemma localFinStep_spec c now :
  sender_ok c -> (state c = FinWait1 \/ state c = Closing \/ state c = LastAck -> pending_removal c = false) ->
  (match state c with
   | Established => local_fin_seq c = None
   | CloseWait => local_fin_seq c = None /\ pending_fin_seq c = None
   | FinWait1 => has_value (local_fin_seq c) = true
   | Closing | LastAck => has_value (local_fin_seq c) = true /\ pending_fin_seq c = None
   | FinWait2 => has_value (local_fin_seq c) = true /\ pending c = []
   | _ => False
   end) ->
  let c' := localFinStep c now in
  sender_ok c' /\ recv_part c' = recv_part c /\ nego_part c' = nego_part c /\ cong_part c' = cong_part c /\
  current_rto c' = current_rto c /\ owned c' = owned c /\
  (pending_removal c = false -> pending_removal c' = false -> state_ok c') /\
  (pending_removal c' = true -> pending_removal c = true \/
     (state c = LastAck /\ state c' = LastAck /\ pending c' = [])) /\
  close_requested c' = close_requested c /\ local_fin_seq c' = local_fin_seq c.
Proof.
  intros Hs Hrem Hst. unfold localFinStep. destruct (local_fin_seq c) as [f|] eqn:Ef.
  2: { rewrite !andb_false_r. split_and!; auto. intros _ _. unfold state_ok. rewrite Ef.
       destruct (state c); simpl in *; tauto || (destruct_and?; done). }
  pose proof (fin_acked_iff c f Hs Ef) as Hack.
  destruct (sequenceLessOrEqual (u32 (f + 1)) (snd_una c)) eqn:Ea.
  - assert (Hp : pending c = []) by (by apply Hack). rewrite !andb_true_r.
    destruct (state c) eqn:Est; simpl in Hst |- *; try tauto; try (destruct_and?; congruence).
    + split_and!; auto; try (by apply (sender_ok_part c)). intros. unfold state_ok. simpl. by rewrite Ef.
    + split_and!; auto. intros. unfold state_ok. rewrite Est, Ef. done.
    + assert (Hs' : sender_ok (startTimeWait c now)).
      { apply (sender_ok_part c); [|done]. unfold send_part. simpl. by rewrite Hp. }
      split_and!; auto.
      * unfold owned. simpl. by rewrite Hp.
      * intros. unfold state_ok. simpl. rewrite Ef. simpl. tauto.
    + split_and!; auto; try (by apply (sender_ok_part c)); done.
  - rewrite !andb_false_r. split_and!; auto. intros _ _. unfold state_ok. rewrite Ef.
    assert (Hp : pending c <> []) by (intros E; apply Hack in E; congruence).
    destruct (state c); simpl in *; tauto || (destruct_and?; done).
Qed.

Lemma state_eqb_true a b : state_eqb a b = true <-> a = b.
Proof. unfold state_eqb. apply bool_decide_eq_true. Qed.

Definition sendable (s : TcpState) : bool := state_eqb s Established || state_eqb s CloseWait.

Lemma sendable_no_fin c : state_ok c -> sendable (state c) = true -> local_fin_seq c = None.
Proof. unfold state_ok. destruct (state c); simpl; tauto || done. Qed.

(** Everything a scheduling pass promises the handlers. *)
Lemma schedule_sync key R runs c now segs c' :
  sync_ok R runs c -> pending_removal c = false -> sendable (state c) = true ->
  scheduleQueuedData key c now = (segs, c') ->
  sync_ok R runs c' /\ owned c' = owned c /\ recv_part c' = recv_part c /\ nego_part c' = nego_part c /\
  pending_removal c' = false /\ (exists ents, scheduled_from c segs ents c').
Proof.
  intros [S1 S2 S3 S4 S5 S6] Hrem Hsend HE. rewrite Hrem in S6.
  destruct (scheduleQueuedData_spec key c now segs c' S1 S4 S3 (sendable_no_fin c S6 Hsend) HE)
    as (Q1 & (ents & Q2 & Q3 & _) & Q4 & _ & _).
  destruct Q2 as [F1 F2 F3 F4 F5 F6 F7 F8 F9 F10 F11 F12] eqn:EQ. clear EQ.
  assert (Hrecv : pending_fin_seq c' = pending_fin_seq c) by (unfold recv_part in F6; congruence).
  split_and!; auto; try congruence; [|unfold owned; rewrite F1, app_bytes_app, <- app_assoc, F3; done | by exists ents].
  constructor; auto.
  - by apply (receiver_ok_part R runs c).
  - by apply (congestion_ok_part c).
  - by apply (rto_ok_part c).
  - by apply (scale_ok_part c).
  - rewrite F10, Hrem. destruct Q4 as [(O1 & O2 & _)|(f & O1 & O2 & _ & _ & O3 & _)].
    + unfold state_ok in *. rewrite O2, O1, Hrecv. destruct (state c); done || tauto.
    + assert (Hne : pending c' <> []).
      { intros E. rewrite E in O3. simpl in O3. pose proof (pend_len_nonneg _ (so_entries _ S1)).
        unfold send_allowance in O3. destruct S3 as (? & _). pose proof (Zlen_nonneg (unsent c)). consts. lia. }
      unfold state_ok in *. rewrite O2, O1, Hrecv. unfold fin_state. destruct (state c); simpl in *; tauto || done.
Qed.

Lemma sync_ok_persist R runs c d i :
  sync_ok R runs c -> sync_ok R runs (c <| persist_deadline := d |> <| persist_interval := i |>).
Proof.
  intros [S1 S2 S3 S4 S5 S6]. constructor; auto; [by apply (sender_ok_part c) | by apply (receiver_ok_part R runs c)].
Qed.

Lemma scheduleIfSendable_sync key R runs c now segs c' :
  sync_ok R runs c -> scheduleIfSendable key c now = (segs, c') ->
  sync_ok R runs c' /\ owned c' = owned c /\ recv_part c' = recv_part c /\ nego_part c' = nego_part c /\
  pending_removal c' = pending_removal c /\ (exists ents, scheduled_from c segs ents c').
Proof.
  intros H. unfold scheduleIfSendable. fold (sendable (state c)).
  destruct (pending_removal c) eqn:Hr; cbn [negb andb]; [|destruct (sendable (state c)) eqn:Hs].
  2: { intros HE. by apply (schedule_sync key R runs c now). }
  all: destruct (updatePersistState_frame c now) as (d & i & -> & _); intros [= <- <-];
    (split_and!; [by apply sync_ok_persist | done | done | done | done |
      exists []; apply scheduled_from_persist, scheduled_from_refl]).
Qed.

(** Bytes waiting in the send buffer are waited for: something is in flight,
    so the retransmission timer runs, or the window probe is armed. *)
Definition driven (c : Connection) : Prop :=
  sendable (state c) = true -> unsent c <> [] ->
  pending c <> [] \/ (persistEligible c = true /\ has_value (persist_deadline c) = true).

Lemma scheduled_driven key c now segs c' :
  sender_ok c -> rto_ok c -> congestion_ok c -> local_fin_seq c = None ->
  scheduleQueuedData key c now = (segs, c') -> driven c'.
Proof.
  intros Hs Hr Hg Hf E Hsend Hu.
  destruct (scheduleQueuedData_spec key c now segs c' Hs Hr Hg Hf E) as (S1 & (ents & S2 & _) & S3 & _ & S5).
  destruct (pending c') as [|e l] eqn:Ep; [|by left]. right. rewrite S5.
  assert (Hel : persistEligible c' = true); [|done].
  destruct S3 as [(F1 & F2 & F3)|(f & _ & _ & _ & F4 & _)]; [|done]. rewrite Ep in F3. change (pend_len []) with 0 in F3.
  pose proof (pend_len_nonneg _ (so_entries _ Hs)) as Hl. destruct (send_allowance_range c Hg) as [Ha _].
  assert (Hz : snd_wnd c = 0).
  { destruct Hg as (G1 & G2 & _). pose proof (so_wnd _ Hs). unfold send_allowance in *.
    assert (Hq : 1 <= Zlen (unsent c)).
    { rewrite <- (sf_bytes _ _ _ _ S2), Zlen_app. pose proof (Zlen_nonneg (app_bytes ents)).
      destruct (unsent c') as [|x u]; [done|]. rewrite Zlen_cons. pose proof (Zlen_nonneg u). lia. }
    consts. lia. }
  unfold persistEligible. fold (sendable (state c')). rewrite Hsend, F1, (sf_wnd _ _ _ _ S2), Hz.
  rewrite (so_nxt _ S1), Ep. simpl. rewrite Z.add_0_r, u32_id, Z.eqb_refl by apply S1.
  by destruct (unsent c').
Qed.

Lemma scheduleIfSendable_driven key R runs c now segs c' :
  sync_ok R runs c -> scheduleIfSendable key c now = (segs, c') -> pending_removal c' = false -> driven c'.
Proof.
  intros H E Hr'. destruct (scheduleIfSendable_sync _ _ _ _ _ _ _ H E) as (_ & _ & _ & _ & Hr & _).
  rewrite Hr' in Hr. symmetry in Hr. destruct H as [S1 S2 S3 S4 S5 S6]. rewrite Hr in S6. revert E. unfold scheduleIfSendable. fold (sendable (state c)).
  rewrite Hr. cbn [negb andb]. destruct (sendable (state c)) eqn:Es.
  - intros E. eapply scheduled_driven; try exact E; auto. by apply sendable_no_fin.
  - destruct (updatePersistState_frame c now) as (d & i & -> & _). intros [= <- <-] Hs _. simpl in Hs. congruence.
Qed.

(** ** Receiving *)

(** Distance of the segment from the next expected byte for which the
    wraparound comparisons of the window test are exact. *)
Definition seq_plausible (R pos : Z) : Prop := - (2 ^ 31 - 2 ^ 19) <= pos - R <= 2 ^ 31 - 2 ^ 19.

Section Window.
Context (R window pos len : Z).
Context (Hpos : seq_plausible R pos) (Hw : 0 <= window <= kTcpReceiveCapacity) (Hl : 0 <= len <= 65535).

Lemma window_start : sequenceMax (u32 R) (u32 pos) = u32 (Z.max R pos).
Proof. unfold seq_plausible in *. apply sequenceMax_abs. lia. Qed.

Lemma window_stop : sequenceMin (u32 (pos + len)) (u32 (R + window)) = u32 (Z.min (pos + len) (R + window)).
Proof. unfold seq_plausible in *. consts. apply sequenceMin_abs. lia. Qed.

Lemma window_overlap : sequenceGreater (u32 (Z.min (pos + len) (R + window))) (u32 (Z.max R pos)) =
  (Z.max R pos <? Z.min (pos + len) (R + window)).
Proof. unfold seq_plausible in *. consts. apply sequenceGreater_abs. lia. Qed.

Lemma window_fin :
  sequenceLessOrEqual (u32 R) (u32 (pos + len)) && sequenceGreater (u32 (R + window)) (u32 (pos + len)) =
  (R <=? pos + len) && (pos + len <? R + window).
Proof.
  unfold seq_plausible in *. consts. rewrite sequenceLessOrEqual_abs, sequenceGreater_abs by lia. done.
Qed.
End Window.

(** The buffer after the in-window bytes of a payload at [pos] were stored:
    old bytes stay, new ones come from the payload, and all of them are
    there when the fragment limit left room. *)
Record stored (R pos : Z) (p : list Z) (lo hi : Z) (runs runs' : list run) : Prop := {
  st_runs : runs_ok 1 0 kTcpReceiveCapacity runs';
  st_count : Zlen runs' <= kMaxReassemblyFragments;
  st_keep : forall x b, holds runs x b -> holds runs' x b;
  st_new : forall x b, holds runs' x b -> holds runs x b \/
             (pos <= R + x /\ p !! Z.to_nat (R + x - pos) = Some b);
  st_all : insert_room runs (lo - R) (sliceOf p (lo - pos) (hi - pos)) ->
           forall x b, lo <= R + x < hi -> p !! Z.to_nat (R + x - pos) = Some b -> exists b', holds runs' x b';
  st_full : Zlen runs = kMaxReassemblyFragments -> runs' = runs
}.

Lemma in_gaps_holds runs x : in_gaps (map run_range runs) x -> exists b, holds runs x b.
Proof.
  intros H. apply Exists_exists in H as (g & Hin & Hx). apply list_elem_of_In, in_map_iff in Hin as (r & <- & Hr).
  simpl in Hx. unfold run_end, Zlen in Hx.
  destruct (lookup_lt_is_Some_2 (snd r) (Z.to_nat (x - fst r))) as [b Hb]; [lia|].
  exists b. apply Exists_exists. exists r. split; [by apply list_elem_of_In|]. split; [lia | done].
Qed.

Lemma in_gaps_dec l x : {in_gaps l x} + {~ in_gaps l x}.
Proof. apply Exists_dec. intros g. apply _. Qed.

Lemma storePayload_spec R runs c seg pos lo hi :
  receiver_ok R runs c -> bytes_ok (payload seg) -> sequence_number seg = u32 pos ->
  seq_plausible R pos -> Zlen (payload seg) <= 65535 ->
  R <= lo -> pos <= lo < hi -> hi <= pos + Zlen (payload seg) -> hi <= R + kTcpReceiveCapacity ->
  exists m runs', storePayload c seg (u32 lo) (u32 hi) =
      Some (m, c <| out_of_order := map (frag_at R) runs' |>) /\
    stored R pos (payload seg) lo hi runs runs'.
Proof.
  intros Hr Hb Hseq Hpl Hlen H1 H2 H3 H4. unfold storePayload, subRange, seq_plausible in *. rewrite Hseq. consts. u32_norm.
  rewrite (u32_id (lo - pos)), (u32_id (hi - lo)) by ulia.
  destruct (Z.leb_spec (lo - pos + (hi - lo)) (Zlen (payload seg))); [|lia].
  set (p := take _ _). assert (Ep : p = sliceOf (payload seg) (lo - pos) (hi - pos)).
  { unfold p, sliceOf. f_equal. lia. }
  assert (Hpl2 : Zlen p = hi - lo) by (unfold p, Zlen in *; rewrite length_take, length_drop; lia).
  assert (Hne : p <> []) by (intros E; rewrite E in Hpl2; change (Zlen []) with 0 in Hpl2; lia).
  assert (Hpb : bytes_ok p) by (by apply Forall_take, Forall_drop).
  assert (Hlook : forall x, lo - R <= x -> p !! Z.to_nat (x - (lo - R)) = payload seg !! Z.to_nat (R + x - pos) \/ hi <= R + x).
  { intros x Hx. destruct (Z.le_gt_cases hi (R + x)); [by right|]. left. unfold p.
    rewrite lookup_take_lt, lookup_drop by lia. f_equal. lia. }
  assert (El : u32 lo = u32 (R + (lo - R))) by (f_equal; lia). rewrite El. cbn [mbind option_bind].
  destruct (insertReassemblyFragment_spec R runs c (lo - R) p Hr Hne Hpb) as (runs' & -> & I1 & I2 & I3 & I4 & I5 & I6);
    [lia | consts; lia|]. simpl. eexists _, runs'. split; [done|]. constructor; auto.
  - intros x b Hx. apply I4 in Hx as [Hx|(_ & Hx & Hb')]; [by left|]. right. split; [lia|].
    destruct (Hlook x) as [E|E]; [lia | congruence | lia].
  - intros Hroom x b Hx Hb'. rewrite <- Ep in Hroom.
    destruct (in_gaps_dec (map run_range runs) x) as [Hg|Hg].
    + apply in_gaps_holds in Hg as [b' Hb'']. exists b'. by apply I3.
    + exists b. apply I5; auto; [lia|]. destruct (Hlook x) as [E|E]; [lia | congruence | lia].
Qed.

(** Delivery: the bytes handed up, the receive position after them and after
    a consumed FIN, and the state change a FIN causes. *)
Record delivered (c : Connection) (R : Z) (runs : list run) (out : list Z) (closed : bool) (now : Z)
    (R' : Z) (rest : list run) (c' : Connection) : Prop := {
  dl_pos : R' = R + Zlen out + (if closed then 1 else 0);
  dl_recv : receiver_ok R' rest c';
  dl_out : forall k b, out !! k = Some b -> holds runs (Z.of_nat k) b;
  dl_rest : forall x b, 0 <= x -> holds rest x b -> holds runs (x + (R' - R)) b;
  dl_end : forall b, ~ holds runs (Zlen out) b;
  dl_bytes : bytes_ok out;
  dl_fin : closed = true <-> pending_fin_seq c = Some (u32 (R + Zlen out));
  dl_pending_fin : pending_fin_seq c' = (if closed then None else pending_fin_seq c);
  dl_state : state c' = if closed then
      match state c with Established => CloseWait | FinWait1 => Closing | FinWait2 => TimeWait | s => s end
      else state c;
  dl_send : send_part c' = send_part (if closed && state_eqb (state c) FinWait2 then c <| pending := [] |> else c);
  dl_nego : nego_part c' = nego_part c;
  dl_cong : cong_part c' = cong_part c;
  dl_rto : current_rto c' = current_rto c;
  dl_removal : pending_removal c' = pending_removal c;
  dl_close : close_requested c' = close_requested c;
  dl_same : out = [] -> closed = false -> rest = runs;
  dl_timewait : time_wait_deadline c' =
    if closed && state_eqb (state c) FinWait2 then Some (now + kTimeWaitDuration) else time_wait_deadline c
}.

Lemma receiver_ok_fin R rest c s : receiver_ok R rest c -> runs_ok 1 1 kTcpReceiveCapacity rest ->
  recv_part s = (u32 (rcv_nxt c + 1), out_of_order c, pending_fin_seq s) ->
  receiver_ok (R + 1) (map (shift 1) rest) s.
Proof.
  intros [H1 H2 H3 H4] Hr1. unfold recv_part. intros [= E1 E2]. constructor.
  - rewrite E1, H1. by u32_norm.
  - rewrite E2, H2, map_map. apply map_ext. intros r. by rewrite frag_at_shift.
  - by apply (runs_ok_shift 1 1 1).
  - unfold Zlen in *. by rewrite length_map.
Qed.

Lemma deliver_spec R runs c now :
  rcv_nxt c = u32 R -> out_of_order c = map (frag_at R) runs ->
  runs_ok 1 0 kTcpReceiveCapacity runs -> Zlen runs <= kMaxReassemblyFragments ->
  exists out closed c' R' rest, deliver c now = (out, closed, c') /\
    delivered c R runs out closed now R' rest c'.
Proof.
  intros H1 H2 H3 H4. unfold deliver.
  destruct (releaseContiguous_spec R runs c H1 H2 H3 H4) as (out & rest & c1 & -> & E1 & L1 & L2 & L3 & L4 & L5 & L6 & L7).
  assert (Ef : pending_fin_seq c1 = pending_fin_seq c) by (by rewrite E1).
  assert (En : rcv_nxt c1 = u32 (R + Zlen out)) by (by rewrite E1).
  assert (Hno : ~ (pending_fin_seq c = Some (u32 (R + Zlen out))) ->
    delivered c R runs out false now (R + Zlen out) rest c1).
  { intros Hn. rewrite E1 in L1 |- *. constructor; auto; try done; try (simpl; lia).
    intros x b Hx Hh. apply L5 in Hh; [|done]. by replace (x + (R + Zlen out - R)) with (x + Zlen out) by lia. }
  rewrite Ef. destruct (pending_fin_seq c) as [f|] eqn:Epf.
  2: { exists out, false, c1, (R + Zlen out), rest. split; [done | by apply Hno]. }
  destruct (Z.eqb_spec f (rcv_nxt c1)) as [E|E].
  2: { exists out, false, c1, (R + Zlen out), rest. split; [done|]. apply Hno. congruence. }
  eexists out, true, _, (R + Zlen out + 1), (map (shift 1) rest). split; [done|].
  set (c2 := if state_eqb _ Established then _ else _).
  assert (Hrec : recv_part c2 = (u32 (rcv_nxt c1 + 1), out_of_order c1, None)).
  { unfold c2. destruct (state c) eqn:Es; rewrite E1; simpl; rewrite Es; reflexivity. }
  assert (Hst : state c1 = state c) by (by rewrite E1).
  constructor; try (unfold c2; destruct (state c) eqn:Es; rewrite E1; simpl; rewrite Es; reflexivity); auto.
  - apply (receiver_ok_fin _ _ c1); auto. rewrite Hrec. f_equal. unfold recv_part in Hrec. congruence.
  - intros x b Hx Hh. apply holds_shift, L5 in Hh; [|lia].
    by replace (x + (R + Zlen out + 1 - R)) with (x + 1 + Zlen out) by lia.
  - split; [|done]. intros _. by rewrite Epf, E, En.
  - unfold c2. rewrite E1. simpl. destruct (state c) eqn:Es; simpl; rewrite ?Es; reflexivity.
  - done.
Qed.

(** ** Well-formed input *)

Record segment_ok (seg : TcpSegment) : Prop := {
  sg_seq : is_u32 (sequence_number seg);
  sg_ack : is_u32 (acknowledgment_number seg);
  sg_window : is_u16 (window_size seg);
  sg_options : bytes_ok (options seg);
  sg_payload : bytes_ok (payload seg);
  sg_len : Zlen (payload seg) <= 65535
}.

(** ** What receive processing guarantees *)

Record received (R : Z) (runs : list run) (c : Connection) (seg : TcpSegment) (pos : Z)
    (res : TcpReceiveResult) (R' : Z) (rest : list run) (c' : Connection) : Prop := {
  rv_ok : sync_ok R' rest c';
  rv_owned : owned c' = owned c;
  rv_pos : R' = R + Zlen (accepted_payload res) + (if peer_closed res then 1 else 0);
  rv_bytes : bytes_ok (accepted_payload res);
  rv_stream : forall S, content S R runs ->
    (forall k b, payload seg !! k = Some b -> R <= pos + Z.of_nat k -> b = S (pos + Z.of_nat k)) ->
    content S R' rest /\ accepted_payload res = stream_bytes S R (length (accepted_payload res));
  rv_fin : peer_closed res = true ->
    pending_fin_seq c = Some (u32 (R + Zlen (accepted_payload res))) \/
    (fin (flags seg) = true /\ u32 (R + Zlen (accepted_payload res)) = u32 (pos + Zlen (payload seg)));
  rv_pending_fin : forall f, pending_fin_seq c' = Some f ->
    pending_fin_seq c = Some f \/ (fin (flags seg) = true /\ f = u32 (pos + Zlen (payload seg)));
  rv_full : Zlen runs = kMaxReassemblyFragments -> runs_ok 1 1 kTcpReceiveCapacity runs ->
    accepted_payload res = [] /\ (peer_closed res = false -> rest = runs);
  rv_nego : nego_part c' = nego_part c;
  rv_removal : pending_removal c' = pending_removal c;
  rv_quiet : connection_reset res = false /\ connection_established res = false /\ admission_rejected res = false
}.

(** The delivered connection still satisfies the invariant. *)
Lemma delivered_sync c R runs out closed now R' rest c' :
  delivered c R runs out closed now R' rest c' ->
  sender_ok c -> congestion_ok c -> rto_ok c -> scale_ok c ->
  (if pending_removal c then state c = LastAck else state_ok (c <| pending_fin_seq := None |>)) ->
  (has_value (pending_fin_seq c) = true -> pending_removal c = true \/ fin_events_open (state c) = true) ->
  sync_ok R' rest c' /\ owned c' = owned c /\ send_part c' = send_part c.
Proof.
  intros [D1 D2 D3 D4 D5 D6 D7 D8 D9 D10 D11 D12 D13 D14 D15 _ D16] Hs Hc Hr Hsc Hst Hfin.
  assert (Hsend : send_part c' = send_part c).
  { rewrite D10. destruct closed; [|done]. cbn [andb]. destruct (state_eqb (state c) FinWait2) eqn:E; [|done].
    apply state_eqb_true in E. unfold state_ok in Hst. destruct (pending_removal c); [congruence|].
    simpl in Hst. rewrite E in Hst. unfold send_part. simpl. by rewrite (proj2 Hst). }
  split; [|by split; [unfold send_part in Hsend; unfold owned; congruence|]].
  constructor; [by apply (sender_ok_part c) | done | by apply (congestion_ok_part c) | by apply (rto_ok_part c) |
    by apply (scale_ok_part c) |].
  rewrite D14. destruct (pending_removal c) eqn:Er; [rewrite D9, Hst; by destruct closed|].
  assert (Hl : local_fin_seq c' = local_fin_seq c) by (unfold send_part in Hsend; congruence).
  assert (Hp : pending c' = pending c) by (unfold send_part in Hsend; congruence).
  unfold state_ok in *. rewrite D9, D8, Hl, Hp, D16. simpl in Hst.
  destruct closed.
  - assert (Hv : has_value (pending_fin_seq c) = true) by (by rewrite (proj1 D7 eq_refl)).
    destruct (Hfin Hv) as [?|Ho]; [done|]. destruct (state c); simpl in *; done || tauto.
  - destruct (pending_fin_seq c) as [f|] eqn:Ef; [|destruct (state c); simpl in *; tauto].
    destruct (Hfin eq_refl) as [?|Ho]; [done|]. destruct (state c); simpl in *; done || tauto.
Qed.

(** How a result is put together: from a connection [c1] with the queue of
    [c], a scheduling pass, the retransmission and possibly an acknowledgement. *)
Definition finished (key : TcpConnectionKey) (c : Connection) (retransmit : option TcpSegment) (now R' : Z) (rest : list run)
    (res : TcpReceiveResult) (c' : Connection) : Prop :=
  exists c1 start, sync_ok R' rest c1 /\ send_part c1 = send_part c /\ scheduleIfSendable key c1 now = (scheduled res, c') /\
    fast_retransmit res = retransmit /\ (reply res = None \/ reply res = Some (makePureAck key c' start)).

Lemma finishReceive_spec key R runs c retransmit m now :
  rcv_nxt c = u32 R -> out_of_order c = map (frag_at R) runs ->
  runs_ok 1 0 kTcpReceiveCapacity runs -> Zlen runs <= kMaxReassemblyFragments ->
  sender_ok c -> congestion_ok c -> rto_ok c -> scale_ok c ->
  (if pending_removal c then state c = LastAck else state_ok (c <| pending_fin_seq := None |>)) ->
  (has_value (pending_fin_seq c) = true -> pending_removal c = true \/ fin_events_open (state c) = true) ->
  exists res c1 c' R' rest, finishReceive key c retransmit m now = (res, c') /\
    delivered c R runs (accepted_payload res) (peer_closed res) now R' rest c1 /\
    sync_ok R' rest c' /\ owned c' = owned c /\ recv_part c' = recv_part c1 /\ nego_part c' = nego_part c /\
    pending_removal c' = pending_removal c /\
    connection_reset res = false /\ connection_established res = false /\ admission_rejected res = false /\
    (pending_removal c' = false -> driven c') /\ finished key c retransmit now R' rest res c'.
Proof.
  intros H1 H2 H3 H4 Hs Hc Hr Hsc Hst Hfin. unfold finishReceive.
  destruct (deliver_spec R runs c now H1 H2 H3 H4) as (out & closed & c1 & R' & rest & -> & Hd).
  destruct (delivered_sync _ _ _ _ _ _ _ _ _ Hd Hs Hc Hr Hsc Hst Hfin) as (Hok & Ho & Hsend).
  destruct (scheduleIfSendable key c1 now) as [segs c2] eqn:E.
  destruct (scheduleIfSendable_sync _ _ _ _ _ _ _ Hok E) as (S1 & S2 & S3 & S4 & S5 & _).
  pose proof (dl_nego _ _ _ _ _ _ _ _ _ Hd). pose proof (dl_removal _ _ _ _ _ _ _ _ _ Hd).
  set (b := (_ || _)%bool). eexists _, c1, c2, R', rest. split; [reflexivity|].
  pose proof (scheduleIfSendable_driven _ _ _ _ _ _ _ Hok E).
  destruct b; simpl; (split_and!; [done | done | congruence | congruence | congruence | congruence | done..|]);
    exists c1, m; split_and!; auto.
Qed.

(** A result that delivers nothing, on a connection whose receive side stays. *)
Lemma received_nothing R runs c seg pos res c' :
  sync_ok R runs c' -> owned c' = owned c -> recv_part c' = recv_part c -> nego_part c' = nego_part c ->
  pending_removal c' = pending_removal c -> accepted_payload res = [] -> peer_closed res = false ->
  connection_reset res = false -> connection_established res = false -> admission_rejected res = false ->
  received R runs c seg pos res R runs c'.
Proof.
  intros H1 H2 H3 H4 H5 H6 H7 H8 H9 H10. constructor; rewrite ?H6, ?H7; auto; try done.
  - change (Zlen []) with 0. lia.
  - constructor.
  - intros f Hf. left. unfold recv_part in H3. congruence.
Qed.

Lemma finishOutside_spec key R runs c seg pos retransmit now :
  sync_ok R runs c ->
  exists res c', finishOutside key c retransmit now = (res, c') /\ received R runs c seg pos res R runs c' /\
    (pending_removal c' = false -> driven c') /\ finished key c retransmit now R runs res c'.
Proof.
  intros H. unfold finishOutside. destruct (scheduleIfSendable key c now) as [segs c'] eqn:E.
  destruct (scheduleIfSendable_sync _ _ _ _ _ _ _ H E) as (S1 & S2 & S3 & S4 & S5 & _).
  set (b := (_ || _)%bool). eexists _, c'. split; [reflexivity|].
  pose proof (scheduleIfSendable_driven _ _ _ _ _ _ _ H E).
  destruct b; (split; [by apply received_nothing|]); split_and!; try done; exists c, None; split_and!; auto.
Qed.

Lemma finishPureAck_spec key R runs c seg pos retransmit now :
  sync_ok R runs c ->
  exists res c', finishPureAck key c retransmit now = (res, c') /\ received R runs c seg pos res R runs c' /\
    connection_closed res = pending_removal c /\ (pending_removal c' = false -> driven c') /\
    finished key c retransmit now R runs res c'.
Proof.
  intros H. unfold finishPureAck. destruct (scheduleIfSendable key c now) as [segs c'] eqn:E.
  destruct (scheduleIfSendable_sync _ _ _ _ _ _ _ H E) as (S1 & S2 & S3 & S4 & S5 & _).
  set (b := (_ && _)%bool). eexists _, c'. split; [reflexivity|].
  pose proof (scheduleIfSendable_driven _ _ _ _ _ _ _ H E).
  destruct b; (split; [by apply received_nothing|]); split_and!; try done; exists c, None; split_and!; auto.
Qed.

Lemma received_stream R runs c seg pos lo hi runs2 out closed now R' rest c1 (S : Z -> Z) :
  stored R pos (payload seg) lo hi runs runs2 ->
  delivered c R runs2 out closed now R' rest c1 -> content S R runs ->
  (forall k b, payload seg !! k = Some b -> R <= pos + Z.of_nat k -> b = S (pos + Z.of_nat k)) ->
  content S R' rest /\ out = stream_bytes S R (length out).
Proof.
  intros Hst Hd Hc Hp.
  assert (Hc2 : content S R runs2).
  { intros x b Hx. pose proof (holds_lower 1 _ _ _ _ _ ltac:(lia) (st_runs _ _ _ _ _ _ _ Hst) Hx).
    apply (st_new _ _ _ _ _ _ _ Hst) in Hx as [Hx|[Hge Hx]]; [by apply Hc|].
    apply Hp in Hx; [rewrite Hx; f_equal|]; lia. }
  split.
  - intros x b Hx. pose proof (holds_lower 1 _ _ _ _ _ ltac:(lia) (ro_runs _ _ _ (dl_recv _ _ _ _ _ _ _ _ _ Hd)) Hx).
    apply (dl_rest _ _ _ _ _ _ _ _ _ Hd) in Hx; [|done]. apply Hc2 in Hx. rewrite Hx. f_equal. lia.
  - apply stream_bytes_intro. intros k b Hk. apply (dl_out _ _ _ _ _ _ _ _ _ Hd), Hc2 in Hk. done.
Qed.

Lemma stored_refl R pos p lo hi runs c : receiver_ok R runs c -> hi <= lo -> stored R pos p lo hi runs runs.
Proof. intros [] H. constructor; auto. lia. Qed.

Lemma state_ok_drop_fin c c' : state_ok c ->
  ctl_part c' = ctl_part c -> send_part c' = send_part c -> state_ok (c' <| pending_fin_seq := None |>).
Proof.
  unfold ctl_part, send_part, state_ok. intros H [= E1 _ _ E2] [= _ _ E3 E4 _ _]. simpl.
  rewrite E1, E2, E3, E4. destruct (state c); tauto.
Qed.

Lemma state_ok_fin_open c : state_ok c -> has_value (pending_fin_seq c) = true -> fin_events_open (state c) = true.
Proof.
  unfold state_ok. destruct (state c); intros H Hv; try done; destruct_and?;
    match goal with E : pending_fin_seq c = None |- _ => by rewrite E in Hv end.
Qed.

(** A segment with bytes or a FIN inside the window. *)
Lemma receiveInside_spec key R runs c seg pos retransmit now runs2 lo hi (fin_in : bool) m :
  sync_ok R runs c -> stored R pos (payload seg) lo hi runs runs2 ->
  (fin_in = true -> fin_events_open (state c) = true /\ fin (flags seg) = true) ->
  let c2 := c <| out_of_order := map (frag_at R) runs2 |> in
  let c2 := if fin_in then c2 <| pending_fin_seq := Some (u32 (pos + Zlen (payload seg))) |> else c2 in
  exists res R' rest c', finishReceive key c2 retransmit m now = (res, c') /\
    received R runs c seg pos res R' rest c' /\ (pending_removal c' = false -> driven c') /\
    finished key c retransmit now R' rest res c'.
Proof.
  intros [S1 S2 S3 S4 S5 S6] Hst Hfin_in c1 c2.
  assert (Hc2 : rcv_nxt c2 = u32 R /\ out_of_order c2 = map (frag_at R) runs2 /\ send_part c2 = send_part c /\
    cong_part c2 = cong_part c /\ nego_part c2 = nego_part c /\ current_rto c2 = current_rto c /\
    ctl_part c2 = ctl_part c /\ owned c2 = owned c /\
    pending_fin_seq c2 = if fin_in then Some (u32 (pos + Zlen (payload seg))) else pending_fin_seq c)
    by (rewrite <- (ro_nxt _ _ _ S2); unfold c2; destruct fin_in; done).
  destruct Hc2 as (N1 & N2 & N3 & N4 & N5 & N6 & N7 & N8 & N9). clearbody c2. clear c1.
  assert (Hctl : pending_removal c2 = pending_removal c /\ state c2 = state c) by (unfold ctl_part in N7; by simplify_eq).
  destruct Hctl as [Hrem Hstate].
  destruct (finishReceive_spec key R runs2 c2 retransmit m now) as
    (res & c1 & c' & R' & rest & -> & F1 & F2 & F3 & F4 & F5 & F6 & F7 & F8 & F9 & F10 & F11); auto; try apply Hst.
  - by apply (sender_ok_part c).
  - by apply (congestion_ok_part c).
  - by apply (rto_ok_part c).
  - by apply (scale_ok_part c).
  - rewrite Hrem, Hstate. destruct (pending_removal c); [done|]. by apply (state_ok_drop_fin c).
  - rewrite N9, Hrem, Hstate. intros Hv. destruct fin_in; [right; by apply Hfin_in|].
    destruct (pending_removal c); [by left|]. right. by apply state_ok_fin_open.
  - exists res, R', rest, c'. split; [reflexivity|]. split; [|split; [exact F10 | destruct F11 as (x & y & Y1 & Y2 & Y3); exists x, y; by rewrite <- N3]].
    assert (Hpf : pending_fin_seq c' = pending_fin_seq c1) by (unfold recv_part in F4; congruence).
    constructor; auto; try congruence.
    + apply F1.
    + apply F1.
    + intros S Hc Hp. by eapply received_stream.
    + intros Hcl. apply (dl_fin _ _ _ _ _ _ _ _ _ F1) in Hcl. rewrite N9 in Hcl.
      destruct fin_in; [right | by left]. split; [by apply Hfin_in | congruence].
    + intros f. rewrite Hpf, (dl_pending_fin _ _ _ _ _ _ _ _ _ F1), N9.
      destruct (peer_closed res); [done|]. destruct fin_in; [|by left].
      intros [= <-]. right. split; [by apply Hfin_in | done].
    + intros Hfull Hgap. rewrite (st_full _ _ _ _ _ _ _ Hst Hfull) in F1.
      assert (Hacc : accepted_payload res = []).
      { destruct (accepted_payload res) as [|b l] eqn:Ea; [done|].
        pose proof (dl_out _ _ _ _ _ _ _ _ _ F1 0%nat b eq_refl) as Hh.
        apply (holds_lower 1 1 kTcpReceiveCapacity) in Hh; [lia | lia | done]. }
      split; [done|]. intros Hcl. by apply (dl_same _ _ _ _ _ _ _ _ _ F1).
Qed.

Lemma receiveSegment_spec key R runs c seg pos retransmit now :
  sync_ok R runs c -> segment_ok seg -> sequence_number seg = u32 pos -> seq_plausible R pos ->
  exists res R' rest c', receiveSegment key c seg retransmit now = Some (res, c') /\
    received R runs c seg pos res R' rest c' /\ (pending_removal c' = false -> driven c') /\
    finished key c retransmit now R' rest res c'.
Proof.
  intros Hok Hseg Hpos Hpl. pose proof Hok as [S1 S2 S3 S4 S5 S6]. pose proof (ro_nxt _ _ _ S2) as Hn.
  pose proof (advertisedLogicalWindowFor_range c S5) as Hw. pose proof (receive_free_range c) as Hf.
  pose proof (sg_len _ Hseg) as Hlen. pose proof (Zlen_nonneg (payload seg)) as Hlen0.
  unfold receiveSegment. set (w := advertisedLogicalWindowFor c) in *. rewrite Hn, Hpos. u32_norm.
  set (len := Zlen (payload seg)) in *.
  rewrite (window_start R pos), (window_stop R w pos len), (window_overlap R w pos len) by (done || lia).
  rewrite <- (andb_assoc _ (sequenceLessOrEqual _ _)), (window_fin R w pos len) by (done || lia).
  set (lo := Z.max R pos). set (hi := Z.min (pos + len) (R + w)).
  set (fin_in := _ && _ && ((R <=? _) && _)).
  assert (Hfin_in : fin_in = true -> fin_events_open (state c) = true /\ fin (flags seg) = true).
  { unfold fin_in. intros Hfi. bprop. done. }
  destruct (negb (lo <? hi) && negb fin_in) eqn:Eout.
  { destruct (finishOutside_spec key R runs c seg pos retransmit now Hok) as (res & c' & -> & Hr). by eexists _, _, _, _. }
  assert (Hstore : exists m runs2, (if lo <? hi then storePayload c seg (u32 lo) (u32 hi) else Some (None, c)) =
      Some (m, c <| out_of_order := map (frag_at R) runs2 |>) /\ stored R pos (payload seg) lo hi runs runs2).
  { destruct (Z.ltb_spec lo hi).
    - unfold seq_plausible in *. apply storePayload_spec; try done; try (unfold lo, hi, len in *; consts; lia).
      apply Hseg.
    - exists None, runs. split; [|by eapply stored_refl]. rewrite <- (ro_frags _ _ _ S2). by destruct c. }
  destruct Hstore as (m & runs2 & -> & Hst). cbn [mbind option_bind].
  destruct (receiveInside_spec key R runs c seg pos retransmit now runs2 lo hi fin_in m Hok Hst Hfin_in)
    as (res & R' & rest & c' & E & Hr). eexists res, R', rest, c'. split; [by rewrite <- E | done].
Qed.

(** ** The whole handler *)

(** What acknowledgement processing does to a connection: it may release a
    prefix of the send buffer; the receive side and the negotiated
    parameters stay. *)
Record acked (c : Connection) (n : Z) (c' : Connection) : Prop := {
  ak_n : 0 <= n;
  ak_owned : owned c' = drop (Z.to_nat n) (owned c);
  ak_recv : recv_part c' = recv_part c;
  ak_nego : nego_part c' = nego_part c;
  ak_removal : pending_removal c' = true -> state c = LastAck /\ pending c' = []
}.

Lemma acked_refl c : pending_removal c = false -> acked c 0 c.
Proof. intros H. constructor; auto; try done. congruence. Qed.

Lemma ackStages_spec key R runs c seg blocks now res changed c1 retransmit c2 :
  sync_ok R runs c -> pending_removal c = false -> state c <> TimeWait -> segment_ok seg ->
  sequenceLessOrEqual (acknowledgment_number seg) (snd_nxt c) = true ->
  processAck c seg blocks now = (res, changed, c1) ->
  congestionStep key c1 seg res changed now = (retransmit, c2) ->
  sync_ok R runs (localFinStep c2 now) /\ acked c (newly_acked_data_bytes res) (localFinStep c2 now).
Proof.
  intros [S1 S2 S3 S4 S5 S6] Hrem Htw Hseg Hle E1 E2. rewrite Hrem in S6.
  destruct (processAck_spec _ _ _ _ _ _ _ S1 S4 S5 (sg_ack _ Hseg) (sg_window _ Hseg) Hle E1)
    as (P1 & P2 & P3 & P4 & P5 & P6 & P7 & P8 & P9 & P10 & P11 & P12 & P13).
  assert (Hc1 : congestion_ok c1) by (by apply (congestion_ok_part c)).
  destruct (congestionStep_spec _ _ _ _ _ _ _ _ Hc1 P10 P12 E2) as [(C1 & C2 & C3 & C4 & C5 & C6) C7].
  assert (Hs2 : sender_ok c2) by (by eapply sender_ok_remark).
  assert (Ho2 : owned c2 = owned c1).
  { unfold owned. rewrite (remarked_app_bytes _ _ C2). unfold send_part in C1. simpl in C1. congruence. }
  assert (Hl2 : local_fin_seq c2 = local_fin_seq c) by (unfold send_part in C1; simpl in C1; congruence).
  assert (Hf2 : pending_fin_seq c2 = pending_fin_seq c) by (unfold recv_part in *; congruence).
  assert (Hst2 : state c2 = state c /\ pending_removal c2 = false) by (unfold ctl_part in *; split; congruence).
  destruct Hst2 as [Hst2 Hr2].
  assert (Hp2 : pending c = [] -> pending c2 = []).
  { intros Hp. apply P13 in Hp. rewrite Hp in C2. by inversion C2. }
  destruct (localFinStep_spec c2 now Hs2) as (L1 & L2 & L3 & L4 & L5 & L6 & L7 & L8 & L9 & L10); [done| |].
  { rewrite Hst2, Hl2, Hf2. unfold state_ok in S6. destruct (state c); try done; tauto. }
  specialize (L7 Hr2). set (c' := localFinStep c2 now) in *. clearbody c'.
  assert (Hlast : pending_removal c' = true -> state c = LastAck /\ state c' = LastAck /\ pending c' = []).
  { intros Hr. apply L8 in Hr as [?|?]; [congruence|]. by rewrite <- Hst2. }
  split.
  - constructor; auto.
    + apply (receiver_ok_part R runs c); [congruence | done].
    + by apply (congestion_ok_part c2).
    + apply (rto_ok_part c1); [congruence | done].
    + apply (scale_ok_part c); [congruence | done].
    + destruct (pending_removal c') eqn:Er; [|auto]. by apply Hlast.
  - constructor; try congruence; try lia. intros Hr. apply Hlast in Hr. tauto.
Qed.

(** A connection was reset by an RST at the next expected byte. *)
Definition was_reset (c : Connection) (seg : TcpSegment) (res : TcpReceiveResult) (c' : Connection) : Prop :=
  rst (flags seg) = true /\ sequence_number seg = rcv_nxt c /\
  res = no_result <| connection_reset := true |> /\ c' = c <| pending_removal := true |>.

Lemma handleSynchronized_spec key R runs c seg pos now :
  sync_ok R runs c -> pending_removal c = false -> state c <> TimeWait -> segment_ok seg ->
  sequence_number seg = u32 pos -> seq_plausible R pos ->
  exists res c', handleSynchronized key c seg now = Some (res, c') /\
    (was_reset c seg res c' \/
     exists n c1 R' rest, acked c n c1 /\ received R runs c1 seg pos res R' rest c' /\
       (c' = c \/ (pending_removal c' = false -> driven c'))).
Proof.
  intros Hok Hrem Htw Hseg Hpos Hpl. unfold handleSynchronized.
  assert (Hnothing : forall res, accepted_payload res = [] -> peer_closed res = false ->
    connection_reset res = false -> connection_established res = false -> admission_rejected res = false ->
    exists n c1 R' rest, acked c n c1 /\ received R runs c1 seg pos res R' rest c /\
      (c = c \/ (pending_removal c = false -> driven c))).
  { intros res N1 N2 N3 N4 N5. exists 0, c, R, runs. split_and!; [by apply acked_refl | by apply received_nothing | by left]. }
  destruct (syn (flags seg)); [destruct (negb _); eexists _, c; (split; [reflexivity|]); right; by apply Hnothing|].
  destruct (parseTcpOptions_total (options seg)) as (r & -> & _). cbn [mbind option_bind].
  destruct r as [opts|]; [|eexists _, c; split; [reflexivity|]; right; by apply Hnothing].
  destruct (rst (flags seg)) eqn:Erst.
  { destruct (Z.eqb_spec (sequence_number seg) (rcv_nxt c)).
    - eexists _, _. split; [reflexivity|]. by left.
    - eexists _, c. split; [reflexivity|]. right. by apply Hnothing. }
  destruct (ack (flags seg)); cbn [negb]; [|eexists _, c; split; [reflexivity|]; right; by apply Hnothing].
  destruct (sequenceLessOrEqual _ _) eqn:Ele; cbn [negb];
    [|eexists _, c; split; [reflexivity|]; right; by apply Hnothing].
  destruct (processAck c seg (sack_blocks opts) now) as [[res changed] c1] eqn:E1.
  destruct (congestionStep key c1 seg res changed now) as [retransmit c2] eqn:E2.
  destruct (ackStages_spec key R runs c seg _ now _ _ _ _ _ Hok Hrem Htw Hseg Ele E1 E2) as [Hok' Hacked].
  destruct (empty (payload seg) && negb (fin (flags seg))).
  - destruct (finishPureAck_spec key R runs (localFinStep c2 now) seg pos retransmit now Hok') as (res' & c' & -> & Hr & _ & Hd & _).
    exists res', c'. split; [done|]. right.
    eexists _, _, _, _. split; [exact Hacked|]. split; [exact Hr | by right].
  - destruct (receiveSegment_spec key R runs (localFinStep c2 now) seg pos retransmit now Hok' Hseg Hpos Hpl)
      as (res' & R' & rest & c' & -> & Hr & Hd & _). exists res', c'. split; [done|]. right.
    eexists _, _, _, _. split; [exact Hacked|]. split; [exact Hr | by right].
Qed.

(** ** Opening a connection *)

(** Before establishment: one outstanding SYN, nothing buffered. *)
Record opening_ok (c : Connection) : Prop := {
  op_isn : is_u32 (local_isn c);
  op_pending : exists e, pending c = [e] /\ is_syn e = true /\ entry_ok e /\ sequence_start e = local_isn c;
  op_empty : unsent c = [] /\ out_of_order c = [] /\ pending_fin_seq c = None /\ local_fin_seq c = None;
  op_flags : pending_removal c = false /\ close_requested c = false;
  op_rto : rto_ok c;
  op_cong : ssthresh c = kInitialSsthresh /\ congestion_avoidance_acked_bytes c = 0 /\ in_fast_recovery c = false
}.

Record syn_sent_ok (c : Connection) : Prop := {
  ss_state : state c = SynSent;
  ss_opening : opening_ok c;
  ss_seq : snd_una c = local_isn c /\ snd_nxt c = u32 (local_isn c + 1);
  ss_scale : window_scaling_enabled c = false /\ local_window_scale c = 0 /\ peer_window_scale c = 0
}.

Record syn_received_ok (c : Connection) : Prop := {
  sr_state : state c = SynReceived;
  sr_opening : opening_ok c;
  sr_remote : is_u32 (remote_isn c);
  sr_cong : congestion_ok c;
  sr_scale : scale_ok c
}.

(** The acknowledgement of the SYN empties the queue. *)
Lemma syn_retired c now res c' :
  opening_ok c -> snd_una c = local_isn c -> retireAcknowledged c (u32 (local_isn c + 1)) now = (res, c') ->
  snd_una c' = u32 (local_isn c + 1) /\ pending c' = [] /\ ack_advanced res = true.
Proof.
  intros [Hi (e & Hp & Hsyn & He & Hs) _ _ _ _] Hu Hr.
  assert (Hg : sequenceGreater (u32 (local_isn c + 1)) (snd_una c) = true).
  { rewrite Hu. replace (local_isn c) with (u32 (local_isn c)) at 2 by (by apply u32_id). rewrite sequenceGreater_abs by lia. apply Z.ltb_lt. lia. }
  destruct (retireAcknowledged_frame _ _ _ _ _ Hr Hg) as (l & s & v & o & h & -> & Hm & _ & ->).
  assert (Hlen : seq_len e = 1).
  { pose proof (eo_kind _ He) as Hk. rewrite Hsyn in Hk. destruct Hk as [E1 E2].
    unfold seq_len. by rewrite Hsyn, E1, E2. }
  rewrite Hp, retire_loop_cons, (sequenceEnd_pos e (local_isn c)), Hlen in Hm by (by rewrite u32_id).
  rewrite sequenceLessOrEqual_abs, Z.leb_refl in Hm by lia. simpl in Hm. inversion Hm. subst. done.
Qed.

Lemma fresh_sender_ok c :
  pending c = [] -> unsent c = [] -> local_fin_seq c = None -> snd_nxt c = snd_una c -> is_u32 (snd_una c) ->
  0 <= snd_wnd c < 2 ^ 30 -> sender_ok c.
Proof.
  intros H1 H2 H3 H4 H5 H6. constructor; rewrite ?H1, ?H2, ?H3, ?H4; auto; try done.
  - simpl. rewrite Z.add_0_r. symmetry. by apply u32_id.
  - constructor.
Qed.

Lemma negotiate_spec c opts : options_ok opts ->
  ssthresh c = kInitialSsthresh -> congestion_avoidance_acked_bytes c = 0 -> in_fast_recovery c = false ->
  window_scaling_enabled c = false -> local_window_scale c = 0 -> peer_window_scale c = 0 ->
  let c' := negotiate c opts in
  congestion_ok c' /\ scale_ok c' /\ send_part c' = send_part c /\ recv_part c' = recv_part c /\
  ctl_part c' = ctl_part c /\ current_rto c' = current_rto c /\ close_requested c' = close_requested c /\
  (local_isn c', remote_isn c', remote_isn_known c') = (local_isn c, remote_isn c, remote_isn_known c) /\
  (ssthresh c', congestion_avoidance_acked_bytes c', in_fast_recovery c') =
    (ssthresh c, congestion_avoidance_acked_bytes c, in_fast_recovery c).
Proof.
  intros (Hmss & Hws & _) H1 H2 H3 H4 H5 H6. unfold negotiate.
  set (m := default kDefaultPeerMss (maximum_segment_size opts)).
  assert (Hm : 1 <= m < 2 ^ 16).
  { unfold m. destruct (maximum_segment_size opts) as [v|]; simpl; [by apply Hmss | consts; lia]. }
  assert (Hs : 1 <= Z.min kTcpMss m <= kTcpMss) by (consts; lia).
  pose proof (initialCongestionWindow_ok _ Hs).
  destruct (window_scale opts) as [sh|] eqn:Ew; simpl; (split; [|split; [|done]]);
    try (unfold congestion_ok, congestion_vars_ok; simpl; rewrite H1, H2, H3; consts; split_and!; lia || done).
  - split; [done|]. simpl. specialize (Hws sh eq_refl). unfold is_u8 in Hws. consts. lia.
  - split; simpl; [by rewrite H4, H5 | rewrite H6; consts; lia].
Qed.

(** Nothing was sent or received after the SYNs. *)
Definition untouched (isn : Z) (c : Connection) : Prop :=
  snd_una c = u32 (isn + 1) /\ pending c = [] /\ unsent c = [] /\ pending_fin_seq c = None /\ close_requested c = false.

(** Both open paths end in a connection that satisfies the invariant. *)
Lemma established_ok c now res c' wnd l1 l2 R :
  opening_ok c -> congestion_ok c -> scale_ok c -> snd_una c = local_isn c -> snd_nxt c = u32 (local_isn c + 1) ->
  state c = Established -> rcv_nxt c = u32 R -> 0 <= wnd < 2 ^ 30 ->
  retireAcknowledged c (u32 (local_isn c + 1)) now = (res, c') ->
  sync_ok R [] (c' <| snd_wnd := wnd |> <| snd_wl1 := l1 |> <| snd_wl2 := l2 |>) /\ owned c' = [] /\
  nego_part c' = nego_part c /\ recv_part c' = recv_part c /\ ctl_part c' = ctl_part c /\ snd_nxt c' = snd_nxt c /\
  untouched (local_isn c) c'.
Proof.
  intros Hop Hc Hsc Hu Hn Hst Hr Hw E. destruct (syn_retired _ _ _ _ Hop Hu E) as (Q1 & Q2 & _).
  destruct Hop as [O1 O2 (O3 & O4 & O5 & O6) (O7 & O8) O9 O10].
  destruct (retireAcknowledged_parts _ _ _ _ _ E O9) as (P1 & P2 & P3 & P4 & P5 & P6 & P7 & P8 & P9 & P10).
  assert (Hp : rcv_nxt c' = u32 R /\ out_of_order c' = [] /\ pending_fin_seq c' = None)
    by (unfold recv_part in P2; split_and!; congruence).
  assert (Hst' : state c' = Established /\ pending_removal c' = false) by (unfold ctl_part in P5; split; congruence).
  destruct Hp as (Hp1 & Hp2 & Hp3), Hst' as [Hs1 Hs2]. split_and!; auto.
  2: { unfold owned. by rewrite Q2, P8, O3. }
  2: { unfold untouched. rewrite P8, O3. split_and!; try done. unfold ctl_part in P5. congruence. }
  constructor; auto.
  - apply fresh_sender_ok; simpl; try congruence. rewrite Q1. apply u32_range.
  - by constructor.
  - by apply (congestion_ok_part c).
  - by apply (scale_ok_part c).
  - simpl. rewrite Hs2. unfold state_ok. simpl. rewrite Hs1. congruence.
Qed.

Lemma opening_ok_part c c' : opening_ok c -> local_isn c' = local_isn c -> pending c' = pending c ->
  (unsent c', out_of_order c', pending_fin_seq c', local_fin_seq c') =
    (unsent c, out_of_order c, pending_fin_seq c, local_fin_seq c) ->
  (pending_removal c', close_requested c') = (pending_removal c, close_requested c) ->
  current_rto c' = current_rto c ->
  (ssthresh c', congestion_avoidance_acked_bytes c', in_fast_recovery c') =
    (ssthresh c, congestion_avoidance_acked_bytes c, in_fast_recovery c) -> opening_ok c'.
Proof.
  intros [] H1 H2 [= H3 H4 H5 H6] [= H7 H8] H9 [= H10 H11 H12].
  constructor; rewrite ?H1, ?H2, ?H3, ?H4, ?H5, ?H6, ?H7, ?H8, ?H10, ?H11, ?H12; auto. by apply (rto_ok_part c).
Qed.

(** The SYN-ACK that completes an active open. *)
Definition completes_open (c : Connection) (seg : TcpSegment) : Prop :=
  syn (flags seg) = true /\ ack (flags seg) = true /\ rst (flags seg) = false /\ fin (flags seg) = false /\
  payload seg = [] /\ acknowledgment_number seg = snd_nxt c.

Lemma handleSynSent_spec key c seg now :
  syn_sent_ok c -> segment_ok seg ->
  exists res c', handleSynSent key c seg now = Some (res, c') /\
    ((res = no_result /\ c' = c) \/
     (connection_reset res = true /\ c' = c <| pending_removal := true |> /\ rst (flags seg) = true /\
      ack (flags seg) = true /\ acknowledgment_number seg = snd_nxt c) \/
     (completes_open c seg /\ connection_established res = true /\ connection_reset res = false /\
      accepted_payload res = [] /\ state c' = Established /\ pending_removal c' = false /\
      sync_ok (sequence_number seg + 1) [] c' /\ owned c' = [] /\
      exists a, reply res = Some a /\ acknowledgment_number a = u32 (sequence_number seg + 1) /\
        sequence_number a = snd_nxt c /\ flags a = no_flags <| ack := true |> /\ payload a = [] /\
        res = no_result <| reply := Some a |> <| connection_established := true |> /\ untouched (local_isn c) c')).
Proof.
  intros [Hst Hop (Hu & Hn) (W1 & W2 & W3)] Hseg. unfold handleSynSent.
  destruct (parseTcpOptions_total (options seg)) as (r & -> & Hopt). cbn [mbind option_bind].
  specialize (Hopt (sg_options _ Hseg)).
  destruct r as [opts|]; [|eexists _, _; split; [reflexivity|]; by left].
  destruct (rst (flags seg)) eqn:Er.
  { destruct (ack (flags seg) && _) eqn:Ea; eexists _, _; (split; [reflexivity|]); [|by left].
    bprop. right; left. done. }
  destruct (syn (flags seg)) eqn:Es; cbn [negb]; [|eexists _, _; split; [reflexivity|]; by left].
  destruct (ack (flags seg)) eqn:Ea; cbn [negb]; [|eexists _, _; split; [reflexivity|]; by left].
  destruct (fin (flags seg) || negb (empty (payload seg))) eqn:Ef; [eexists _, _; split; [reflexivity|]; by left|].
  destruct (Z.eqb_spec (acknowledgment_number seg) (snd_nxt c)) as [En|En]; cbn [negb];
    [|eexists _, _; split; [reflexivity|]; by left].
  set (c0 := c <| remote_isn := _ |> <| remote_isn_known := _ |> <| rcv_nxt := _ |>).
  destruct (negotiate_spec c0 opts Hopt) as (G1 & G2 & G3 & G4 & G5 & G6 & G7 & G8 & G9); try apply Hop; auto.
  set (c1 := (negotiate c0 opts) <| state := Established |>).
  assert (Hop1 : opening_ok c1).
  { unfold send_part, recv_part, ctl_part in *. apply (opening_ok_part c); auto; simpl; simplify_eq/=; congruence. }
  assert (Hi : local_isn c1 = local_isn c) by (simpl; by simplify_eq/=).
  destruct (retireAcknowledged c1 (acknowledgment_number seg) now) as [rr c2] eqn:E2.
  assert (E2' : retireAcknowledged c1 (u32 (local_isn c1 + 1)) now = (rr, c2)) by (by rewrite Hi, <- Hn, <- En).
  destruct (established_ok c1 now rr c2 (window_size seg) (sequence_number seg) (acknowledgment_number seg)
    (sequence_number seg + 1)) as (K1 & K2 & K3 & K4 & K5 & K6 & K7); auto.
  - rewrite Hi, <- Hu. simpl. unfold send_part in G3. simpl in G3. congruence.
  - rewrite Hi, <- Hn. simpl. unfold send_part in G3. simpl in G3. congruence.
  - simpl. unfold recv_part in G4. simpl in G4. congruence.
  - pose proof (sg_window _ Hseg). ulia.
  - eexists _, _. split; [reflexivity|]. right; right. bprop. destruct (payload seg) eqn:Epay; [|done].
    assert (Hr : rcv_nxt c2 = u32 (sequence_number seg + 1))
      by (unfold recv_part in *; simpl in *; congruence).
    assert (Hst2 : state c2 = Established /\ pending_removal c2 = false).
    { unfold ctl_part in *. simpl in *. pose proof (proj1 (op_flags _ Hop)). split; congruence. }
    assert (Hn2 : snd_nxt c2 = snd_nxt c) by (unfold send_part in G3; simpl in *; congruence).
    unfold completes_open. split_and!; try done; try apply Hst2.
    eexists. split; [reflexivity|]. simpl. rewrite <- Hi. done.
Qed.

Lemma handleTimeWait_spec key R runs c seg now res c' :
  sync_ok R runs c -> pending_removal c = false -> state c = TimeWait -> handleTimeWait key c seg now = (res, c') ->
  accepted_payload res = [] /\ connection_reset res = false /\ peer_closed res = false /\
  connection_established res = false /\
  ((pending_removal c' = true /\ rst (flags seg) = true /\ sequence_number seg = rcv_nxt c) \/
   (sync_ok R runs c' /\ pending_removal c' = false /\ state c' = TimeWait /\ owned c' = owned c)).
Proof.
  intros Hok Hr Hst. unfold handleTimeWait.
  assert (Hsame : sync_ok R runs c /\ pending_removal c = false /\ state c = TimeWait /\ owned c = owned c) by done.
  destruct (rst (flags seg)).
  { destruct (Z.eqb_spec (sequence_number seg) (rcv_nxt c)); intros [= <- <-]; split_and!; auto. }
  destruct (syn (flags seg) || _); [intros [= <- <-]; split_and!; auto|].
  destruct (fin (flags seg) && _); intros [= <- <-]; split_and!; auto. right. split_and!; auto.
  destruct Hok as [S1 S2 S3 S4 S5 S6]. constructor; auto.
  - by apply (sender_ok_part c).
  - by apply (receiver_ok_part R runs c).
  - simpl. rewrite Hr in *. unfold state_ok in *. simpl. rewrite Hst in *. tauto.
Qed.
