(* ===== verification/TcpTable.v ===== *)
(** * The connection table ([TcpConnectionTable],
    [src/src/tcp_connection.cpp], lines 78-107, 487-534 and 1296-1762)

    The public operations: segment dispatch, active and passive open,
    application send and close, the two timer polls with their deadlines,
    and the queries. The initial-sequence-number generator is a callback the
    constructor receives; an operation that may draw a number takes the value
    the callback would return as an argument. *)

From S2P Require Import Prelude StdMap Addresses Tcp SeqNum TcpState TcpCongestion.
From S2P Require Import TcpSegments TcpSender TcpReceiver TcpHandler.

Record TcpConnectionTable := mkTable {
  listen_port : Z;
  max_connections : Z;
  max_half_open_connections : Z;
  last_isn : option Z;
  connections : list (TcpConnectionKey * Connection)
}.

#[export] Instance eta_TcpConnectionTable : Eta TcpConnectionTable := fun t =>
  mkTable (listen_port t) (max_connections t) (max_half_open_connections t) (last_isn t) (connections t).

Definition new_table (port connections_limit half_open_limit : Z) : TcpConnectionTable :=
  mkTable port connections_limit half_open_limit None [].

Definition half_open (c : Connection) : bool := state_eqb (state c) SynSent || state_eqb (state c) SynReceived.

Definition halfOpenCount (t : TcpConnectionTable) : Z :=
  foldl (fun count p => if half_open (snd p) then count + 1 else count) 0 (connections t).

(** [generated] is what [isn_generator_()] returns. *)
Definition nextIsn (t : TcpConnectionTable) (generated : option Z) : option Z * TcpConnectionTable :=
  match generated with
  | None => (None, t)
  | Some isn =>
      if bool_decide (last_isn t = Some isn) then (None, t) else (Some isn, t <| last_isn := Some isn |>)
  end.

Definition set_connection (t : TcpConnectionTable) (key : TcpConnectionKey) (c : Connection) : TcpConnectionTable :=
  t <| connections := map_set (connections t) key c |>.
Definition erase_connection (t : TcpConnectionTable) (key : TcpConnectionKey) : TcpConnectionTable :=
  t <| connections := map_erase (connections t) key |>.

(** [if (connection.pending_removal) connections_.erase(it)]. *)
Definition update_connection (t : TcpConnectionTable) (key : TcpConnectionKey) (c : Connection) :
    TcpConnectionTable :=
  if pending_removal c then erase_connection t key else set_connection t key c.

Definition at_capacity (t : TcpConnectionTable) : bool :=
  (max_connections t <=? Zlen (connections t)) || (max_half_open_connections t <=? halfOpenCount t).

(** ** Active open *)

Definition beginConnect (t : TcpConnectionTable) (key : TcpConnectionKey) (now : Z) (generated : option Z) :
    TcpConnectResult * TcpConnectionTable :=
  let failed e := mkConnectResult false None (Some e) in
  if (local_port key =? 0) || (remote_port key =? 0) then (failed InvalidPort, t) else
  if map_contains (connections t) key then (failed DuplicateConnection, t) else
  if at_capacity t then (failed CapacityExhausted, t) else
  let '(isn, t) := nextIsn t generated in
  match isn with
  | None => (failed RandomnessUnavailable, t)
  | Some isn =>
      let connection := (new_connection SynSent isn) <| remote_isn_known := false |>
                          <| snd_una := isn |> <| snd_nxt := u32 (isn + 1) |> in
      let segment := makeActiveSyn key connection in
      let entry := (new_pending isn (flags segment) now (current_rto connection))
                     <| is_syn := true |> <| is_active_syn := true |> in
      (mkConnectResult true (Some segment) None,
       set_connection t key (connection <| pending := [entry] |>))
  end.

(** ** Segment dispatch *)

(** A segment for which no connection exists. *)
Definition handleUnknown (t : TcpConnectionTable) (key : TcpConnectionKey) (segment : TcpSegment) (now : Z)
    (generated : option Z) : option (TcpReceiveResult * TcpConnectionTable) :=
  let reset := no_result <| reply := Some (makeClosedPortReset segment) |> in
  if negb (local_port key =? listen_port t) then
    if rst (flags segment) then Some (no_result, t) else Some (reset, t)
  else if rst (flags segment) then Some (no_result, t)
  else if negb (syn (flags segment)) || ack (flags segment) then Some (reset, t)
  else
    parsed ← parseTcpOptions (options segment);
    match parsed with
    | inr _ => Some (no_result, t)
    | inl opts =>
        if negb (empty (sack_blocks opts)) then Some (no_result, t) else
        if at_capacity t then Some (no_result <| admission_rejected := true |>, t) else
        let '(isn, t) := nextIsn t generated in
        match isn with
        | None => Some (no_result, t)
        | Some isn =>
            let connection := (new_connection SynReceived isn) <| remote_isn := sequence_number segment |> in
            let connection := negotiate connection opts in
            let syn_ack := makeSynAck key connection in
            let entry := (new_pending isn (flags syn_ack) now (current_rto connection)) <| is_syn := true |> in
            Some (no_result <| reply := Some syn_ack |>,
                  set_connection t key (connection <| pending := [entry] |>))
        end
    end.

Definition rearm_front (now : Z) (entries : list PendingTransmission) : list PendingTransmission :=
  match entries with
  | entry :: rest => entry <| last_sent_at := now |> :: rest
  | [] => []
  end.

Definition handleSynReceived (t : TcpConnectionTable) (key : TcpConnectionKey) (connection : Connection)
    (segment : TcpSegment) (now : Z) : TcpReceiveResult * TcpConnectionTable :=
  if rst (flags segment) then
    if sequence_number segment =? u32 (remote_isn connection + 1)
    then (no_result, erase_connection t key) else (no_result, t)
  else if syn (flags segment) && negb (ack (flags segment)) then
    if sequence_number segment =? remote_isn connection then
      let connection := connection <| pending := rearm_front now (pending connection) |> in
      (no_result <| reply := Some (makeSynAck key connection) |>, set_connection t key connection)
    else (no_result, t)
  else if ack (flags segment) && negb (syn (flags segment)) then
    if (acknowledgment_number segment =? u32 (local_isn connection + 1)) &&
       (sequence_number segment =? u32 (remote_isn connection + 1)) then
      let connection := connection <| state := Established |>
                                   <| rcv_nxt := u32 (remote_isn connection + 1) |>
                                   <| snd_una := local_isn connection |>
                                   <| snd_nxt := u32 (local_isn connection + 1) |> in
      let '(_, connection) := retireAcknowledged connection (u32 (local_isn connection + 1)) now in
      let connection := connection <| snd_wnd := decodePeerWindow connection (window_size segment) |>
                                   <| snd_wl1 := sequence_number segment |>
                                   <| snd_wl2 := acknowledgment_number segment |> in
      (no_result, set_connection t key connection)
    else (no_result, t)
  else (no_result, t).

Definition handle (t : TcpConnectionTable) (key : TcpConnectionKey) (segment : TcpSegment) (now : Z)
    (generated : option Z) : option (TcpReceiveResult * TcpConnectionTable) :=
  match map_find (connections t) key with
  | None => handleUnknown t key segment now generated
  | Some connection =>
      match state connection with
      | TimeWait =>
          let '(result, connection) := handleTimeWait key connection segment now in
          Some (result, update_connection t key connection)
      | SynSent =>
          '(result, connection) ← handleSynSent key connection segment now;
          Some (result, update_connection t key connection)
      | SynReceived => Some (handleSynReceived t key connection segment now)
      | _ =>
          '(result, connection) ← handleSynchronized key connection segment now;
          Some (result, update_connection t key connection)
      end
  end.

(** ** Queries *)

Definition stateOf (t : TcpConnectionTable) (key : TcpConnectionKey) : option TcpState :=
  option_map state (map_find (connections t) key).

Record TcpConnectionSnapshot := mkSnapshot {
  sn_state : TcpState; sn_rcv_nxt : Z; sn_snd_una : Z; sn_snd_nxt : Z; sn_pending_count : Z; sn_snd_wnd : Z;
  sn_reassembly_fragment_count : Z; sn_reassembly_buffered_bytes : Z; sn_advertised_window : Z;
  sn_peer_mss : Z; sn_effective_send_mss : Z; sn_peer_window_scale : Z; sn_local_window_scale : Z;
  sn_window_scaling_enabled : bool; sn_has_rtt_sample : bool; sn_srtt : Z; sn_rttvar : Z; sn_current_rto : Z;
  sn_cwnd : Z; sn_ssthresh : Z; sn_duplicate_ack_count : Z; sn_in_fast_recovery : bool; sn_recovery_point : Z;
  sn_congestion_avoidance_acked_bytes : Z; sn_sack_permitted : bool; sn_sacked_pending_count : Z;
  sn_recovery_retransmitted_count : Z; sn_unsent_bytes : Z; sn_owned_bytes : Z; sn_close_requested : bool;
  sn_persist_armed : bool; sn_persist_deadline : option Z
}.

Definition count_entries (f : PendingTransmission -> bool) (l : list PendingTransmission) : Z :=
  foldl (fun n entry => if f entry then n + 1 else n) 0 l.

Definition snapshotOf (t : TcpConnectionTable) (key : TcpConnectionKey) : option TcpConnectionSnapshot :=
  match map_find (connections t) key with
  | None => None
  | Some c => Some {|
      sn_state := state c; sn_rcv_nxt := rcv_nxt c; sn_snd_una := snd_una c; sn_snd_nxt := snd_nxt c;
      sn_pending_count := Zlen (pending c); sn_snd_wnd := snd_wnd c;
      sn_reassembly_fragment_count := Zlen (out_of_order c);
      sn_reassembly_buffered_bytes := bufferedReceiveBytes c;
      sn_advertised_window := advertisedWindowFor c (window_scaling_enabled c);
      sn_peer_mss := peer_mss c; sn_effective_send_mss := effective_send_mss c;
      sn_peer_window_scale := peer_window_scale c; sn_local_window_scale := local_window_scale c;
      sn_window_scaling_enabled := window_scaling_enabled c; sn_has_rtt_sample := has_rtt_sample c;
      sn_srtt := srtt c; sn_rttvar := rttvar c; sn_current_rto := current_rto c; sn_cwnd := cwnd c;
      sn_ssthresh := ssthresh c; sn_duplicate_ack_count := duplicate_ack_count c;
      sn_in_fast_recovery := in_fast_recovery c; sn_recovery_point := recovery_point c;
      sn_congestion_avoidance_acked_bytes := congestion_avoidance_acked_bytes c;
      sn_sack_permitted := sack_permitted c; sn_sacked_pending_count := count_entries sacked (pending c);
      sn_recovery_retransmitted_count := count_entries retransmitted_in_recovery (pending c);
      sn_unsent_bytes := Zlen (unsent c); sn_owned_bytes := appOwnedBytes c;
      sn_close_requested := close_requested c; sn_persist_armed := has_value (persist_deadline c);
      sn_persist_deadline := persist_deadline c |}
  end.

(** ** Application operations *)

Definition makeOutgoingData (t : TcpConnectionTable) (key : TcpConnectionKey) (payload : list Z) (now : Z) :
    TcpSendResult * TcpConnectionTable :=
  let failed e := mkSendResult [] 0 (Some e) in
  if empty payload then (failed EmptyPayload, t) else
  if kMaxApplicationSendSize <? Zlen payload then (failed SendTooLarge, t) else
  match map_find (connections t) key with
  | None => (failed NotSendable, t)
  | Some connection =>
      if negb (state_eqb (state connection) Established) && negb (state_eqb (state connection) CloseWait)
      then (failed NotSendable, t) else
      if close_requested connection then (failed NotSendable, t) else
      let owned := appOwnedBytes connection in
      let remaining_capacity := if kTcpSendBufferCapacity <=? owned then 0 else kTcpSendBufferCapacity - owned in
      if remaining_capacity <? Zlen payload then (failed BufferFull, t) else
      let connection := connection <| unsent := unsent connection ++ payload |> in
      let '(segments, connection) := scheduleQueuedData key connection now in
      (mkSendResult segments (Zlen payload) None, set_connection t key connection)
  end.

Definition beginClose (t : TcpConnectionTable) (key : TcpConnectionKey) (now : Z) :
    TcpCloseResult * TcpConnectionTable :=
  match map_find (connections t) key with
  | None => (mkCloseResult false None, t)
  | Some connection =>
      if negb (state_eqb (state connection) Established) && negb (state_eqb (state connection) CloseWait)
      then (mkCloseResult false None, t) else
      let connection := connection <| close_requested := true |> in
      let '(segments, connection) := maybeSequenceFin key connection now in
      let connection := updatePersistState connection now in
      (mkCloseResult true (head segments), set_connection t key connection)
  end.

(** ** Timers *)

(** A one-byte window probe, when one is due. *)
Definition persistProbe (key : TcpConnectionKey) (connection : Connection) (now : Z) :
    option TcpSegment * Connection :=
  match persist_deadline connection with
  | None => (None, connection)
  | Some deadline =>
      if now <? deadline then (None, connection) else
      if negb (persistEligible connection) then (None, connection <| persist_deadline := None |>) else
      let segment := {| source_port := local_port key; destination_port := remote_port key;
        sequence_number := u32 (snd_nxt connection - 1); acknowledgment_number := rcv_nxt connection;
        flags := no_flags <| ack := true |>;
        window_size := advertisedWindowFor connection (window_scaling_enabled connection);
        urgent_pointer := 0; options := []; payload := take 1 (unsent connection) |} in
      let interval := Z.min (persist_interval connection * 2) kMaxPersistInterval in
      (Some segment, connection <| persist_interval := interval |>
                                <| persist_deadline := Some (now + interval) |>)
  end.

Fixpoint pollPersist_loop (now : Z) (l : list (TcpConnectionKey * Connection)) :
    list (TcpConnectionKey * TcpSegment) * list (TcpConnectionKey * Connection) :=
  match l with
  | [] => ([], [])
  | (key, connection) :: l =>
      let '(probe, connection) := persistProbe key connection now in
      let '(probes, l) := pollPersist_loop now l in
      (match probe with Some segment => (key, segment) :: probes | None => probes end, (key, connection) :: l)
  end.

Definition pollPersistProbes (t : TcpConnectionTable) (now : Z) :
    list (TcpConnectionKey * TcpSegment) * TcpConnectionTable :=
  let '(probes, l) := pollPersist_loop now (connections t) in (probes, t <| connections := l |>).

Definition nextPersistDeadline (t : TcpConnectionTable) : option Z :=
  earliestDeadline (map (fun p => persist_deadline (snd p)) (connections t)).

(** The retransmission of the oldest entry. *)
Definition timeoutSegment (key : TcpConnectionKey) (connection : Connection) (oldest : PendingTransmission) :
    TcpSegment :=
  {| source_port := local_port key; destination_port := remote_port key;
     sequence_number := sequence_start oldest;
     acknowledgment_number := if is_active_syn oldest then 0
       else if is_syn oldest then u32 (remote_isn connection + 1) else rcv_nxt connection;
     flags := p_flags oldest;
     window_size := advertisedWindowFor connection (negb (is_syn oldest) && window_scaling_enabled connection);
     urgent_pointer := 0;
     options := if is_active_syn oldest then buildActiveSynOptions
       else if is_syn oldest then buildSynAckOptions connection else [];
     payload := p_payload oldest |}.

Inductive poll_outcome :=
| Idle | Retransmitted (segment : TcpSegment) (connection : Connection) | TimedOut | TimeWaitExpired.

Definition pollConnection (key : TcpConnectionKey) (connection : Connection) (now : Z) : poll_outcome :=
  if state_eqb (state connection) TimeWait then
    match time_wait_deadline connection with
    | Some deadline => if deadline <=? now then TimeWaitExpired else Idle
    | None => Idle
    end
  else
  match pending connection with
  | [] => Idle
  | oldest :: _ =>
      if now <? last_sent_at oldest + timeout_interval oldest then Idle else
      if kMaxRetransmits <=? timeout_retransmit_count oldest then TimedOut else
      let connection := if negb (is_syn oldest) && negb (is_fin oldest)
        then applyTimeoutCongestionCollapse connection else connection in
      match pending connection with
      | [] => Idle (* not reached: the collapse only clears marks *)
      | oldest :: rest =>
          let segment := timeoutSegment key connection oldest in
          let oldest := oldest <| timeout_retransmit_count := timeout_retransmit_count oldest + 1 |>
                               <| was_retransmitted := true |> <| last_sent_at := now |>
                               <| timeout_interval := Z.min (timeout_interval oldest * 2) kMaxRto |> in
          let connection := connection <| pending := oldest :: rest |> in
          Retransmitted segment
            (connection <| current_rto := Z.max (current_rto connection) (timeout_interval oldest) |>)
      end
  end.

Fixpoint pollRetransmissions_loop (now : Z) (l : list (TcpConnectionKey * Connection)) :
    TcpTimeoutPollResult * list (TcpConnectionKey * Connection) :=
  match l with
  | [] => (mkTimeoutPoll [] [] [], [])
  | (key, connection) :: l =>
      let '(result, l) := pollRetransmissions_loop now l in
      match pollConnection key connection now with
      | Idle => (result, (key, connection) :: l)
      | Retransmitted segment connection =>
          (mkTimeoutPoll ((key, segment) :: retransmissions result) (timed_out result) (time_wait_expired result),
           (key, connection) :: l)
      | TimedOut =>
          (mkTimeoutPoll (retransmissions result) (key :: timed_out result) (time_wait_expired result), l)
      | TimeWaitExpired =>
          (mkTimeoutPoll (retransmissions result) (timed_out result) (key :: time_wait_expired result), l)
      end
  end.

Definition pollRetransmissions (t : TcpConnectionTable) (now : Z) : TcpTimeoutPollResult * TcpConnectionTable :=
  let '(result, l) := pollRetransmissions_loop now (connections t) in (result, t <| connections := l |>).

Definition connectionDeadline (connection : Connection) : option Z :=
  if state_eqb (state connection) TimeWait then time_wait_deadline connection
  else match pending connection with
       | oldest :: _ => Some (last_sent_at oldest + timeout_interval oldest)
       | [] => None
       end.

Definition nextRetransmissionDeadline (t : TcpConnectionTable) : option Z :=
  earliestDeadline (map (fun p => connectionDeadline (snd p)) (connections t)).
