(* ===== verification/TcpInvariant.v ===== *)
(** * The table invariant

    Every operation of the connection table keeps every connection well
    formed and the table inside its limits, for every segment whose sequence
    number lies within half of the sequence space (less the window) of the
    connection's next expected byte. A step relation collects the operations;
    the invariant holds in every reachable table. *)

From S2P Require Import Prelude StdMap Addresses Tcp SeqNum TcpState TcpCongestion.
From S2P Require Import TcpSegments TcpSender TcpReceiver TcpHandler TcpTable.

Definition conn_ok (c : Connection) : Prop :=
  syn_sent_ok c \/ syn_received_ok c \/
  (pending_removal c = false /\ exists R runs, sync_ok R runs c).

Record table_ok (t : TcpConnectionTable) : Prop := {
  tk_map : map_ok (connections t);
  tk_conns : Forall (fun p => conn_ok (snd p)) (connections t);
  tk_size : Zlen (connections t) <= Z.max 0 (max_connections t);
  tk_half : halfOpenCount t <= Z.max 0 (max_half_open_connections t)
}.

(** ** Updating the table *)

Definition ho (c : Connection) : Z := if half_open c then 1 else 0.

Lemma ho_range c : 0 <= ho c <= 1.
Proof. unfold ho. destruct (half_open c); lia. Qed.

Lemma halfOpenCount_eq t : halfOpenCount t = map_weight ho (connections t).
Proof.
  unfold halfOpenCount, map_weight, ho. assert (H : forall l n,
    foldl (fun count p => if half_open (@snd TcpConnectionKey Connection p) then count + 1 else count) n l =
    n + foldr (fun p n => (if half_open p.2 then 1 else 0) + n) 0 l).
  { induction l as [|p l IH]; intros n; simpl; [lia|]. rewrite IH. destruct (half_open (snd p)); lia. }
  rewrite H. lia.
Qed.

Section Update.
Context (t : TcpConnectionTable) (Ht : table_ok t).

Lemma table_find key c : map_find (connections t) key = Some c -> conn_ok c.
Proof. intros H. apply (map_find_Forall _ _ _ _ (tk_conns _ Ht) H). Qed.

(** Replacing a connection by one that is no more half-open. *)
Lemma table_ok_replace key c c' : map_find (connections t) key = Some c -> conn_ok c' -> ho c' <= ho c ->
  table_ok (set_connection t key c').
Proof.
  intros Hf Hc Hh. destruct Ht as [T1 T2 T3 T4]. rewrite halfOpenCount_eq in T4. constructor.
  - by apply map_set_ok.
  - by apply Forall_map_set.
  - simpl. rewrite <- map_weight_length, map_weight_set, map_weight_length by done.
    unfold weight_at. rewrite Hf. lia.
  - rewrite halfOpenCount_eq. simpl. rewrite map_weight_set by done. unfold weight_at. rewrite Hf. lia.
Qed.

Lemma table_ok_erase key : table_ok (erase_connection t key).
Proof.
  destruct Ht as [T1 T2 T3 T4]. rewrite halfOpenCount_eq in T4. constructor.
  - by apply map_erase_ok.
  - by apply Forall_map_erase.
  - simpl. pose proof (length_map_erase (connections t) key). unfold Zlen in *. lia.
  - rewrite halfOpenCount_eq. simpl. rewrite map_weight_erase. unfold weight_at.
    destruct (map_find _ _) as [c|]; [pose proof (ho_range c)|]; lia.
Qed.

Lemma table_ok_update key c c' : map_find (connections t) key = Some c ->
  (pending_removal c' = false -> conn_ok c' /\ ho c' <= ho c) -> table_ok (update_connection t key c').
Proof.
  intros Hf Hc. unfold update_connection. destruct (pending_removal c'); [apply table_ok_erase|].
  destruct (Hc eq_refl). by apply (table_ok_replace key c).
Qed.

(** Adding a connection below the limits. *)
Lemma table_ok_add key c : map_find (connections t) key = None -> at_capacity t = false -> conn_ok c ->
  table_ok (set_connection t key c).
Proof.
  intros Hf Hcap Hc. unfold at_capacity in Hcap. bprop. destruct Ht as [T1 T2 T3 T4]. pose proof (ho_range c).
  rewrite halfOpenCount_eq in *. constructor.
  - by apply map_set_ok.
  - by apply Forall_map_set.
  - simpl. rewrite <- map_weight_length, map_weight_set, map_weight_length by done.
    unfold weight_at. rewrite Hf. lia.
  - rewrite halfOpenCount_eq. simpl. rewrite map_weight_set by done. unfold weight_at. rewrite Hf. lia.
Qed.
End Update.

Lemma nextIsn_frame t g isn t' : nextIsn t g = (isn, t') ->
  connections t' = connections t /\ max_connections t' = max_connections t /\
  max_half_open_connections t' = max_half_open_connections t /\ listen_port t' = listen_port t /\
  (isn = None -> t' = t) /\ (forall v, isn = Some v -> g = Some v).
Proof.
  unfold nextIsn. destruct g as [v|]; [|intros [= <- <-]; done].
  destruct (bool_decide _); intros [= <- <-]; split_and!; done.
Qed.

Lemma table_ok_same t t' : connections t' = connections t -> max_connections t' = max_connections t ->
  max_half_open_connections t' = max_half_open_connections t -> table_ok t -> table_ok t'.
Proof.
  intros H1 H2 H3 []. constructor; rewrite ?H1, ?H2, ?H3; auto. unfold halfOpenCount in *. by rewrite H1.
Qed.

(** ** Opening *)

Definition isn_ok (g : option Z) : Prop := forall v, g = Some v -> is_u32 v.

Lemma opening_entry_ok seq f now : entry_ok ((new_pending seq f now kInitialRto) <| is_syn := true |>) /\
  entry_ok ((new_pending seq f now kInitialRto) <| is_syn := true |> <| is_active_syn := true |>).
Proof. split; constructor; simpl; try done; try constructor; try (consts; lia); by vm_compute. Qed.

Lemma active_open_ok isn f now :
  is_u32 isn ->
  syn_sent_ok (((new_connection SynSent isn) <| remote_isn_known := false |>
                  <| snd_una := isn |> <| snd_nxt := u32 (isn + 1) |>)
    <| pending := [(new_pending isn f now kInitialRto) <| is_syn := true |> <| is_active_syn := true |>] |>).
Proof.
  intros Hi. constructor; simpl; try done. constructor; simpl; try done.
  - eexists. split; [reflexivity|]. split_and!; try done. apply opening_entry_ok.
Qed.

Lemma beginConnect_ok t key now g res t' : table_ok t -> isn_ok g -> beginConnect t key now g = (res, t') -> table_ok t'.
Proof.
  intros Ht Hg. unfold beginConnect. destruct (_ || _); [by intros [= <- <-]|].
  destruct (map_contains _ _) eqn:Ec; [by intros [= <- <-]|]. destruct (at_capacity t) eqn:Ecap; [by intros [= <- <-]|].
  destruct (nextIsn t g) as [isn t1] eqn:En. apply nextIsn_frame in En as (N1 & N2 & N3 & N4 & N5 & N6).
  assert (Ht1 : table_ok t1) by (by apply (table_ok_same t)).
  destruct isn as [isn|]; intros [= <- <-]; [|done].
  apply table_ok_add; auto.
  - rewrite N1. unfold map_contains in Ec. by destruct (map_find _ _).
  - unfold at_capacity, halfOpenCount in *. by rewrite N1, N2, N3.
  - left. apply active_open_ok, Hg, N6. done.
Qed.

Lemma passive_open_ok isn seg opts f now :
  is_u32 isn -> segment_ok seg -> options_ok opts ->
  let c := negotiate ((new_connection SynReceived isn) <| remote_isn := sequence_number seg |>) opts in
  syn_received_ok (c <| pending := [(new_pending isn f now (current_rto c)) <| is_syn := true |>] |>).
Proof.
  intros Hi Hseg Hopt c. destruct (negotiate_spec ((new_connection SynReceived isn) <| remote_isn := sequence_number seg |>) opts Hopt)
    as (G1 & G2 & G3 & G4 & G5 & G6 & G7 & G8 & G9); try done.
  fold c in G1, G2, G3, G4, G5, G6, G7, G8, G9. clearbody c.
  unfold send_part, recv_part, ctl_part in *. simpl in *. simplify_eq/=. constructor; simpl; try congruence; auto.
  - constructor; simpl; try (split_and!; congruence).
    + congruence.
    + eexists. split; [reflexivity|]. split_and!; try done; try (simpl; congruence).
      replace (current_rto c) with kInitialRto by congruence. apply opening_entry_ok.
    + unfold rto_ok. simpl. replace (current_rto c) with kInitialRto by congruence. consts. lia.
  - replace (remote_isn c) with (sequence_number seg) by congruence. apply Hseg.
Qed.

Lemma handleUnknown_ok t key seg now g : table_ok t -> isn_ok g -> segment_ok seg ->
  map_find (connections t) key = None ->
  exists res t', handleUnknown t key seg now g = Some (res, t') /\ table_ok t' /\
    accepted_payload res = [] /\ connection_established res = false.
Proof.
  intros Ht Hg Hseg Hf. unfold handleUnknown.
  destruct (negb (_ =? _)); [destruct (rst (flags seg)); eexists _, t; by split_and!|].
  destruct (rst (flags seg)); [eexists _, t; by split_and!|].
  destruct (_ || _); [eexists _, t; by split_and!|].
  destruct (parseTcpOptions_total (options seg)) as (r & -> & Hopt). cbn [mbind option_bind].
  destruct r as [opts|]; [|eexists _, t; by split_and!]. specialize (Hopt (sg_options _ Hseg)).
  destruct (negb _); [eexists _, t; by split_and!|].
  destruct (at_capacity t) eqn:Ecap; [eexists _, t; by split_and!|].
  destruct (nextIsn t g) as [isn t1] eqn:En. apply nextIsn_frame in En as (N1 & N2 & N3 & N4 & N5 & N6).
  assert (Ht1 : table_ok t1) by (by apply (table_ok_same t)).
  destruct isn as [isn|]; [|eexists _, t1; by split_and!]. eexists _, _. split; [reflexivity|].
  split; [|done]. apply table_ok_add; auto.
  - by rewrite N1.
  - unfold at_capacity, halfOpenCount in *. by rewrite N1, N2, N3.
  - right; left. apply (passive_open_ok isn seg opts); [by apply Hg, N6 | done | done].
Qed.

(** ** Segments for an existing connection *)

(** The sequence number is close enough to the next expected byte for the
    handler's wraparound comparisons to be exact. *)
Definition plausible (c : Connection) (seg : TcpSegment) : Prop :=
  - (2 ^ 31 - 2 ^ 19) <= i32 (sequence_number seg - rcv_nxt c) <= 2 ^ 31 - 2 ^ 19.

Lemma plausible_position R runs c seg : receiver_ok R runs c -> segment_ok seg -> plausible c seg ->
  exists pos, sequence_number seg = u32 pos /\ seq_plausible R pos.
Proof.
  intros [Hn _ _ _] Hseg Hp. exists (R + i32 (sequence_number seg - rcv_nxt c)). split.
  - rewrite <- u32_add_r, u32_i32, Hn. u32_norm. replace (R + (_ - R)) with (sequence_number seg) by lia.
    symmetry. apply u32_id, Hseg.
  - unfold seq_plausible, plausible in *. lia.
Qed.

Lemma sync_not_half R runs c : sync_ok R runs c -> pending_removal c = false -> ho c = 0.
Proof.
  intros [_ _ _ _ _ H] Hr. rewrite Hr in H. unfold state_ok, ho, half_open in *. by destruct (state c).
Qed.

Lemma handleSynReceived_established c seg now res c' :
  syn_received_ok c -> segment_ok seg ->
  let c1 := c <| state := Established |> <| rcv_nxt := u32 (remote_isn c + 1) |>
              <| snd_una := local_isn c |> <| snd_nxt := u32 (local_isn c + 1) |> in
  retireAcknowledged c1 (u32 (local_isn c1 + 1)) now = (res, c') ->
  let c2 := c' <| snd_wnd := decodePeerWindow c' (window_size seg) |> <| snd_wl1 := sequence_number seg |>
               <| snd_wl2 := acknowledgment_number seg |> in
  sync_ok (remote_isn c + 1) [] c2 /\ pending_removal c2 = false /\ state c2 = Established /\ untouched (local_isn c) c2.
Proof.
  intros [H1 H2 H3 H4 H5] Hseg c1 E c2.
  destruct (retireAcknowledged_parts _ _ _ _ _ E (op_rto _ H2)) as (P1 & P2 & P3 & P4 & P5 & _).
  assert (Hop : opening_ok c1) by (by apply (opening_ok_part c)).
  destruct (established_ok c1 now res c' (decodePeerWindow c' (window_size seg)) (sequence_number seg)
    (acknowledgment_number seg) (remote_isn c + 1)) as (K1 & _ & _ & _ & _ & _ & K7); auto.
  - apply decodePeerWindow_range; [by apply (scale_ok_part c1) | apply Hseg].
  - split; [done|]. pose proof (proj1 (op_flags _ H2)). unfold ctl_part in P5. simpl in *. split_and!; try congruence. done.
Qed.

Lemma handleSynReceived_ok t key c seg now res t' :
  table_ok t -> map_find (connections t) key = Some c -> syn_received_ok c -> segment_ok seg ->
  handleSynReceived t key c seg now = (res, t') -> table_ok t'.
Proof.
  intros Ht Hf Hc Hseg. unfold handleSynReceived.
  destruct (rst (flags seg)); [destruct (_ =? _); intros [= <- <-]; [by apply table_ok_erase | done]|].
  destruct (syn (flags seg) && _).
  { destruct (_ =? _); intros [= <- <-]; [|done]. apply (table_ok_replace t Ht key c); auto; [|done].
    right; left. destruct Hc as [H1 [O1 (e & P1 & P2 & P3 & P4) O3 O4 O5 O6] H3 H4 H5].
    constructor; auto. constructor; auto. simpl. rewrite P1. eexists. split; [reflexivity|]. split_and!; auto.
    destruct P3. constructor; auto. }
  destruct (ack (flags seg) && _); [|by intros [= <- <-]]. destruct (_ && _); [|by intros [= <- <-]].
  destruct (retireAcknowledged _ _ _) as [rr c'] eqn:E. intros [= <- <-].
  destruct (handleSynReceived_established c seg now rr c' Hc Hseg E) as (K1 & K2 & K3 & _).
  apply (table_ok_replace t Ht key c); auto.
  - right; right. split; [done|]. by eexists _, _.
  - rewrite (sync_not_half _ _ _ K1 K2). apply ho_range.
Qed.

Lemma handleSynSent_ok t key c seg now :
  table_ok t -> map_find (connections t) key = Some c -> syn_sent_ok c -> segment_ok seg ->
  exists res c', handleSynSent key c seg now = Some (res, c') /\ table_ok (update_connection t key c').
Proof.
  intros Ht Hf Hc Hseg. destruct (handleSynSent_spec key c seg now Hc Hseg) as (res & c' & E & H).
  exists res, c'. split; [done|]. apply (table_ok_update t Ht key c); auto. intros Hr.
  destruct H as [[-> ->]|[(_ & -> & _)|(_ & _ & _ & _ & _ & _ & K & _)]]; [|done|].
  - split; [by left | lia].
  - split; [right; right; split; [done | by eexists _, _]|]. rewrite (sync_not_half _ _ _ K Hr). apply ho_range.
Qed.

Lemma handleSynchronized_ok t key c R runs seg now :
  table_ok t -> map_find (connections t) key = Some c -> sync_ok R runs c -> pending_removal c = false ->
  state c <> TimeWait -> segment_ok seg -> plausible c seg ->
  exists res c', handleSynchronized key c seg now = Some (res, c') /\ table_ok (update_connection t key c').
Proof.
  intros Ht Hf Hc Hr Htw Hseg Hp. destruct (plausible_position R runs c seg (sy_recv _ _ _ Hc) Hseg Hp) as (pos & P1 & P2).
  destruct (handleSynchronized_spec key R runs c seg pos now Hc Hr Htw Hseg P1 P2) as (res & c' & E & H).
  exists res, c'. split; [done|]. apply (table_ok_update t Ht key c); auto. intros Hr'.
  destruct H as [(_ & _ & _ & ->)|(n & c1 & R' & rest & _ & K & _)]; [done|].
  pose proof (rv_ok _ _ _ _ _ _ _ _ _ K) as K1.
  split; [right; right; split; [done | by eexists _, _]|]. rewrite (sync_not_half _ _ _ K1 Hr'). apply ho_range.
Qed.

Lemma handle_ok t key seg now g :
  table_ok t -> isn_ok g -> segment_ok seg ->
  (forall c, map_find (connections t) key = Some c -> half_open c = false -> plausible c seg) ->
  exists res t', handle t key seg now g = Some (res, t') /\ table_ok t'.
Proof.
  intros Ht Hg Hseg Hp. unfold handle. destruct (map_find (connections t) key) as [c|] eqn:Ef.
  2: { destruct (handleUnknown_ok t key seg now g Ht Hg Hseg Ef) as (res & t' & E & H & _). by eexists _, _. }
  specialize (Hp c eq_refl). destruct (table_find t Ht key c Ef) as [H|[H|(Hr & R & runs & H)]].
  - rewrite (ss_state _ H). destruct (handleSynSent_ok t key c seg now Ht Ef H Hseg) as (res & c' & -> & K).
    by eexists _, _.
  - rewrite (sr_state _ H). destruct (handleSynReceived t key c seg now) as [res t'] eqn:E.
    exists res, t'. split; [done|]. by eapply handleSynReceived_ok.
  - assert (Hh : half_open c = false) by (pose proof (sync_not_half _ _ _ H Hr) as Hz; unfold ho in Hz; by destruct (half_open c)).
    destruct (decide (state c = TimeWait)) as [Etw|Etw].
    + rewrite Etw. destruct (handleTimeWait key c seg now) as [res c'] eqn:E. eexists _, _. split; [reflexivity|].
      destruct (handleTimeWait_spec _ _ _ _ _ _ _ _ H Hr Etw E) as (_ & _ & _ & _ & K).
      apply (table_ok_update t Ht key c); auto. intros Hr'. destruct K as [[? _]|(K1 & K2 & K3 & _)]; [congruence|].
      split; [right; right; split; [done | by eexists _, _]|]. rewrite (sync_not_half _ _ _ K1 K2). apply ho_range.
    + destruct (handleSynchronized_ok t key c R runs seg now Ht Ef H Hr Etw Hseg (Hp Hh)) as (res & c' & E & K).
      exists res, (update_connection t key c'). split; [|done]. rewrite E.
      unfold half_open in Hh. destruct (state c); done.
Qed.

(** ** Application operations *)

Lemma appOwnedBytes_eq c : sender_ok c -> appOwnedBytes c = Zlen (owned c).
Proof.
  intros H. unfold appOwnedBytes, owned. rewrite Zlen_app, Z.add_comm. generalize (Zlen (unsent c)).
  pose proof (so_entries _ H) as He. pose proof (so_nosyn _ H) as Hn. revert He Hn. generalize (pending c).
  induction l as [|e l IH]; intros He Hn n; [change (Zlen (app_bytes [])) with 0; simpl; lia|].
  apply Forall_cons in He as [He1 He], Hn as [Hn1 Hn]. cbn [foldl]. rewrite IH by done.
  unfold app_bytes. cbn [map concat]. fold (app_bytes l). rewrite Zlen_app, Hn1. cbn [negb andb].
  pose proof (eo_kind _ He1) as Hk. rewrite Hn1 in Hk. destruct (is_fin e); cbn [negb]; [|lia].
  rewrite Hk. change (Zlen []) with 0. lia.
Qed.

Lemma enqueue_ok R runs c p :
  sync_ok R runs c -> pending_removal c = false -> sendable (state c) = true -> bytes_ok p ->
  Zlen (owned c) + Zlen p <= kTcpSendBufferCapacity ->
  sync_ok R runs (c <| unsent := unsent c ++ p |>) /\ owned (c <| unsent := unsent c ++ p |>) = owned c ++ p.
Proof.
  intros [S1 S2 S3 S4 S5 S6] Hr Hs Hb Hcap. rewrite Hr in S6. pose proof (sendable_no_fin c S6 Hs) as Hf.
  split; [|unfold owned; simpl; by rewrite app_assoc].
  constructor; auto; [|by apply (receiver_ok_part R runs c) | simpl; by rewrite Hr].
  destruct S1. constructor; simpl; auto.
  - unfold owned in Hcap. rewrite !Zlen_app in *. lia.
  - by apply Forall_app.
  - rewrite Hf. done.
Qed.

(** Enqueueing: the capacity test is exact, and the pass that follows only
    moves bytes from the buffer to the queue. *)
Lemma makeOutgoingData_cases t key p now res t' :
  table_ok t -> bytes_ok p -> makeOutgoingData t key p now = (res, t') ->
  (t' = t /\ bytes_accepted res = 0 /\ send_segments res = [] /\ has_value (send_error res) = true) \/
  (exists c c' R runs, map_find (connections t) key = Some c /\ sync_ok R runs c /\ sync_ok R runs c' /\
     pending_removal c' = false /\ t' = set_connection t key c' /\ sendable (state c) = true /\
     close_requested c = false /\ p <> [] /\ Zlen p <= kMaxApplicationSendSize /\
     Zlen (owned c) + Zlen p <= kTcpSendBufferCapacity /\ owned c' = owned c ++ p /\
     bytes_accepted res = Zlen p /\ send_error res = None /\
     exists ents, scheduled_from (c <| unsent := unsent c ++ p |>) (send_segments res) ents c').
Proof.
  intros Ht Hb. unfold makeOutgoingData. destruct (empty p) eqn:Ee; [intros [= <- <-]; left; done|].
  destruct (Z.ltb_spec kMaxApplicationSendSize (Zlen p)); [intros [= <- <-]; left; done|].
  destruct (map_find (connections t) key) as [c|] eqn:Ef; [|intros [= <- <-]; left; done].
  rewrite <- negb_orb. fold (sendable (state c)). destruct (sendable (state c)) eqn:Es; cbn [negb];
    [|intros [= <- <-]; left; done].
  destruct (close_requested c) eqn:Ec; [intros [= <- <-]; left; done|].
  destruct (table_find t Ht key c Ef) as [K|[K|(Hr & R & runs & K)]].
  { pose proof (ss_state _ K) as E. by rewrite E in Es. }
  { pose proof (sr_state _ K) as E. by rewrite E in Es. }
  rewrite (appOwnedBytes_eq c) by apply K. pose proof (owned_len c (sy_send _ _ _ K)).
  destruct (Z.ltb_spec (if kTcpSendBufferCapacity <=? Zlen (owned c) then 0 else kTcpSendBufferCapacity - Zlen (owned c)) (Zlen p));
    [intros [= <- <-]; left; done|].
  assert (Hcap : Zlen (owned c) + Zlen p <= kTcpSendBufferCapacity) by (zcases; lia).
  destruct (enqueue_ok R runs c p K Hr Es Hb Hcap) as [Q1 Q2].
  destruct (scheduleQueuedData _ _ _) as [segs c'] eqn:E. intros [= <- <-].
  destruct (schedule_sync key R runs _ now segs c' Q1 Hr Es E) as (S1 & S2 & S3 & S4 & S5 & S6).
  right. exists c, c', R, runs. split_and!; auto; [by destruct p | congruence].
Qed.

Lemma makeOutgoingData_ok t key p now res t' :
  table_ok t -> bytes_ok p -> makeOutgoingData t key p now = (res, t') -> table_ok t'.
Proof.
  intros Ht Hb E. destruct (makeOutgoingData_cases _ _ _ _ _ _ Ht Hb E) as
    [[-> _]|(c & c' & R & runs & Hf & K & K' & Hr & -> & _)]; [done|].
  apply (table_ok_replace t Ht key c); auto.
  - right; right. split; [done | by eexists _, _].
  - rewrite (sync_not_half _ _ _ K' Hr). apply ho_range.
Qed.

(** Closing: the FIN goes out now or stays deferred. *)
Lemma beginClose_cases t key now res t' : table_ok t -> beginClose t key now = (res, t') ->
  (t' = t /\ close_accepted res = false /\ close_fin res = None) \/
  (exists c c' R runs, map_find (connections t) key = Some c /\ sync_ok R runs c /\ sync_ok R runs c' /\
     pending_removal c' = false /\ t' = set_connection t key c' /\ sendable (state c) = true /\
     close_accepted res = true /\ close_requested c' = true /\ owned c' = owned c /\
     state c' = (if has_value (close_fin res) then fin_state (state c) else state c) /\
     (has_value (close_fin res) = true <-> has_value (local_fin_seq c') = true)).
Proof.
  intros Ht. unfold beginClose. destruct (map_find (connections t) key) as [c|] eqn:Ef; [|intros [= <- <-]; left; done].
  rewrite <- negb_orb. fold (sendable (state c)). destruct (sendable (state c)) eqn:Es; cbn [negb];
    [|intros [= <- <-]; left; done].
  destruct (table_find t Ht key c Ef) as [K|[K|(Hr & R & runs & K)]].
  { pose proof (ss_state _ K) as E. by rewrite E in Es. }
  { pose proof (sr_state _ K) as E. by rewrite E in Es. }
  set (c1 := c <| close_requested := true |>).
  assert (K1 : sync_ok R runs c1).
  { destruct K as [S1 S2 S3 S4 S5 S6]. constructor; auto; [by apply (sender_ok_part c) | by apply (receiver_ok_part R runs c)]. }
  pose proof (sy_state _ _ _ K1) as Hst. simpl in Hst. rewrite Hr in Hst.
  pose proof (sendable_no_fin c1 Hst Es) as Hf.
  destruct (maybeSequenceFin key c1 now) as [segs c2] eqn:E.
  pose proof (maybeSequenceFin_cases key c1 now) as Hcases. rewrite E in Hcases.
  destruct (maybeSequenceFin_spec key c1 now segs c2 (sy_send _ _ _ K1) (sy_rto _ _ _ K1) Hf E) as (M1 & (ents & M2 & M3 & _) & _ & M5).
  destruct (updatePersistState_frame c2 now) as (d & i & -> & _). intros [= <- <-]. right.
  destruct M2 as [F1 F2 F3 F4 F5 F6 F7 F8 F9 F10 F11 F12].
  set (c3 := c2 <| persist_deadline := d |> <| persist_interval := i |>).
  assert (Ho : owned c2 = owned c) by (unfold owned; rewrite F1, app_bytes_app, <- app_assoc, F3; done).
  assert (Hpf : pending_fin_seq c2 = pending_fin_seq c) by (unfold recv_part in F6; simpl in F6; congruence).
  assert (Hs2 : state_ok c2 /\ state c2 = (if has_value (head segs) then fin_state (state c) else state c) /\
    (has_value (head segs) = true <-> has_value (local_fin_seq c2) = true)).
  { destruct M5 as [[-> ->]|(f & G1 & G2 & G3 & G4 & G5 & G6)].
    - split_and!; [done | done |]. rewrite Hf. done.
    - destruct (fin_due c1); [|congruence]. injection Hcases as Hsegs _. rewrite Hsegs, G1. simpl.
      split_and!; try done. assert (Hne : pending c2 <> []).
      { intros Ep. rewrite Ep in G5. simpl in G5. pose proof (pend_len_nonneg _ (so_entries _ (sy_send _ _ _ K1))). simpl in *. lia. }
      unfold state_ok in *. rewrite G2, G1, Hpf. simpl in Hst |- *. unfold fin_state, sendable in *.
      destruct (state c); simpl in *; tauto || done. }
  destruct Hs2 as (Hs2 & Hs3 & Hs4). exists c, c3, R, runs. split_and!; auto; [|exact (eq_trans F10 Hr)].
  constructor; auto.
  - by apply (sender_ok_part c2).
  - apply (receiver_ok_part R runs c); [|apply K]. unfold recv_part in *. simpl in *. congruence.
  - apply (congestion_ok_part c2); [done | done |]. apply (congestion_ok_part c1); [done | done | apply K1].
  - apply (rto_ok_part c1); [done | apply K1].
  - apply (scale_ok_part c1); [done | apply K1].
  - simpl. rewrite F10. simpl. by rewrite Hr.
Qed.

Lemma beginClose_ok t key now res t' : table_ok t -> beginClose t key now = (res, t') -> table_ok t'.
Proof.
  intros Ht E. destruct (beginClose_cases _ _ _ _ _ Ht E) as [[-> _]|(c & c' & R & runs & Hf & K & K' & Hr & -> & _)]; [done|].
  apply (table_ok_replace t Ht key c); auto.
  - right; right. split; [done | by eexists _, _].
  - rewrite (sync_not_half _ _ _ K' Hr). apply ho_range.
Qed.

(** ** Timers *)

(** The oldest entry with its timers advanced. *)
Definition advance_entry (e : PendingTransmission) (now : Z) : PendingTransmission :=
  e <| timeout_retransmit_count := timeout_retransmit_count e + 1 |>
    <| was_retransmitted := true |> <| last_sent_at := now |>
    <| timeout_interval := Z.min (timeout_interval e * 2) kMaxRto |>.

Lemma advance_entry_ok e now : entry_ok e -> timeout_retransmit_count e < kMaxRetransmits ->
  entry_ok (advance_entry e now).
Proof. intros [K1 K2 K3 K4 K5] H. constructor; simpl; auto; consts; lia. Qed.

Lemma sender_ok_front c e e' l : sender_ok c -> pending c = e :: l -> entry_ok e' ->
  sequence_start e' = sequence_start e -> is_syn e' = is_syn e -> is_fin e' = is_fin e ->
  p_payload e' = p_payload e -> sender_ok (c <| pending := e' :: l |>) /\
  owned (c <| pending := e' :: l |>) = owned c.
Proof.
  intros [S1 S2 S3 S4 S5 S6 S7 S8 S9 S10] Hp He' E1 E2 E3 E4.
  assert (El : seq_len e' = seq_len e) by (unfold seq_len; by rewrite E2, E3, E4).
  assert (Eb : app_bytes (e' :: l) = app_bytes (e :: l)) by (unfold app_bytes; simpl; by rewrite E4).
  split; [|unfold owned; simpl; by rewrite Eb, Hp].
  rewrite Hp in *. apply Forall_cons in S4 as [_ S4], S5 as [S5a S5].
  constructor; simpl; auto.
  - by rewrite El.
  - simpl in S3. rewrite El, E1. done.
  - constructor; [congruence | done].
  - by rewrite Eb.
  - eapply fin_shape_head; [|exact S8]. done.
Qed.

Lemma collapse_spec c : sender_ok c -> congestion_ok c ->
  let c' := applyTimeoutCongestionCollapse c in
  sender_ok c' /\ congestion_ok c' /\ owned c' = owned c /\ Forall2 remarked (pending c) (pending c').
Proof.
  intros Hs (C1 & C2 & C3 & C4 & C5) c'.
  assert (Hm : Forall2 remarked (pending c) (pending c')).
  { apply remarked_map. intros e. unfold remarked. simpl. tauto. }
  split_and!.
  - by apply (sender_ok_remark c c' (pending c')).
  - destruct (lossSsthresh_ok c C1) as [L _]. unfold congestion_ok, congestion_vars_ok. simpl. consts.
    split_and!; lia || done.
  - unfold owned. rewrite (remarked_app_bytes _ _ Hm). done.
  - done.
Qed.

(** The connection a due timer leaves behind, for a synchronized connection. *)
Lemma pollConnection_sync key R runs c now seg c' :
  sync_ok R runs c -> pending_removal c = false -> pollConnection key c now = Retransmitted seg c' ->
  sync_ok R runs c' /\ pending_removal c' = false /\ owned c' = owned c /\ state c' = state c /\
  ho c' = ho c.
Proof.
  intros [S1 S2 S3 S4 S5 S6] Hr. rewrite Hr in S6. unfold pollConnection.
  destruct (state_eqb (state c) TimeWait); [destruct (time_wait_deadline c) as [d|]; [destruct (d <=? now)|]; done|].
  destruct (pending c) as [|old rest] eqn:Ep; [done|]. destruct (now <? _); [done|].
  destruct (Z.leb_spec kMaxRetransmits (timeout_retransmit_count old)) as [|Hcount]; [done|].
  pose proof (so_nosyn _ S1) as Hn. rewrite Ep in Hn. apply Forall_cons in Hn as [Hn _]. rewrite Hn. cbn [negb andb].
  set (c1 := if negb (is_fin old) then _ else _).
  assert (H1 : sender_ok c1 /\ congestion_ok c1 /\ owned c1 = owned c /\ Forall2 remarked (pending c) (pending c1) /\
    recv_part c1 = recv_part c /\ nego_part c1 = nego_part c /\ ctl_part c1 = ctl_part c /\
    local_fin_seq c1 = local_fin_seq c /\ current_rto c1 = current_rto c).
  { unfold c1. destruct (negb (is_fin old)); [|split_and!; auto; apply remarked_list_refl].
    destruct (collapse_spec c S1 S3) as (Q1 & Q2 & Q3 & Q4). split_and!; auto. }
  destruct H1 as (Q1 & Q2 & Q3 & Q4 & Q5 & Q6 & Q7 & Q8 & Q9). clearbody c1.
  destruct (pending c1) as [|e l] eqn:Ep1; [done|]. intros [= <- <-].
  rewrite Ep in Q4. apply Forall2_cons in Q4 as [Hrem Hrest]. change (_ <| timeout_interval := _ |>) with (advance_entry e now).
  pose proof (so_entries _ Q1) as He. rewrite Ep1 in He. apply Forall_cons in He as [He _].
  assert (Hc : timeout_retransmit_count e < kMaxRetransmits) by (destruct_and? Hrem; unfold remarked in Hrem; destruct_and?; lia).
  destruct (sender_ok_front c1 e (advance_entry e now) l Q1 Ep1) as [F1 F2]; try done; [by apply advance_entry_ok|].
  assert (Hctl : state c1 = state c /\ pending_removal c1 = false) by (unfold ctl_part in Q7; split; congruence).
  assert (Hpf : pending_fin_seq c1 = pending_fin_seq c) by (unfold recv_part in Q5; congruence).
  destruct Hctl as [Hst Hr1].
  split_and!; [|done | unfold owned in *; simpl in *; congruence | done | unfold ho, half_open; simpl; by rewrite Hst].
  constructor.
  - by apply (sender_ok_part (c1 <| pending := advance_entry e now :: l |>)).
  - by apply (receiver_ok_part R runs c).
  - by apply (congestion_ok_part c1).
  - unfold rto_ok in *. pose proof (eo_timeout _ He). simpl. rewrite Q9. consts. lia.
  - by apply (scale_ok_part c).
  - simpl. rewrite Hr1. unfold state_ok in *. simpl. rewrite Hst, Q8, Hpf. rewrite Ep in S6.
    assert (time_wait_deadline c1 = time_wait_deadline c) as -> by (unfold ctl_part in Q7; congruence).
    destruct (state c); destruct_and?; split_and?; done.
Qed.

Lemma pollConnection_opening key c now seg c' :
  opening_ok c -> pollConnection key c now = Retransmitted seg c' ->
  exists e, c' = c <| pending := [e] |> <| current_rto := current_rto c' |> /\ opening_ok c'.
Proof.
  intros [O1 (e & P1 & P2 & P3 & P4) O3 O4 O5 O6]. unfold pollConnection.
  destruct (state_eqb (state c) TimeWait); [destruct (time_wait_deadline c) as [d|]; [destruct (d <=? now)|]; done|].
  rewrite P1. destruct (now <? _); [done|].
  destruct (Z.leb_spec kMaxRetransmits (timeout_retransmit_count e)) as [|Hcount]; [done|].
  rewrite P2. cbn [negb andb]. rewrite P1. intros [= <- <-]. exists (advance_entry e now). split; [done|].
  constructor; auto.
  - exists (advance_entry e now). split_and!; auto. by apply advance_entry_ok.
  - unfold rto_ok in *. pose proof (eo_timeout _ P3). simpl. consts. lia.
Qed.

Lemma pollConnection_ok key c now seg c' : conn_ok c -> pollConnection key c now = Retransmitted seg c' ->
  conn_ok c' /\ ho c' = ho c.
Proof.
  intros [K|[K|(Hr & R & runs & K)]] E.
  - destruct (pollConnection_opening _ _ _ _ _ (ss_opening _ K) E) as (e & Ec & Ho). destruct K.
    split; [left|by rewrite Ec]. rewrite Ec in *. constructor; auto.
  - destruct (pollConnection_opening _ _ _ _ _ (sr_opening _ K) E) as (e & Ec & Ho). destruct K.
    split; [right; left|by rewrite Ec]. rewrite Ec in *. constructor; auto.
  - destruct (pollConnection_sync _ _ _ _ _ _ _ K Hr E) as (P1 & P2 & _ & _ & P3).
    split; [right; right; split; [done | by eexists _, _] | done].
Qed.

(** A poll keeps a sub-list of the keys, with connections that stay well formed. *)
Lemma pollRetransmissions_loop_ok now l res l' :
  pollRetransmissions_loop now l = (res, l') -> map_ok l -> Forall (fun p => conn_ok (snd p)) l ->
  map_ok l' /\ Forall (fun p => conn_ok (snd p)) l' /\ Zlen l' <= Zlen l /\ map_weight ho l' <= map_weight ho l /\
  (forall P, Forall P (map fst l) -> Forall P (map fst l')).
Proof.
  revert res l'. induction l as [|[k c] l IH]; intros res l'; simpl.
  { intros [= <- <-] H1 H2. split_and!; done. }
  destruct (pollRetransmissions_loop now l) as [r l1]. intros E Hm Hf.
  apply map_ok_cons in Hm as [Hk Hm]. apply Forall_cons in Hf as [Hc Hf]. simpl in Hc.
  destruct (IH r l1 eq_refl Hm Hf) as (I1 & I2 & I3 & I4 & I5). pose proof (ho_range c).
  assert (Hkeep : forall c2, conn_ok c2 -> ho c2 = ho c ->
    map_ok ((k, c2) :: l1) /\ Forall (fun p => conn_ok (snd p)) ((k, c2) :: l1) /\
    Zlen ((k, c2) :: l1) <= Zlen ((k, c) :: l) /\ map_weight ho ((k, c2) :: l1) <= ho c + map_weight ho l /\
    (forall P, Forall P (k :: map fst l) -> Forall P (map fst ((k, c2) :: l1)))).
  { intros c2 H2 H3. rewrite !Zlen_cons. split_and!.
    - apply map_ok_cons. split; [|done]. rewrite <- List.Forall_map in Hk |- *. by apply (I5 (fun x => key_lt k x)).
    - by constructor.
    - lia.
    - simpl. lia.
    - intros P HP. apply Forall_cons in HP as [? ?]. simpl. constructor; auto. }
  assert (Hdrop : map_ok l1 /\ Forall (fun p => conn_ok (snd p)) l1 /\ Zlen l1 <= Zlen ((k, c) :: l) /\
    map_weight ho l1 <= ho c + map_weight ho l /\ (forall P, Forall P (k :: map fst l) -> Forall P (map fst l1))).
  { rewrite Zlen_cons. split_and!; auto; try lia. intros P HP. apply Forall_cons in HP as [? ?]. auto. }
  destruct (pollConnection k c now) as [|seg c2| |] eqn:Ep; injection E as <- <-; auto.
  destruct (pollConnection_ok _ _ _ _ _ Hc Ep). auto.
Qed.

Lemma pollRetransmissions_ok t now res t' : table_ok t -> pollRetransmissions t now = (res, t') -> table_ok t'.
Proof.
  intros [T1 T2 T3 T4]. unfold pollRetransmissions. destruct (pollRetransmissions_loop _ _) as [r l] eqn:E.
  intros [= <- <-]. rewrite halfOpenCount_eq in T4.
  destruct (pollRetransmissions_loop_ok _ _ _ _ E T1 T2) as (L1 & L2 & L3 & L4 & _).
  constructor; auto; [simpl; lia | rewrite halfOpenCount_eq; simpl; lia].
Qed.

Lemma persistProbe_frame key c now s c' : persistProbe key c now = (s, c') ->
  exists d i, c' = c <| persist_deadline := d |> <| persist_interval := i |>.
Proof.
  unfold persistProbe. destruct (persist_deadline c) as [d|] eqn:E.
  - destruct (now <? d); [intros [= <- <-]; exists (Some d), (persist_interval c); destruct c; simpl in *; by subst|].
    destruct (negb _); intros [= <- <-]; [|by eexists _, _]. exists None, (persist_interval c). by destruct c.
  - intros [= <- <-]. exists None, (persist_interval c). destruct c; simpl in *; by subst.
Qed.

Lemma conn_ok_persist c d i : conn_ok c -> conn_ok (c <| persist_deadline := d |> <| persist_interval := i |>).
Proof.
  intros [K|[K|(Hr & R & runs & K)]].
  - left. destruct K. constructor; auto. by apply (opening_ok_part c).
  - right; left. destruct K. constructor; auto. by apply (opening_ok_part c).
  - right; right. split; [done|]. exists R, runs. by apply sync_ok_persist.
Qed.

Lemma pollPersist_loop_ok now l probes l' :
  pollPersist_loop now l = (probes, l') ->
  map fst l' = map fst l /\ map_weight ho l' = map_weight ho l /\
  (Forall (fun p => conn_ok (snd p)) l -> Forall (fun p => conn_ok (snd p)) l').
Proof.
  revert probes l'. induction l as [|[k c] l IH]; intros probes l'; simpl; [by intros [= <- <-]|].
  destruct (persistProbe k c now) as [s c'] eqn:Ep. destruct (pollPersist_loop now l) as [ps l1].
  destruct (IH ps l1 eq_refl) as (I1 & I2 & I3). destruct (persistProbe_frame _ _ _ _ _ Ep) as (d & i & ->).
  intros [= <- <-]. simpl. split_and!; [by rewrite I1 | unfold ho, half_open in *; simpl; lia |].
  intros Hf. apply Forall_cons in Hf as [Hc Hf]. constructor; [|auto]. by apply conn_ok_persist.
Qed.

Lemma pollPersistProbes_ok t now probes t' : table_ok t -> pollPersistProbes t now = (probes, t') -> table_ok t'.
Proof.
  intros [T1 T2 T3 T4]. unfold pollPersistProbes. destruct (pollPersist_loop _ _) as [ps l] eqn:E. intros [= <- <-].
  rewrite halfOpenCount_eq in T4. destruct (pollPersist_loop_ok _ _ _ _ E) as (L1 & L2 & L3).
  assert (Hlen : Zlen l = Zlen (connections t)) by (unfold Zlen; by rewrite <- (length_map fst l), L1, length_map).
  constructor; simpl; auto; [unfold map_ok in *; by rewrite L1 | lia | rewrite halfOpenCount_eq; simpl; lia].
Qed.

(** ** Reachable tables *)

Inductive step : TcpConnectionTable -> TcpConnectionTable -> Prop :=
| step_segment t t' key seg now g res : segment_ok seg -> isn_ok g ->
    (forall c, map_find (connections t) key = Some c -> half_open c = false -> plausible c seg) ->
    handle t key seg now g = Some (res, t') -> step t t'
| step_connect t t' key now g res : isn_ok g -> beginConnect t key now g = (res, t') -> step t t'
| step_send t t' key data now res : bytes_ok data -> makeOutgoingData t key data now = (res, t') -> step t t'
| step_close t t' key now res : beginClose t key now = (res, t') -> step t t'
| step_retransmissions t t' now res : pollRetransmissions t now = (res, t') -> step t t'
| step_persist t t' now res : pollPersistProbes t now = (res, t') -> step t t'.

Inductive reachable (port n h : Z) : TcpConnectionTable -> Prop :=
| reachable_init : reachable port n h (new_table port n h)
| reachable_step t t' : reachable port n h t -> step t t' -> reachable port n h t'.

Lemma new_table_ok port n h : table_ok (new_table port n h).
Proof.
  constructor; simpl; [constructor | constructor | change (Zlen []) with 0; lia | unfold halfOpenCount; simpl; lia].
Qed.

Lemma step_ok t t' : step t t' -> table_ok t -> table_ok t'.
Proof.
  destruct 1 as [t t' key seg now g res Hs Hg Hp E|t t' key now g res Hg E|t t' key data now res Hb E
    |t t' key now res E|t t' now res E|t t' now res E]; intros Ht.
  - destruct (handle_ok t key seg now g Ht Hg Hs Hp) as (res' & t2 & E' & H2). congruence.
  - by eapply beginConnect_ok.
  - by eapply makeOutgoingData_ok.
  - by eapply beginClose_ok.
  - by eapply pollRetransmissions_ok.
  - by eapply pollPersistProbes_ok.
Qed.

Lemma reachable_ok port n h t : reachable port n h t -> table_ok t.
Proof. induction 1; eauto using new_table_ok, step_ok. Qed.
