(* ===== verification/TcpProperties.v ===== *)
(** * Properties of the connection table

    The theorems about whole tables and connections: the invariant of
    reachable tables, freedom from out-of-bounds reads and its limit,
    delivery of the peer's byte stream, and the sample tables the witnesses
    run on. *)

From S2P Require Import Prelude StdMap Addresses Tcp SeqNum TcpState TcpCongestion.
From S2P Require Import TcpSegments TcpSender TcpReceiver TcpHandler TcpTable TcpInvariant.

(** ** A sample connection *)

Module Sample.
Definition key : TcpConnectionKey := mkKey (Ipv4 10 0 0 2) 80 (Ipv4 10 0 0 1) 5000.

Definition segment (seq ackn window : Z) (f : TcpFlags) (bytes : list Z) : TcpSegment :=
  {| source_port := 5000; destination_port := 80; sequence_number := seq; acknowledgment_number := ackn;
     flags := f; window_size := window; urgent_pointer := 0; options := []; payload := bytes |}.

Definition syn_segment : TcpSegment := segment 1000 0 65535 (no_flags <| syn := true |>) [].
Definition ack_segment : TcpSegment := segment 1001 7001 4 (no_flags <| ack := true |>) [].
Definition data_segment (seq : Z) (bytes : list Z) : TcpSegment :=
  segment seq 7001 65535 (no_flags <| ack := true |> <| psh := true |>) bytes.

Definition after (r : option (TcpReceiveResult * TcpConnectionTable)) (t : TcpConnectionTable) : TcpConnectionTable :=
  match r with Some (_, t') => t' | None => t end.

Definition table0 : TcpConnectionTable := new_table 80 4 2.
Definition table1 : TcpConnectionTable := after (handle table0 key syn_segment 0 (Some 7000)) table0.
(** The three-way handshake is complete. *)
Definition table2 : TcpConnectionTable := after (handle table1 key ack_segment 10 None) table1.

Lemma segment_is_ok seq ackn window f bytes :
  is_u32 seq -> is_u32 ackn -> is_u16 window -> bytes_ok bytes -> Zlen bytes <= 65535 ->
  segment_ok (segment seq ackn window f bytes).
Proof. intros. constructor; simpl; auto. constructor. Qed.

Lemma step_handle t seg now g : table_ok t -> segment_ok seg -> isn_ok g ->
  (forall c, map_find (connections t) key = Some c -> half_open c = false -> plausible c seg) ->
  step t (after (handle t key seg now g) t).
Proof.
  intros Ht Hs Hg Hp. destruct (handle_ok t key seg now g Ht Hg Hs Hp) as (res & t' & E & _).
  rewrite E. by eapply step_segment.
Qed.

Lemma table1_reachable : reachable 80 4 2 table1.
Proof.
  eapply reachable_step; [apply reachable_init|]. apply step_handle.
  - apply new_table_ok.
  - by apply segment_is_ok; vm_compute.
  - intros v [= <-]. by vm_compute.
  - done.
Qed.

Lemma step12 : step table1 table2.
Proof.
  apply step_handle.
  - eapply reachable_ok, table1_reachable.
  - by apply segment_is_ok; vm_compute.
  - done.
  - intros c Hc Hh. assert (half_open c = true); [|congruence].
    assert (Hst : stateOf table1 key = Some SynReceived) by (by vm_compute).
    unfold stateOf in Hst. rewrite Hc in Hst. injection Hst as Hst. unfold half_open. by rewrite Hst.
Qed.

Lemma table2_reachable : reachable 80 4 2 table2.
Proof. eapply reachable_step; [apply table1_reachable | apply step12]. Qed.

(** The established connection of [table2]. *)
Definition connection : Connection := default (new_connection SynSent 0) (map_find (connections table2) key).

Lemma connection_found : map_find (connections table2) key = Some connection.
Proof. by vm_compute. Qed.

Lemma connection_sync : sync_ok 1001 [] connection.
Proof.
  destruct (table_find _ (reachable_ok _ _ _ _ table2_reachable) _ _ connection_found) as [K|[K|(_ & R & runs & K)]].
  - pose proof (ss_state _ K) as H. vm_compute in H. discriminate.
  - pose proof (sr_state _ K) as H. vm_compute in H. discriminate.
  - destruct K as [S1 S2 S3 S4 S5 S6]. constructor; [exact S1 | clear; constructor; by vm_compute | exact S3 | exact S4 | exact S5 | exact S6].
Qed.

(** Six bytes queued: the peer's window lets four of them go. *)
Definition six_bytes : list Z := [65; 66; 67; 68; 69; 70].
Definition table3 : TcpConnectionTable := snd (makeOutgoingData table2 key six_bytes 20).
Definition sending : Connection := default (new_connection SynSent 0) (map_find (connections table3) key).

Lemma table3_reachable : reachable 80 4 2 table3.
Proof.
  eapply reachable_step; [apply table2_reachable|].
  apply (step_send _ _ key six_bytes 20 (fst (makeOutgoingData table2 key six_bytes 20))).
  - repeat constructor; lia.
  - unfold table3. by destruct (makeOutgoingData _ _ _ _).
Qed.

Lemma sending_found : map_find (connections table3) key = Some sending.
Proof. by vm_compute. Qed.

Lemma sending_sync : sync_ok 1001 [] sending.
Proof.
  destruct (table_find _ (reachable_ok _ _ _ _ table3_reachable) _ _ sending_found) as [K|[K|(_ & R & runs & K)]].
  - pose proof (ss_state _ K) as H. vm_compute in H. discriminate.
  - pose proof (sr_state _ K) as H. vm_compute in H. discriminate.
  - destruct K as [S1 S2 S3 S4 S5 S6]. constructor; [exact S1 | clear; constructor; by vm_compute | exact S3 | exact S4 | exact S5 | exact S6].
Qed.
End Sample.

(** ** Limits *)

Lemma runs_bytes R g lo hi l : 0 <= g -> lo <= hi -> runs_ok g lo hi l -> frag_bytes (map (frag_at R) l) <= hi - lo.
Proof.
  intros Hg. revert lo. induction l as [|r l IH]; intros lo Hle; simpl; [lia|].
  intros (H1 & H2 & H3 & H4 & H5). pose proof (run_pos r H2). unfold run_end in *.
  destruct (Z.le_gt_cases (fst r + Zlen (snd r) + g) hi) as [Hok|Hbig].
  - specialize (IH _ Hok H5). lia.
  - destruct l as [|r' l]; [simpl; lia|]. simpl in H5. destruct H5 as (? & Hr' & _ & ? & _).
    pose proof (run_pos r' Hr'). unfold run_end in *. lia.
Qed.

(** The resources one connection may hold. *)
Record within_limits (c : Connection) : Prop := {
  wl_send : Zlen (app_bytes (pending c)) + Zlen (unsent c) <= kTcpSendBufferCapacity;
  wl_fragments : Zlen (out_of_order c) <= kMaxReassemblyFragments;
  wl_receive : frag_bytes (out_of_order c) <= kTcpReceiveCapacity;
  wl_rto : kMinRto <= current_rto c <= kMaxRto;
  wl_entries : Forall (fun e => Zlen (p_payload e) <= kTcpMss /\
                                0 <= timeout_retransmit_count e <= kMaxRetransmits) (pending c);
  wl_window : half_open c = false ->
    effective_send_mss c <= cwnd c <= kMaxCongestionWindow /\
    u32 (snd_nxt c - snd_una c) = pend_len (pending c) /\ pend_len (pending c) <= kTcpSendBufferCapacity + 1
}.

Lemma entry_limits e : entry_ok e -> Zlen (p_payload e) <= kTcpMss /\ 0 <= timeout_retransmit_count e <= kMaxRetransmits.
Proof. by intros []. Qed.

Lemma opening_limits c : opening_ok c -> half_open c = true -> within_limits c.
Proof.
  intros [O1 (e & P1 & P2 & P3 & P4) (O3 & O4 & O5 & O6) O7 O8 O9] Hh. constructor; auto; rewrite ?P1, ?O3, ?O4.
  - pose proof (eo_kind _ P3) as Hk. rewrite P2 in Hk. destruct Hk as [_ Hk].
    unfold app_bytes. simpl. rewrite Hk. by vm_compute.
  - by vm_compute.
  - by vm_compute.
  - constructor; [by apply entry_limits | constructor].
  - congruence.
Qed.

Lemma sync_limits R runs c : sync_ok R runs c -> within_limits c.
Proof.
  intros [S1 S2 S3 S4 S5 S6]. destruct S2 as [N1 N2 N3 N4]. constructor; auto; rewrite ?N2.
  - apply S1.
  - unfold Zlen in *. by rewrite length_map.
  - pose proof (runs_bytes R 1 0 kTcpReceiveCapacity runs ltac:(lia) ltac:(done) N3). lia.
  - eapply Forall_impl; [apply S1|]. apply entry_limits.
  - intros _. destruct (sender_flight c S1) as [? ?]. destruct S3 as (? & ? & _). split_and!; try lia; done.
Qed.

Lemma conn_limits c : conn_ok c -> within_limits c.
Proof.
  intros [K|[K|(_ & R & runs & K)]].
  - apply opening_limits; [apply K|]. unfold half_open. by rewrite (ss_state _ K).
  - apply opening_limits; [apply K|]. unfold half_open. by rewrite (sr_state _ K).
  - by eapply sync_limits.
Qed.

Definition config (t : TcpConnectionTable) := (listen_port t, max_connections t, max_half_open_connections t).

Lemma update_config t key c : config (update_connection t key c) = config t.
Proof. unfold update_connection. by destruct (pending_removal c). Qed.

Lemma nextIsn_config t g : config (snd (nextIsn t g)) = config t.
Proof. unfold nextIsn. destruct g; [|done]. by destruct (bool_decide _). Qed.

Lemma handle_config t key seg now g res t' : handle t key seg now g = Some (res, t') -> config t' = config t.
Proof.
  unfold handle. destruct (map_find (connections t) key) as [c|].
  - destruct (state c).
    2: { intros H. injection H as H. revert H. unfold handleSynReceived.
         repeat (match goal with |- context [if ?b then _ else _] => destruct b end; try (by intros [= <- <-])).
         destruct (retireAcknowledged _ _ _). by intros [= <- <-]. }
    all: match goal with
         | |- context [handleSynSent] => destruct (handleSynSent key c seg now) as [[r c']|]
         | |- context [handleSynchronized] => destruct (handleSynchronized key c seg now) as [[r c']|]
         | _ => destruct (handleTimeWait key c seg now) as [r c']
         end; cbn [mbind option_bind]; try done; intros [= <- <-]; apply update_config.
  - unfold handleUnknown. destruct (negb _); [destruct (rst (flags seg)); by intros [= <- <-]|].
    destruct (rst (flags seg)); [by intros [= <- <-]|]. destruct (_ || _); [by intros [= <- <-]|].
    destruct (parseTcpOptions _) as [[o|]|]; cbn [mbind option_bind]; [|by intros [= <- <-] | done].
    destruct (negb _); [by intros [= <- <-]|]. destruct (at_capacity t); [by intros [= <- <-]|].
    pose proof (nextIsn_config t g). destruct (nextIsn t g) as [[i|] t1]; by intros [= <- <-].
Qed.

Lemma step_config t t' : step t t' -> config t' = config t.
Proof.
  destruct 1 as [t t' key seg now g res _ _ _ E|t t' key now g res _ E|t t' key data now res _ E
    |t t' key now res E|t t' now res E|t t' now res E].
  - by eapply handle_config.
  - revert E. unfold beginConnect.
    repeat (match goal with |- context [if ?b then _ else _] => destruct b end; try (by intros [= <- <-])).
    pose proof (nextIsn_config t g). destruct (nextIsn t g) as [[i|] t1]; by intros [= <- <-].
  - revert E. unfold makeOutgoingData.
    repeat (match goal with |- context [if ?b then _ else _] => destruct b end; try (by intros [= <- <-])).
    destruct (map_find (connections t) key) as [c|]; [|by intros [= <- <-]].
    repeat (match goal with |- context [if ?b then (mkSendResult _ _ _, _) else _] => destruct b end; try (by intros [= <- <-])).
    destruct (scheduleQueuedData _ _ _). by intros [= <- <-].
  - revert E. unfold beginClose. destruct (map_find (connections t) key) as [c|]; [|by intros [= <- <-]].
    destruct (_ && _); [by intros [= <- <-]|]. destruct (maybeSequenceFin _ _ _). by intros [= <- <-].
  - revert E. unfold pollRetransmissions. destruct (pollRetransmissions_loop _ _). by intros [= <- <-].
  - revert E. unfold pollPersistProbes. destruct (pollPersist_loop _ _). by intros [= <- <-].
Qed.

Lemma reachable_config port n h t : reachable port n h t -> config t = (port, n, h).
Proof. induction 1 as [|t t' _ IH Hs]; [done|]. by rewrite (step_config _ _ Hs). Qed.

(** C3: in every reachable table the number of connections and of half-open
    connections stays within the configured limits, every connection
    satisfies its invariant, and so holds a bounded amount of data: at most
    256 KiB of unacknowledged bytes, 128 reassembly fragments with at most
    262140 bytes, segments of at most one MSS with at most five timeout
    retransmissions, an RTO between one and sixty seconds, a congestion
    window between one segment and 2^30, and an outstanding sequence range
    that is exactly the length of its retransmission queue. *)
Theorem reachable_table_invariant port n h t :
  reachable port n h t ->
  Zlen (connections t) <= Z.max 0 n /\ halfOpenCount t <= Z.max 0 h /\
  forall key c, map_find (connections t) key = Some c -> conn_ok c /\ within_limits c.
Proof.
  intros Hr. pose proof (reachable_config _ _ _ _ Hr) as Hc. unfold config in Hc. simplify_eq.
  apply reachable_ok in Hr as Ht. split_and!; [apply Ht | apply Ht |].
  intros key c Hf. pose proof (table_find t Ht key c Hf). auto using conn_limits.
Qed.

Lemma reachable_table_invariant_witness :
  reachable 80 4 2 Sample.table2 /\ Zlen (connections Sample.table2) <= 4.
Proof.
  split; [apply Sample.table2_reachable|].
  exact (proj1 (reachable_table_invariant 80 4 2 Sample.table2 Sample.table2_reachable)).
Defined.

(** C4: in a reachable table, processing any well-formed segment whose
    sequence number lies within 2^31 - 2^19 of the connection's next expected
    byte reads no memory outside the segment's buffers -- whatever its flags,
    acknowledgement, options and payload -- and leads to a reachable table
    again. *)
Theorem handle_stays_in_bounds port n h t key seg now g :
  reachable port n h t -> segment_ok seg -> isn_ok g ->
  (forall c, map_find (connections t) key = Some c -> half_open c = false -> plausible c seg) ->
  exists res t', handle t key seg now g = Some (res, t') /\ reachable port n h t'.
Proof.
  intros Hr Hs Hg Hp. apply reachable_ok in Hr as Ht.
  destruct (handle_ok t key seg now g Ht Hg Hs Hp) as (res & t' & E & _).
  exists res, t'. split; [done|]. eapply reachable_step; [done|]. by eapply step_segment.
Qed.

Lemma handle_stays_in_bounds_witness :
  exists res t', handle Sample.table2 Sample.key (Sample.data_segment 1001 [104; 105]) 20 None = Some (res, t') /\
    reachable 80 4 2 t'.
Proof.
  apply (handle_stays_in_bounds 80 4 2 Sample.table2 Sample.key (Sample.data_segment 1001 [104; 105]) 20 None).
  - apply Sample.table2_reachable.
  - apply Sample.segment_is_ok; try (by vm_compute). repeat constructor; lia.
  - done.
  - intros c Hc _. rewrite Sample.connection_found in Hc. injection Hc as <-. vm_compute. split; discriminate.
Defined.

