(* ===== verification/TcpStream.v ===== *)
(** * Reliable in-order delivery

    The receive side of a connection against its specification: however the
    network reorders, duplicates, cuts or loses the peer's segments, what the
    handler hands to the application is a prefix of the peer's byte stream,
    and the end of the stream is reported only after all of it. *)

From S2P Require Import Prelude StdMap Addresses Tcp SeqNum TcpState TcpCongestion.
From S2P Require Import TcpSegments TcpSender TcpReceiver TcpHandler TcpTable TcpInvariant TcpProperties.

Section Delivery.
(** The peer's stream: [data] starts at position [R0], its FIN follows it. *)
Context (key : TcpConnectionKey) (R0 : Z) (data : list Z).
Let F := R0 + Zlen data.

(** A segment the peer may send: a slice of the stream, with FIN only at its end. *)
Definition peer_segment (pos : Z) (seg : TcpSegment) : Prop :=
  R0 <= pos /\ sequence_number seg = u32 pos /\
  (forall k b, payload seg !! k = Some b -> data !! (Z.to_nat (pos - R0) + k)%nat = Some b) /\
  pos + Zlen (payload seg) <= F /\ (fin (flags seg) = true -> pos + Zlen (payload seg) = F).

(** [receives R c out closed c']: from receive position [R] the connection
    processes some segments, interleaved with local operations that leave
    its receive side alone; [out] is what was delivered, [closed] tells
    whether the end of the stream was reported. *)
Inductive receives : Z -> Connection -> list Z -> bool -> Connection -> Prop :=
| receives_nil R c : receives R c [] false c
| receives_segment R c pos seg now res c1 out closed c' :
    pending_removal c = false -> state c <> TimeWait ->
    segment_ok seg -> peer_segment pos seg -> seq_plausible R pos ->
    handleSynchronized key c seg now = Some (res, c1) ->
    receives (R + Zlen (accepted_payload res) + (if peer_closed res then 1 else 0)) c1 out closed c' ->
    receives R c (accepted_payload res ++ out) (peer_closed res || closed) c'
| receives_local R c c1 out closed c' :
    pending_removal c = false -> recv_part c1 = recv_part c ->
    (forall runs, sync_ok R runs c -> sync_ok R runs c1) ->
    receives R c1 out closed c' -> receives R c out closed c'.

(** The stream as a function of the position, with a non-byte outside it. *)
Definition stream (p : Z) : Z := if p <? R0 then -1 else default (-1) (data !! Z.to_nat (p - R0)).

Lemma stream_byte p b : stream p = b -> is_u8 b -> R0 <= p < F /\ data !! Z.to_nat (p - R0) = Some b.
Proof.
  unfold stream, F. intros H Hb. destruct (Z.ltb_spec p R0); [subst; unfold is_u8 in Hb; lia|].
  destruct (data !! Z.to_nat (p - R0)) as [x|] eqn:E; simpl in H; [|subst; unfold is_u8 in Hb; lia].
  subst x. split; [|done]. apply lookup_lt_Some in E. unfold Zlen. lia.
Qed.

(** What receiving from position [R] needs of a segment: the bytes from [R]
    on are the stream's, and a FIN is at its end. *)
Definition fits (R pos : Z) (seg : TcpSegment) : Prop :=
  sequence_number seg = u32 pos /\
  (forall k b, payload seg !! k = Some b -> R <= pos + Z.of_nat k -> data !! Z.to_nat (pos + Z.of_nat k - R0) = Some b) /\
  (fin (flags seg) = true -> pos + Zlen (payload seg) = F).

Lemma peer_segment_fits R pos seg : peer_segment pos seg -> fits R pos seg.
Proof.
  intros (Hp & Hs & Hb & _ & Hf). split_and!; auto. intros k b Hk _. apply Hb in Hk. rewrite <- Hk. f_equal. lia.
Qed.

Lemma fits_stream R pos seg : R0 <= R -> fits R pos seg ->
  forall k b, payload seg !! k = Some b -> R <= pos + Z.of_nat k -> b = stream (pos + Z.of_nat k).
Proof.
  intros HR (_ & Hs & _) k b Hk Hge. apply Hs in Hk; [|done]. unfold stream.
  destruct (Z.ltb_spec (pos + Z.of_nat k) R0); [lia|]. by rewrite Hk.
Qed.

(** Bytes delivered from position [R] are the stream's bytes from there. *)
Lemma delivered_slice R l : R0 <= R -> bytes_ok l -> l = stream_bytes stream R (length l) ->
  l = take (length l) (drop (Z.to_nat (R - R0)) data) /\ (l = [] \/ R + Zlen l <= F).
Proof.
  intros HR Hb Hl.
  assert (Hk : forall k b, l !! k = Some b -> R + Z.of_nat k < F /\ data !! (Z.to_nat (R - R0) + k)%nat = Some b).
  { intros k b Hk. pose proof (Forall_lookup_1 _ _ _ _ Hb Hk) as Hb8. rewrite Hl in Hk.
    apply stream_bytes_lookup in Hk. symmetry in Hk. destruct (stream_byte _ _ Hk Hb8) as [? E]. split; [lia|].
    rewrite <- E. f_equal. lia. }
  split.
  - apply list_eq. intros k. destruct (l !! k) as [b|] eqn:E.
    + symmetry. rewrite lookup_take_lt by (by apply lookup_lt_Some in E). rewrite lookup_drop. by apply Hk.
    + symmetry. apply lookup_take_ge. by apply lookup_ge_None in E.
  - destruct l as [|x l']; [by left|]. right.
    destruct (lookup_lt_is_Some_2 (x :: l') (length l')) as [b E]; [simpl; lia|].
    apply Hk in E. rewrite Zlen_cons. unfold Zlen. lia.
Qed.

Record position_ok (R : Z) (runs : list run) (c : Connection) : Prop := {
  po_sync : sync_ok R runs c;
  po_content : content stream R runs;
  po_range : R0 <= R <= F + 1;
  po_fin : forall f, pending_fin_seq c = Some f -> f = u32 F /\ F - R < 2 ^ 32
}.

(** One segment. *)
Lemma position_step R runs c pos seg now res c1 :
  position_ok R runs c -> pending_removal c = false -> state c <> TimeWait ->
  segment_ok seg -> fits R pos seg -> seq_plausible R pos ->
  handleSynchronized key c seg now = Some (res, c1) ->
  (pending_removal c1 = true /\ accepted_payload res = [] /\ peer_closed res = false) \/
  (exists R' rest, R' = R + Zlen (accepted_payload res) + (if peer_closed res then 1 else 0) /\
     position_ok R' rest c1 /\
     accepted_payload res = take (length (accepted_payload res)) (drop (Z.to_nat (R - R0)) data) /\
     (peer_closed res = true -> R + Zlen (accepted_payload res) = F) /\
     (peer_closed res || has_value (pending_fin_seq c1) = true -> has_value (pending_fin_seq c) || fin (flags seg) = true)).
Proof.
  intros [P1 P2 P3 P4] Hr Htw Hseg Hfit Hpl E. pose proof Hfit as (Hp2 & _ & Hp5).
  destruct (handleSynchronized_spec key R runs c seg pos now P1 Hr Htw Hseg Hp2 Hpl) as (res' & c' & E' & H).
  rewrite E in E'. injection E' as <- <-.
  destruct H as [(_ & _ & -> & ->)|(n & c0 & R' & rest & Hack & Hrv & _)]; [by left|]. right.
  exists R', rest. destruct Hrv as [V1 V2 V3 V4 V5 V6 V7 _ V8 V9 V10].
  destruct (V5 stream P2 (fits_stream R pos seg ltac:(lia) Hfit)) as [W1 W2].
  destruct (delivered_slice R (accepted_payload res)) as [D1 D2]; [lia | done | done |].
  assert (Hf0 : pending_fin_seq c0 = pending_fin_seq c) by (pose proof (ak_recv _ _ _ Hack) as Hx; unfold recv_part in Hx; congruence).
  rewrite Hf0 in V6. pose proof (Zlen_nonneg (accepted_payload res)) as Hn. pose proof (sg_len _ Hseg).
  unfold seq_plausible in Hpl.
  assert (Hclosed : peer_closed res = true -> R + Zlen (accepted_payload res) = F).
  { intros Hc. assert (Hu : u32 (R + Zlen (accepted_payload res)) = u32 F /\ F - R < 2 ^ 32).
    { destruct (V6 Hc) as [Hx|[Hx1 Hx2]].
      - destruct (P4 _ Hx). split; [congruence | done].
      - rewrite <- (Hp5 Hx1). split; [done | lia]. }
    destruct Hu as [Hu Hd]. apply u32_eq_near; [done|].
    destruct D2 as [D2|D2]; [rewrite D2 in *; change (Zlen []) with 0 in *|]; lia. }
  split; [done|]. split_and!; auto; [|intros Hc; rewrite <- Hf0; destruct (peer_closed res) eqn:Ec; simpl in Hc;
    [destruct (V6 eq_refl) as [Hx|[-> _]]; [rewrite Hf0, Hx | rewrite orb_true_r]; done |
     destruct (pending_fin_seq c1) as [f|] eqn:Ef; [destruct (V7 f eq_refl) as [->|[-> _]]; [|rewrite orb_true_r]|]; done]].
  constructor; auto.
  - destruct (peer_closed res) eqn:Ec; [specialize (Hclosed eq_refl); lia|].
    destruct D2 as [D2|D2]; [rewrite D2 in *; change (Zlen []) with 0 in *|]; lia.
  - intros f Hf. destruct (V7 f Hf) as [Hx|[Hx1 ->]].
    + rewrite Hf0 in Hx. destruct (P4 f Hx). split; [done|]. destruct (peer_closed res); lia.
    + rewrite (Hp5 Hx1). split; [done|]. specialize (Hp5 Hx1). destruct (peer_closed res); lia.
Qed.

Lemma receives_removed R c out closed c' : pending_removal c = true -> receives R c out closed c' ->
  out = [] /\ closed = false.
Proof. intros Hr H. destruct H; [done | congruence | congruence]. Qed.

Lemma receives_slice R runs c out closed c' :
  receives R c out closed c' -> position_ok R runs c ->
  out = take (length out) (drop (Z.to_nat (R - R0)) data) /\
  (closed = true -> R + Zlen out = F).
Proof.
  intros H. revert runs. induction H as [R c|R c pos seg now res c1 out closed c' H1 H2 H3 H4 H5 E Hrest IH
    |R c c1 out closed c' H1 H2 H3 Hrest IH]; intros runs Hpos; [done| |].
  - destruct (position_step R runs c pos seg now res c1 Hpos H1 H2 H3 (peer_segment_fits R _ _ H4) H5 E)
      as [(Hrm & Ha & Hc)|(R' & rest & -> & Hok & Hs & Hc & _)].
    { destruct (receives_removed _ _ _ _ _ Hrm Hrest) as [-> ->]. by rewrite Ha, Hc. }
    destruct (IH rest Hok) as [I1 I2]. pose proof (po_range _ _ _ Hpos).
    set (a := accepted_payload res) in *. rewrite length_app, Zlen_app.
    destruct (peer_closed res).
    + specialize (Hc eq_refl). assert (Hout : out = []).
      { rewrite I1, drop_ge; [apply take_nil|]. unfold F, Zlen in *. lia. }
      rewrite Hout, app_nil_r. simpl. rewrite Nat.add_0_r. split; [done|]. intros _. change (Zlen []) with 0. lia.
    + rewrite Z.add_0_r in I1, I2. split.
      * rewrite Hs at 1. rewrite I1 at 1. rewrite <- take_take_drop. f_equal. f_equal. rewrite drop_drop. f_equal.
        unfold Zlen. lia.
      * simpl. intros Hcl. specialize (I2 Hcl). lia.
  - apply (IH runs). destruct Hpos as [P1 P2 P3 P4]. constructor; auto.
    intros f Hf. apply P4. unfold recv_part in H2. congruence.
Qed.
End Delivery.



(** ** The fragment limit *)


Lemma with_fragments_ok R c runs : sync_ok R [] c -> runs_ok 1 0 kTcpReceiveCapacity runs ->
  Zlen runs <= kMaxReassemblyFragments -> sync_ok R runs (c <| out_of_order := map (frag_at R) runs |>).
Proof.
  intros [S1 S2 S3 S4 S5 S6] Hr Hn. constructor; auto; [by apply (sender_ok_part c)|].
  constructor; simpl; auto. apply S2.
Qed.

(** Single bytes at every other position after the missing one. *)
Definition scattered : list run := map (fun k => (2 + 2 * Z.of_nat k, [120])) (seq 0 128).

Lemma scattered_ok : runs_ok 1 1 kTcpReceiveCapacity scattered.
Proof.
  assert (H : forall n k lo hi, lo <= 2 + 2 * Z.of_nat k -> 2 + 2 * Z.of_nat (k + n) <= hi ->
    runs_ok 1 lo hi (map (fun k => (2 + 2 * Z.of_nat k, [120])) (seq k n))).
  { induction n as [|n IH]; intros k lo hi Hlo Hhi; [done|]. cbn [seq map runs_ok].
    unfold run_end. cbn [fst snd]. change (Zlen [120]) with 1.
    split_and!; [lia | done | by repeat constructor | lia |]. apply IH; lia. }
  apply H; consts; lia.
Qed.

