(* ===== verification/TcpStates.v ===== *)
(** * The connection state machine

    Which state changes the operations of the connection table can make, for
    every table and every input: the edges of the TCP diagram, composed when
    one segment both acknowledges the local FIN and carries the peer's. *)

From S2P Require Import Prelude StdMap Addresses Tcp SeqNum TcpState TcpCongestion.
From S2P Require Import TcpSegments TcpSender TcpReceiver TcpHandler TcpTable TcpInvariant TcpProperties.

(** The local FIN is acknowledged. *)
Inductive ack_edge : TcpState -> TcpState -> Prop :=
| ack_stay s : ack_edge s s
| ack_fin_wait : ack_edge FinWait1 FinWait2
| ack_closing : ack_edge Closing TimeWait.

(** The peer's FIN is consumed. *)
Inductive peer_edge : TcpState -> TcpState -> Prop :=
| peer_stay s : peer_edge s s
| peer_established : peer_edge Established CloseWait
| peer_fin_wait1 : peer_edge FinWait1 Closing
| peer_fin_wait2 : peer_edge FinWait2 TimeWait.

(** The local FIN is sequenced. *)
Inductive close_edge : TcpState -> TcpState -> Prop :=
| close_stay s : close_edge s s
| close_established : close_edge Established FinWait1
| close_close_wait : close_edge CloseWait LastAck.

(** ** The stages of the synchronized handler *)

Lemma retireAcknowledged_state c a now res c' : retireAcknowledged c a now = (res, c') -> state c' = state c.
Proof.
  intros H. destruct (sequenceGreater a (snd_una c)) eqn:Hg.
  - destruct (retireAcknowledged_frame c a now res c' H Hg) as (l & s & v & o & h & -> & _). done.
  - unfold retireAcknowledged in H. rewrite Hg in H. by injection H as <- <-.
Qed.

Lemma processAck_state c seg blocks now res ch c' : processAck c seg blocks now = (res, ch, c') -> state c' = state c.
Proof.
  unfold processAck. destruct (retireAcknowledged c _ now) as [r c1] eqn:E. apply retireAcknowledged_state in E.
  intros [= <- <- <-]. rewrite <- E. unfold updateSendWindow.
  assert (Hs : state (if sack_permitted c1 then applySackBlocks c1 (acknowledgment_number seg) blocks else c1) = state c1).
  { destruct (sack_permitted c1); [|done]. unfold applySackBlocks. by destruct (empty _). }
  by destruct (negb _).
Qed.

Lemma recoveryRetransmit_state key c now s c' : recoveryRetransmit key c now = (s, c') -> state c' = state c.
Proof. intros H. apply recoveryRetransmit_remarked in H as (l & -> & _). done. Qed.

Lemma applyCongestionGrowth_state c n : state (applyCongestionGrowth c n) = state c.
Proof.
  unfold applyCongestionGrowth. destruct (_ =? 0); [done|]. destruct (_ <? _); [done|]. by destruct (avoidance_loop _ _ _ _).
Qed.

Lemma congestionStep_state key c seg res ch now s c' : congestionStep key c seg res ch now = (s, c') -> state c' = state c.
Proof.
  unfold congestionStep, beginFastRecovery. destruct (ack_advanced res).
  - destruct (in_fast_recovery _); [destruct (sequenceLessOrEqual _ _)|].
    + by intros [= <- <-].
    + intros H. apply recoveryRetransmit_state in H. by rewrite H.
    + intros [= <- <-]. by rewrite applyCongestionGrowth_state.
  - destruct (isDuplicateAck _ _ _); [|destruct ch; by intros [= <- <-]].
    destruct (in_fast_recovery _); [destruct (sack_permitted _)|destruct (_ =? 3)]; try (by intros [= <- <-]);
      intros H; apply recoveryRetransmit_state in H; by rewrite H.
Qed.

Lemma localFinStep_edge c now : ack_edge (state c) (state (localFinStep c now)).
Proof.
  unfold localFinStep. set (b := match local_fin_seq c with Some _ => _ | None => _ end). clearbody b.
  destruct (state c) eqn:E, b; simpl; rewrite ?E; constructor.
Qed.

Lemma scheduleIfSendable_edge key c now segs c' : scheduleIfSendable key c now = (segs, c') ->
  close_edge (state c) (state c').
Proof.
  unfold scheduleIfSendable.
  destruct (negb _ && _) eqn:E.
  2: { destruct (updatePersistState_frame c now) as (d & i & -> & _). intros [= <- <-]. constructor. }
  bprop. unfold scheduleQueuedData.
  match goal with |- context [if 0 <? ?n then ?a else ?b] => set (data := if 0 <? n then a else b) end.
  assert (Hd : state (snd data) = state c).
  { unfold data. destruct (0 <? _); [|done]. by destruct (schedule_loop _ _ _ _ _ _ _ _) as [[? ?] ?]. }
  destruct data as [s1 c1]. simpl in Hd.
  assert (Hf : forall s2 c2, (if empty (unsent c1) then maybeSequenceFin key c1 now else ([], c1)) = (s2, c2) ->
    state c2 = state c1 \/ state c2 = fin_state (state c1)).
  { intros s2 c2. destruct (empty _); [rewrite maybeSequenceFin_cases; destruct (fin_due c1)|];
      intros [= <- <-]; auto. }
  destruct (if empty (unsent c1) then _ else _) as [s2 c2]. specialize (Hf s2 c2 eq_refl).
  destruct (updatePersistState_frame c2 now) as (d & i & -> & _). intros [= <- <-]. simpl.
  rewrite Hd in Hf. destruct Hf as [-> | ->]; [constructor|]. unfold fin_state.
  destruct (state c); simpl in *; try constructor; by destruct H0.
Qed.

Lemma deliver_edge c now out closed c' : deliver c now = (out, closed, c') ->
  if closed then peer_edge (state c) (state c') else state c' = state c.
Proof.
  unfold deliver, releaseContiguous. destruct (release_loop _ _) as [[o n] l].
  simpl pending_fin_seq. destruct (pending_fin_seq c) as [f|]; [|by intros [= <- <- <-]].
  destruct (_ =? _); intros [= <- <- <-]; [|done].
  destruct (state c) eqn:E; simpl; rewrite ?E; simpl; constructor.
Qed.

(** A path of the synchronized handler through its three stages. *)
Definition sync_path (a b : TcpState) : Prop := exists x y, ack_edge a x /\ peer_edge x y /\ close_edge y b.

Lemma sync_path_close a x b : ack_edge a x -> close_edge x b -> sync_path a b.
Proof. intros H1 H2. exists x, x. split_and!; auto. constructor. Qed.

Lemma receiveSegment_path key c seg s now res c' a : ack_edge a (state c) ->
  receiveSegment key c seg s now = Some (res, c') -> sync_path a (state c').
Proof.
  intros Ha. unfold receiveSegment. cbv zeta. destruct (_ && _).
  { unfold finishOutside. destruct (scheduleIfSendable key c now) as [segs c1] eqn:E.
    intros [= <- <-]. apply scheduleIfSendable_edge in E. by eapply sync_path_close. }
  match goal with |- context [mbind _ ?x] => set (stored := x) end.
  assert (Hs : forall m c1, stored = Some (m, c1) -> state c1 = state c).
  { unfold stored, storePayload. destruct (sequenceGreater _ _); [|by intros ? ? [= <- <-]].
    destruct (subRange _ _ _); [|done]. by intros ? ? [= <- <-]. }
  destruct stored as [[m c1]|]; [|done]. specialize (Hs m c1 eq_refl). cbn [mbind option_bind].
  match goal with |- context [finishReceive key ?x] => set (c2 := x) end.
  assert (H2 : state c2 = state c) by (unfold c2; by destruct (_ && _)). clearbody c2.
  unfold finishReceive. destruct (deliver c2 now) as [[out closed] c3] eqn:Ed. apply deliver_edge in Ed.
  destruct (scheduleIfSendable key c3 now) as [segs c4] eqn:E. apply scheduleIfSendable_edge in E.
  intros [= <- <-]. exists (state c), (state c3). split_and!; auto. rewrite <- H2.
  destruct closed; [done|]. rewrite Ed. constructor.
Qed.

Lemma handleSynchronized_path key c seg now res c' :
  handleSynchronized key c seg now = Some (res, c') -> sync_path (state c) (state c').
Proof.
  unfold handleSynchronized. assert (Hid : sync_path (state c) (state c)) by (exists (state c), (state c); split_and!; constructor).
  destruct (syn (flags seg)); [destruct (negb _); by intros [= <- <-]|].
  destruct (parseTcpOptions _) as [[opts|e]|]; cbn [mbind option_bind]; [|by intros [= <- <-]|done].
  destruct (rst (flags seg)); [destruct (_ =? _); by intros [= <- <-]|].
  destruct (negb (ack _)); [by intros [= <- <-]|]. destruct (negb _); [by intros [= <- <-]|].
  destruct (processAck _ _ _ _) as [[r ch] c1] eqn:E1. apply processAck_state in E1.
  destruct (congestionStep _ _ _ _ _ _) as [s c2] eqn:E2. apply congestionStep_state in E2.
  pose proof (localFinStep_edge c2 now) as Hl. rewrite E2, E1 in Hl.
  destruct (_ && _).
  - unfold finishPureAck. destruct (scheduleIfSendable _ _ _) as [segs c3] eqn:E. apply scheduleIfSendable_edge in E.
    intros [= <- <-]. by eapply sync_path_close.
  - intros H. by eapply receiveSegment_path.
Qed.

(** ** Transitions of the table *)

(** The state a key has before and after a step; [None] is no connection. *)
Inductive transition : option TcpState -> option TcpState -> Prop :=
| tr_stay s : transition s s
| tr_removed s : transition s None
| tr_active_open : transition None (Some SynSent)
| tr_passive_open : transition None (Some SynReceived)
| tr_syn_acked : transition (Some SynSent) (Some Established)
| tr_accepted : transition (Some SynReceived) (Some Established)
| tr_peer_closed : transition (Some Established) (Some CloseWait)
| tr_closed : transition (Some Established) (Some FinWait1)
| tr_both_closed : transition (Some Established) (Some LastAck)
| tr_last_ack : transition (Some CloseWait) (Some LastAck)
| tr_fin_acked : transition (Some FinWait1) (Some FinWait2)
| tr_simultaneous : transition (Some FinWait1) (Some Closing)
| tr_fin_acked_closed : transition (Some FinWait1) (Some TimeWait)
| tr_time_wait : transition (Some FinWait2) (Some TimeWait)
| tr_closing_acked : transition (Some Closing) (Some TimeWait).

Lemma sync_path_transition a b : sync_path a b -> transition (Some a) (Some b).
Proof. intros (x & y & H1 & H2 & H3). destruct H1; inversion H2; subst; inversion H3; subst; constructor. Qed.

Lemma close_edge_transition a b : close_edge a b -> transition (Some a) (Some b).
Proof. destruct 1; constructor. Qed.

Section Tables.
Context (t : TcpConnectionTable) (Hm : map_ok (connections t)).

Lemma stateOf_set key c k :
  stateOf (set_connection t key c) k = if key_eqb k key then Some (state c) else stateOf t k.
Proof. unfold stateOf. simpl. rewrite map_find_set by done. by destruct (key_eqb k key). Qed.

Lemma stateOf_erase key k : stateOf (erase_connection t key) k = if key_eqb k key then None else stateOf t k.
Proof. unfold stateOf. simpl. rewrite map_find_erase by done. by destruct (key_eqb k key). Qed.

Lemma transition_set key c k : transition (stateOf t key) (Some (state c)) ->
  transition (stateOf t k) (stateOf (set_connection t key c) k).
Proof.
  intros H. rewrite stateOf_set. destruct (key_eqb k key) eqn:E; [|constructor]. by apply key_eqb_eq in E as ->.
Qed.

Lemma transition_erase key k : transition (stateOf t k) (stateOf (erase_connection t key) k).
Proof. rewrite stateOf_erase. destruct (key_eqb k key); constructor. Qed.

Lemma transition_update key c k : transition (stateOf t key) (Some (state c)) ->
  transition (stateOf t k) (stateOf (update_connection t key c) k).
Proof.
  intros H. unfold update_connection. destruct (pending_removal c); [apply transition_erase | by apply transition_set].
Qed.
End Tables.

Lemma handleUnknown_transition t key seg now g res t' k :
  map_ok (connections t) -> map_find (connections t) key = None ->
  handleUnknown t key seg now g = Some (res, t') -> transition (stateOf t k) (stateOf t' k).
Proof.
  intros Hm Hf. unfold handleUnknown.
  assert (Hid : forall t2, Some (res, t) = Some (res, t2) -> transition (stateOf t k) (stateOf t2 k))
    by (intros t2 [= <-]; constructor).
  destruct (negb (_ =? _)); [destruct (rst (flags seg)); intros [= <- <-]; constructor|].
  destruct (rst (flags seg)); [intros [= <- <-]; constructor|]. destruct (_ || _); [intros [= <- <-]; constructor|].
  destruct (parseTcpOptions _) as [[opts|e]|]; cbn [mbind option_bind]; [|intros [= <- <-]; constructor|done].
  destruct (negb _); [intros [= <- <-]; constructor|]. destruct (at_capacity t); [intros [= <- <-]; constructor|].
  destruct (nextIsn t g) as [isn t1] eqn:En. apply nextIsn_frame in En as (N1 & _ & _ & _ & N5 & _).
  assert (Hst : forall k, stateOf t1 k = stateOf t k) by (intros; unfold stateOf; by rewrite N1).
  destruct isn as [isn|]; intros [= <- <-]; [|rewrite Hst; constructor].
  rewrite <- Hst. apply transition_set; [by rewrite N1|]. rewrite Hst. unfold stateOf. rewrite Hf. simpl.
  destruct (window_scale opts); constructor.
Qed.

Lemma handleSynReceived_transition t key c seg now res t' k :
  map_ok (connections t) -> map_find (connections t) key = Some c -> state c = SynReceived ->
  handleSynReceived t key c seg now = (res, t') -> transition (stateOf t k) (stateOf t' k).
Proof.
  intros Hm Hf Hst. assert (Hk : stateOf t key = Some SynReceived) by (unfold stateOf; rewrite Hf; simpl; by rewrite Hst).
  unfold handleSynReceived.
  destruct (rst (flags seg)); [destruct (_ =? _); intros [= <- <-]; [by apply transition_erase | constructor]|].
  destruct (syn (flags seg) && _).
  { destruct (_ =? _); intros [= <- <-]; [|constructor]. apply transition_set; [done|]. rewrite Hk. simpl. rewrite Hst. constructor. }
  destruct (ack (flags seg) && _); [|intros [= <- <-]; constructor]. destruct (_ && _); [|intros [= <- <-]; constructor].
  destruct (retireAcknowledged _ _ _) as [rr c'] eqn:E. apply retireAcknowledged_state in E. intros [= <- <-].
  apply transition_set; [done|]. rewrite Hk. simpl. rewrite E. constructor.
Qed.

Lemma handleSynSent_state key c seg now res c' : state c = SynSent -> handleSynSent key c seg now = Some (res, c') ->
  transition (Some SynSent) (Some (state c')).
Proof.
  intros Hst. unfold handleSynSent.
  assert (Hid : transition (Some SynSent) (Some (state c))) by (rewrite Hst; constructor).
  destruct (parseTcpOptions _) as [[opts|e]|]; cbn [mbind option_bind]; [|by intros [= <- <-]|done].
  destruct (rst (flags seg)); [destruct (_ && _); by intros [= <- <-]|].
  destruct (negb (syn _)); [by intros [= <- <-]|]. destruct (negb (ack _)); [by intros [= <- <-]|].
  destruct (_ || _); [by intros [= <- <-]|]. destruct (negb _); [by intros [= <- <-]|].
  destruct (retireAcknowledged _ _ _) as [rr c1] eqn:E. apply retireAcknowledged_state in E.
  intros [= <- <-]. simpl. rewrite E. constructor.
Qed.

Lemma handle_transition t key seg now g res t' k :
  map_ok (connections t) -> handle t key seg now g = Some (res, t') -> transition (stateOf t k) (stateOf t' k).
Proof.
  intros Hm. unfold handle. destruct (map_find (connections t) key) as [c|] eqn:Ef.
  2: { intros H. by eapply handleUnknown_transition. }
  assert (Hk : stateOf t key = Some (state c)) by (unfold stateOf; by rewrite Ef).
  assert (Hsync : forall r c', handleSynchronized key c seg now = Some (r, c') ->
    transition (stateOf t k) (stateOf (update_connection t key c') k)).
  { intros r c' H. apply handleSynchronized_path in H. apply transition_update; [done|]. rewrite Hk. by apply sync_path_transition. }
  destruct (state c) eqn:Es.
  1: { destruct (handleSynSent key c seg now) as [[r c']|] eqn:E; cbn [mbind option_bind]; [|done].
       intros [= <- <-]. apply transition_update; [done|]. rewrite Hk. by eapply handleSynSent_state. }
  1: { intros H. injection H as H. by eapply handleSynReceived_transition. }
  all: try (destruct (handleSynchronized key c seg now) as [[r c']|] eqn:E; cbn [mbind option_bind]; [|done];
            intros [= <- <-]; by eapply Hsync).
  unfold handleTimeWait. intros H. assert (Hs : forall r c', state c' = TimeWait -> Some (r, update_connection t key c') = Some (res, t') ->
    transition (stateOf t k) (stateOf t' k)).
  { intros r c' Hc [= _ <-]. apply transition_update; [done|]. rewrite Hk, Hc. constructor. }
  repeat match type of H with context [if ?b then _ else _] => destruct b end; by eapply Hs in H.
Qed.

Lemma schedule_edge key c now segs c' : sendable (state c) = true -> pending_removal c = false ->
  scheduleQueuedData key c now = (segs, c') -> close_edge (state c) (state c').
Proof.
  intros Hs Hr H. apply (scheduleIfSendable_edge key c now segs). unfold scheduleIfSendable.
  fold (sendable (state c)). by rewrite Hs, Hr.
Qed.

Lemma makeOutgoingData_transition t key p now res t' k :
  table_ok t -> bytes_ok p -> makeOutgoingData t key p now = (res, t') -> transition (stateOf t k) (stateOf t' k).
Proof.
  intros Ht Hb E. pose proof (tk_map _ Ht) as Hm. revert E. unfold makeOutgoingData.
  destruct (empty p); [intros [= <- <-]; constructor|]. destruct (_ <? _); [intros [= <- <-]; constructor|].
  destruct (map_find (connections t) key) as [c|] eqn:Ef; [|intros [= <- <-]; constructor].
  rewrite <- negb_orb. fold (sendable (state c)). destruct (sendable (state c)) eqn:Es; cbn [negb];
    [|intros [= <- <-]; constructor].
  destruct (close_requested c); [intros [= <- <-]; constructor|]. destruct (_ <? _); [intros [= <- <-]; constructor|].
  destruct (scheduleQueuedData _ _ _) as [segs c'] eqn:E. intros [= <- <-]. apply transition_set; [done|].
  unfold stateOf. rewrite Ef. simpl. apply close_edge_transition.
  set (c1 := c <| unsent := unsent c ++ p |>) in E. change (state c) with (state c1).
  apply (schedule_edge key c1 now segs c'); [exact Es | | exact E]. change (pending_removal c = false).
  destruct (table_find t Ht key c Ef) as [K|[K|(Hr & _)]]; [apply K | apply K | done].
Qed.

Lemma beginClose_transition t key now res t' k :
  table_ok t -> beginClose t key now = (res, t') -> transition (stateOf t k) (stateOf t' k).
Proof.
  intros Ht E. destruct (beginClose_cases _ _ _ _ _ Ht E) as
    [[-> _]|(c & c' & R & runs & Hf & _ & _ & _ & -> & Hs & _ & _ & _ & Hst & _)]; [constructor|].
  apply transition_set; [apply Ht|]. unfold stateOf. rewrite Hf. simpl. rewrite Hst.
  apply close_edge_transition. destruct (has_value _); [|constructor]. unfold fin_state.
  destruct (state c); simpl in *; try done; constructor.
Qed.

Lemma pollConnection_state key c now seg c' : pollConnection key c now = Retransmitted seg c' -> state c' = state c.
Proof.
  unfold pollConnection. destruct (state_eqb _ _); [destruct (time_wait_deadline c) as [d|]; [destruct (d <=? now)|]; done|].
  destruct (pending c) as [|e l]; [done|]. destruct (now <? _); [done|]. destruct (_ <=? _); [done|].
  destruct (_ && _).
  - destruct (pending (applyTimeoutCongestionCollapse c)); [done|]. by intros [= <- <-].
  - destruct (pending c); [done|]. by intros [= <- <-].
Qed.

(** A due timer retransmits or removes; it never changes a state. *)
Lemma pollRetransmissions_find now l res l' k : pollRetransmissions_loop now l = (res, l') -> map_ok l ->
  match map_find l k with
  | None => map_find l' k = None
  | Some c => map_find l' k = match pollConnection k c now with
                              | Idle => Some c
                              | Retransmitted _ c' => Some c'
                              | TimedOut | TimeWaitExpired => None
                              end
  end.
Proof.
  revert res l'. induction l as [|[k1 c1] l IH]; intros res l'; simpl; [by intros [= <- <-]|].
  destruct (pollRetransmissions_loop now l) as [r l1] eqn:El. intros E Hm. apply map_ok_cons in Hm as [Hk Hm].
  specialize (IH r l1 eq_refl Hm). destruct (key_eqb k k1) eqn:Ek.
  - apply key_eqb_eq in Ek as ->. rewrite (map_find_not_in l k1 Hk) in IH.
    destruct (pollConnection k1 c1 now); injection E as <- <-; simpl; rewrite ?key_eqb_refl; done.
  - destruct (pollConnection k1 c1 now); injection E as <- <-; simpl; rewrite ?Ek; done.
Qed.

Lemma pollPersist_find now l ps l' k : pollPersist_loop now l = (ps, l') ->
  match map_find l k with
  | None => map_find l' k = None
  | Some c => map_find l' k = Some (snd (persistProbe k c now))
  end.
Proof.
  revert ps l'. induction l as [|[k1 c1] l IH]; intros ps l'; simpl; [by intros [= <- <-]|].
  destruct (persistProbe k1 c1 now) as [s c'] eqn:Ep. destruct (pollPersist_loop now l) as [r l1].
  intros [= <- <-]. specialize (IH r l1 eq_refl). simpl. destruct (key_eqb k k1) eqn:Ek; [|done].
  apply key_eqb_eq in Ek as ->. by rewrite Ep.
Qed.

(** C7: every step of a reachable table moves every connection along an edge
    of the TCP state diagram: a connection is only created in [SynSent] or
    [SynReceived], reaches the other states in the order of the diagram, and
    can disappear from any state; no other change of state is possible. *)
Theorem state_diagram port n h t t' k :
  reachable port n h t -> step t t' -> transition (stateOf t k) (stateOf t' k).
Proof.
  intros Hr Hs. apply reachable_ok in Hr as Ht. pose proof (tk_map _ Ht) as Hm.
  destruct Hs as [t t' key seg now g res _ _ _ E|t t' key now g res _ E|t t' key data now res Hb E
    |t t' key now res E|t t' now res E|t t' now res E].
  - by eapply handle_transition.
  - revert E. unfold beginConnect. destruct (_ || _); [intros [= <- <-]; constructor|].
    destruct (map_contains _ _) eqn:Ec; [intros [= <- <-]; constructor|]. destruct (at_capacity t); [intros [= <- <-]; constructor|].
    destruct (nextIsn t g) as [isn t1] eqn:En. apply nextIsn_frame in En as (N1 & _).
    assert (Hst : forall k, stateOf t1 k = stateOf t k) by (intros; unfold stateOf; by rewrite N1).
    destruct isn as [isn|]; intros [= <- <-]; [|rewrite Hst; constructor].
    rewrite <- Hst. apply transition_set; [by rewrite N1|]. rewrite Hst. unfold stateOf.
    unfold map_contains in Ec. destruct (map_find _ _); [done|]. constructor.
  - by eapply makeOutgoingData_transition.
  - by eapply beginClose_transition.
  - revert E. unfold pollRetransmissions. destruct (pollRetransmissions_loop _ _) as [r l] eqn:El. intros [= <- <-].
    pose proof (pollRetransmissions_find _ _ _ _ k El Hm) as Hf. unfold stateOf. simpl.
    destruct (map_find (connections t) k) as [c|]; [|rewrite Hf; constructor]. rewrite Hf.
    destruct (pollConnection k c now) eqn:Ep; simpl; try constructor.
    apply pollConnection_state in Ep as ->. constructor.
  - revert E. unfold pollPersistProbes. destruct (pollPersist_loop _ _) as [r l] eqn:El. intros [= <- <-].
    pose proof (pollPersist_find _ _ _ _ k El) as Hf. unfold stateOf. simpl.
    destruct (map_find (connections t) k) as [c|]; [|rewrite Hf; constructor]. rewrite Hf. simpl.
    destruct (persistProbe k c now) as [s c'] eqn:Ep. destruct (persistProbe_frame _ _ _ _ _ Ep) as (d & i & ->). constructor.
Qed.

Lemma state_diagram_witness :
  stateOf Sample.table1 Sample.key = Some SynReceived /\ stateOf Sample.table2 Sample.key = Some Established /\
  transition (stateOf Sample.table1 Sample.key) (stateOf Sample.table2 Sample.key).
Proof.
  split; [by vm_compute|]. split; [by vm_compute|].
  apply (state_diagram 80 4 2 Sample.table1 Sample.table2 Sample.key Sample.table1_reachable Sample.step12).
Defined.
