(* ===== verification/TcpTimers.v ===== *)
(** * Timers

    The two polls and the deadlines that drive them: a poll before the
    reported deadline does nothing and one at the deadline does something;
    what a retransmission carries; and that queued data is never left without
    a timer. *)

From S2P Require Import Prelude StdMap Addresses Tcp SeqNum TcpState TcpCongestion.
From S2P Require Import TcpSegments TcpSender TcpReceiver TcpHandler TcpTable TcpInvariant TcpProperties.

(** ** Deadlines *)

(** A poll acts on a connection exactly when its deadline has passed. *)
Lemma pollConnection_due key c now :
  pollConnection key c now = Idle <-> (forall d, connectionDeadline c = Some d -> now < d).
Proof.
  unfold pollConnection, connectionDeadline. destruct (state_eqb (state c) TimeWait).
  - destruct (time_wait_deadline c) as [d|]; [|done]. destruct (Z.leb_spec d now) as [Hd|Hd]; split; try done.
    + intros H'. specialize (H' d eq_refl). lia.
    + intros _ ? [= <-]. done.
  - destruct (pending c) as [|e l] eqn:Ep; [done|]. destruct (Z.ltb_spec now (last_sent_at e + timeout_interval e)).
    { split; [|done]. intros _ ? [= <-]. done. }
    split; [|intros H'; specialize (H' _ eq_refl); lia].
    destruct (_ <=? _); [done|]. destruct (_ && _).
    + unfold applyTimeoutCongestionCollapse. simpl. rewrite Ep. done.
    + rewrite Ep. done.
Qed.

Definition nothing_polled : TcpTimeoutPollResult := mkTimeoutPoll [] [] [].

Lemma poll_loop_idle now l : Forall (fun p => pollConnection (fst p) (snd p) now = Idle) l <->
  pollRetransmissions_loop now l = (nothing_polled, l) .
Proof.
  induction l as [|[k c] l IH]; simpl; [split; [done | constructor]|]. rewrite Forall_cons. simpl.
  destruct (pollRetransmissions_loop now l) as [r l1]. split.
  - intros [E H]. apply IH in H. injection H as -> ->. by rewrite E.
  - destruct (pollConnection k c now) as [|s c'| |] eqn:E; intros H.
    + injection H as -> ->. split; [done|]. by apply IH.
    + by injection H.
    + by injection H.
    + by injection H.
Qed.

Lemma poll_loop_acts now l res l' : pollRetransmissions_loop now l = (res, l') ->
  (exists p, p ∈ l /\ pollConnection (fst p) (snd p) now <> Idle) -> res <> nothing_polled.
Proof.
  revert res l'. induction l as [|[k c] l IH]; intros res l'; simpl; [intros _ (p & Hp & _); inversion Hp|].
  destruct (pollRetransmissions_loop now l) as [r l1]. intros E (p & Hin & Hp).
  destruct (pollConnection k c now) as [|s c'| |] eqn:Ec; injection E as <- <-; try done.
  apply (IH r l1 eq_refl). exists p. split; [|done]. inversion Hin; subst; [done | done].
Qed.

Lemma nextRetransmissionDeadline_spec t now :
  (forall d, nextRetransmissionDeadline t = Some d -> now < d) <->
  Forall (fun p => pollConnection (fst p) (snd p) now = Idle) (connections t).
Proof.
  unfold nextRetransmissionDeadline. set (ds := map _ _). pose proof (earliestDeadline_spec ds) as H.
  rewrite Forall_forall. split.
  - intros Hn p Hp. apply pollConnection_due. intros d Hd.
    assert (Hin : Some d ∈ ds) by (apply list_elem_of_In, in_map_iff; exists p; split; [done | by apply list_elem_of_In]).
    destruct (earliestDeadline ds) as [e|].
    + specialize (Hn e eq_refl). destruct H as [_ H]. specialize (H d Hin). lia.
    + rewrite Forall_forall in H. by apply H in Hin.
  - intros Hall d Hd. rewrite Hd in H. destruct H as [H _].
    apply list_elem_of_In, in_map_iff in H as (p & Hd' & Hp). apply list_elem_of_In in Hp.
    specialize (Hall p Hp). rewrite pollConnection_due in Hall. by apply Hall.
Qed.

(** C14: [nextRetransmissionDeadline] is exact. A retransmission poll before
    it leaves the table and reports nothing; a poll at or after it reports a
    retransmission, a timed-out connection or an expired TIME-WAIT. *)
Theorem retransmission_deadline_exact t now res t' :
  pollRetransmissions t now = (res, t') ->
  ((forall d, nextRetransmissionDeadline t = Some d -> now < d) -> res = nothing_polled /\ t' = t) /\
  ((exists d, nextRetransmissionDeadline t = Some d /\ d <= now) -> res <> nothing_polled).
Proof.
  unfold pollRetransmissions. destruct (pollRetransmissions_loop now (connections t)) as [r l] eqn:E.
  intros [= <- <-]. split.
  - intros H. apply nextRetransmissionDeadline_spec, poll_loop_idle in H. rewrite H in E. injection E as <- <-.
    split; [done|]. by destruct t.
  - intros (d & Hd & Hle). apply (poll_loop_acts now (connections t) r l E).
    assert (Hn : ~ Forall (fun p => pollConnection (fst p) (snd p) now = Idle) (connections t)).
    { rewrite <- nextRetransmissionDeadline_spec. intros H. specialize (H d Hd). lia. }
    apply not_Forall_Exists in Hn; [|intros p; destruct (pollConnection _ _ _); (by left) || (by right)].
    apply Exists_exists in Hn. done.
Qed.

Lemma retransmission_deadline_exact_witness :
  fst (pollRetransmissions Sample.table1 1000000000) <> nothing_polled.
Proof.
  apply (retransmission_deadline_exact Sample.table1 1000000000 _ (snd (pollRetransmissions Sample.table1 1000000000))).
  - by destruct (pollRetransmissions Sample.table1 1000000000).
  - exists 1000000000. split; [by vm_compute | lia].
Defined.

(** C15: a due retransmission timer either retransmits or gives up. While
    fewer than five timeouts have hit the oldest entry, exactly that entry is
    sent again -- same sequence number, flags and bytes -- its interval
    doubles up to a minute, its retry count grows by one and it is barred
    from RTT sampling; the fifth retry used up, the connection is dropped. *)
Theorem timeout_retransmits_oldest key c now old rest :
  conn_ok c -> pending c = old :: rest -> last_sent_at old + timeout_interval old <= now ->
  if timeout_retransmit_count old <? kMaxRetransmits then
    exists seg old' rest' c', pollConnection key c now = Retransmitted seg c' /\ conn_ok c' /\
      sequence_number seg = sequence_start old /\ payload seg = p_payload old /\ flags seg = p_flags old /\
      pending c' = old' :: rest' /\ length rest' = length rest /\
      timeout_retransmit_count old' = timeout_retransmit_count old + 1 /\
      timeout_interval old' = Z.min (timeout_interval old * 2) kMaxRto /\
      last_sent_at old' = now /\ was_retransmitted old' = true /\ now < last_sent_at old' + timeout_interval old'
  else pollConnection key c now = TimedOut.
Proof.
  intros Hc Hp Hdue.
  assert (Hnt : state c <> TimeWait).
  { intros E. destruct Hc as [K|[K|(Hr & R & runs & K)]]; [by rewrite (ss_state _ K) in E | by rewrite (sr_state _ K) in E|].
    pose proof (sy_state _ _ _ K) as H. rewrite Hr in H. unfold state_ok in H. rewrite E, Hp in H. destruct_and?. done. }
  assert (He : entry_ok old).
  { destruct Hc as [K|[K|(_ & R & runs & K)]].
    1,2: destruct (op_pending c) as (e & E & _ & He & _); [apply K|]; rewrite Hp in E; by injection E as -> ->.
    pose proof (so_entries _ (sy_send _ _ _ K)) as He. rewrite Hp in He. apply Forall_cons in He as [He _]. exact He. }
  assert (Hnb : state_eqb (state c) TimeWait = false) by (destruct (state_eqb _ _) eqn:E; [|done]; by apply state_eqb_true in E).
  pose proof (pollConnection_ok key c now) as Hok. unfold pollConnection in *. rewrite Hnb, Hp in *.
  destruct (Z.ltb_spec now (last_sent_at old + timeout_interval old)); [lia|].
  destruct (Z.ltb_spec (timeout_retransmit_count old) kMaxRetransmits),
    (Z.leb_spec kMaxRetransmits (timeout_retransmit_count old)); try lia; [|done].
  pose proof (eo_timeout _ He). set (c1 := if negb (is_syn old) && negb (is_fin old) then _ else _) in *.
  assert (Hfront : exists old1 rest1, pending c1 = old1 :: rest1 /\ length rest1 = length rest /\ remarked old old1).
  { unfold c1. destruct (_ && _).
    - simpl. rewrite Hp. eexists _, _. split; [reflexivity|]. split; [apply length_map|]. unfold remarked. simpl. tauto.
    - exists old, rest. split_and!; [done | done | apply remarked_refl]. }
  destruct Hfront as (old1 & rest1 & E1 & Hlen & Hrem). rewrite E1 in *.
  destruct Hrem as (M1 & M2 & M3 & M4 & M5 & M6 & M7 & M8 & M9).
  eexists _, _, _, _. split; [reflexivity|]. split; [eapply Hok; [done | reflexivity]|].
  cbn -[kMaxRto]. rewrite M8, M9, M1, M5, M6. consts. split_and!; try done; try lia. simpl. lia.
Qed.

Lemma timeout_retransmits_oldest_witness :
  exists c old, map_find (connections Sample.table1) Sample.key = Some c /\ pending c = [old] /\
    exists seg c', pollConnection Sample.key c 1000000000 = Retransmitted seg c' /\ conn_ok c'.
Proof.
  destruct (map_find (connections Sample.table1) Sample.key) as [c|] eqn:E; [|by vm_compute in E].
  pose proof (table_find _ (reachable_ok _ _ _ _ Sample.table1_reachable) _ _ E) as Hc.
  assert (Hp : exists old, pending c = [old] /\ last_sent_at old + timeout_interval old = 1000000000 /\
    timeout_retransmit_count old = 0).
  { vm_compute in E. injection E as <-. eexists. split; [reflexivity | done]. }
  destruct Hp as (old & Hp & Hd & Hn). exists c, old. split; [done|]. split; [done|].
  pose proof (timeout_retransmits_oldest Sample.key c 1000000000 old [] Hc Hp ltac:(lia)) as H.
  rewrite Hn in H. destruct H as (seg & o & r & c' & H1 & H2 & _). by exists seg, c'.
Defined.

(** ** Queued data always has a timer *)

Definition table_driven (t : TcpConnectionTable) : Prop := Forall (fun p => driven (snd p)) (connections t).

Lemma driven_set t key c : table_driven t -> driven c -> table_driven (set_connection t key c).
Proof. intros H Hc. by apply Forall_map_set. Qed.

Lemma driven_erase t key : table_driven t -> table_driven (erase_connection t key).
Proof. intros H. by apply Forall_map_erase. Qed.

Lemma driven_update t key c : table_driven t -> (pending_removal c = false -> driven c) ->
  table_driven (update_connection t key c).
Proof.
  intros H Hc. unfold update_connection. destruct (pending_removal c); [by apply driven_erase | auto using driven_set].
Qed.

Lemma driven_find t key c : table_driven t -> map_find (connections t) key = Some c -> driven c.
Proof. intros H Hf. apply (map_find_Forall _ _ _ _ H Hf). Qed.

(** Nothing is queued on a connection that is only opening. *)
Lemma driven_empty c : unsent c = [] -> driven c.
Proof. intros H Hs Hu. congruence. Qed.

Lemma handleSynReceived_driven t key c seg now res t' :
  table_driven t -> syn_received_ok c -> handleSynReceived t key c seg now = (res, t') -> table_driven t'.
Proof.
  intros Ht K. pose proof (proj1 (op_empty _ (sr_opening _ K))) as Hu. unfold handleSynReceived.
  destruct (rst (flags seg)); [destruct (_ =? _); intros [= <- <-]; [by apply driven_erase | done]|].
  destruct (syn (flags seg) && _).
  { destruct (_ =? _); intros [= <- <-]; [|done]. apply driven_set; [done|]. by apply driven_empty. }
  destruct (ack (flags seg) && _); [|by intros [= <- <-]]. destruct (_ && _); [|by intros [= <- <-]].
  destruct (retireAcknowledged _ _ _) as [rr c'] eqn:E. intros [= <- <-]. apply driven_set; [done|]. apply driven_empty.
  destruct (retireAcknowledged_parts _ _ _ _ _ E (op_rto _ (sr_opening _ K))) as (_ & _ & _ & _ & _ & _ & _ & Hx & _).
  simpl in *. congruence.
Qed.

Lemma handle_driven t key seg now g res t' :
  table_ok t -> table_driven t -> segment_ok seg ->
  (forall c, map_find (connections t) key = Some c -> half_open c = false -> plausible c seg) ->
  handle t key seg now g = Some (res, t') -> table_driven t'.
Proof.
  intros Ht Hd Hseg Hp. unfold handle. destruct (map_find (connections t) key) as [c|] eqn:Ef.
  2: { unfold handleUnknown. destruct (negb _); [destruct (rst _); by intros [= <- <-]|].
       destruct (rst _); [by intros [= <- <-]|]. destruct (_ || _); [by intros [= <- <-]|].
       destruct (parseTcpOptions _) as [[o|]|]; cbn [mbind option_bind]; [|by intros [= <- <-] | done].
       destruct (negb _); [by intros [= <- <-]|]. destruct (at_capacity t); [by intros [= <- <-]|].
       destruct (nextIsn t g) as [isn t1] eqn:En. apply nextIsn_frame in En as (N1 & _).
       assert (Hd1 : table_driven t1) by (unfold table_driven; by rewrite N1).
       destruct isn as [isn|]; intros [= <- <-]; [|done]. apply driven_set; [done|]. apply driven_empty.
       simpl. by destruct (window_scale o). }
  specialize (Hp c eq_refl). pose proof (driven_find t key c Hd Ef) as Hdc.
  destruct (table_find t Ht key c Ef) as [H|[H|(Hr & R & runs & H)]].
  - rewrite (ss_state _ H). destruct (handleSynSent_spec key c seg now H Hseg) as (r & c' & -> & K).
    cbn [mbind option_bind]. intros [= <- <-]. apply driven_update; [done|]. intros Hr.
    destruct K as [[-> ->]|[(_ & -> & _)|(_ & _ & _ & _ & _ & _ & _ & Ho & _)]]; [done | done |].
    apply driven_empty. unfold owned in Ho. by apply app_eq_nil in Ho as [_ Ho].
  - rewrite (sr_state _ H). intros E. injection E as E. by eapply handleSynReceived_driven.
  - assert (Hh : half_open c = false) by (pose proof (sync_not_half _ _ _ H Hr) as Hz; unfold ho in Hz; by destruct (half_open c)).
    specialize (Hp Hh). destruct (decide (state c = TimeWait)) as [Etw|Etw].
    + rewrite Etw. destruct (handleTimeWait key c seg now) as [r c'] eqn:E. intros [= <- <-].
      destruct (handleTimeWait_spec _ _ _ _ _ _ _ _ H Hr Etw E) as (_ & _ & _ & _ & K).
      apply driven_update; [done|]. intros Hr'. destruct K as [[? _]|(_ & _ & K & _)]; [congruence|].
      intros Hs. by rewrite K in Hs.
    + destruct (plausible_position R runs c seg (sy_recv _ _ _ H) Hseg Hp) as (pos & P1 & P2).
      destruct (handleSynchronized_spec key R runs c seg pos now H Hr Etw Hseg P1 P2) as (r & c' & E & K).
      assert (Hc' : pending_removal c' = false -> driven c').
      { intros Hr'. destruct K as [(_ & _ & _ & ->)|(n & c1 & R' & rest & _ & _ & [->|K])]; [done | done | auto]. }
      rewrite E. unfold half_open in Hh. destruct (state c); try done; cbn [mbind option_bind]; intros [= <- <-];
        by apply driven_update.
Qed.

Lemma poll_driven now l res l' : pollRetransmissions_loop now l = (res, l') ->
  Forall (fun p => driven (snd p)) l -> Forall (fun p => driven (snd p)) l'.
Proof.
  revert res l'. induction l as [|[k c] l IH]; intros res l'; simpl; [by intros [= <- <-]|].
  destruct (pollRetransmissions_loop now l) as [r l1]. intros E Hf. apply Forall_cons in Hf as [Hc Hf].
  specialize (IH r l1 eq_refl Hf). destruct (pollConnection k c now) as [|s c'| |] eqn:Ep; injection E as <- <-; auto.
  constructor; [|done]. intros _ _. left. revert Ep. unfold pollConnection.
  destruct (state_eqb _ _); [destruct (time_wait_deadline c) as [d|]; [destruct (d <=? now)|]; done|].
  destruct (pending c) as [|e m]; [done|]. destruct (now <? _); [done|]. destruct (_ <=? _); [done|].
  match goal with |- context [match ?x with [] => _ | _ => _ end] => destruct x as [|e1 m1] end; [done|].
  by intros [= _ <-].
Qed.

Lemma persist_driven now l ps l' : pollPersist_loop now l = (ps, l') ->
  Forall (fun p => driven (snd p)) l -> Forall (fun p => driven (snd p)) l'.
Proof.
  revert ps l'. induction l as [|[k c] l IH]; intros ps l'; simpl; [by intros [= <- <-]|].
  destruct (persistProbe k c now) as [s c'] eqn:Ep. destruct (pollPersist_loop now l) as [r l1]. intros [= <- <-] Hf.
  apply Forall_cons in Hf as [Hc Hf]. constructor; [|eauto]. simpl in *. revert Ep. unfold persistProbe.
  destruct (persist_deadline c) as [d|] eqn:Ed; [|by intros [= <- <-]]. destruct (now <? d); [by intros [= <- <-]|].
  destruct (persistEligible c) eqn:Ee; cbn [negb]; intros [= <- <-].
  - intros _ _. right. split; [exact Ee | done].
  - intros Hs Hu. left. destruct (Hc Hs Hu) as [Hp|[Hx _]]; [done | congruence].
Qed.

Lemma beginClose_driven t key now res t' : table_driven t -> beginClose t key now = (res, t') -> table_driven t'.
Proof.
  intros Hd. unfold beginClose. destruct (map_find (connections t) key) as [c|] eqn:Ef; [|by intros [= <- <-]].
  destruct (_ && _); [by intros [= <- <-]|]. pose proof (driven_find t key c Hd Ef) as Hc. rewrite maybeSequenceFin_cases.
  set (c1 := c <| close_requested := true |>). destruct (fin_due c1).
  - destruct (updatePersistState_frame (with_fin c1 ((new_pending (snd_nxt c1) (flags (makeFin key c1)) now (current_rto c1))
      <| is_fin := true |>)) now) as (d & i & -> & _). intros [= <- <-]. apply driven_set; [done|].
    intros _ _. left. simpl. by destruct (pending c).
  - destruct (updatePersistState_frame c1 now) as (d & i & -> & Hv). intros [= <- <-]. apply driven_set; [done|].
    intros Hs Hu. destruct (Hc Hs Hu) as [Hp|[Hx _]]; [by left|]. right. split; [exact Hx|]. simpl. rewrite Hv. exact Hx.
Qed.

Lemma makeOutgoingData_driven t key p now res t' :
  table_ok t -> table_driven t -> bytes_ok p -> makeOutgoingData t key p now = (res, t') -> table_driven t'.
Proof.
  intros Ht Hd Hb. unfold makeOutgoingData. destruct (empty p); [by intros [= <- <-]|].
  destruct (_ <? _); [by intros [= <- <-]|]. destruct (map_find (connections t) key) as [c|] eqn:Ef; [|by intros [= <- <-]].
  rewrite <- negb_orb. fold (sendable (state c)). destruct (sendable (state c)) eqn:Es; cbn [negb]; [|by intros [= <- <-]].
  destruct (close_requested c); [by intros [= <- <-]|].
  destruct (table_find t Ht key c Ef) as [K|[K|(Hr & R & runs & K)]].
  { pose proof (ss_state _ K) as E. by rewrite E in Es. }
  { pose proof (sr_state _ K) as E. by rewrite E in Es. }
  rewrite (appOwnedBytes_eq c) by apply K. pose proof (owned_len c (sy_send _ _ _ K)).
  destruct (Z.ltb_spec (if kTcpSendBufferCapacity <=? Zlen (owned c) then 0 else kTcpSendBufferCapacity - Zlen (owned c)) (Zlen p));
    [by intros [= <- <-]|].
  assert (Hcap : Zlen (owned c) + Zlen p <= kTcpSendBufferCapacity) by (zcases; lia).
  destruct (enqueue_ok R runs c p K Hr Es Hb Hcap) as [[Q1 Q2 Q3 Q4 Q5 Q6] _].
  destruct (scheduleQueuedData _ _ _) as [segs c'] eqn:E. intros [= <- <-]. apply driven_set; [done|].
  eapply scheduled_driven; try exact E; auto. apply (sendable_no_fin c); [|done].
  pose proof (sy_state _ _ _ K) as Hst. by rewrite Hr in Hst.
Qed.

Lemma step_driven t t' : step t t' -> table_ok t -> table_driven t -> table_driven t'.
Proof.
  destruct 1 as [t t' key seg now g res Hs Hg Hp E|t t' key now g res Hg E|t t' key data now res Hb E
    |t t' key now res E|t t' now res E|t t' now res E]; intros Ht Hd.
  - by eapply handle_driven.
  - revert E. unfold beginConnect. destruct (_ || _); [by intros [= <- <-]|].
    destruct (map_contains _ _); [by intros [= <- <-]|]. destruct (at_capacity t); [by intros [= <- <-]|].
    destruct (nextIsn t g) as [isn t1] eqn:En. apply nextIsn_frame in En as (N1 & _).
    assert (Hd1 : table_driven t1) by (unfold table_driven; by rewrite N1).
    destruct isn as [isn|]; intros [= <- <-]; [|done]. apply driven_set; [done|]. by apply driven_empty.
  - by eapply makeOutgoingData_driven.
  - by eapply beginClose_driven.
  - revert E. unfold pollRetransmissions. destruct (pollRetransmissions_loop _ _) as [r l] eqn:E. intros [= <- <-].
    by eapply poll_driven.
  - revert E. unfold pollPersistProbes. destruct (pollPersist_loop _ _) as [r l] eqn:E. intros [= <- <-].
    by eapply persist_driven.
Qed.

Lemma reachable_driven port n h t : reachable port n h t -> table_driven t.
Proof. induction 1 as [|t t' Hr IH Hs]; [constructor|]. eapply step_driven; eauto using reachable_ok. Qed.


