(* ===== verification/TcpSending.v ===== *)
(** * Properties of the sending side

    Acknowledgement, scheduling, loss recovery and the application's send and
    close operations, as statements about one connection or one table. *)

From S2P Require Import Prelude StdMap Addresses Tcp SeqNum TcpState TcpCongestion.
From S2P Require Import TcpSegments TcpSender TcpReceiver TcpHandler TcpTable TcpInvariant TcpProperties.



(** C9: a scheduling pass obeys both windows and sends the right bytes. Its
    segments carry, in order and at consecutive sequence numbers starting at
    [snd_nxt], the next bytes of the send buffer; no segment exceeds one MSS;
    no byte is lost or sent twice; the amount is exactly what the peer's
    window, the congestion window, the queue and the per-pass limit allow;
    and a FIN follows only when the application has closed, the buffer is
    empty and the peer's window has room for it. *)
Theorem scheduling_obeys_windows key c now segs c' :
  sender_ok c -> rto_ok c -> congestion_ok c -> local_fin_seq c = None ->
  scheduleQueuedData key c now = (segs, c') ->
  exists ents, Forall2 (carries c) segs ents /\ pending c' = pending c ++ ents /\
    pend_chain (snd_una c + pend_len (pending c)) ents /\
    Forall (fun e => Zlen (p_payload e) <= effective_send_mss c) ents /\
    unsent c = app_bytes ents ++ unsent c' /\ Zlen (app_bytes ents) = send_allowance c /\
    pend_len (pending c) + Zlen (app_bytes ents) <= Z.max (pend_len (pending c)) (Z.min (snd_wnd c) (cwnd c)) /\
    pend_len (pending c') <= Z.max (pend_len (pending c)) (snd_wnd c) /\
    (local_fin_seq c' <> None -> close_requested c = true /\ unsent c' = []).
Proof.
  intros Hs Hr Hg Hf E. destruct (scheduleQueuedData_spec key c now segs c' Hs Hr Hg Hf E) as (S1 & (ents & S2 & S3 & S4) & S5 & _ & _).
  destruct S2 as [F1 F2 F3 F4 F5 F6 F7 F8 F9 F10 F11 F12]. pose proof (pend_len_nonneg _ (so_entries _ Hs)).
  pose proof (so_wnd _ Hs). exists ents. split_and!; auto.
  - pose proof (so_chain _ S1) as Hc. rewrite F1, F4 in Hc. apply pend_chain_app in Hc as [_ Hc]. exact Hc.
  - rewrite S3. unfold send_allowance. pose proof (Zlen_nonneg (unsent c)). lia.
  - destruct S5 as [(_ & _ & ->)|(f & _ & _ & _ & _ & _ & ?)]; [|lia]. unfold send_allowance.
    pose proof (Zlen_nonneg (unsent c)). lia.
  - intros Hn. destruct S5 as [(? & _)|(f & _ & _ & ? & ? & _)]; done.
Qed.

Lemma scheduling_obeys_windows_witness :
  let c := Sample.connection <| unsent := unsent Sample.connection ++ Sample.six_bytes |> in
  exists segs c', scheduleQueuedData Sample.key c 20 = (segs, c') /\
    exists ents, pending c' = pending c ++ ents /\ Zlen (app_bytes ents) = 4.
Proof.
  intros c. destruct (enqueue_ok 1001 [] Sample.connection Sample.six_bytes Sample.connection_sync) as [[K1 _ K3 K4 _ _] _].
  { by vm_compute. }
  { by vm_compute. }
  { repeat constructor; lia. }
  { vm_compute. discriminate. }
  fold c in K1, K3, K4.
  assert (Hf : local_fin_seq c = None) by (clear; vm_compute; reflexivity).
  assert (Ha : send_allowance c = 4) by (clear; vm_compute; reflexivity). clearbody c.
  destruct (scheduleQueuedData Sample.key c 20) as [segs c'] eqn:E. exists segs, c'. split; [done|].
  destruct (scheduling_obeys_windows Sample.key c 20 segs c' K1 K4 K3 Hf E)
    as (ents & _ & H1 & _ & _ & _ & H2 & _). exists ents. split; [exact H1 | congruence].
Defined.

(** ** Round-trip samples *)

Lemma retireAcknowledged_sampled c a now res c' :
  retireAcknowledged c a now = (res, c') -> r_rtt_sample_taken res = true ->
  exists t, ret_sample (retire_loop a (pending c) 0 None false) = Some t /\ t <= now /\
    (srtt c', rttvar c', current_rto c', has_rtt_sample c') =
    (srtt (recordRttSample c (now - t)), rttvar (recordRttSample c (now - t)),
     current_rto (recordRttSample c (now - t)), true).
Proof.
  unfold retireAcknowledged. destruct (negb _); [by intros [= <- <-]|].
  cbn -[retire_loop recordRttSample Z.sub]. set (r := retire_loop _ _ _ _ _).
  destruct (ret_sample r) as [t|]; [|by intros [= <- <-]]. destruct (Z.leb_spec t now); [|by intros [= <- <-]].
  intros E _. exists t. split_and!; auto.
  assert (Hc : forall l, (srtt (recordRttSample (c <| snd_una := a |> <| pending := l |>) (now - t)),
    rttvar (recordRttSample (c <| snd_una := a |> <| pending := l |>) (now - t)),
    current_rto (recordRttSample (c <| snd_una := a |> <| pending := l |>) (now - t)),
    has_rtt_sample (recordRttSample (c <| snd_una := a |> <| pending := l |>) (now - t))) =
    (srtt (recordRttSample c (now - t)), rttvar (recordRttSample c (now - t)),
     current_rto (recordRttSample c (now - t)), true)).
  { intros l. unfold recordRttSample. simpl. destruct (has_rtt_sample c) eqn:Eh; simpl; by rewrite ?Eh. }
  destruct (ret_front r); injection E as <- <-; simpl; apply (Hc (ret_pending r)).
Qed.



(** ** Congestion control *)

(** C12: outside recovery an acknowledgement never shrinks the congestion
    window and opens it no faster than TCP Reno allows: in slow start by at
    most one segment and at most the bytes acknowledged, in congestion
    avoidance by at most one segment per window of acknowledged data; a loss
    timeout closes it to one segment and both loss reactions set the
    threshold to half the flight but no less than two segments. *)
Theorem congestion_window_reno c n :
  congestion_ok c -> in_fast_recovery c = false -> 0 <= n <= kTcpSendBufferCapacity ->
  let grown := applyCongestionGrowth c n in
  let collapsed := applyTimeoutCongestionCollapse c in
  let flight := u32 (snd_nxt c - snd_una c) in
  congestion_ok grown /\ cwnd c <= cwnd grown /\
  (cwnd c < ssthresh c -> cwnd grown <= cwnd c + Z.min n (effective_send_mss c)) /\
  (ssthresh c <= cwnd c -> cwnd grown <=
     cwnd c + effective_send_mss c * ((congestion_avoidance_acked_bytes c + n) / cwnd c)) /\
  cwnd collapsed = effective_send_mss c /\ in_fast_recovery collapsed = false /\
  ssthresh collapsed = Z.min (Z.max (flight / 2) (2 * effective_send_mss c)) kMaxCongestionWindow.
Proof.
  intros Hc Hr Hn grown collapsed flight. destruct (applyCongestionGrowth_ok c n Hc Hr Hn) as [_ G].
  destruct (applyCongestionGrowth_spec c n Hc Hr Hn) as (w & a & E & G1 & G2 & G3 & G4).
  split; [exact G|]. unfold grown. rewrite E. simpl. split_and!; try done; try lia.
  unfold lossSsthresh. pose proof (u32_range (snd_nxt c - snd_una c)) as Hu. destruct Hc as (C1 & _).
  apply clampCwnd_min. fold flight in Hu. pose proof (Z.div_pos flight 2). unfold is_u32 in Hu. consts. lia.
Qed.

Lemma congestion_window_reno_witness :
  let grown := applyCongestionGrowth Sample.connection 536 in
  cwnd Sample.connection = 5360 /\ cwnd grown = 5896 /\ congestion_ok grown.
Proof.
  intros grown. split; [by vm_compute|]. split; [by vm_compute|].
  apply (congestion_window_reno Sample.connection 536).
  - exact (sy_cong _ _ _ Sample.connection_sync).
  - by vm_compute.
  - consts. lia.
Defined.

(** The first data entry the peer has not reported as received. *)
Definition first_hole (l : list PendingTransmission) : option PendingTransmission :=
  List.find (fun e => negb (is_syn e) && negb (is_fin e) && negb (sacked e)) l.

Lemma selectRecovery_hole N l i pos :
  Forall entry_ok l -> pend_chain pos l -> pos + pend_len l = N -> pend_len l < 2 ^ 31 ->
  Forall (fun e => retransmitted_in_recovery e = false) l ->
  option_map snd (selectRecovery_from (u32 N) i l) = first_hole l.
Proof.
  unfold first_hole. revert i pos. induction l as [|e l IH]; intros i pos He Hc Hn Hl Hr; [done|].
  apply Forall_cons in He as [He1 He], Hr as [Hr1 Hr]. destruct Hc as [Hs Hc]. simpl pend_len in *.
  pose proof (entry_ok_seq_len e He1). pose proof (pend_len_nonneg l He).
  assert (Hrec : option_map snd (selectRecovery_from (u32 N) (S i) l) = first_hole l)
    by (apply (IH _ (pos + seq_len e)); auto; lia).
  cbn [selectRecovery_from List.find]. rewrite Hs, sequenceGreater_abs, Hr1 by (consts; lia).
  destruct (is_syn e), (is_fin e); cbn [orb andb negb]; try exact Hrec.
  destruct (Z.ltb_spec pos N); [|lia]. cbn [negb]. rewrite orb_false_r. by destruct (sacked e).
Qed.

(** The retransmission chosen once all recovery marks are cleared. *)
Lemma recoveryRetransmit_hole key c c1 now s c' :
  sender_ok c -> pending c1 = clear_recovery_marks (pending c) -> recovery_point c1 = snd_nxt c ->
  recoveryRetransmit key c1 now = (s, c') ->
  match first_hole (pending c) with
  | None => s = None
  | Some e => exists g, s = Some g /\ sequence_number g = sequence_start e /\ payload g = p_payload e
  end.
Proof.
  intros Hs Hp Hrp. unfold recoveryRetransmit, selectRecoveryRetransmission. rewrite Hp, Hrp.
  set (l := clear_recovery_marks (pending c)).
  assert (Hm : Forall2 remarked (pending c) l) by apply clear_recovery_marks_remarked.
  pose proof (sender_flight c Hs) as [Hfl _]. pose proof (remarked_len _ _ Hm) as Hlen.
  pose proof (selectRecovery_hole (snd_una c + pend_len l) l 0 (snd_una c)) as Hsel.
  rewrite Hlen, <- (so_nxt _ Hs) in Hsel. specialize (Hsel (remarked_entries _ _ Hm (so_entries _ Hs))
    (remarked_chain _ _ Hm _ (so_chain _ Hs)) eq_refl ltac:(consts; lia)).
  specialize (Hsel ltac:(apply Forall_fmap, Forall_forall; intros; reflexivity)).
  assert (Hfind : match first_hole (pending c) with None => first_hole l = None
    | Some e => exists e', first_hole l = Some e' /\ remarked e e' end).
  { unfold first_hole, l. clear. induction (pending c) as [|e m IH]; simpl; [done|].
    destruct (negb (is_syn e) && negb (is_fin e) && negb (sacked e)); [|exact IH].
    eexists. split; [reflexivity|]. unfold remarked. simpl. tauto. }
  rewrite <- Hsel in Hfind. clear -Hfind.
  destruct (selectRecovery_from (snd_nxt c) 0 l) as [[i e1]|]; intros [= <- _]; simpl in Hfind.
  - destruct (first_hole (pending c)) as [e|]; [|done]. destruct Hfind as (e' & [= <-] & K).
    eexists. split; [reflexivity|]. simpl. by destruct K as (-> & _ & _ & _ & _ & -> & _).
  - destruct (first_hole (pending c)) as [e|]; [|done]. by destruct Hfind as (e' & ? & _).
Qed.

Lemma beginFastRecovery_hole key c now s c' :
  sender_ok c -> beginFastRecovery key c now = (s, c') ->
  match first_hole (pending c) with
  | None => s = None
  | Some e => exists g, s = Some g /\ sequence_number g = sequence_start e /\ payload g = p_payload e
  end.
Proof. intros Hs. unfold beginFastRecovery. by apply recoveryRetransmit_hole. Qed.

(** C17: fast retransmit. On the third duplicate acknowledgement outside
    recovery, the first data entry the peer has not selectively acknowledged
    is sent again with its own sequence number and bytes, the threshold drops
    to half the flight (at least two segments), the window to that plus three
    segments, and recovery lasts until everything sent so far is acknowledged. *)
Theorem third_duplicate_ack_retransmits key c seg res changed now s c' :
  sender_ok c -> congestion_ok c -> in_fast_recovery c = false -> duplicate_ack_count c = 2 ->
  ack_advanced res = false -> isDuplicateAck c seg changed = true ->
  congestionStep key c seg res changed now = (s, c') ->
  sender_ok c' /\ congestion_ok c' /\ in_fast_recovery c' = true /\ recovery_point c' = snd_nxt c /\
  ssthresh c' = lossSsthresh c /\ cwnd c' = clampCwnd (lossSsthresh c + 3 * effective_send_mss c) /\
  owned c' = owned c /\
  match first_hole (pending c) with
  | None => s = None
  | Some e => exists g, s = Some g /\ sequence_number g = sequence_start e /\ payload g = p_payload e
  end.
Proof.
  intros Hs Hc Hr Hd Ha Hdup. unfold congestionStep. rewrite Ha, Hdup.
  set (c0 := c <| duplicate_ack_count := duplicate_ack_count c + 1 |>). simpl in_fast_recovery. rewrite Hr.
  simpl duplicate_ack_count. rewrite Hd. change (2 + 1 =? 3) with true. intros E.
  assert (Hc0 : congestion_ok c0) by done.
  destruct (beginFastRecovery_spec key c0 now s c' Hc0 E) as (B1 & B2 & B3 & B4 & B5 & B6).
  assert (Hl : lossSsthresh c0 = lossSsthresh c) by (unfold lossSsthresh; reflexivity). rewrite Hl in B4, B6.
  destruct B1 as (R1 & R2 & R3 & R4 & R5 & R6). split_and!; auto.
  - eapply (sender_ok_remark c0); [exact R1 | exact R2 | by apply (sender_ok_part c)].
  - unfold owned. rewrite (remarked_app_bytes _ _ R2). unfold send_part in R1. simpl in R1. simpl. congruence.
  - apply (beginFastRecovery_hole key c0 now s c'); [by apply (sender_ok_part c) | exact E].
Qed.

Lemma duplicate_count_ok c n : sender_ok c -> congestion_ok c ->
  sender_ok (c <| duplicate_ack_count := n |>) /\ congestion_ok (c <| duplicate_ack_count := n |>).
Proof. intros Hs Hc. split; [by apply (sender_ok_part c) | done]. Qed.

Lemma third_duplicate_ack_retransmits_witness :
  let c := Sample.sending <| duplicate_ack_count := 2 |> in
  let r := congestionStep Sample.key c (Sample.segment 1001 7001 4 (no_flags <| ack := true |>) [])
             (mkRetirement 0 0 false false) false 50 in
  in_fast_recovery (snd r) = true /\ option_map payload (fst r) = Some [65; 66; 67; 68].
Proof.
  intros c r.
  destruct (duplicate_count_ok Sample.sending 2 (sy_send _ _ _ Sample.sending_sync) (sy_cong _ _ _ Sample.sending_sync))
    as [Hs Hc]. fold c in Hs, Hc.
  assert (Hr : in_fast_recovery c = false) by (clear; vm_compute; reflexivity).
  assert (Hd : isDuplicateAck c (Sample.segment 1001 7001 4 (no_flags <| ack := true |>) []) false = true)
    by (clear; vm_compute; reflexivity).
  assert (Hp : option_map payload (fst r) = Some [65; 66; 67; 68]) by (clear; vm_compute; reflexivity).
  split; [|exact Hp].
  refine (proj1 (proj2 (proj2 (third_duplicate_ack_retransmits Sample.key c _ (mkRetirement 0 0 false false) false 50 (fst r) (snd r)
    Hs Hc Hr eq_refl eq_refl Hd (surjective_pairing r))))).
Defined.

(** ** The application's operations *)

(** C18: a send is atomic and the byte stream is conserved. A send request is
    either refused, changing nothing and emitting nothing, or all its bytes
    are appended to the unacknowledged stream of a connection that is open
    and not closing, within the 256 KiB buffer; the segments emitted at once
    are the next bytes of that stream at their sequence numbers. *)
Theorem send_is_atomic port n h t key p now res t' :
  reachable port n h t -> bytes_ok p -> makeOutgoingData t key p now = (res, t') ->
  (t' = t /\ bytes_accepted res = 0 /\ send_segments res = [] /\ has_value (send_error res) = true) \/
  (exists c c', map_find (connections t) key = Some c /\ map_find (connections t') key = Some c' /\
     send_error res = None /\ bytes_accepted res = Zlen p /\ p <> [] /\ Zlen p <= kMaxApplicationSendSize /\
     (state c = Established \/ state c = CloseWait) /\ close_requested c = false /\
     owned c' = owned c ++ p /\ Zlen (owned c') <= kTcpSendBufferCapacity /\
     exists ents, Forall2 (carries c) (send_segments res) ents /\ pending c' = pending c ++ ents).
Proof.
  intros Hr Hb E. apply reachable_ok in Hr as Ht.
  destruct (makeOutgoingData_cases t key p now res t' Ht Hb E) as [H|H]; [by left|]. right.
  destruct H as (c & c' & R & runs & H1 & H2 & H3 & H4 & -> & H5 & H6 & H7 & H8 & H9 & H10 & H11 & H12 & ents & [F1 F2 _ _ _ F6 _ _ _ _ _ _]).
  exists c, c'. split; [done|]. split; [simpl; rewrite map_find_set by apply Ht; by rewrite key_eqb_refl|].
  split_and!; auto.
  - unfold sendable in H5. destruct (state c); auto; done.
  - rewrite H10, Zlen_app. lia.
  - exists ents. split; [exact F2 | exact F1].
Qed.

Lemma send_is_atomic_witness :
  (exists c, map_find (connections Sample.table3) Sample.key = Some c /\ owned c = Sample.six_bytes) /\
  (let r := makeOutgoingData Sample.table2 Sample.key Sample.six_bytes 20 in
   (snd r = Sample.table2 /\ bytes_accepted (fst r) = 0 /\ send_segments (fst r) = [] /\ has_value (send_error (fst r)) = true) \/
   exists c c', map_find (connections Sample.table2) Sample.key = Some c /\
     map_find (connections (snd r)) Sample.key = Some c' /\ bytes_accepted (fst r) = 6).
Proof.
  split; [exists Sample.sending; split; [exact Sample.sending_found | vm_compute; reflexivity]|]. intros r.
  destruct (send_is_atomic 80 4 2 Sample.table2 Sample.key Sample.six_bytes 20 (fst r) (snd r) Sample.table2_reachable)
    as [H|(c & c' & H1 & H2 & _ & H3 & _)].
  - repeat constructor; lia.
  - exact (surjective_pairing r).
  - left. exact H.
  - right. exists c, c'. split; [exact H1|]. split; [exact H2 | exact H3].
Defined.


