(* ===== verification/TcpOpening.v ===== *)
(** * Opening and resetting connections

    The two handshakes, from the first SYN to an established connection, and
    which resets take effect. *)

From S2P Require Import Prelude StdMap Addresses Tcp SeqNum TcpState TcpCongestion.
From S2P Require Import TcpSegments TcpSender TcpReceiver TcpHandler TcpTable TcpInvariant TcpProperties.

Lemma nextIsn_fresh t isn : last_isn t <> Some isn -> nextIsn t (Some isn) = (Some isn, t <| last_isn := Some isn |>).
Proof. intros H. unfold nextIsn. by rewrite bool_decide_false. Qed.

(** The connection a SYN creates. *)
Definition passive_connection (key : TcpConnectionKey) (isn : Z) (seg : TcpSegment) (opts : TcpParsedOptions) (now : Z) :
    Connection :=
  let c := negotiate ((new_connection SynReceived isn) <| remote_isn := sequence_number seg |>) opts in
  c <| pending := [(new_pending isn (flags (makeSynAck key c)) now (current_rto c)) <| is_syn := true |>] |>.

Lemma negotiate_isns c opts : local_isn (negotiate c opts) = local_isn c /\ remote_isn (negotiate c opts) = remote_isn c /\
  state (negotiate c opts) = state c /\ unsent (negotiate c opts) = unsent c.
Proof. unfold negotiate. by destruct (window_scale opts). Qed.

Lemma passive_connection_fields key isn seg opts now :
  let c := passive_connection key isn seg opts now in
  state c = SynReceived /\ local_isn c = isn /\ remote_isn c = sequence_number seg /\ unsent c = [].
Proof. intros c. unfold c, passive_connection, negotiate. by destruct (window_scale opts). Qed.

(** A SYN the table can admit creates that connection and is answered. *)
Lemma handle_admits_syn t key seg opts isn now g :
  map_find (connections t) key = None -> local_port key = listen_port t ->
  syn (flags seg) = true -> ack (flags seg) = false -> rst (flags seg) = false ->
  parseTcpOptions (options seg) = Some (inl opts) -> sack_blocks opts = [] ->
  at_capacity t = false -> last_isn t <> Some isn -> g = Some isn ->
  exists r, handle t key seg now g =
      Some (no_result <| reply := Some r |>,
            set_connection (t <| last_isn := Some isn |>) key (passive_connection key isn seg opts now)) /\
    sequence_number r = isn /\ acknowledgment_number r = u32 (sequence_number seg + 1) /\
    syn (flags r) = true /\ ack (flags r) = true.
Proof.
  intros Hf Hport Hsyn Hack Hrst Hopt Hsack Hcap Hfresh ->.
  set (c0 := (new_connection SynReceived isn) <| remote_isn := sequence_number seg |>).
  destruct (negotiate_isns c0 opts) as (N1 & N2 & _).
  exists (makeSynAck key (negotiate c0 opts)). split.
  - unfold handle. rewrite Hf. unfold handleUnknown. rewrite Hport, Z.eqb_refl. cbn [negb].
    rewrite Hrst, Hsyn, Hack. cbn [negb orb]. rewrite Hopt. cbn [mbind option_bind]. rewrite Hsack. cbn [empty negb].
    rewrite Hcap, nextIsn_fresh by done. reflexivity.
  - split; [exact N1|]. split; [exact (f_equal (fun z => u32 (z + 1)) N2) | done].
Qed.

(** The ACK of the SYN-ACK. *)
Record completes_handshake (c : Connection) (seg : TcpSegment) : Prop := {
  ch_ack : ack (flags seg) = true;
  ch_syn : syn (flags seg) = false;
  ch_rst : rst (flags seg) = false;
  ch_number : acknowledgment_number seg = u32 (local_isn c + 1);
  ch_sequence : sequence_number seg = u32 (remote_isn c + 1)
}.

Lemma handle_final_ack t key c1 last now g :
  syn_received_ok c1 -> unsent c1 = [] -> map_ok (connections t) -> map_find (connections t) key = Some c1 ->
  segment_ok last -> completes_handshake c1 last ->
  exists t2 c, handle t key last now g = Some (no_result, t2) /\ map_find (connections t2) key = Some c /\
    state c = Established /\ sync_ok (remote_isn c1 + 1) [] c /\ owned c = [] /\
    snd_una c = u32 (local_isn c1 + 1) /\ snd_nxt c = u32 (local_isn c1 + 1).
Proof.
  intros Hc1 Hu Hm Hf1 Hl [L1 L2 L3 L4 L5]. unfold handle. rewrite Hf1, (sr_state _ Hc1). unfold handleSynReceived.
  rewrite L3, L2, L1. cbn [negb andb].
  assert (Hcond : (acknowledgment_number last =? u32 (local_isn c1 + 1)) &&
                  (sequence_number last =? u32 (remote_isn c1 + 1)) = true) by (by rewrite L4, L5, !Z.eqb_refl).
  rewrite Hcond. clear Hcond.
  set (c0 := c1 <| state := Established |> <| rcv_nxt := _ |> <| snd_una := _ |> <| snd_nxt := _ |>).
  destruct (retireAcknowledged c0 _ _) as [rr c2] eqn:E.
  destruct (handleSynReceived_established c1 last now rr c2 Hc1 Hl E) as (K1 & _ & K3 & _).
  eexists _, _. split; [reflexivity|]. split; [simpl; rewrite map_find_set by done; by rewrite key_eqb_refl|].
  assert (Hop : opening_ok c0) by (apply (opening_ok_part c1); try done; apply Hc1).
  destruct (syn_retired c0 now rr c2 Hop eq_refl E) as (Q1 & Q2 & _).
  destruct (retireAcknowledged_parts c0 _ _ _ _ E (op_rto _ Hop)) as (_ & _ & _ & _ & _ & Q3 & _ & Q4 & _).
  split_and!; auto. unfold owned. simpl. rewrite Q2, Q4. unfold c0. simpl. by rewrite Hu.
Qed.

(** C20: the passive handshake. A well-formed SYN to the listening port, with
    room in the table and a fresh initial sequence number, is answered by a
    SYN-ACK that acknowledges it, and the ACK of that SYN-ACK establishes a
    connection that expects the byte after the SYN, has nothing buffered or
    outstanding, and satisfies the connection invariant. *)
Theorem passive_handshake port n h t key seg opts isn now :
  reachable port n h t -> map_find (connections t) key = None -> local_port key = port ->
  segment_ok seg -> syn (flags seg) = true -> ack (flags seg) = false -> rst (flags seg) = false ->
  parseTcpOptions (options seg) = Some (inl opts) -> sack_blocks opts = [] ->
  at_capacity t = false -> is_u32 isn -> last_isn t <> Some isn ->
  exists r t1, handle t key seg now (Some isn) = Some (no_result <| reply := Some r |>, t1) /\
    stateOf t1 key = Some SynReceived /\ sequence_number r = isn /\
    acknowledgment_number r = u32 (sequence_number seg + 1) /\ syn (flags r) = true /\ ack (flags r) = true /\
    forall last now' g, segment_ok last -> ack (flags last) = true -> syn (flags last) = false -> rst (flags last) = false ->
      acknowledgment_number last = u32 (isn + 1) -> sequence_number last = u32 (sequence_number seg + 1) ->
      exists t2 c, handle t1 key last now' g = Some (no_result, t2) /\ map_find (connections t2) key = Some c /\
        state c = Established /\ sync_ok (sequence_number seg + 1) [] c /\ owned c = [] /\
        snd_una c = u32 (isn + 1) /\ snd_nxt c = u32 (isn + 1).
Proof.
  intros Hr Hf Hport Hseg Hsyn Hack Hrst Hopt Hsack Hcap Hisn Hfresh.
  pose proof (reachable_config _ _ _ _ Hr) as Hc. unfold config in Hc. injection Hc as Hlp _ _.
  apply reachable_ok in Hr as Ht. assert (Hm : map_ok (connections t)) by apply Ht.
  destruct (handle_admits_syn t key seg opts isn now (Some isn)) as (r & E & R); auto; [congruence|].
  destruct (parseTcpOptions_total (options seg)) as (o & Ho & Hoo). rewrite Hopt in Ho. injection Ho as <-.
  specialize (Hoo (sg_options _ Hseg)).
  set (c1 := passive_connection key isn seg opts now) in *.
  assert (Hc1 : syn_received_ok c1) by (by apply passive_open_ok).
  destruct (passive_connection_fields key isn seg opts now) as (P1 & P2 & P3 & P4). fold c1 in P1, P2, P3, P4.
  clearbody c1. set (t1 := set_connection _ key c1) in E.
  assert (Hf1 : map_find (connections t1) key = Some c1) by (simpl; rewrite map_find_set by done; by rewrite key_eqb_refl).
  exists r, t1. split; [exact E|]. split; [unfold stateOf; rewrite Hf1; exact (f_equal Some P1)|].
  destruct R as (R1 & R2 & R3 & R4). split_and!; try done.
  intros last now' g Hl L1 L2 L3 L4 L5.
  destruct (handle_final_ack t1 key c1 last now' g) as (t2 & c & K); auto.
  - by apply map_set_ok.
  - by constructor; rewrite ?P2, ?P3.
  - exists t2, c. by rewrite P2, P3 in K.
Qed.

(** [passive_handshake] for a SYN to an empty table. *)
Lemma passive_handshake_witness :
  exists r t1, handle Sample.table0 Sample.key Sample.syn_segment 0 (Some 7000) = Some (no_result <| reply := Some r |>, t1) /\
    sequence_number r = 7000 /\ acknowledgment_number r = 1001 /\
    exists t2, handle t1 Sample.key Sample.ack_segment 10 None = Some (no_result, t2) /\
      stateOf t2 Sample.key = Some Established.
Proof.
  destruct (passive_handshake 80 4 2 Sample.table0 Sample.key Sample.syn_segment no_options 7000 0)
    as (r & t1 & E & _ & R1 & R2 & _ & _ & K);
    [apply reachable_init | reflexivity | reflexivity | by apply Sample.segment_is_ok; vm_compute
    | reflexivity | reflexivity | reflexivity | vm_compute; reflexivity | reflexivity | vm_compute; reflexivity
    | by vm_compute | discriminate |].
  exists r, t1. split; [exact E|]. split; [exact R1|]. split; [exact R2|].
  destruct (K Sample.ack_segment 10 None) as (t2 & c & E2 & F & S & _);
    [by apply Sample.segment_is_ok; vm_compute | reflexivity | reflexivity | reflexivity
    | vm_compute; reflexivity | vm_compute; reflexivity |].
  exists t2. split; [exact E2|]. unfold stateOf. rewrite F. exact (f_equal Some S).
Defined.

(** ** The active open *)

(** The connection a connect creates. *)
Definition active_connection (key : TcpConnectionKey) (isn now : Z) : Connection :=
  let c := (new_connection SynSent isn) <| remote_isn_known := false |>
             <| snd_una := isn |> <| snd_nxt := u32 (isn + 1) |> in
  c <| pending := [(new_pending isn (flags (makeActiveSyn key c)) now kInitialRto)
                     <| is_syn := true |> <| is_active_syn := true |>] |>.

Lemma beginConnect_admits t key isn now :
  map_contains (connections t) key = false -> local_port key <> 0 -> remote_port key <> 0 ->
  at_capacity t = false -> last_isn t <> Some isn ->
  exists s, beginConnect t key now (Some isn) =
      (mkConnectResult true (Some s) None,
       set_connection (t <| last_isn := Some isn |>) key (active_connection key isn now)) /\
    sequence_number s = isn /\ syn (flags s) = true /\ ack (flags s) = false.
Proof.
  intros Hf Hl Hp Hcap Hfresh. eexists. split.
  - unfold beginConnect. rewrite (proj2 (Z.eqb_neq _ _) Hl), (proj2 (Z.eqb_neq _ _) Hp), Hf, Hcap, nextIsn_fresh by done.
    cbn [orb]. reflexivity.
  - done.
Qed.

(** A SYN-ACK that completes the open is never ignored. *)
Lemma handleSynSent_completes key c seg opts now :
  syn_sent_ok c -> segment_ok seg -> parseTcpOptions (options seg) = Some (inl opts) -> completes_open c seg ->
  exists res c' a, handleSynSent key c seg now = Some (res, c') /\ connection_established res = true /\
    state c' = Established /\ pending_removal c' = false /\ sync_ok (sequence_number seg + 1) [] c' /\ owned c' = [] /\
    reply res = Some a /\ acknowledgment_number a = u32 (sequence_number seg + 1) /\ sequence_number a = snd_nxt c.
Proof.
  intros Hc Hs Ho Hcomp. destruct (handleSynSent_spec key c seg now Hc Hs) as (res & c' & E & [K|[K|K]]).
  - exfalso. destruct K as [-> ->], Hcomp as (C1 & C2 & C3 & C4 & C5 & C6). revert E. unfold handleSynSent. rewrite Ho. cbn [mbind option_bind].
    rewrite C3, C1, C2, C4, C5, C6, Z.eqb_refl. cbn [negb orb empty].
    destruct (retireAcknowledged _ _ _) as [rr c2]. intros [= Hres _].
  - exfalso. destruct K as (_ & _ & K & _), Hcomp as (_ & _ & Hrst & _). congruence.
  - destruct K as (_ & K1 & _ & _ & K2 & K3 & K4 & K5 & a & K6 & K7 & K8 & _). exists res, c', a. split_and!; auto.
Qed.

(** C21: the active handshake. A connect with valid ports and a fresh
    initial sequence number, on a table with room and no such connection,
    emits a SYN with that number; the SYN-ACK that acknowledges it
    establishes a connection that satisfies the invariant, reports it, and
    is answered with an ACK of the peer's SYN. *)
Theorem active_handshake port n h t key isn now :
  reachable port n h t -> map_contains (connections t) key = false -> local_port key <> 0 -> remote_port key <> 0 ->
  at_capacity t = false -> is_u32 isn -> last_isn t <> Some isn ->
  exists s t1, beginConnect t key now (Some isn) = (mkConnectResult true (Some s) None, t1) /\
    stateOf t1 key = Some SynSent /\ sequence_number s = isn /\ syn (flags s) = true /\ ack (flags s) = false /\
    forall seg opts now' g, segment_ok seg -> parseTcpOptions (options seg) = Some (inl opts) ->
      syn (flags seg) = true -> ack (flags seg) = true -> rst (flags seg) = false -> fin (flags seg) = false ->
      payload seg = [] -> acknowledgment_number seg = u32 (isn + 1) ->
      exists res t2 c a, handle t1 key seg now' g = Some (res, t2) /\ connection_established res = true /\
        map_find (connections t2) key = Some c /\ state c = Established /\
        sync_ok (sequence_number seg + 1) [] c /\ owned c = [] /\
        reply res = Some a /\ sequence_number a = u32 (isn + 1) /\
        acknowledgment_number a = u32 (sequence_number seg + 1).
Proof.
  intros Hr Hf Hl Hp Hcap Hisn Hfresh. apply reachable_ok in Hr as Ht. assert (Hm : map_ok (connections t)) by apply Ht.
  destruct (beginConnect_admits t key isn now) as (s & E & S1 & S2 & S3); auto.
  set (c1 := active_connection key isn now) in *. set (t1 := set_connection _ key c1) in E.
  assert (Hf1 : map_find (connections t1) key = Some c1) by (simpl; rewrite map_find_set by done; by rewrite key_eqb_refl).
  exists s, t1. split; [exact E|]. split; [unfold stateOf; rewrite Hf1; done|]. split_and!; try done.
  intros seg opts now' g Hs Ho F1 F2 F3 F4 F5 F6.
  assert (Hc1 : syn_sent_ok c1) by (by apply active_open_ok).
  destruct (handleSynSent_completes key c1 seg opts now') as (res & c' & a & K & K1 & K2 & K3 & K4 & K5 & K6 & K7 & K8); auto.
  { by unfold completes_open. }
  exists res, (update_connection t1 key c'), c', a. unfold handle. rewrite Hf1, (ss_state _ Hc1), K. cbn [mbind option_bind].
  split_and!; auto. unfold update_connection. rewrite K3. simpl. rewrite !map_find_set by auto with wire. by rewrite key_eqb_refl.
Qed.

(** [active_handshake] from an empty table. *)
Lemma active_handshake_witness :
  exists s t1, beginConnect Sample.table0 Sample.key 0 (Some 7000) = (mkConnectResult true (Some s) None, t1) /\
    sequence_number s = 7000 /\
    exists res t2, handle t1 Sample.key (Sample.segment 1000 7001 4 (no_flags <| syn := true |> <| ack := true |>) []) 10 None = Some (res, t2) /\
      stateOf t2 Sample.key = Some Established.
Proof.
  destruct (active_handshake 80 4 2 Sample.table0 Sample.key 7000 0) as (s & t1 & E & _ & R1 & _ & _ & K);
    [apply reachable_init | reflexivity | discriminate | discriminate | vm_compute; reflexivity | by vm_compute | discriminate |].
  exists s, t1. split; [exact E|]. split; [exact R1|].
  destruct (K (Sample.segment 1000 7001 4 (no_flags <| syn := true |> <| ack := true |>) []) no_options 10 None)
    as (res & t2 & c & a & E2 & _ & F & S & _);
    [by apply Sample.segment_is_ok; vm_compute | vm_compute; reflexivity | reflexivity | reflexivity | reflexivity
    | reflexivity | reflexivity | vm_compute; reflexivity |].
  exists res, t2. split; [exact E2|]. unfold stateOf. rewrite F. exact (f_equal Some S).
Defined.

(** ** Resets *)

(** The segments that may reset a connection: in the synchronized states
    only one exactly at the next expected byte, before that only one that
    answers the outstanding SYN. *)
Definition acceptable_reset (c : Connection) (seg : TcpSegment) : bool :=
  match state c with
  | SynSent => ack (flags seg) && (acknowledgment_number seg =? snd_nxt c)
  | SynReceived => sequence_number seg =? u32 (remote_isn c + 1)
  | _ => sequence_number seg =? rcv_nxt c
  end.

(** Whether the application is told. *)
Definition reports_reset (s : TcpState) : bool :=
  match s with SynReceived | TimeWait => false | _ => true end.

Definition reset_outcome (t : TcpConnectionTable) (key : TcpConnectionKey) (c : Connection) (seg : TcpSegment) :
    TcpReceiveResult * TcpConnectionTable :=
  if acceptable_reset c seg
  then (no_result <| connection_reset := reports_reset (state c) |>, erase_connection t key)
  else (no_result, set_connection t key c).

Lemma update_connection_kept t key c : pending_removal c = false -> update_connection t key c = set_connection t key c.
Proof. intros H. unfold update_connection. by rewrite H. Qed.

Lemma handle_reset t key c seg opts now g :
  map_ok (connections t) -> map_find (connections t) key = Some c -> pending_removal c = false ->
  rst (flags seg) = true -> syn (flags seg) = false -> parseTcpOptions (options seg) = Some (inl opts) ->
  exists t', handle t key seg now g = Some (fst (reset_outcome t key c seg), t') /\
    forall k, map_find (connections t') k = map_find (connections (snd (reset_outcome t key c seg))) k.
Proof.
  intros Hm Hf Hrm Hrst Hsyn Ho. unfold handle, reset_outcome, acceptable_reset. rewrite Hf.
  assert (Hid : forall k, map_find (connections t) k = map_find (connections (set_connection t key c)) k).
  { intros k. simpl. rewrite map_find_set by done. destruct (key_eqb k key) eqn:E; [|done].
    by apply key_eqb_eq in E as ->. }
  destruct (state c) eqn:Hst; unfold handleSynchronized, handleSynSent, handleSynReceived, handleTimeWait;
    rewrite ?Hsyn, ?Ho, ?Hrst; cbn [mbind option_bind];
    match goal with |- context [if ?b then _ else _] => destruct b end; eexists; (split; [reflexivity|]); try done;
    by rewrite ?update_connection_kept.
Qed.

Lemma conn_ok_kept c : conn_ok c -> pending_removal c = false.
Proof. intros [K|[K|[K _]]]; [apply (op_flags _ (ss_opening _ K)) | apply (op_flags _ (sr_opening _ K)) | exact K]. Qed.


