(* ===== verification/Dns.v ===== *)
(** * DNS ([src/src/dns.cpp], [src/include/wirestack/dns.hpp])

    Host name validation, the query serializer, name decoding with
    compression pointers, the response parser and the resolver session with
    its retries. A result of [None] stands for a read outside the packet or a
    loop that does not finish; both are proved impossible. *)

From Stdlib Require Import String Ascii.
From S2P Require Import Prelude StdMap Addresses Text.

Definition kMaxDnsMessageSize : Z := 512.
Definition kDnsHeaderSize : Z := 12.
Definition kMaxDnsLabelLength : Z := 63.
Definition kMaxDnsNameLength : Z := 253.
Definition kMaxDnsRecordCount : Z := 64.
Definition kMaxDnsPointerHops : Z := 16.

(** ** Host names *)

Definition isLdhChar (c : Z) : bool := is_lower c || is_upper c || is_digit c || (c =? ch "-").

Inductive HostnameError := HostEmpty | HostTooLong | EmptyLabel | LabelTooLong | InvalidChar | LeadingOrTrailingHyphen.

Definition checkLabel (label : list Z) : option HostnameError :=
  if empty label then Some EmptyLabel else
  if kMaxDnsLabelLength <? Zlen label then Some LabelTooLong else
  if (hd 0 label =? ch "-") || (List.last label 0 =? ch "-") then Some LeadingOrTrailingHyphen else
  if negb (forallb isLdhChar label) then Some InvalidChar else None.

Fixpoint normalize_loop (labels : list (list Z)) (normalized : list Z) : list Z + HostnameError :=
  match labels with
  | [] => inl normalized
  | label :: labels =>
      match checkLabel label with
      | Some e => inr e
      | None =>
          let normalized := if empty normalized then normalized else normalized ++ [ch "."] in
          normalize_loop labels (normalized ++ toLower label)
      end
  end.

Definition normalizeHostname (hostname : list Z) : list Z + HostnameError :=
  if empty hostname then inr HostEmpty else
  if 253 <? Zlen hostname then inr HostTooLong else
  normalize_loop (split_on (ch ".") hostname) [].

(** ** Queries *)

Record DnsQuery := mkDnsQuery { q_transaction_id : Z; q_hostname : list Z }.

Definition writeLabel (label : list Z) : list Z := u8 (Zlen label) :: label.

Definition serializeDnsQuery (query : DnsQuery) : option (list Z) :=
  match normalizeHostname (q_hostname query) with
  | inr _ => None
  | inl normalized =>
      if negb (text_eqb normalized (q_hostname query)) then None else
      let out := writeBigEndian16 [] (q_transaction_id query) in
      let out := out ++ [1; 0] in
      let out := writeBigEndian16 out 1 in
      let out := writeBigEndian16 out 0 in
      let out := writeBigEndian16 out 0 in
      let out := writeBigEndian16 out 0 in
      let out := out ++ concat (map writeLabel (split_on (ch ".") (q_hostname query))) in
      let out := out ++ [0] in
      let out := writeBigEndian16 out 1 in
      let out := writeBigEndian16 out 1 in
      if kMaxDnsMessageSize <? Zlen out then None else Some out
  end.

(** ** Names on the wire *)

Record NameDecodeResult := mkNameDecode { n_name : list Z; bytes_in_record : nat }.

(** The bytes of a label, read one by one. *)
Definition readBytes (packet : list Z) (start n : nat) : option (list Z) :=
  mapM (fun i => packet !! (start + i)%nat) (seq 0 n).

(** [Some None] is [std::nullopt]; the result carries [record_end]. *)
Fixpoint decodeName_loop (fuel : nat) (packet : list Z) (cursor : nat) (name : list Z) (record_end : option nat)
    (hops : Z) (first_label : bool) : option (option (list Z * nat)) :=
  match fuel with
  | O => None
  | S fuel =>
      if Zlen packet <=? Z.of_nat cursor then Some None else
      len_byte ← packet !! cursor;
      if Z.land len_byte 192 =? 192 then
        if Zlen packet <=? Z.of_nat cursor + 1 then Some None else
        low ← packet !! (cursor + 1)%nat;
        let pointer := u16 (Z.lor (Z.shiftl (Z.land len_byte 63) 8) low) in
        let record_end := match record_end with None => Some (cursor + 2)%nat | _ => record_end end in
        if Z.of_nat cursor <=? pointer then Some None else
        let hops := hops + 1 in
        if kMaxDnsPointerHops <? hops then Some None else
        decodeName_loop fuel packet (Z.to_nat pointer) name record_end hops first_label
      else if len_byte =? 0 then
        Some (Some (name, default (cursor + 1)%nat record_end))
      else if negb (Z.land len_byte 192 =? 0) then Some None
      else
        let label_start := (cursor + 1)%nat in
        if Zlen packet <? Z.of_nat label_start + len_byte then Some None else
        label ← readBytes packet label_start (Z.to_nat len_byte);
        let name := (if first_label then name else name ++ [ch "."]) ++ map tolower label in
        if kMaxDnsNameLength <? Zlen name then Some None else
        decodeName_loop fuel packet (label_start + Z.to_nat len_byte) name record_end hops false
  end.

(** Sixteen hops, 253 one-character labels and the last round. *)
Definition decodeName_fuel : nat := 270.

Definition decodeName (packet : list Z) (start_offset : nat) : option (option NameDecodeResult) :=
  r ← decodeName_loop decodeName_fuel packet start_offset [] None 0 true;
  Some (option_map (fun p => mkNameDecode (fst p) (snd p - start_offset)) r).

Record ResourceRecordHeader := mkRR {
  rr_name : list Z; rr_type : Z; rr_class : Z; rr_ttl : Z; rdlength : Z; rdata_offset : nat; next_offset : nat
}.

Definition decodeResourceRecord (packet : list Z) (offset : nat) : option (option ResourceRecordHeader) :=
  name ← decodeName packet offset;
  match name with
  | None => Some None
  | Some name =>
      let cursor := (offset + bytes_in_record name)%nat in
      if Zlen packet <? Z.of_nat cursor + 10 then Some None else
      type ← readBigEndian16 packet cursor;
      class ← readBigEndian16 packet (cursor + 2);
      ttl ← readBigEndian32 packet (cursor + 4);
      rdlen ← readBigEndian16 packet (cursor + 8);
      let rdata := (cursor + 10)%nat in
      if Zlen packet <? Z.of_nat rdata + rdlen then Some None else
      Some (Some (mkRR (n_name name) type class ttl rdlen rdata (rdata + Z.to_nat rdlen)))
  end.

(** ** Responses *)

Inductive DnsResponseOutcome :=
| Resolved | NoAnswer | NxDomain | ServerFailure | Refused | Malformed | Truncated | WrongTransaction | WrongQuestion.

Definition DnsResponseParseResult : Type := DnsResponseOutcome * option Ipv4Address.

(** An A/IN record for the name that was asked. *)
Definition isAnswer (rr : ResourceRecordHeader) (expected_hostname : list Z) : bool :=
  (rr_type rr =? 1) && (rr_class rr =? 1) && (rdlength rr =? 4) && text_eqb (rr_name rr) expected_hostname.

(** The answer section: [Some None] is a malformed record. *)
Fixpoint answers_loop (n : nat) (bytes : list Z) (expected_hostname : list Z) (cursor : nat) (found : option Ipv4Address) :
    option (option (nat * option Ipv4Address)) :=
  match n with
  | O => Some (Some (cursor, found))
  | S n =>
      rr ← decodeResourceRecord bytes cursor;
      match rr with
      | None => Some None
      | Some rr =>
          if negb (has_value found) && isAnswer rr expected_hostname then
            address ← readIpv4Address bytes (rdata_offset rr);
            answers_loop n bytes expected_hostname (next_offset rr) (Some address)
          else answers_loop n bytes expected_hostname (next_offset rr) found
      end
  end.

(** The authority and additional sections. *)
Fixpoint skip_loop (n : nat) (bytes : list Z) (cursor : nat) : option (option nat) :=
  match n with
  | O => Some (Some cursor)
  | S n =>
      rr ← decodeResourceRecord bytes cursor;
      match rr with
      | None => Some None
      | Some rr => skip_loop n bytes (next_offset rr)
      end
  end.

Definition parseDnsResponse (bytes : list Z) (expected_transaction_id : Z) (expected_hostname : list Z) :
    option DnsResponseParseResult :=
  let malformed := (Malformed, None) in
  if (Zlen bytes <? kDnsHeaderSize) || (kMaxDnsMessageSize <? Zlen bytes) then Some malformed else
  id ← readBigEndian16 bytes 0;
  flags1 ← bytes !! 2%nat;
  flags2 ← bytes !! 3%nat;
  let qr := negb (Z.land flags1 128 =? 0) in
  let opcode := Z.land (Z.shiftr flags1 3) 15 in
  let tc := negb (Z.land flags1 2 =? 0) in
  let rcode := Z.land flags2 15 in
  qdcount ← readBigEndian16 bytes 4;
  ancount ← readBigEndian16 bytes 6;
  nscount ← readBigEndian16 bytes 8;
  arcount ← readBigEndian16 bytes 10;
  if negb qr then Some malformed else
  if negb (opcode =? 0) then Some malformed else
  if negb (qdcount =? 1) then Some malformed else
  if kMaxDnsRecordCount <? ancount + nscount + arcount then Some malformed else
  qname ← decodeName bytes 12;
  match qname with
  | None => Some malformed
  | Some qname =>
      let cursor := (12 + bytes_in_record qname)%nat in
      if Zlen bytes <? Z.of_nat cursor + 4 then Some malformed else
      qtype ← readBigEndian16 bytes cursor;
      qclass ← readBigEndian16 bytes (cursor + 2);
      let cursor := (cursor + 4)%nat in
      if negb (id =? expected_transaction_id) then Some (WrongTransaction, None) else
      if negb (text_eqb (n_name qname) expected_hostname) || negb (qtype =? 1) || negb (qclass =? 1)
      then Some (WrongQuestion, None) else
      if tc then Some (Truncated, None) else
      if rcode =? 3 then Some (NxDomain, None) else
      if rcode =? 5 then Some (Refused, None) else
      if rcode =? 2 then Some (ServerFailure, None) else
      if negb (rcode =? 0) then Some malformed else
      answers ← answers_loop (Z.to_nat ancount) bytes expected_hostname cursor None;
      match answers with
      | None => Some malformed
      | Some (cursor, found) =>
          rest ← skip_loop (Z.to_nat (nscount + arcount)) bytes cursor;
          match rest with
          | None => Some malformed
          | Some _ => match found with Some a => Some (Resolved, Some a) | None => Some (NoAnswer, None) end
          end
      end
  end.

(** ** The resolver session *)

Definition kDnsClientSourcePort : Z := 53000.
Definition kDnsInitialInterval : Z := milliseconds 1000.
Definition kDnsMaxInterval : Z := milliseconds 4000.
Definition kDnsMaxTransmissions : Z := 3.

Inductive DnsClientState := SessionPending | SessionResolved | SessionFailed.

#[export] Instance DnsClientState_eq_dec : EqDecision DnsClientState.
Proof. solve_decision. Defined.

Record DnsClientSession := mkSession {
  server_ip : Ipv4Address;
  server_port : Z;
  s_local_port : Z;
  s_hostname : list Z;
  transaction_id : Z;
  query_bytes : list Z;
  s_transmit_count : Z;
  s_next_deadline : option Z;
  current_interval : Z;
  s_state : DnsClientState;
  resolved_address : option Ipv4Address;
  failure_reason : option DnsResponseOutcome
}.

#[export] Instance DnsClientSession_eta : Eta DnsClientSession :=
  fun s => mkSession (server_ip s) (server_port s) (s_local_port s) (s_hostname s) (transaction_id s) (query_bytes s)
    (s_transmit_count s) (s_next_deadline s) (current_interval s) (s_state s) (resolved_address s) (failure_reason s).

Definition beginDnsQuery (session : DnsClientSession) (query : DnsQuery) (now : Z) :
    option (list Z) * DnsClientSession :=
  match serializeDnsQuery query with
  | None => (None, session)
  | Some bytes =>
      let session := session <| s_hostname := q_hostname query |> <| transaction_id := q_transaction_id query |>
                             <| query_bytes := bytes |> <| s_transmit_count := 1 |>
                             <| current_interval := kDnsInitialInterval |>
                             <| s_next_deadline := Some (now + kDnsInitialInterval) |>
                             <| s_state := SessionPending |> <| resolved_address := None |> <| failure_reason := None |> in
      (Some bytes, session)
  end.

Record DnsPollResult := mkDnsPoll { retransmit : option (list Z); dns_timed_out : bool }.

Definition pollDnsTimeout (session : DnsClientSession) (now : Z) : DnsPollResult * DnsClientSession :=
  let nothing := mkDnsPoll None false in
  match s_state session, s_next_deadline session with
  | SessionPending, Some deadline =>
      if now <? deadline then (nothing, session) else
      if kDnsMaxTransmissions <=? s_transmit_count session then
        (mkDnsPoll None true,
         session <| s_state := SessionFailed |> <| failure_reason := None |> <| s_next_deadline := None |>)
      else
        let session := session <| s_transmit_count := s_transmit_count session + 1 |>
                               <| current_interval := Z.min (current_interval session * 2) kDnsMaxInterval |> in
        let session := session <| s_next_deadline := Some (now + current_interval session) |> in
        (mkDnsPoll (Some (query_bytes session)) false, session)
  | _, _ => (nothing, session)
  end.

Definition handleDnsResponse (session : DnsClientSession) (source_ip : Ipv4Address) (source_port destination_port : Z)
    (payload : list Z) : option (bool * DnsClientSession) :=
  if negb (bool_decide (s_state session = SessionPending)) then Some (false, session) else
  if negb (ip_eqb source_ip (server_ip session)) || negb (source_port =? server_port session) ||
     negb (destination_port =? s_local_port session) then Some (false, session) else
  parsed ← parseDnsResponse payload (transaction_id session) (s_hostname session);
  match fst parsed with
  | WrongTransaction | WrongQuestion | Malformed | Truncated => Some (false, session)
  | Resolved =>
      Some (true, session <| s_state := SessionResolved |> <| resolved_address := snd parsed |> <| s_next_deadline := None |>)
  | NoAnswer | NxDomain | ServerFailure | Refused =>
      Some (true, session <| s_state := SessionFailed |> <| failure_reason := Some (fst parsed) |> <| s_next_deadline := None |>)
  end.

(** ** Safety and termination of the parsers *)

Lemma readBytes_Some packet start n : (start + n <= length packet)%nat ->
  readBytes packet start n = Some (take n (drop start packet)).
Proof.
  intros H. apply mapM_Some_2, Forall2_same_length_lookup_2.
  { rewrite length_seq, length_take, length_drop. lia. }
  intros i x y Hx Hy. apply lookup_seq in Hx as [-> Hi]. rewrite lookup_take_lt, lookup_drop in Hy by lia. done.
Qed.

(** A 16-bit read the length facts in scope put inside the packet. *)
Ltac read16 packet offset v :=
  destruct (readBigEndian16_Some packet offset) as (v & ?E & ?R); [lia|];
  match goal with E : readBigEndian16 packet offset = _ |- _ => rewrite E end; cbn [mbind option_bind].

(** Where a name may end: after its start, within the packet. *)
Definition ends_in (start : nat) (packet : list Z) (e : nat) : Prop := (start < e <= length packet)%nat.

Lemma decodeName_loop_total packet start fuel : forall cursor name re hops first,
  bytes_ok packet -> hops <= kMaxDnsPointerHops -> Zlen name <= kMaxDnsNameLength ->
  (kMaxDnsPointerHops - hops) + (kMaxDnsNameLength - Zlen name) < Z.of_nat fuel ->
  match re with None => (start <= cursor)%nat | Some e => ends_in start packet e end ->
  exists r, decodeName_loop fuel packet cursor name re hops first = Some r /\
    forall nm e, r = Some (nm, e) -> Zlen nm <= kMaxDnsNameLength /\ ends_in start packet e.
Proof.
  unfold kMaxDnsPointerHops, kMaxDnsNameLength, ends_in.
  induction fuel as [|fuel IH]; intros cursor name re hops first Hb Hh Hn Hf Hre; [lia|].
  cbn [decodeName_loop]. destruct (Z.leb_spec (Zlen packet) (Z.of_nat cursor)) as [?|Hc]; [by eexists|].
  destruct (lookup_in_range packet cursor) as [len Hlen]; [lia|]. rewrite Hlen. cbn [mbind option_bind].
  pose proof (bytes_ok_lookup _ _ _ Hb Hlen) as Hu.
  assert (Hcl : (cursor < length packet)%nat) by (unfold Zlen in Hc; lia).
  destruct (Z.land len 192 =? 192).
  { destruct (Z.leb_spec (Zlen packet) (Z.of_nat cursor + 1)) as [?|Hc1]; [by eexists|].
    destruct (lookup_in_range packet (cursor + 1)) as [low Hlow]; [lia|]. rewrite Hlow. cbn [mbind option_bind].
    destruct (Z.leb_spec (Z.of_nat cursor) (u16 (Z.lor (Z.shiftl (Z.land len 63) 8) low))); [by eexists|].
    unfold kMaxDnsPointerHops. destruct (Z.ltb_spec 16 (hops + 1)); [by eexists|].
    apply IH; auto; [lia|]. unfold Zlen in Hc1. destruct re as [e|]; lia. }
  destruct (Z.eqb_spec len 0) as [->|Hl0].
  { eexists. split; [reflexivity|]. intros nm e [= <- <-]. split; [done|]. destruct re as [e|]; simpl; lia. }
  destruct (Z.land len 192 =? 0); cbn [negb]; [|by eexists].
  destruct (Z.ltb_spec (Zlen packet) (Z.of_nat (cursor + 1) + len)) as [?|Hl]; [by eexists|].
  unfold is_u8 in Hu. rewrite readBytes_Some by (unfold Zlen in Hl; lia). cbn [mbind option_bind].
  set (label := take (Z.to_nat len) (drop (cursor + 1) packet)).
  assert (Hll : Zlen label = len).
  { unfold label, Zlen in *. rewrite length_take, length_drop. lia. }
  set (nm := (if first then name else name ++ [ch "."]) ++ map tolower label).
  assert (Hnm : Zlen name + len <= Zlen nm).
  { unfold nm. rewrite Zlen_app. unfold Zlen at 3. rewrite length_map. fold (Zlen label). rewrite Hll.
    destruct first; rewrite ?Zlen_app; [lia|]. pose proof (Zlen_nonneg [ch "."]). lia. }
  unfold kMaxDnsNameLength. destruct (Z.ltb_spec 253 (Zlen nm)); [by eexists|].
  apply IH; auto; [lia|]. destruct re as [e|]; lia.
Qed.

Lemma decodeName_total packet start : bytes_ok packet ->
  exists r, decodeName packet start = Some r /\
    forall n, r = Some n -> Zlen (n_name n) <= kMaxDnsNameLength /\ (1 <= bytes_in_record n)%nat /\
      (start + bytes_in_record n <= length packet)%nat.
Proof.
  intros Hb. unfold decodeName.
  destruct (decodeName_loop_total packet start decodeName_fuel start [] None 0 true) as (r & -> & H); [done | by vm_compute.. | done |].
  cbn [mbind option_bind]. eexists. split; [reflexivity|]. intros n Hn. destruct r as [[nm e]|]; [|done].
  injection Hn as <-. destruct (H nm e eq_refl) as [H1 H2]. unfold ends_in in H2. simpl. split; [done | lia].
Qed.

Lemma decodeResourceRecord_total packet offset : bytes_ok packet ->
  exists r, decodeResourceRecord packet offset = Some r /\
    forall rr, r = Some rr -> is_u16 (rdlength rr) /\ Z.of_nat (rdata_offset rr) + rdlength rr <= Zlen packet /\
      (offset < rdata_offset rr)%nat /\ next_offset rr = (rdata_offset rr + Z.to_nat (rdlength rr))%nat.
Proof.
  intros Hb. unfold decodeResourceRecord. destruct (decodeName_total packet offset Hb) as (r & -> & H). cbn [mbind option_bind].
  destruct r as [n|]; [|by eexists]. destruct (H n eq_refl) as (_ & Hn & Hend).
  destruct (Z.ltb_spec (Zlen packet) (Z.of_nat (offset + bytes_in_record n) + 10)) as [?|Hl]; [by eexists|].
  set (cursor := (offset + bytes_in_record n)%nat) in *.
  read16 packet cursor v1. read16 packet (cursor + 2)%nat v2.
  destruct (readBigEndian32_Some packet (cursor + 4)) as (v3 & ->); [lia|]. cbn [mbind option_bind].
  read16 packet (cursor + 8)%nat v4.
  destruct (Z.ltb_spec (Zlen packet) (Z.of_nat (cursor + 10) + v4)); [by eexists|].
  eexists. split; [reflexivity|]. intros rr [= <-]. simpl. split_and!; try done; lia.
Qed.

(** What justifies an answer: a record of the packet for the asked name. *)
Definition answer_record (bytes : list Z) (hostname : list Z) (a : Ipv4Address) : Prop :=
  exists offset rr, decodeResourceRecord bytes offset = Some (Some rr) /\ rr_name rr = hostname /\
    rr_type rr = 1 /\ rr_class rr = 1 /\ rdlength rr = 4 /\ readIpv4Address bytes (rdata_offset rr) = Some a.

Lemma isAnswer_iff rr h : isAnswer rr h = true <-> rr_type rr = 1 /\ rr_class rr = 1 /\ rdlength rr = 4 /\ rr_name rr = h.
Proof. unfold isAnswer, text_eqb. rewrite !andb_true_iff, !Z.eqb_eq, bool_decide_eq_true. tauto. Qed.

Lemma answers_loop_total bytes h n : forall cursor found, bytes_ok bytes ->
  (forall a, found = Some a -> answer_record bytes h a) ->
  exists r, answers_loop n bytes h cursor found = Some r /\ forall c a, r = Some (c, Some a) -> answer_record bytes h a.
Proof.
  induction n as [|n IH]; intros cursor found Hb Hf; simpl.
  { eexists. split; [reflexivity|]. intros c a [= <- E]. by apply Hf. }
  destruct (decodeResourceRecord_total bytes cursor Hb) as (r & Er & H). rewrite Er. cbn [mbind option_bind].
  destruct r as [rr|]; [|by eexists]. destruct (H rr eq_refl) as (_ & Hin & _).
  destruct (negb (has_value found) && isAnswer rr h) eqn:E; [|by apply IH].
  apply andb_true_iff in E as [_ E]. apply isAnswer_iff in E as (E1 & E2 & E3 & E4).
  destruct (readIpv4Address_Some bytes (rdata_offset rr)) as [a Ha]; [lia|].
  rewrite Ha. cbn [mbind option_bind]. apply IH; [done|]. intros a' [= <-]. exists cursor, rr. split_and!; done.
Qed.

Lemma skip_loop_total bytes n : forall cursor, bytes_ok bytes -> exists r, skip_loop n bytes cursor = Some r.
Proof.
  induction n as [|n IH]; intros cursor Hb; simpl; [by eexists|].
  destruct (decodeResourceRecord_total bytes cursor Hb) as (r & -> & _). cbn [mbind option_bind].
  destruct r; [by apply IH | by eexists].
Qed.

(** The packet answers our question: our transaction, our name, A/IN. *)
Definition question_matches (bytes : list Z) (id : Z) (hostname : list Z) : Prop :=
  readBigEndian16 bytes 0 = Some id /\
  exists q, decodeName bytes 12 = Some (Some q) /\ n_name q = hostname /\
    readBigEndian16 bytes (12 + bytes_in_record q) = Some 1 /\ readBigEndian16 bytes (12 + bytes_in_record q + 2) = Some 1.

Definition response_sound (bytes : list Z) (id : Z) (hostname : list Z) (r : DnsResponseParseResult) : Prop :=
  match snd r with
  | None => fst r <> Resolved
  | Some a => fst r = Resolved /\ question_matches bytes id hostname /\ answer_record bytes hostname a
  end.

Lemma rejected bytes id h o : o <> Resolved -> exists r, Some (o, None) = Some r /\ response_sound bytes id h r.
Proof. intros H. by exists (o, None). Qed.

(** Take the rejecting branch of the next test. *)
Ltac reject_if :=
  match goal with
  | |- exists r, (if ?b then Some _ else _) = Some r /\ _ => destruct b eqn:?; [by apply rejected|]
  end.

Lemma parseDnsResponse_sound bytes id h : bytes_ok bytes ->
  exists r, parseDnsResponse bytes id h = Some r /\ response_sound bytes id h r.
Proof.
  intros Hb. unfold parseDnsResponse. destruct (_ || _) eqn:Hs; [by apply rejected|].
  apply orb_false_iff in Hs as [Hs _]. apply Z.ltb_ge in Hs. unfold kDnsHeaderSize in Hs.
  read16 bytes 0%nat i.
  destruct (lookup_in_range bytes 2) as [flags1 ->]; [lia|]. cbn [mbind option_bind].
  destruct (lookup_in_range bytes 3) as [flags2 ->]; [lia|]. cbn [mbind option_bind].
  read16 bytes 4%nat qdcount. read16 bytes 6%nat ancount. read16 bytes 8%nat nscount. read16 bytes 10%nat arcount.
  repeat reject_if.
  destruct (decodeName_total bytes 12 Hb) as (q & Eq & Hq). rewrite Eq. cbn [mbind option_bind].
  destruct q as [q|]; [|by apply rejected]. reject_if. bprop.
  set (cursor := (12 + bytes_in_record q)%nat) in *.
  read16 bytes cursor qt. read16 bytes (cursor + 2)%nat qc.
  repeat reject_if. bprop. unfold text_eqb in *.
  repeat match goal with H : bool_decide _ = true |- _ => apply bool_decide_eq_true in H end. subst qt qc i.
  edestruct (answers_loop_total bytes h) as (ans & -> & Ha); [done | done |]. cbn [mbind option_bind].
  destruct ans as [[c found]|]; [|by apply rejected].
  edestruct (skip_loop_total bytes) as (rest & ->); [done|]. cbn [mbind option_bind]. destruct rest; [|by apply rejected].
  destruct found as [a|]; [|by apply rejected]. exists (Resolved, Some a). split; [done|].
  split; [done|]. split; [split; [done | by exists q] | by eapply Ha].
Qed.

(** ** Names: what is written is read back *)

Definition label_ok (l : list Z) : Prop := 1 <= Zlen l <= kMaxDnsLabelLength.

Definition wire_labels (labels : list (list Z)) : list Z := concat (map writeLabel labels).

(** The name the decoder accumulates from a list of labels. *)
Fixpoint decoded (first : bool) (name : list Z) (labels : list (list Z)) : list Z :=
  match labels with
  | [] => name
  | l :: labels => decoded false ((if first then name else name ++ [ch "."]) ++ map tolower l) labels
  end.

Lemma decoded_length first name labels : Zlen name <= Zlen (decoded first name labels).
Proof.
  revert first name. induction labels as [|l labels IH]; intros first name; simpl; [lia|].
  etransitivity; [|apply IH]. rewrite Zlen_app. pose proof (Zlen_nonneg (map tolower l)). destruct first; rewrite ?Zlen_app; [lia|].
  pose proof (Zlen_nonneg [ch "."]). lia.
Qed.

Lemma decoded_app name labels : decoded false name labels = name ++ concat (map (fun l => ch "." :: map tolower l) labels).
Proof.
  revert name. induction labels as [|l labels IH]; intros name; simpl; [by rewrite app_nil_r|]. rewrite IH. by rewrite <- !app_assoc.
Qed.

Lemma decoded_join labels : labels <> [] -> decoded true [] labels = join (ch ".") (map toLower labels).
Proof.
  destruct labels as [|l labels]; [done|]. intros _. simpl. rewrite decoded_app. clear.
  change (map tolower l) with (toLower l). revert l. induction labels as [|k labels IH]; intros l; simpl; [by rewrite app_nil_r|].
  rewrite <- IH. done.
Qed.

Lemma short_label_tag len : 0 <= len < 64 -> Z.land len 192 = 0.
Proof.
  intros H. assert (Hall : forallb (fun n => Z.land (Z.of_nat n) 192 =? 0) (seq 0 64) = true) by (vm_compute; reflexivity).
  rewrite forallb_forall in Hall. specialize (Hall (Z.to_nat len)). rewrite Z2Nat.id in Hall by lia. apply Z.eqb_eq, Hall, in_seq. lia.
Qed.

Lemma lookup_at {A} (pre : list A) x post : (pre ++ x :: post) !! length pre = Some x.
Proof. by apply list_lookup_middle. Qed.

(** One round on a written label. *)
Lemma decode_label fuel pre l post name re hops (first : bool) :
  label_ok l -> Zlen ((if first then name else name ++ [ch "."]) ++ map tolower l) <= kMaxDnsNameLength ->
  decodeName_loop (S fuel) (pre ++ writeLabel l ++ post) (length pre) name re hops first =
  decodeName_loop fuel (pre ++ writeLabel l ++ post) (length pre + S (length l))
    ((if first then name else name ++ [ch "."]) ++ map tolower l) re hops false.
Proof.
  intros [Hl Hl'] Hn. unfold kMaxDnsLabelLength in Hl'. cbn [decodeName_loop]. unfold writeLabel. rewrite u8_id by (unfold is_u8; lia). cbn [app].
  set (packet := pre ++ Zlen l :: l ++ post).
  assert (Hp : Zlen packet = Z.of_nat (length pre) + 1 + Zlen l + Zlen post).
  { unfold packet. rewrite !Zlen_app, Zlen_cons, Zlen_app. unfold Zlen. lia. }
  pose proof (Zlen_nonneg post). zdec1.
  assert (Hx : packet !! length pre = Some (Zlen l)) by apply lookup_at. rewrite Hx. cbn [mbind option_bind].
  rewrite short_label_tag by lia. cbn [Z.eqb]. zdec1. cbn [negb]. replace (Z.of_nat (length pre + 1)) with (Z.of_nat (length pre) + 1) by lia. zdec1.
  rewrite readBytes_Some by (unfold Zlen in *; lia). cbn [mbind option_bind].
  replace (take (Z.to_nat (Zlen l)) (drop (length pre + 1) packet)) with l.
  2: { unfold packet. rewrite drop_app_ge by lia. replace (length pre + 1 - length pre)%nat with 1%nat by lia. simpl.
       unfold Zlen. rewrite Nat2Z.id, drop_0. by rewrite take_app_length. }
  zdec1. f_equal. unfold Zlen. lia.
Qed.

Lemma decode_labels labels : forall fuel pre post name re hops first,
  Forall label_ok labels -> (length labels < fuel)%nat -> Zlen (decoded first name labels) <= kMaxDnsNameLength ->
  decodeName_loop fuel (pre ++ wire_labels labels ++ 0 :: post) (length pre) name re hops first =
  Some (Some (decoded first name labels, default (length pre + length (wire_labels labels) + 1)%nat re)).
Proof.
  induction labels as [|l labels IH]; intros fuel pre post name re hops first Hok Hf Hn.
  { destruct fuel as [|fuel]; [simpl in Hf; lia|]. simpl. rewrite Zlen_app, Zlen_cons. pose proof (Zlen_nonneg post).
    unfold Zlen at 1. zdec1. rewrite lookup_at. cbn [mbind option_bind]. simpl. by rewrite Nat.add_0_r. }
  inversion Hok as [|? ? Hl Hls]; subst. destruct fuel as [|fuel]; [simpl in Hf; lia|]. simpl in Hf.
  unfold wire_labels. cbn [map concat]. fold (wire_labels labels). rewrite <- app_assoc.
  rewrite decode_label; [|done | etransitivity; [apply decoded_length | exact Hn]].
  rewrite (app_assoc pre). replace (length pre + S (length l))%nat with (length (pre ++ writeLabel l)) by (rewrite length_app; done).
  rewrite IH; [|done | lia | exact Hn]. cbn [decoded]. do 4 f_equal. rewrite !length_app. simpl. lia.
Qed.

(** A compression pointer to an earlier name. *)
Lemma decode_pointer fuel pre lo post name :
  0 <= lo < 256 -> lo < Zlen pre ->
  decodeName_loop (S fuel) (pre ++ 192 :: lo :: post) (length pre) name None 0 true =
  decodeName_loop fuel (pre ++ 192 :: lo :: post) (Z.to_nat lo) name (Some (length pre + 2)%nat) 1 true.
Proof.
  intros Hlo Hpre. cbn [decodeName_loop]. rewrite Zlen_app, !Zlen_cons. pose proof (Zlen_nonneg post).
  assert (Hz : Zlen pre = Z.of_nat (length pre)) by done. zdec1. rewrite lookup_at. cbn [mbind option_bind]. change (Z.land 192 192 =? 192) with true. cbn iota. zdec1.
  assert (E : (pre ++ 192 :: lo :: post) !! (length pre + 1)%nat = Some lo).
  { change (192 :: lo :: post) with ([192] ++ lo :: post). rewrite app_assoc.
    replace (length pre + 1)%nat with (length (pre ++ [192])) by (rewrite length_app; done). apply lookup_at. }
  rewrite E. cbn [mbind option_bind].
  replace (u16 (Z.lor (Z.shiftl (Z.land 192 63) 8) lo)) with lo.
  2: { change (Z.shiftl (Z.land 192 63) 8) with 0. rewrite Z.lor_0_l. symmetry. apply u16_id. unfold is_u16. lia. }
  zdec1. done.
Qed.

(** ** A query and its answer *)

Lemma checkLabel_ok l : checkLabel l = None -> label_ok l /\ l <> [] /\ Forall (fun c => isLdhChar c = true) l.
Proof.
  unfold checkLabel, label_ok. destruct (empty l) eqn:E1; [done|]. destruct (Z.ltb_spec kMaxDnsLabelLength (Zlen l)); [done|].
  destruct (_ || _); [done|]. destruct (forallb isLdhChar l) eqn:E2; [|done]. intros _. rewrite forallb_forall in E2.
  destruct l as [|c l]; [done|]. rewrite Zlen_cons in *. pose proof (Zlen_nonneg l). split; [lia|]. split; [done|]. by apply List.Forall_forall.
Qed.

Lemma normalize_loop_ok labels acc out : normalize_loop labels acc = inl out ->
  Forall (fun l => checkLabel l = None) labels /\ out = decoded (empty acc) acc labels.
Proof.
  revert acc. induction labels as [|l labels IH]; intros acc; simpl; [by intros [= <-]|].
  destruct (checkLabel l) eqn:E; [done|]. intros H. apply IH in H as [H ->]. split; [by constructor|].
  apply checkLabel_ok in E as (_ & Hl & _). unfold toLower. destruct acc as [|a acc]; simpl.
  - by destruct l.
  - done.
Qed.

(** A host name the serializer accepts, and its labels. *)
Lemma normalized_labels h : normalizeHostname h = inl h ->
  Forall label_ok (split_on (ch ".") h) /\ decoded true [] (split_on (ch ".") h) = h /\ 1 <= Zlen h <= 253.
Proof.
  unfold normalizeHostname. destruct (empty h) eqn:E1; [done|]. destruct (Z.ltb_spec 253 (Zlen h)); [done|].
  intros H'. apply normalize_loop_ok in H' as [Hf Hd]. split_and!; try done.
  - eapply Forall_impl; [exact Hf|]. intros l Hl. by apply checkLabel_ok in Hl as [? _].
  - destruct h as [|c h]; [done|]. rewrite Zlen_cons. pose proof (Zlen_nonneg h). lia.
Qed.

Lemma wire_labels_length labels : labels <> [] -> Forall label_ok labels ->
  Zlen (wire_labels labels) = Zlen (join (ch ".") labels) + 1.
Proof.
  intros Hne Hok. induction Hok as [|l labels Hl Hls IH]; [done|]. unfold wire_labels. cbn [map concat]. fold (wire_labels labels).
  rewrite Zlen_app. unfold writeLabel. rewrite Zlen_cons. destruct labels as [|k labels].
  - simpl. unfold wire_labels. simpl. change (Zlen []) with 0. lia.
  - rewrite IH by done. change (join (ch ".") (l :: k :: labels)) with (l ++ ch "." :: join (ch ".") (k :: labels)).
    rewrite Zlen_app, Zlen_cons. lia.
Qed.

(** The response a server sends: our question back, with the response and
    recursion bits, and one A record whose owner name is a pointer to it. *)
Definition answer_to (q : DnsQuery) (ttl : Z) (ip : Ipv4Address) : list Z :=
  (be16 (q_transaction_id q) ++ [129; 128] ++ be16 1 ++ be16 1 ++ be16 0 ++ be16 0) ++
  (wire_labels (split_on (ch ".") (q_hostname q)) ++ [0]) ++ be16 1 ++ be16 1 ++
  [192; 12] ++ be16 1 ++ be16 1 ++ be32 ttl ++ be16 4 ++ ip_bytes ip.

Lemma read16_at pre v post : is_u16 v -> readBigEndian16 (pre ++ be16 v ++ post) (length pre) = Some v.
Proof.
  intros Hv. apply readBigEndian16_be16; [done | apply lookup_at |]. unfold be16. cbn [app].
  change (?a :: ?b :: post) with ([a] ++ b :: post). rewrite app_assoc.
  replace (length pre + 1)%nat with (length (pre ++ [Z.land (Z.shiftr v 8) 255])) by (rewrite length_app; done). apply lookup_at.
Qed.

Lemma lookup_after {A} (pre l : list A) i : (pre ++ l) !! (length pre + i)%nat = l !! i.
Proof. rewrite lookup_app_r by lia. f_equal. lia. Qed.

Lemma readIpv4_at pre ip : readIpv4Address (pre ++ ip_bytes ip) (length pre) = Some ip.
Proof.
  unfold readIpv4Address. destruct ip as [a b c d]. cbn [ip_bytes].
  by rewrite !lookup_after.
Qed.

(** The question part, of a query or of an answer to it. *)
Lemma decodeName_question q pre post re hops fuel :
  normalizeHostname (q_hostname q) = inl (q_hostname q) -> (253 < fuel)%nat ->
  decodeName_loop fuel (pre ++ (wire_labels (split_on (ch ".") (q_hostname q)) ++ [0]) ++ post) (length pre) [] re hops true =
  Some (Some (q_hostname q, default (length pre + (length (q_hostname q) + 2))%nat re)).
Proof.
  intros H Hf. destruct (normalized_labels _ H) as (Hok & Hd & Hl). rewrite <- app_assoc. cbn [app].
  pose proof (split_on_nonempty (ch ".") (q_hostname q)) as Hne.
  pose proof (wire_labels_length _ Hne Hok) as Hw. rewrite join_split in Hw.
  assert (Hll : (length (split_on (ch ".") (q_hostname q)) <= 253)%nat).
  { assert (Hc : Forall (fun l => 1 <= Zlen l) (split_on (ch ".") (q_hostname q))) by (eapply Forall_impl; [exact Hok|]; by intros l []).
    assert (Hlen : forall ls, Forall (fun l => 1 <= Zlen l) ls -> 2 * Z.of_nat (length ls) <= Zlen (wire_labels ls)).
    { induction 1 as [|l ls H1 _ IH]; [done|]. unfold wire_labels, writeLabel in *. cbn [map concat length]. rewrite Zlen_app, Zlen_cons. lia. }
    specialize (Hlen _ Hc). lia. }
  rewrite decode_labels; [|done | lia | rewrite Hd; unfold kMaxDnsNameLength; lia].
  rewrite Hd. do 4 f_equal. unfold Zlen in Hw. lia.
Qed.

Lemma answer_record_parses q ttl ip pre :
  normalizeHostname (q_hostname q) = inl (q_hostname q) -> Zlen pre = 12 ->
  let question := (wire_labels (split_on (ch ".") (q_hostname q)) ++ [0]) ++ be16 1 ++ be16 1 in
  exists rr, decodeResourceRecord (pre ++ question ++ [192; 12] ++ be16 1 ++ be16 1 ++ be32 ttl ++ be16 4 ++ ip_bytes ip)
      (length (pre ++ question)) = Some (Some rr) /\
    isAnswer rr (q_hostname q) = true /\ rdata_offset rr = (length (pre ++ question) + 12)%nat.
Proof.
  intros H Hpre question. unfold decodeResourceRecord, decodeName.
  assert (Hq : 1 <= Zlen question).
  { unfold question. rewrite !Zlen_app. change (Zlen (be16 1)) with 2. change (Zlen [0]) with 1.
    pose proof (Zlen_nonneg (wire_labels (split_on (ch ".") (q_hostname q)))). lia. }
  set (tail := be16 1 ++ be16 1 ++ be32 ttl ++ be16 4 ++ ip_bytes ip).
  assert (E : decodeName_loop decodeName_fuel (pre ++ question ++ [192; 12] ++ tail) (length (pre ++ question)) [] None 0 true =
    Some (Some (q_hostname q, (length (pre ++ question) + 2)%nat))).
  { rewrite (app_assoc pre). change ([192; 12] ++ tail) with (192 :: 12 :: tail). unfold decodeName_fuel.
    rewrite decode_pointer; [|lia | rewrite Zlen_app; lia].
    rewrite <- app_assoc. unfold question. rewrite <- !app_assoc. rewrite (app_assoc (wire_labels _)).
    change (Z.to_nat 12) with 12%nat. assert (Hl : length pre = 12%nat) by (unfold Zlen in Hpre; lia). rewrite <- Hl at 2.
    rewrite decodeName_question by (try done; lia). done. }
  rewrite E. cbn [mbind option_bind option_map fst snd n_name bytes_in_record].
  set (head := pre ++ question). replace (length head + (length head + 2 - length head))%nat with (length head + 2)%nat by lia.
  rewrite app_assoc. fold head.
  assert (Hlen : Zlen (head ++ [192; 12] ++ tail) = Z.of_nat (length head) + 16) by (rewrite Zlen_app; unfold tail; destruct ip; unfold Zlen; simpl; lia).
  zdec1.
  assert (R : forall k v, readBigEndian16 ([192; 12] ++ tail) k = Some v -> readBigEndian16 (head ++ [192; 12] ++ tail) (length head + k) = Some v).
  { intros k v. unfold readBigEndian16. replace (length head + k + 1)%nat with (length head + (k + 1))%nat by lia. by rewrite !lookup_after. }
  rewrite (R 2%nat 1) by done. cbn [mbind option_bind].
  replace (length head + 2 + 2)%nat with (length head + 4)%nat by lia. rewrite (R 4%nat 1) by done. cbn [mbind option_bind].
  destruct (readBigEndian32_Some (head ++ [192; 12] ++ tail) (length head + 2 + 4)) as (t & ->); [lia|]. cbn [mbind option_bind].
  replace (length head + 2 + 8)%nat with (length head + 10)%nat by lia. rewrite (R 10%nat 4) by done. cbn [mbind option_bind]. zdec1.
  eexists. split; [reflexivity|]. split; [|simpl; lia]. apply isAnswer_iff. done.
Qed.

Definition answer_header (q : DnsQuery) : list Z :=
  be16 (q_transaction_id q) ++ [129; 128] ++ be16 1 ++ be16 1 ++ be16 0 ++ be16 0.

Lemma question_length q : normalizeHostname (q_hostname q) = inl (q_hostname q) ->
  Zlen (wire_labels (split_on (ch ".") (q_hostname q)) ++ [0]) = Zlen (q_hostname q) + 2.
Proof.
  intros H. destruct (normalized_labels _ H) as (Hok & _ & _). rewrite Zlen_app, wire_labels_length by (try done; apply split_on_nonempty).
  rewrite join_split. change (Zlen [0]) with 1. lia.
Qed.

(** The parser on a response with one answer record. *)
Lemma parse_single_answer P id h qn rr ip :
  kDnsHeaderSize <= Zlen P <= kMaxDnsMessageSize -> readBigEndian16 P 0 = Some id ->
  P !! 2%nat = Some 129 -> P !! 3%nat = Some 128 -> readBigEndian16 P 4 = Some 1 -> readBigEndian16 P 6 = Some 1 ->
  readBigEndian16 P 8 = Some 0 -> readBigEndian16 P 10 = Some 0 ->
  decodeName P 12 = Some (Some (mkNameDecode h qn)) -> Z.of_nat (12 + qn) + 4 <= Zlen P ->
  readBigEndian16 P (12 + qn) = Some 1 -> readBigEndian16 P (12 + qn + 2) = Some 1 ->
  decodeResourceRecord P (12 + qn + 4) = Some (Some rr) -> isAnswer rr h = true ->
  readIpv4Address P (rdata_offset rr) = Some ip ->
  parseDnsResponse P id h = Some (Resolved, Some ip).
Proof.
  intros [Hl1 Hl2] R0 R2 R3 R4 R6 R8 R10 Hq Hl Rt Rc Hrr Hans Hip. unfold parseDnsResponse. zdec.
  rewrite R0, R2, R3, R4, R6, R8, R10. cbn [mbind option_bind].
  assert (F1 : negb (negb (Z.land 129 128 =? 0)) = false) by reflexivity.
  assert (F2 : negb (Z.land (Z.shiftr 129 3) 15 =? 0) = false) by reflexivity.
  assert (F3 : (kMaxDnsRecordCount <? 1 + 0 + 0) = false) by reflexivity.
  assert (F4 : negb (Z.land 129 2 =? 0) = false) by reflexivity. assert (F5 : Z.land 128 15 = 0) by reflexivity.
  assert (F6 : Z.to_nat 1 = 1%nat) by reflexivity. assert (F7 : Z.to_nat (0 + 0) = 0%nat) by reflexivity.
  rewrite F1, F2, F3, F4, F5, F6, F7, Z.eqb_refl. cbn [negb].
  rewrite Hq. cbn [mbind option_bind bytes_in_record n_name]. zdec. rewrite Rt, Rc. cbn [mbind option_bind].
  rewrite !Z.eqb_refl. unfold text_eqb. rewrite bool_decide_true by done. cbn [negb orb Z.eqb Pos.eqb answers_loop].
  rewrite Hrr. cbn [mbind option_bind has_value negb andb]. rewrite Hans, Hip. cbn [mbind option_bind answers_loop skip_loop]. reflexivity.
Qed.

Lemma answer_resolves q ttl ip : is_u16 (q_transaction_id q) ->
  normalizeHostname (q_hostname q) = inl (q_hostname q) ->
  parseDnsResponse (answer_to q ttl ip) (q_transaction_id q) (q_hostname q) = Some (Resolved, Some ip).
Proof.
  intros Hid H. pose proof (question_length q H) as Hql. destruct (normalized_labels _ H) as (_ & _ & Hh).
  set (W := wire_labels (split_on (ch ".") (q_hostname q)) ++ [0]) in *.
  set (tail := [192; 12] ++ be16 1 ++ be16 1 ++ be32 ttl ++ be16 4 ++ ip_bytes ip).
  assert (EP : answer_to q ttl ip = answer_header q ++ W ++ be16 1 ++ be16 1 ++ tail) by done.
  destruct (answer_record_parses q ttl ip (answer_header q) H eq_refl) as (rr & Err & Hans & Hoff).
  fold W tail in Err, Hoff. rewrite <- !app_assoc in Err. rewrite <- EP in Err.
  assert (Hlen : Zlen (answer_to q ttl ip) = Zlen (q_hostname q) + 34).
  { rewrite EP, !Zlen_app, Hql. change (Zlen (answer_header q)) with 12. change (Zlen (be16 1)) with 2.
    replace (Zlen tail) with 16 by (unfold tail; by destruct ip). lia. }
  assert (Hq : decodeName (answer_to q ttl ip) 12 = Some (Some (mkNameDecode (q_hostname q) (length (q_hostname q) + 2)))).
  { unfold decodeName. rewrite EP. change 12%nat with (length (answer_header q)). unfold W, decodeName_fuel.
    rewrite decodeName_question by (try done; lia). cbn [mbind option_bind option_map fst snd]. do 3 f_equal. simpl. lia. }
  assert (Hw : length W = (length (q_hostname q) + 2)%nat) by (unfold Zlen in Hql; lia).
  assert (Hip : readIpv4Address (answer_to q ttl ip) (rdata_offset rr) = Some ip).
  { rewrite Hoff, EP. unfold tail. rewrite !app_assoc. replace (_ + 12)%nat with
      (length (((((((((answer_header q ++ W) ++ be16 1) ++ be16 1) ++ [192; 12]) ++ be16 1) ++ be16 1) ++ be32 ttl) ++ be16 4)))
      by (rewrite !length_app; simpl; lia). apply readIpv4_at. }
  assert (Hqt : readBigEndian16 (answer_to q ttl ip) (12 + (length (q_hostname q) + 2)) = Some 1).
  { rewrite EP, app_assoc. replace (12 + _)%nat with (length (answer_header q ++ W)) by (rewrite length_app, Hw; done). by apply read16_at. }
  assert (Hqc : readBigEndian16 (answer_to q ttl ip) (12 + (length (q_hostname q) + 2) + 2) = Some 1).
  { rewrite EP, !app_assoc. rewrite <- (app_assoc _ (be16 1) tail). replace (12 + _ + 2)%nat with (length ((answer_header q ++ W) ++ be16 1))
      by (rewrite !length_app, Hw; done). by apply read16_at. }
  eapply (parse_single_answer _ _ _ _ rr); try exact Hq; try exact Hqt; try exact Hqc; try exact Hans; try exact Hip; try done.
  - unfold kDnsHeaderSize, kMaxDnsMessageSize. lia.
  - by apply (readBigEndian16_be16 _ 0 (q_transaction_id q)).
  - rewrite Hlen. unfold Zlen. lia.
  - rewrite <- Err. f_equal. rewrite !length_app, Hw. simpl. lia.
Qed.

Definition query_header (q : DnsQuery) : list Z :=
  be16 (q_transaction_id q) ++ [1; 0] ++ be16 1 ++ be16 0 ++ be16 0 ++ be16 0.

Lemma serializeDnsQuery_eq q :
  serializeDnsQuery q =
    match normalizeHostname (q_hostname q) with
    | inl n => if text_eqb n (q_hostname q)
               then Some (query_header q ++ (wire_labels (split_on (ch ".") (q_hostname q)) ++ [0]) ++ be16 1 ++ be16 1) else None
    | inr _ => None
    end.
Proof.
  unfold serializeDnsQuery. destruct (normalizeHostname (q_hostname q)) as [n|] eqn:E; [|done]. unfold text_eqb.
  destruct (bool_decide_reflect (n = q_hostname q)) as [->|Hn]; cbn [negb]; [|done].
  pose proof (question_length q E) as Hl. destruct (normalized_labels _ E) as (_ & _ & Hh). fold (wire_labels (split_on (ch ".") (q_hostname q))).
  unfold writeBigEndian16. set (W := wire_labels _) in *. set (out := _ ++ [Z.land (Z.shiftr 1 8) 255; Z.land 1 255]).
  assert (Eo : out = query_header q ++ (W ++ [0]) ++ be16 1 ++ be16 1) by (unfold out; rewrite <- !app_assoc; done).
  clearbody out. subst out. unfold kMaxDnsMessageSize. rewrite !Zlen_app in *. change (Zlen (query_header q)) with 12. change (Zlen (be16 1)) with 2.
  zdec1. done.
Qed.


Module Sample.
Definition query : DnsQuery := mkDnsQuery 4660 (str "www.example.com").
Definition bytes : list Z := default [] (serializeDnsQuery query).
Definition session : DnsClientSession :=
  mkSession (Ipv4 10 0 0 53) 53 kDnsClientSourcePort [] 0 [] 0 None kDnsInitialInterval SessionPending None None.
End Sample.




(** A label is not checked for dots: the one-label name [a.b] and the
    two-label name [a], [b] decode to the same host name. *)
Lemma dotted_label_confused :
  option_map (option_map n_name) (decodeName ([3; ch "a"; ch "."; ch "b"; 0]) 0) =
  option_map (option_map n_name) (decodeName ([1; ch "a"; 1; ch "b"; 0]) 0).
Proof. vm_compute. reflexivity. Qed.

(** Labels move the cursor forward again after a hop, so a name can return to
    the same pointer; only the bound on the hops ends such a chain. *)
Lemma pointer_chain_returns fuel name re hops first :
  hops < kMaxDnsPointerHops -> Zlen name < kMaxDnsNameLength - 1 ->
  exists name' re', decodeName_loop (S (S fuel)) [1; ch "a"; 192; 0] 0 name re hops first =
    decodeName_loop fuel [1; ch "a"; 192; 0] 0 name' re' (hops + 1) false.
Proof.
  intros Hh Hn. set (name' := (if first then name else name ++ [ch "."]) ++ [ch "a"]).
  assert (Hl : Zlen name' <= kMaxDnsNameLength).
  { unfold name'. destruct first; rewrite !Zlen_app; change (Zlen [ch "a"]) with 1; change (Zlen [ch "."]) with 1; lia. }
  exists name', (match re with None => Some 4%nat | _ => re end). cbn [decodeName_loop]. change (Zlen [1; ch "a"; 192; 0]) with 4.
  change ((if kMaxDnsNameLength <? Zlen name' then Some None else
    if kMaxDnsPointerHops <? hops + 1 then Some None else
    decodeName_loop fuel [1; ch "a"; 192; 0] 0 name' (match re with None => Some 4%nat | _ => re end) (hops + 1) false) =
    decodeName_loop fuel [1; ch "a"; 192; 0] 0 name' (match re with None => Some 4%nat | _ => re end) (hops + 1) false).
  by do 2 zdec1.
Qed.

(** ** The session *)

(** What happens to a session: its timer is polled, or a UDP datagram arrives. *)
Inductive session_event :=
| Tick (now : Z)
| Datagram (source_ip : Ipv4Address) (source_port destination_port : Z) (payload : list Z).

Definition session_step (s : DnsClientSession) (e : session_event) : option (option (list Z) * DnsClientSession) :=
  match e with
  | Tick now => let '(r, s) := pollDnsTimeout s now in Some (retransmit r, s)
  | Datagram ip sp dp payload => '(_, s) ← handleDnsResponse s ip sp dp payload; Some (None, s)
  end.

(** The queries a history sends again, and the session after it. *)
Fixpoint session_run (s : DnsClientSession) (events : list session_event) : option (list (list Z) * DnsClientSession) :=
  match events with
  | [] => Some ([], s)
  | e :: events =>
      '(sent, s) ← session_step s e;
      '(rest, s) ← session_run s events;
      Some (option_list sent ++ rest, s)
  end.

Definition event_ok (e : session_event) : Prop := match e with Tick _ => True | Datagram _ _ _ p => bytes_ok p end.

(** The fields a query fixes. *)
Definition same_query (s s' : DnsClientSession) : Prop :=
  server_ip s' = server_ip s /\ server_port s' = server_port s /\ s_local_port s' = s_local_port s /\
  s_hostname s' = s_hostname s /\ transaction_id s' = transaction_id s /\ query_bytes s' = query_bytes s.

(** The datagram that settles a session: from the server to our port. *)
Definition settles (s : DnsClientSession) (e : session_event) (o : DnsResponseOutcome) (a : option Ipv4Address) : Prop :=
  match e with
  | Tick _ => False
  | Datagram ip sp dp payload => ip = server_ip s /\ sp = server_port s /\ dp = s_local_port s /\
      parseDnsResponse payload (transaction_id s) (s_hostname s) = Some (o, a)
  end.

Lemma settled_step s e : s_state s <> SessionPending -> session_step s e = Some (None, s).
Proof.
  intros H. destruct e as [now|ip sp dp p]; simpl.
  - unfold pollDnsTimeout. by destruct (s_state s).
  - unfold handleDnsResponse. by rewrite bool_decide_false.
Qed.

Lemma settled_run s events : s_state s <> SessionPending -> session_run s events = Some ([], s).
Proof. intros H. induction events as [|e events IH]; simpl; [done|]. rewrite settled_step by done. cbn [mbind option_bind]. by rewrite IH. Qed.

(** One step of a pending session: a retry, a settlement or nothing. *)
Definition step_outcome (s : DnsClientSession) (e : session_event) (sent : option (list Z)) (s' : DnsClientSession) : Prop :=
  same_query s s' /\
  (sent = None \/ (sent = Some (query_bytes s) /\ s_transmit_count s < kDnsMaxTransmissions)) /\
  s_transmit_count s' = s_transmit_count s + Zlen (option_list sent) /\
  (s_state s' = SessionResolved -> settles s e Resolved (resolved_address s')).

Lemma step_quiet s e s' : same_query s s' -> s_transmit_count s' = s_transmit_count s ->
  (s_state s' = SessionResolved -> settles s e Resolved (resolved_address s')) -> step_outcome s e None s'.
Proof. intros H1 H2 H3. split_and!; try done; [by left | simpl; rewrite Zlen_nil; lia]. Qed.

Lemma step_idle s e : s_state s = SessionPending -> step_outcome s e None s.
Proof. intros H. apply step_quiet; [done | done | by rewrite H]. Qed.

Lemma pending_step s e : event_ok e -> s_state s = SessionPending ->
  exists sent s', session_step s e = Some (sent, s') /\ step_outcome s e sent s'.
Proof.
  intros He Hp. destruct e as [now|ip sp dp p]; cbn [session_step].
  - unfold pollDnsTimeout. rewrite Hp. destruct (s_next_deadline s) as [d|]; [|exists None, s; split; [done | by apply step_idle]].
    destruct (now <? d); [exists None, s; split; [done | by apply step_idle]|].
    destruct (Z.leb_spec kDnsMaxTransmissions (s_transmit_count s)); eexists _, _; (split; [reflexivity|]).
    + by apply step_quiet.
    + split_and!; try done; [by right | simpl; by rewrite Hp].
  - unfold handleDnsResponse. rewrite bool_decide_true by done. cbn [negb].
    destruct (_ || _) eqn:Ematch; [exists None, s; split; [done | by apply step_idle]|].
    apply orb_false_iff in Ematch as [Em E3]. apply orb_false_iff in Em as [E1 E2].
    apply negb_false_iff in E1, E2, E3. unfold ip_eqb in E1. apply bool_decide_eq_true in E1. apply Z.eqb_eq in E2, E3.
    destruct (parseDnsResponse_sound p (transaction_id s) (s_hostname s) He) as ([o a] & E & _). rewrite E. cbn [mbind option_bind fst snd].
    destruct o; try (exists None, s; split; [done | by apply step_idle]); eexists _, _; (split; [reflexivity|]); apply step_quiet; done.
Qed.

Lemma session_run_spec s events : Forall event_ok events -> s_state s = SessionPending -> s_transmit_count s <= kDnsMaxTransmissions ->
  exists sent s', session_run s events = Some (sent, s') /\ same_query s s' /\
    Forall (fun b => b = query_bytes s) sent /\ s_transmit_count s + Zlen sent <= kDnsMaxTransmissions /\
    (s_state s' = SessionResolved -> exists e, e ∈ events /\ settles s e Resolved (resolved_address s')).
Proof.
  intros He. revert s. induction He as [|e events He Hes IH]; intros s Hp Hc.
  { exists [], s. split_and!; try done; [rewrite Zlen_nil; lia | by rewrite Hp]. }
  cbn [session_run]. destruct (pending_step s e He Hp) as (sent & s1 & -> & Q & Hsent & Hcount & Hres). cbn [mbind option_bind].
  assert (Hf : Forall (fun b => b = query_bytes s) (option_list sent)).
  { destruct Hsent as [->|[-> _]]; simpl; by repeat constructor. }
  assert (Hc1 : s_transmit_count s1 <= kDnsMaxTransmissions).
  { destruct Hsent as [->|[-> ?]]; simpl in Hcount; rewrite ?Zlen_nil, ?Zlen_cons, ?Zlen_nil in Hcount; lia. }
  destruct (decide (s_state s1 = SessionPending)) as [Hp1|Hp1].
  - destruct (IH s1 Hp1 Hc1) as (rest & s2 & -> & Q2 & Hf2 & Hc2 & Hres2). cbn [mbind option_bind].
    unfold same_query in *. destruct Q as (Q1 & Q3 & Q4 & Q5 & Q6 & Q7). destruct Q2 as (U1 & U2 & U3 & U4 & U5 & U6).
    eexists _, _. split; [reflexivity|]. split; [split_and!; congruence|]. split; [|split].
    + apply Forall_app. split; [done|]. by rewrite Q7 in Hf2.
    + rewrite Zlen_app. lia.
    + intros Hr. destruct (Hres2 Hr) as (e' & Hin & Hs). exists e'. split; [by right|].
      destruct e'; [done|]. unfold settles in *. by rewrite Q1, Q3, Q4, Q5, Q6 in Hs.
  - rewrite settled_run by done. cbn [mbind option_bind]. rewrite app_nil_r. eexists _, _. split; [reflexivity|].
    split_and!; try done; [lia|]. intros Hr. exists e. split; [left | by apply Hres].
Qed.


