(* ===== verification/Http.v ===== *)
(** * HTTP server ([src/src/http.cpp], [src/include/wirestack/http.hpp])

    The bounded HTTP/1.0 request parser, the per-connection request buffer,
    and the responses. The functions that http_client.cpp repeats verbatim
    (character classes, version syntax, the line splitter and the header field
    splitter) are here too. A result of [None] of a parser stands for a loop
    that does not finish, which is proved impossible. *)

From Stdlib Require Import String Ascii.
From S2P Require Import Prelude StdMap Addresses Text.

(** ** Character classes and tokens *)

Definition CR : Z := 13.
Definition LF : Z := 10.
Definition CRLF : list Z := [CR; LF].

Definition isTokenChar (c : Z) : bool :=
  if is_upper c || is_lower c || is_digit c then true else has_value (find_char c (str "!#$%&'*+-.^_`|~")).

Definition isControlByte (c : Z) : bool := (c <? 32) || (c =? 127).

Definition isBlank (c : Z) : bool := (c =? ch " ") || (c =? 9).

(** Exactly [count] non-empty fields, or none. *)
Definition splitExact (s : list Z) (sep : Z) (count : nat) : list (list Z) :=
  let fields := split_on sep s in
  if negb (length fields =? count)%nat then [] else
  if existsb empty fields then [] else fields.

Definition isValidMethodToken (method : list Z) : bool := if empty method then false else forallb isTokenChar method.

Definition isValidVersionSyntax (version : list Z) : bool :=
  let kPrefix := str "HTTP/" in
  if negb (Zlen version =? Zlen kPrefix + 3) then false else
  if negb (text_eqb (take (length kPrefix) version) kPrefix) then false else
  let major := nth (length kPrefix) version 0 in
  let dot := nth (length kPrefix + 1) version 0 in
  let minor := nth (length kPrefix + 2) version 0 in
  is_digit major && (dot =? ch ".") && is_digit minor.

Definition isValidTarget (target : list Z) : bool :=
  if empty target || negb (hd 0 target =? ch "/") then false else
  negb (existsb (fun c => (c =? ch " ") || isControlByte c) target).

(** ** The head of a message *)

(** The lines of a head block, up to and including the blank one. [Some None]
    is the malformed block; each round consumes a line end. *)
Fixpoint head_lines (fuel : nat) (rest : list Z) : option (option (list (list Z))) :=
  match fuel with
  | O => None
  | S fuel =>
      match find_sub CRLF rest with
      | None => Some None
      | Some crlf =>
          let line := take crlf rest in
          if has_value (find_char CR line) || has_value (find_char LF line) then Some None else
          if empty line then Some (Some [line]) else
          lines ← head_lines fuel (drop (crlf + 2) rest);
          Some (option_map (cons line) lines)
      end
  end.

(** Skip leading spaces and tabs. *)
Fixpoint skipBlank (s : list Z) : list Z :=
  match s with
  | c :: t => if isBlank c then skipBlank t else s
  | [] => []
  end.

(** A header line split into its name and the text after its colon and the
    blanks that follow; [None] where the source rejects the line. *)
Definition headerField (line : list Z) : option (list Z * list Z) :=
  match line with
  | [] => None
  | front :: _ =>
      if isBlank front then None else
      match find_char (ch ":") line with
      | None | Some O => None
      | Some colon =>
          let name := take colon line in
          if negb (forallb isTokenChar name) then None else
          Some (name, skipBlank (drop (S colon) line))
      end
  end.

(** Header values are free of control bytes other than tabs. *)
Definition cleanValue (value : list Z) : bool := negb (existsb (fun c => negb (c =? 9) && isControlByte c) value).

(** ** Requests *)

Record HttpRequest := mkHttpRequest { method : list Z; target : list Z; version : list Z }.

Inductive HeadOutcome := HeadMalformed | HeadUnsupportedMethod | HeadUnsupportedVersion | HeadComplete.

Record HeadParse := mkHeadParse { head_outcome : HeadOutcome; head_request : HttpRequest }.

Definition failHead (o : HeadOutcome) : HeadParse := mkHeadParse o (mkHttpRequest [] [] []).

(** The loop over the header lines: whether all of them are acceptable. *)
Fixpoint checkHeaders (lines : list (list Z)) (seen_content_length : bool) : bool :=
  match lines with
  | [] => true
  | line :: lines =>
      match headerField line with
      | None => false
      | Some (name, value) =>
          if negb (cleanValue value) then false else
          let lower_name := toLower name in
          if text_eqb lower_name (str "transfer-encoding") then false else
          if text_eqb lower_name (str "content-length") then
            if seen_content_length then false else
            if negb (text_eqb value (str "0")) then false else checkHeaders lines true
          else checkHeaders lines seen_content_length
      end
  end.

Definition parseHead (head_block : list Z) : option HeadParse :=
  lines ← head_lines (S (length head_block)) head_block;
  match lines with
  | None => Some (failHead HeadMalformed)
  | Some lines =>
      if empty (hd [] lines) then Some (failHead HeadMalformed) else
      match splitExact (hd [] lines) (ch " ") 3 with
      | [method; target; version] =>
          if negb (isValidMethodToken method) then Some (failHead HeadMalformed) else
          if negb (isValidVersionSyntax version) then Some (failHead HeadMalformed) else
          if negb (isValidTarget target) then Some (failHead HeadMalformed) else
          if negb (text_eqb method (str "GET")) then Some (failHead HeadUnsupportedMethod) else
          if negb (text_eqb version (str "HTTP/1.0")) then Some (failHead HeadUnsupportedVersion) else
          if negb (checkHeaders (removelast (tl lines)) false) then Some (failHead HeadMalformed) else
          Some (mkHeadParse HeadComplete (mkHttpRequest method target version))
      | _ => Some (failHead HeadMalformed)
      end
  end.

Inductive HttpParseStatus :=
| ReqIncomplete | ReqComplete | ReqMalformed | ReqTooLarge | ReqUnsupportedMethod | ReqUnsupportedVersion.

#[export] Instance HttpParseStatus_eq_dec : EqDecision HttpParseStatus.
Proof. solve_decision. Defined.

Record HttpParseResult := mkHttpParseResult { req_status : HttpParseStatus; req_request : option HttpRequest }.

Definition kMaxHttpRequestLineLength : Z := 2048.
Definition kMaxHttpHeaderBlockLength : Z := 8192.

(** [std::string_view::npos] and the position arithmetic of [std::size_t]. *)
Definition npos : Z := 2 ^ 64 - 1.
Definition position (p : option nat) : Z := match p with Some n => Z.of_nat n | None => npos end.
Definition size_add (p : option nat) (k : Z) : Z := (position p + k) mod 2 ^ 64.

Definition parseHttpRequest (view : list Z) : option HttpParseResult :=
  let terminator := find_sub (CRLF ++ CRLF) view in
  let first_crlf := find_sub CRLF view in
  match terminator with
  | None =>
      if has_value first_crlf && (kMaxHttpRequestLineLength <? size_add first_crlf 2)
      then Some (mkHttpParseResult ReqTooLarge None) else
      if kMaxHttpHeaderBlockLength <=? Zlen view then Some (mkHttpParseResult ReqTooLarge None)
      else Some (mkHttpParseResult ReqIncomplete None)
  | Some t =>
      if kMaxHttpRequestLineLength <? size_add first_crlf 2 then Some (mkHttpParseResult ReqTooLarge None) else
      if kMaxHttpHeaderBlockLength <? size_add terminator 4 then Some (mkHttpParseResult ReqTooLarge None) else
      let head_block := take (t + 4) view in
      let extra := drop (t + 4) view in
      if has_value (find_char 0 head_block) then Some (mkHttpParseResult ReqMalformed None) else
      parsed ← parseHead head_block;
      Some match head_outcome parsed with
           | HeadMalformed => mkHttpParseResult ReqMalformed None
           | HeadUnsupportedMethod => mkHttpParseResult ReqUnsupportedMethod None
           | HeadUnsupportedVersion => mkHttpParseResult ReqUnsupportedVersion None
           | HeadComplete =>
               if negb (empty extra) then mkHttpParseResult ReqMalformed None
               else mkHttpParseResult ReqComplete (Some (head_request parsed))
           end
  end.

(** ** The buffer of a connection *)

Record HttpConnectionState := mkHttpConnection { http_buffer : list Z; responded : bool }.
#[export] Instance eta_HttpConnectionState : Eta HttpConnectionState :=
  fun s => mkHttpConnection (http_buffer s) (responded s).

Definition appendHttpBytes (state : HttpConnectionState) (bytes : list Z) : HttpConnectionState :=
  if kMaxHttpHeaderBlockLength <=? Zlen (http_buffer state) then state else
  let room := kMaxHttpHeaderBlockLength - Zlen (http_buffer state) in
  let take_n := Z.min room (Zlen bytes) in
  state <| http_buffer := http_buffer state ++ take (Z.to_nat take_n) bytes |>.

(** ** Responses *)

Inductive HttpStatus := Ok200 | BadRequest400 | NotFound404 | MethodNotAllowed405 | VersionNotSupported505.

Record HttpResponse := mkHttpResponse {
  response_status : HttpStatus; content_type : list Z; response_body : list Z; include_allow_get : bool
}.

Definition kPlainTextContentType : list Z := str "text/plain; charset=utf-8".
Definition kSackTestBodySize : nat := Z.to_nat 12000.

Definition makeOkResponse : HttpResponse :=
  mkHttpResponse Ok200 kPlainTextContentType (str "Hello from Wirestack" ++ [LF]) false.
Definition makeBadRequestResponse : HttpResponse :=
  mkHttpResponse BadRequest400 kPlainTextContentType (str "Bad Request" ++ [LF]) false.
Definition makeNotFoundResponse : HttpResponse :=
  mkHttpResponse NotFound404 kPlainTextContentType (str "Not Found" ++ [LF]) false.
Definition makeMethodNotAllowedResponse : HttpResponse :=
  mkHttpResponse MethodNotAllowed405 kPlainTextContentType (str "Method Not Allowed" ++ [LF]) true.
Definition makeVersionNotSupportedResponse : HttpResponse :=
  mkHttpResponse VersionNotSupported505 kPlainTextContentType (str "HTTP Version Not Supported" ++ [LF]) false.

Definition selectResponse (request : HttpRequest) : HttpResponse :=
  if text_eqb (target request) (str "/") then makeOkResponse else
  if text_eqb (target request) (str "/sack-test")
  then mkHttpResponse Ok200 kPlainTextContentType (replicate kSackTestBodySize (ch "s")) false
  else makeNotFoundResponse.

Definition statusLine (status : HttpStatus) : list Z :=
  match status with
  | Ok200 => str "200 OK"
  | BadRequest400 => str "400 Bad Request"
  | NotFound404 => str "404 Not Found"
  | MethodNotAllowed405 => str "405 Method Not Allowed"
  | VersionNotSupported505 => str "505 HTTP Version Not Supported"
  end.

Definition serializeHttpResponse (response : HttpResponse) : list Z :=
  let head := str "HTTP/1.0 " ++ statusLine (response_status response) ++ CRLF in
  let head := head ++ str "Content-Type: " ++ content_type response ++ CRLF in
  let head := head ++ str "Content-Length: " ++ to_string (Zlen (response_body response)) ++ CRLF in
  let head := if include_allow_get response then head ++ str "Allow: GET" ++ CRLF else head in
  let head := head ++ str "Connection: close" ++ CRLF ++ CRLF in
  head ++ response_body response.

Example parse_sample :
  parseHttpRequest (str "GET / HTTP/1.0" ++ CRLF ++ str "Host: a" ++ CRLF ++ CRLF) =
    Some (mkHttpParseResult ReqComplete (Some (mkHttpRequest (str "GET") (str "/") (str "HTTP/1.0")))).
Proof. vm_compute. reflexivity. Qed.

(** ** The server's use of the parser ([handleTcp] of src/src/main.cpp)

    What one delivery of a connection -- accepted payload and whether the peer
    closed -- does to its session, and the response it calls for. *)
Definition serveHttp (session : HttpConnectionState) (accepted_payload : list Z) (peer_closed : bool)
    : option (HttpConnectionState * option HttpResponse) :=
  if responded session then Some (session, None) else
  let session := if empty accepted_payload then session else appendHttpBytes session accepted_payload in
  parsed ← parseHttpRequest (http_buffer session);
  let response :=
    match req_status parsed with
    | ReqIncomplete => if peer_closed then Some makeBadRequestResponse else None
    | ReqComplete => option_map selectResponse (req_request parsed)
    | ReqMalformed | ReqTooLarge => Some makeBadRequestResponse
    | ReqUnsupportedMethod => Some makeMethodNotAllowedResponse
    | ReqUnsupportedVersion => Some makeVersionNotSupportedResponse
    end in
  Some (if has_value response then session <| responded := true |> else session, response).

Definition new_http_session : HttpConnectionState := mkHttpConnection [] false.

(** ** The parser terminates *)

Lemma head_lines_total fuel rest : (length rest < fuel)%nat -> exists r, head_lines fuel rest = Some r.
Proof.
  revert rest. induction fuel as [|fuel IH]; intros rest Hf; [lia|]. cbn [head_lines].
  destruct (find_sub CRLF rest) as [n|] eqn:E; [|by eexists]. apply find_sub_bound in E. simpl in E.
  destruct (_ || _); [by eexists|]. destruct (empty _); [by eexists|].
  destruct (IH (drop (n + 2) rest)) as [r ->]; [rewrite length_drop; lia|]. by eexists.
Qed.

Lemma parseHead_total head : exists r, parseHead head = Some r.
Proof.
  unfold parseHead. destruct (head_lines_total (S (length head)) head) as [[lines|] ->]; [lia| |by eexists]. cbn [mbind option_bind].
  destruct (empty (hd [] lines)); [by eexists|].
  destruct (splitExact _ _ _) as [|? [|? [|? [|]]]]; try by eexists.
  repeat (match goal with |- context [if ?b then _ else _] => destruct b end; [by eexists|]). by eexists.
Qed.

Lemma size_add_small n k : Z.of_nat n + k < 2 ^ 64 -> 0 <= k -> size_add (Some n) k = Z.of_nat n + k.
Proof. intros. apply Z.mod_small. simpl. lia. Qed.

(** ** The verdicts in terms of positions

    [decided t v] is the verdict once the terminator is at [t]. *)
Lemma crlf_before_terminator s t : find_sub (CRLF ++ CRLF) s = Some t -> exists n, find_sub CRLF s = Some n /\ (n <= t)%nat.
Proof.
  revert t. induction s as [|c s IH]; intros t; [done|]. cbn [find_sub].
  destruct (starts_with (CRLF ++ CRLF) (c :: s)) eqn:E.
  - intros [= <-]. exists O. split; [|lia].
    assert (E2 : starts_with CRLF (c :: s) = true); [|by rewrite E2].
    change (CRLF ++ CRLF) with [CR; LF; CR; LF] in E. cbn [starts_with CRLF] in *.
    apply andb_true_iff in E as [-> E]. destruct s as [|c2 s]; [done|]. by apply andb_true_iff in E as [-> _].
  - destruct (find_sub (CRLF ++ CRLF) s) as [m|]; [|done]. intros [= <-]. destruct (IH m eq_refl) as (n & En & Hn).
    destruct (starts_with CRLF (c :: s)); [exists O; split; [done|lia]|]. rewrite En. exists (S n). split; [done | lia].
Qed.

(** Buffers are far smaller than the address space. *)
Definition small (s : list Z) : Prop := Zlen s + 4 < 2 ^ 64.

Lemma small_pos pat s n k : small s -> find_sub pat s = Some n -> 0 <= k <= 4 -> size_add (Some n) k = Z.of_nat n + k.
Proof. intros Hs H Hk. apply find_sub_bound in H. unfold small, Zlen in Hs. apply size_add_small; lia. Qed.

Lemma parseHttpRequest_total b : exists r, parseHttpRequest b = Some r.
Proof.
  unfold parseHttpRequest. destruct (find_sub (CRLF ++ CRLF) b) as [t|].
  - do 3 (match goal with |- context [if ?c then _ else _] => destruct c end; [by eexists|]).
    destruct (parseHead_total (take (t + 4) b)) as [p ->]. by eexists.
  - do 2 (match goal with |- context [if ?c then _ else _] => destruct c end; [by eexists|]). by eexists.
Qed.

(** What more input makes of a verdict. *)
Definition after_more (r : HttpParseResult) (more : list Z) : HttpParseResult :=
  match req_status r with
  | ReqComplete => if empty more then r else mkHttpParseResult ReqMalformed None
  | _ => r
  end.

Lemma extend_terminated b e t : find_sub (CRLF ++ CRLF) b = Some t -> small (b ++ e) ->
  parseHttpRequest (b ++ e) = option_map (fun r => after_more r e) (parseHttpRequest b).
Proof.
  intros Ht Hs. destruct (crlf_before_terminator _ _ Ht) as (n & Hn & _). pose proof (find_sub_bound _ _ _ Ht) as Hb. simpl in Hb.
  unfold parseHttpRequest. rewrite (find_sub_extend _ _ e _ Ht), (find_sub_extend _ _ e _ Hn), Ht, Hn.
  destruct (_ <? size_add (Some n) 2); [done|]. destruct (_ <? size_add (Some t) 4); [done|].
  rewrite take_app_le, drop_app_le by lia. destruct (has_value _); [done|].
  destruct (parseHead_total (take (t + 4) b)) as [p ->]. cbn [mbind option_bind option_map]. f_equal.
  destruct (head_outcome p); [done..|]. unfold after_more. destruct (drop (t + 4) b); [by destruct e | done].
Qed.

Lemma extend_too_large b e : find_sub (CRLF ++ CRLF) b = None -> small (b ++ e) ->
  parseHttpRequest b = Some (mkHttpParseResult ReqTooLarge None) ->
  parseHttpRequest (b ++ e) = Some (mkHttpParseResult ReqTooLarge None).
Proof.
  intros Ht Hs. unfold parseHttpRequest. rewrite Ht.
  destruct (has_value (find_sub CRLF b) && _) eqn:E1.
  - destruct (find_sub CRLF b) as [n|] eqn:En; [|done]. intros _. rewrite (find_sub_extend _ _ e _ En).
    cbn [has_value andb] in *. rewrite E1. by destruct (find_sub (CRLF ++ CRLF) (b ++ e)).
  - destruct (Z.leb_spec kMaxHttpHeaderBlockLength (Zlen b)) as [Hl|]; [|done]. intros _. clear E1.
    destruct (find_sub (CRLF ++ CRLF) (b ++ e)) as [t|] eqn:Et.
    + rewrite (small_pos _ _ _ 4 Hs Et) by lia. apply find_sub_appears in Et; [|done]. simpl in Et. unfold Zlen in Hl.
      destruct (kMaxHttpRequestLineLength <? _); [done|]. by zdec1.
    + destruct (_ && _); [done|]. rewrite Zlen_app. pose proof (Zlen_nonneg e). by zdec1.
Qed.

Lemma verdict_final b e r : small (b ++ e) -> parseHttpRequest b = Some r -> req_status r <> ReqIncomplete ->
  parseHttpRequest (b ++ e) = Some (after_more r e).
Proof.
  intros Hs E Hr. destruct (find_sub (CRLF ++ CRLF) b) as [t|] eqn:Ht.
  - rewrite (extend_terminated b e t) by done. by rewrite E.
  - assert (r = mkHttpParseResult ReqTooLarge None) as ->.
    { revert E. unfold parseHttpRequest. rewrite Ht. destruct (_ && _); [by intros [= <-]|].
      destruct (_ <=? _); intros [= <-]; [done | done]. }
    by apply extend_too_large.
Qed.

Lemma verdict_facts b r : parseHttpRequest b = Some r ->
  (req_status r = ReqIncomplete -> Zlen b < kMaxHttpHeaderBlockLength) /\
  (req_status r = ReqComplete -> has_value (req_request r) = true).
Proof.
  unfold parseHttpRequest. destruct (find_sub (CRLF ++ CRLF) b) as [t|].
  - do 3 (match goal with |- context [if ?c then _ else _] => destruct c end; [by intros [= <-]|]).
    destruct (parseHead_total (take (t + 4) b)) as [p ->]. cbn [mbind option_bind]. intros [= <-].
    destruct (head_outcome p); [done..|]. by destruct (drop (t + 4) b).
  - destruct (_ && _); [by intros [= <-]|]. destruct (Z.leb_spec kMaxHttpHeaderBlockLength (Zlen b)); by intros [= <-].
Qed.

Lemma incomplete_small b r : parseHttpRequest b = Some r -> req_status r = ReqIncomplete -> Zlen b < kMaxHttpHeaderBlockLength.
Proof. intros E. apply (proj1 (verdict_facts _ _ E)). Qed.

(** A complete request ends with its terminator. *)
Lemma complete_bounded b req : small b -> parseHttpRequest b = Some (mkHttpParseResult ReqComplete req) ->
  Zlen b <= kMaxHttpHeaderBlockLength /\ has_value req = true.
Proof.
  intros Hs. unfold parseHttpRequest. destruct (find_sub (CRLF ++ CRLF) b) as [t|] eqn:Ht.
  - destruct (_ <? size_add _ 2); [done|]. rewrite (small_pos _ _ _ 4 Hs Ht) by lia. destruct (Z.ltb_spec kMaxHttpHeaderBlockLength (Z.of_nat t + 4)); [done|].
    destruct (has_value _); [done|]. destruct (parseHead_total (take (t + 4) b)) as [p ->]. cbn [mbind option_bind].
    destruct (head_outcome p); [done..|]. destruct (drop (t + 4) b) as [|x l] eqn:Ed; [|done]. intros [= <-]. split; [|done].
    apply (f_equal length) in Ed. rewrite length_drop in Ed. simpl in Ed. unfold Zlen. lia.
  - destruct (_ && _); [done|]. by destruct (_ <=? _).
Qed.

(** ** Well-formed heads

    The text of a head: its lines, each with a line end, and the blank line. *)
Definition render (lines : list (list Z)) : list Z := concat (map (fun l => l ++ CRLF) lines) ++ CRLF.

(** A line that the splitter gives back whole. *)
Definition line_ok (l : list Z) : Prop := l <> [] /\ Forall (fun c => c <> CR /\ c <> LF /\ c <> 0) l.

Lemma line_no l c : line_ok l -> In c [CR; LF; 0] -> Forall (fun x => x <> c) l.
Proof. intros [_ H] Hc. eapply Forall_impl; [exact H|]. intros x (? & ? & ?). simpl in Hc. by destruct Hc as [<-|[<-|[<-|[]]]]. Qed.

Lemma render_cons l lines s : render (l :: lines) ++ s = l ++ CRLF ++ (render lines ++ s).
Proof. unfold render. simpl. by rewrite <- !app_assoc. Qed.

Lemma first_line l lines s : line_ok l -> find_sub CRLF (render (l :: lines) ++ s) = Some (length l).
Proof. intros H. rewrite render_cons. apply find_sub_first. apply line_no; [done | simpl; tauto]. Qed.

Lemma find_terminator lines s : Forall line_ok lines -> lines <> [] ->
  exists t, find_sub (CRLF ++ CRLF) (render lines ++ s) = Some t /\ (t + 4)%nat = length (render lines).
Proof.
  change (CRLF ++ CRLF) with [CR; LF; CR; LF].
  induction 1 as [|l lines Hl Hls IH]; intros Hne; [done|]. rewrite render_cons, find_sub_skip by (apply line_no; [done | simpl; tauto]).
  assert (Hlen : length (render (l :: lines)) = (length l + 2 + length (render lines))%nat).
  { rewrite <- (app_nil_r (render (l :: lines))), render_cons, !length_app. simpl. lia. }
  destruct lines as [|l2 lines].
  - exists (length l). split; [|rewrite Hlen; simpl; lia]. change (render [] ++ s) with (CRLF ++ s).
    rewrite app_assoc. change (CRLF ++ CRLF) with [CR; LF; CR; LF]. rewrite find_sub_here. simpl. f_equal. lia.
  - destruct (IH ltac:(done)) as (t & Et & Ht). exists (length l + (2 + t))%nat. split; [|lia].
    inversion Hls as [|? ? [Hne2 H2] _]; subst. destruct l2 as [|x l2]; [done|]. inversion H2 as [|? ? (Hx & _) _]; subst.
    cbn [CRLF app]. rewrite render_cons in *. cbn [app] in *. set (R := x :: l2 ++ CRLF ++ render lines ++ s) in *.
    cbn [find_sub starts_with]. unfold R at 1. cbn [starts_with]. rewrite (proj2 (Z.eqb_neq CR x)) by done.
    cbn [andb find_sub]. rewrite Et. done.
Qed.

Lemma head_lines_render lines : forall fuel, Forall line_ok lines -> (length lines < fuel)%nat ->
  head_lines fuel (render lines) = Some (Some (lines ++ [[]])).
Proof.
  induction lines as [|l lines IH]; intros [|fuel] H Hf; simpl in Hf; try lia; [done|]. inversion H as [|? ? Hl Hls]; subst.
  cbn [head_lines]. rewrite <- (app_nil_r (render (l :: lines))), (first_line l lines []), render_cons, app_nil_r by done.
  rewrite take_app_length. rewrite (proj2 (find_char_none CR l)), (proj2 (find_char_none LF l)) by (apply line_no; [done | simpl; tauto]).
  cbn [has_value orb]. destruct Hl as [Hne _]. destruct l as [|c l]; [done|]. cbn [empty].
  rewrite (app_assoc (c :: l) CRLF), drop_app_length' by (rewrite length_app; done). by rewrite IH by (try done; lia).
Qed.

Lemma render_no_nul lines : Forall line_ok lines -> find_char 0 (render lines) = None.
Proof.
  intros H. apply find_char_none. unfold render. apply Forall_app. split; [|by repeat constructor].
  induction H as [|l lines Hl Hls IH]; simpl; [done|]. rewrite <- app_assoc, !Forall_app. split_and!; [|by repeat constructor | done].
  apply line_no; [done | simpl; tauto].
Qed.

Lemma render_length lines : (length lines <= length (render lines))%nat.
Proof.
  unfold render. rewrite length_app. induction lines as [|l lines IH]; simpl; [lia|]. rewrite !length_app in *. simpl in *. lia.
Qed.

(** ** A connection's request, delivery by delivery *)

Fixpoint serve_run (session : HttpConnectionState) (deliveries : list (list Z * bool))
    : option (HttpConnectionState * list (option HttpResponse)) :=
  match deliveries with
  | [] => Some (session, [])
  | (payload, peer_closed) :: deliveries =>
      '(session, response) ← serveHttp session payload peer_closed;
      '(session, responses) ← serve_run session deliveries;
      Some (session, response :: responses)
  end.

Lemma serve_answered s deliveries : responded s = true ->
  serve_run s deliveries = Some (s, replicate (length deliveries) None).
Proof.
  intros Hs. induction deliveries as [|[p fin] ds IH]; simpl; [done|]. unfold serveHttp. rewrite Hs. cbn [mbind option_bind]. by rewrite IH.
Qed.

Definition pending (s : HttpConnectionState) : Prop := responded s = false /\ Zlen (http_buffer s) < kMaxHttpHeaderBlockLength.

Lemma pending_new : pending new_http_session.
Proof. by split. Qed.

(** The buffer after a delivery: everything, or a full buffer. *)
Lemma buffer_append s p : pending s ->
  let s' := if empty p then s else appendHttpBytes s p in
  responded s' = false /\
  (http_buffer s' = http_buffer s ++ p \/ Zlen (http_buffer s') = kMaxHttpHeaderBlockLength).
Proof.
  intros [Hr Hb]. destruct p as [|x p]; simpl; [split; [done|]; left; by rewrite app_nil_r|]. set (q := x :: p). unfold appendHttpBytes.
  zdec1. simpl. split; [done|]. pose proof (Zlen_nonneg q). destruct (Z.le_ge_cases (Zlen q) (kMaxHttpHeaderBlockLength - Zlen (http_buffer s))) as [Hle|Hge].
  - left. rewrite Z.min_r by done. f_equal. apply take_ge. unfold Zlen. lia.
  - right. rewrite Z.min_l, Zlen_app by done. unfold Zlen at 2. rewrite length_take_le by (unfold Zlen in *; lia). rewrite Z2Nat.id by lia. lia.
Qed.

Lemma serve_pending s p fin : pending s ->
  exists s' r, serveHttp s p fin = Some (s', r) /\
    match r with
    | Some _ => responded s' = true
    | None => pending s' /\ http_buffer s' = http_buffer s ++ p /\ fin = false
    end.
Proof.
  intros Hs. pose proof (buffer_append s p Hs) as [Hr Hb]. unfold serveHttp. destruct Hs as [-> _].
  set (t := if empty p then s else appendHttpBytes s p) in *. destruct (parseHttpRequest_total (http_buffer t)) as [res E]. rewrite E. cbn [mbind option_bind].
  eexists _, _. split; [reflexivity|]. destruct (req_status res) eqn:Est; try done.
  - destruct fin; [done|]. simpl. pose proof (incomplete_small _ _ E Est). destruct Hb as [Hb|Hb]; [done|]. lia.
  - pose proof (proj2 (verdict_facts _ _ E) Est) as Hq. by destruct (req_request res).
Qed.

Lemma serve_run_spec s deliveries : pending s -> exists s' rs, serve_run s deliveries = Some (s', rs) /\
  ((pending s' /\ rs = replicate (length deliveries) None /\ http_buffer s' = http_buffer s ++ concat (map fst deliveries) /\
    Forall (fun d => snd d = false) deliveries) \/
   exists i j r, rs = replicate i None ++ Some r :: replicate j None).
Proof.
  revert s. induction deliveries as [|[p fin] ds IH]; intros s Hs; cbn [serve_run].
  { exists s, []. split; [done|]. left. simpl. by rewrite app_nil_r. }
  destruct (serve_pending s p fin Hs) as (s1 & [r|] & -> & H); cbn [mbind option_bind].
  - rewrite serve_answered by done. eexists _, _. split; [reflexivity|]. right. by exists O, (length ds), r.
  - destruct H as (H1 & H2 & ->). destruct (IH s1 H1) as (s2 & rs & -> & [(P & -> & Eb & Hf)|(i & j & r & ->)]); cbn [mbind option_bind];
      eexists _, _; (split; [reflexivity|]).
    + left. split_and!; try done; [|by constructor]. simpl. by rewrite Eb, H2, <- app_assoc.
    + right. by exists (S i), j, r.
Qed.

(** A request that arrives whole is answered at its last chunk. *)
Lemma serve_chunks chunks : forall s b req, pending s -> small b -> chunks <> [] -> Forall (fun c => c <> []) chunks ->
  http_buffer s ++ concat chunks = b -> parseHttpRequest b = Some (mkHttpParseResult ReqComplete (Some req)) ->
  exists s', serve_run s (map (fun c => (c, false)) chunks) =
    Some (s', replicate (length chunks - 1) None ++ [Some (selectResponse req)]).
Proof.
  induction chunks as [|c chunks IH]; intros s b req Hs Hsm Hne Hc Hb E; [done|]. inversion Hc as [|? ? Hc1 Hc2]; subst.
  destruct (complete_bounded _ _ Hsm E) as [Hlen _]. cbn [concat] in *. rewrite app_assoc in Hlen, Hsm, E.
  destruct (buffer_append s c Hs) as [Hr Hbuf]. cbn [map serve_run].
  set (t := if empty c then s else appendHttpBytes s c) in *.
  assert (Et : http_buffer t = http_buffer s ++ c).
  { unfold t. destruct c as [|x c]; [done|]. simpl. unfold appendHttpBytes. destruct Hs as [_ Hl]. zdec1. simpl. f_equal.
    rewrite !Zlen_app in Hlen. pose proof (Zlen_nonneg (concat chunks)). rewrite Z.min_r by lia. apply take_ge. unfold Zlen. lia. }
  destruct chunks as [|c2 chunks].
  - simpl in E. rewrite app_nil_r in E. unfold serveHttp. destruct Hs as [-> _]. fold t. rewrite Et, E. cbn. eexists. reflexivity.
  - destruct (parseHttpRequest_total (http_buffer s ++ c)) as [r Er].
    assert (Hst : req_status r = ReqIncomplete).
    { destruct (decide (req_status r = ReqIncomplete)) as [|Hn]; [done|]. exfalso.
      rewrite (verdict_final _ _ _ Hsm Er Hn) in E. injection E as E. inversion Hc2; subst. unfold after_more in E.
      destruct r as [[] rq]; try done. simpl in E. by destruct c2. }
    assert (Es : serveHttp s c false = Some (t, None)).
    { unfold serveHttp. destruct Hs as [-> _]. fold t. rewrite Et, Er. cbn [mbind option_bind]. rewrite Hst. done. }
    rewrite Es. cbn [mbind option_bind].
    assert (Ht : pending t) by (split; [done|]; rewrite Et; by apply (incomplete_small _ _ Er)).
    destruct (IH t (http_buffer t ++ concat (c2 :: chunks)) req Ht) as [s' E']; try done; rewrite ?Et; try done.
    rewrite E'. cbn [mbind option_bind]. eexists. simpl. by rewrite Nat.sub_0_r.
Qed.

(** The answers of a connection. *)
Definition answers (responses : list (option HttpResponse)) : list HttpResponse := omap id responses.

Lemma answers_none n : answers (replicate n None) = [].
Proof. by induction n. Qed.

Lemma answers_one i j r : answers (replicate i None ++ Some r :: replicate j None) = [r].
Proof. unfold answers. rewrite omap_app. fold (answers (replicate i None)). rewrite answers_none. simpl. fold (answers (replicate j None)). by rewrite answers_none. Qed.


Module SampleRequest.
Definition head : list Z := str "GET /sack-test HTTP/1.0" ++ CRLF ++ str "Host: 10.0.0.2:8080".
Definition tail : list Z := CRLF ++ CRLF.
Definition request : HttpRequest := mkHttpRequest (str "GET") (str "/sack-test") (str "HTTP/1.0").
End SampleRequest.

