(* ===== verification/HttpClient.v ===== *)
(** * HTTP client ([src/src/http_client.cpp], [src/include/wirestack/http_client.hpp])

    The GET request builder, the bounded HTTP/1.0 response parser, and the
    session of an outbound request. The character classes, the version syntax
    and the line and header field splitters, which http_client.cpp repeats from
    http.cpp, are those of [Http]. *)

From Stdlib Require Import String Ascii.
From S2P Require Import Prelude StdMap Addresses Text Http.

Definition kMaxHttpResponseStatusLineLength : Z := 2048.
Definition kMaxHttpResponseHeaderBlockLength : Z := 8192.
Definition kMaxHttpResponseBodyLength : Z := 262144.

(** ** The status line *)

Definition isAllDigits (s : list Z) : bool := if empty s then false else forallb is_digit s.

Definition trimTrailingOws (s : list Z) : list Z := rev (skipBlank (rev s)).

Inductive StatusLineOutcome := StatusMalformed | StatusUnsupportedVersion | StatusOk.

Record StatusLineParse := mkStatusLine { status_outcome : StatusLineOutcome; status_line_code : Z }.

Definition parseStatusLine (line : list Z) : StatusLineParse :=
  let malformed := mkStatusLine StatusMalformed 0 in
  match find_char (ch " ") line with
  | None => malformed
  | Some first_space =>
      let version := take first_space line in
      if negb (isValidVersionSyntax version) then malformed else
      if negb (text_eqb version (str "HTTP/1.0")) then mkStatusLine StatusUnsupportedVersion 0 else
      let rest := drop (S first_space) line in
      if empty rest || (hd 0 rest =? ch " ") then malformed else
      match find_char (ch " ") rest with
      | None => malformed
      | Some second_space =>
          let code_str := take second_space rest in
          if negb (Zlen code_str =? 3) || negb (isAllDigits code_str) then malformed else
          let code := (nth 0 code_str 0 - ch "0") * 100 + (nth 1 code_str 0 - ch "0") * 10 + (nth 2 code_str 0 - ch "0") in
          if (code <? 200) || (599 <? code) then malformed else
          let reason := drop (S second_space) rest in
          if negb (cleanValue reason) then malformed else mkStatusLine StatusOk code
      end
  end.

(** ** The response *)

Inductive HttpResponseParseStatus :=
| RespIncomplete | RespComplete | RespMalformed | RespTooLarge | RespUnsupportedVersion
| RespUnsupportedTransferEncoding | RespTruncated.

#[export] Instance HttpResponseParseStatus_eq_dec : EqDecision HttpResponseParseStatus.
Proof. solve_decision. Defined.

Record HttpResponseParseResult := mkHttpResponseResult {
  resp_status : HttpResponseParseStatus; resp_code : option Z; resp_body : list Z; content_length_present : bool
}.

Definition reject (status : HttpResponseParseStatus) : HttpResponseParseResult := mkHttpResponseResult status None [] false.

(** The decimal loop over a [std::uint64_t]: the value so far and whether the
    next digit would overflow it. *)
Fixpoint contentLength (value : list Z) (v : Z) : Z * bool :=
  match value with
  | [] => (v, false)
  | c :: value =>
      let d := c - ch "0" in
      if (2 ^ 64 - 1 - d) / 10 <? v then (v, true) else contentLength value ((v * 10 + d) mod 2 ^ 64)
  end.

Record ResponseHeaders := mkResponseHeaders {
  seen_content_length : bool; has_transfer_encoding : bool; content_length : Z; content_length_overflowed : bool
}.

(** The loop over the header lines; [None] rejects the response as malformed. *)
Fixpoint responseHeaders (lines : list (list Z)) (h : ResponseHeaders) : option ResponseHeaders :=
  match lines with
  | [] => Some h
  | line :: lines =>
      match headerField line with
      | None => None
      | Some (name, rest) =>
          let value := trimTrailingOws rest in
          if negb (cleanValue value) then None else
          let lower_name := toLower name in
          if text_eqb lower_name (str "transfer-encoding") then
            responseHeaders lines (mkResponseHeaders (seen_content_length h) true (content_length h) (content_length_overflowed h))
          else if text_eqb lower_name (str "content-length") then
            if seen_content_length h then None else
            if negb (isAllDigits value) then None else
            let '(v, overflowed) := contentLength value 0 in
            responseHeaders lines (mkResponseHeaders true (has_transfer_encoding h) v overflowed)
          else responseHeaders lines h
      end
  end.

(** The body, once the head is known: [extra] is what follows it. *)
Definition finishResponse (h : ResponseHeaders) (code : Z) (extra : list Z) (peer_closed : bool) : HttpResponseParseResult :=
  if has_transfer_encoding h then reject RespUnsupportedTransferEncoding else
  if seen_content_length h then
    if content_length_overflowed h || (kMaxHttpResponseBodyLength <? content_length h) then reject RespTooLarge else
    let n := content_length h in
    if n <? Zlen extra then reject RespMalformed else
    if Zlen extra <? n then (if peer_closed then reject RespTruncated else reject RespIncomplete) else
    mkHttpResponseResult RespComplete (Some code) extra true
  else
    if kMaxHttpResponseBodyLength <? Zlen extra then reject RespTooLarge else
    if negb peer_closed then reject RespIncomplete else
    mkHttpResponseResult RespComplete (Some code) extra false.

(** The verdict while the status line or the header block has not ended. *)
Definition unfinished (view : list Z) (limit : Z) (peer_closed : bool) : HttpResponseParseResult :=
  if limit <? Zlen view then reject RespTooLarge else
  if peer_closed then reject RespTruncated else reject RespIncomplete.

Definition parseHttpResponse (view : list Z) (peer_closed : bool) : option HttpResponseParseResult :=
  match find_sub CRLF view with
  | None => Some (unfinished view kMaxHttpResponseStatusLineLength peer_closed)
  | Some status_line_end =>
      if kMaxHttpResponseStatusLineLength <? size_add (Some status_line_end) 2 then Some (reject RespTooLarge) else
      let status_parse := parseStatusLine (take status_line_end view) in
      match status_outcome status_parse with
      | StatusMalformed => Some (reject RespMalformed)
      | StatusUnsupportedVersion => Some (reject RespUnsupportedVersion)
      | StatusOk =>
          match find_sub (CRLF ++ CRLF) view with
          | None => Some (unfinished view kMaxHttpResponseHeaderBlockLength peer_closed)
          | Some terminator =>
              if kMaxHttpResponseHeaderBlockLength <? size_add (Some terminator) 4 then Some (reject RespTooLarge) else
              let header_block := take (terminator + 4) view in
              let extra := drop (terminator + 4) view in
              if has_value (find_char 0 header_block) then Some (reject RespMalformed) else
              lines ← head_lines (S (length header_block)) header_block;
              Some match lines with
                   | None => reject RespMalformed
                   | Some lines =>
                       match responseHeaders (removelast (tl lines)) (mkResponseHeaders false false 0 false) with
                       | None => reject RespMalformed
                       | Some h => finishResponse h (status_line_code status_parse) extra peer_closed
                       end
                   end
          end
      end
  end.

(** ** The session of a request *)

Record HttpClientSession := mkClientSession {
  remote_ip : Ipv4Address; remote_port : Z; host_header : list Z; session_target : list Z;
  request_enqueued : bool; response_buffer : list Z; peer_fin_seen : bool; response_overflowed : bool;
  response_complete : bool; failed : bool; close_initiated : bool; status_code : Z; session_body : list Z
}.
#[export] Instance eta_HttpClientSession : Eta HttpClientSession :=
  fun s => mkClientSession (remote_ip s) (remote_port s) (host_header s) (session_target s)
    (request_enqueued s) (response_buffer s) (peer_fin_seen s) (response_overflowed s)
    (response_complete s) (failed s) (close_initiated s) (status_code s) (session_body s).

Definition kCap : Z := kMaxHttpResponseHeaderBlockLength + kMaxHttpResponseBodyLength.

Definition appendHttpClientBytes (session : HttpClientSession) (bytes : list Z) : HttpClientSession :=
  if response_overflowed session then session else
  let room := (kCap - Zlen (response_buffer session)) mod 2 ^ 64 in
  if room <? Zlen bytes then session <| response_overflowed := true |> else
  session <| response_buffer := response_buffer session ++ bytes |>.

(** The part of [handleHttpClient] (src/src/main.cpp) between the sending of
    the request and the closing of the connection: what a delivery does to the
    session. *)
Definition receiveResponse (session : HttpClientSession) (accepted_payload : list Z) (peer_closed : bool)
    : option HttpClientSession :=
  if response_complete session then
    Some (if empty accepted_payload then session else session <| failed := true |>)
  else if failed session then Some session
  else
    let session := if empty accepted_payload then session else appendHttpClientBytes session accepted_payload in
    let session := if peer_closed then session <| peer_fin_seen := true |> else session in
    if response_overflowed session then Some (session <| failed := true |>) else
    parsed ← parseHttpResponse (response_buffer session) (peer_fin_seen session);
    match resp_status parsed with
    | RespIncomplete => Some session
    | RespComplete =>
        code ← resp_code parsed;
        Some (session <| response_complete := true |> <| status_code := code |> <| session_body := resp_body parsed |>)
    | _ => Some (session <| failed := true |>)
    end.

(** ** Requests *)

Inductive HttpClientTargetError := TargetEmpty | MissingLeadingSlash | TargetInvalidByte.
Inductive HttpClientHostError := HostHeaderEmpty | HostHeaderInvalidByte.

Definition validateHttpClientTarget (target : list Z) : option HttpClientTargetError :=
  match target with
  | [] => Some TargetEmpty
  | front :: _ =>
      if negb (front =? ch "/") then Some MissingLeadingSlash else
      if existsb (fun c => (c =? ch " ") || isControlByte c) target then Some TargetInvalidByte else None
  end.

Definition validateHttpClientHost (host_header : list Z) : option HttpClientHostError :=
  if empty host_header then Some HostHeaderEmpty else
  if existsb (fun c => (c =? ch " ") || isControlByte c) host_header then Some HostHeaderInvalidByte else None.

Definition buildHttpGetRequest (host_header target : list Z) : option (list Z) :=
  if has_value (validateHttpClientTarget target) || has_value (validateHttpClientHost host_header) then None else
  let text := str "GET " ++ target ++ str " HTTP/1.0" ++ CRLF in
  let text := text ++ str "Host: " ++ host_header ++ CRLF in
  let text := text ++ str "Connection: close" ++ CRLF in
  Some (text ++ CRLF).

Example ok_response_parses :
  parseHttpResponse (serializeHttpResponse makeOkResponse) false =
    Some (mkHttpResponseResult RespComplete (Some 200) (response_body makeOkResponse) true).
Proof. vm_compute. reflexivity. Qed.

(** ** Characters of headers *)

Definition visible (c : Z) : Prop := (c =? ch " ") || isControlByte c = false.

Lemma visible_spec c : visible c <-> 33 <= c /\ c <> 127.
Proof. unfold visible, isControlByte. change (ch " ") with 32. split; intros H; bprop; [lia|]. zdec. done. Qed.

Lemma existsb_Forall {A} (f : A -> bool) l : existsb f l = false <-> Forall (fun x => f x = false) l.
Proof.
  induction l as [|x l IH]; simpl; [by split|]. rewrite orb_false_iff, Forall_cons, IH. done.
Qed.

Lemma cleanValue_spec s : cleanValue s = true <-> Forall (fun c => c = 9 \/ (32 <= c /\ c <> 127)) s.
Proof.
  unfold cleanValue. rewrite negb_true_iff, existsb_Forall. apply Forall_iff. intros c. unfold isControlByte.
  destruct (Z.eqb_spec c 9), (Z.ltb_spec c 32), (Z.eqb_spec c 127); simpl; split; intros; try done; lia.
Qed.

Lemma clean_line c : c = 9 \/ (32 <= c /\ c <> 127) -> c <> CR /\ c <> LF /\ c <> 0.
Proof. unfold CR, LF. lia. Qed.

Lemma skipBlank_suffix s : exists p, s = p ++ skipBlank s.
Proof.
  induction s as [|c s [p IH]]; simpl; [by exists []|]. destruct (isBlank c); [exists (c :: p); simpl; by f_equal | by exists []].
Qed.

Lemma skipBlank_Forall P s : Forall P s -> Forall P (skipBlank s).
Proof. intros H. destruct (skipBlank_suffix s) as [p E]. rewrite E in H. by apply Forall_app in H as [_ H]. Qed.

Lemma trim_Forall P s : Forall P s -> Forall P (trimTrailingOws s).
Proof. intros H. unfold trimTrailingOws. by apply Forall_rev, skipBlank_Forall, Forall_rev. Qed.

(** Text without blanks is left alone. *)
Lemma skipBlank_id s : Forall (fun c => isBlank c = false) s -> skipBlank s = s.
Proof. destruct s as [|c s]; [done|]. simpl. intros H. inversion H as [|? ? Hc _]; subst. by rewrite Hc. Qed.

Lemma trim_id s : Forall (fun c => isBlank c = false) s -> trimTrailingOws s = s.
Proof. intros H. unfold trimTrailingOws. rewrite skipBlank_id by (by apply Forall_rev). apply rev_involutive. Qed.

Lemma visible_not_blank c : visible c -> isBlank c = false.
Proof. rewrite visible_spec. intros H. unfold isBlank. change (ch " ") with 32. by zdec. Qed.

(** ** Requests the client builds *)

Lemma validate_target t : validateHttpClientTarget t = None <-> t <> [] /\ hd 0 t = ch "/" /\ Forall visible t.
Proof.
  destruct t as [|c t]; cbn [validateHttpClientTarget]; [split; [done | intros [? _]; done]|].
  destruct (Z.eqb_spec c (ch "/")) as [->|Hc]; cbn [negb]; [|split; [done | intros (_ & ? & _); done]].
  destruct (existsb _ _) eqn:E.
  - split; [done|]. intros (_ & _ & H). apply existsb_Forall in H. by rewrite H in E.
  - apply existsb_Forall in E. done.
Qed.

Lemma validate_host h : validateHttpClientHost h = None <-> h <> [] /\ Forall visible h.
Proof.
  unfold validateHttpClientHost. destruct h as [|c h]; [split; [done | intros [? _]; done]|]. cbn [empty].
  destruct (existsb _ _) eqn:E.
  - split; [done|]. intros (_ & H). apply existsb_Forall in H. by rewrite H in E.
  - apply existsb_Forall in E. done.
Qed.

Lemma build_spec h t : buildHttpGetRequest h t =
  if decide (validateHttpClientTarget t = None /\ validateHttpClientHost h = None)
  then Some (render [str "GET " ++ t ++ str " HTTP/1.0"; str "Host: " ++ h; str "Connection: close"]) else None.
Proof.
  unfold buildHttpGetRequest. destruct (decide _) as [[-> ->]|Hn].
  - cbn [has_value orb]. unfold render. cbn [map concat]. by rewrite <- !app_assoc.
  - destruct (validateHttpClientTarget t), (validateHttpClientHost h); try done. exfalso. by apply Hn.
Qed.

Definition request_lines (h t : list Z) : list (list Z) :=
  [str "GET " ++ t ++ str " HTTP/1.0"; str "Host: " ++ h; str "Connection: close"].

(** A literal line of the source, possibly continued by visible text. *)
Lemma line_ok_app a b : line_ok a -> Forall (fun c => c <> CR /\ c <> LF /\ c <> 0) b -> line_ok (a ++ b).
Proof. intros [Hn Ha] Hb. split; [by destruct a | by apply Forall_app]. Qed.

Lemma visible_line s : Forall visible s -> Forall (fun c => c <> CR /\ c <> LF /\ c <> 0) s.
Proof. intros H. eapply Forall_impl; [exact H|]. intros c Hc. apply visible_spec in Hc. apply clean_line. lia. Qed.

Ltac literal_line := split; [done | repeat constructor; discriminate].

Lemma request_lines_ok h t : Forall visible t -> Forall visible h -> Forall line_ok (request_lines h t).
Proof.
  intros Ht Hh. apply Forall_cons. split; [|apply Forall_cons; split; [|apply Forall_cons; split; [literal_line | done]]].
  - apply line_ok_app; [literal_line|]. apply Forall_app. split; [by apply visible_line | repeat constructor; discriminate].
  - apply line_ok_app; [literal_line | by apply visible_line].
Qed.

Lemma request_line_split t : t <> [] -> Forall visible t ->
  splitExact (str "GET " ++ t ++ str " HTTP/1.0") (ch " ") 3 = [str "GET"; t; str "HTTP/1.0"].
Proof.
  intros Hne Ht. unfold splitExact. change (str "GET " ++ t ++ str " HTTP/1.0") with (str "GET" ++ ch " " :: (t ++ ch " " :: str "HTTP/1.0")).
  rewrite split_on_app by (repeat constructor; discriminate).
  rewrite split_on_app by (eapply Forall_impl; [exact Ht|]; intros c Hc; apply visible_spec in Hc; change (ch " ") with 32; lia).
  rewrite split_on_field by (repeat constructor; discriminate). simpl. by destruct t.
Qed.

(** The header lines of the request are acceptable. *)
Lemma host_field h : h <> [] -> Forall visible h -> headerField (str "Host: " ++ h) = Some (str "Host", h).
Proof.
  intros Hne Hh. change (headerField (str "Host: " ++ h)) with (Some (str "Host", skipBlank h)).
  rewrite skipBlank_id; [done|]. eapply Forall_impl; [exact Hh | apply visible_not_blank].
Qed.

Lemma visible_clean s : Forall visible s -> cleanValue s = true.
Proof. intros H. apply cleanValue_spec. eapply Forall_impl; [exact H|]. intros c Hc. apply visible_spec in Hc. lia. Qed.

Lemma parseHead_request h t : t <> [] -> hd 0 t = ch "/" -> Forall visible t -> h <> [] -> Forall visible h ->
  parseHead (render (request_lines h t)) = Some (mkHeadParse HeadComplete (mkHttpRequest (str "GET") t (str "HTTP/1.0"))).
Proof.
  intros Hn Hd Ht Hnh Hh. unfold parseHead. rewrite head_lines_render;
    [|by apply request_lines_ok | pose proof (render_length (request_lines h t)); lia]. cbn [mbind option_bind request_lines app hd tl].
  rewrite request_line_split by done.
  assert (Hv : isValidTarget t = true).
  { unfold isValidTarget. rewrite Hd, (proj2 (existsb_Forall _ t)) by done. by destruct t. }
  change (removelast [str "Host: " ++ h; str "Connection: close"; []]) with [str "Host: " ++ h; str "Connection: close"].
  assert (Hc : checkHeaders [str "Host: " ++ h; str "Connection: close"] false = true).
  { cbn [checkHeaders]. rewrite host_field, visible_clean by done. reflexivity. }
  rewrite Hv, Hc. reflexivity.
Qed.

Lemma request_length h t : Zlen (render (request_lines h t)) = Zlen t + Zlen h + 44.
Proof.
  unfold render, request_lines. cbn [map concat]. rewrite !Zlen_app.
  change (Zlen (str "GET ")) with 4. change (Zlen (str " HTTP/1.0")) with 9. change (Zlen CRLF) with 2. change (Zlen (str "Host: ")) with 6.
  change (Zlen (str "Connection: close")) with 17. rewrite Zlen_nil. lia.
Qed.

Lemma request_accepted h t bytes : buildHttpGetRequest h t = Some bytes -> small bytes ->
  Zlen bytes = Zlen t + Zlen h + 44 /\
  parseHttpRequest bytes =
    Some (if (2048 <? Zlen t + 15) || (8192 <? Zlen t + Zlen h + 44) then mkHttpParseResult ReqTooLarge None
          else mkHttpParseResult ReqComplete (Some (mkHttpRequest (str "GET") t (str "HTTP/1.0")))).
Proof.
  rewrite build_spec. destruct (decide _) as [[Ht Hh]|]; [|done]. intros E Hs. apply (inj Some) in E as <-.
  apply validate_target in Ht as (Hn & Hd & Ht). apply validate_host in Hh as (Hnh & Hh). fold (request_lines h t) in *.
  pose proof (request_lines_ok h t Ht Hh) as Hok.
  pose proof (request_length h t) as Hlen.
  split; [done|]. destruct (find_terminator (request_lines h t) [] Hok) as (n & En & Hn4); [done|]. rewrite app_nil_r in En.
  unfold parseHttpRequest. rewrite En. pose proof (first_line (str "GET " ++ t ++ str " HTTP/1.0") [str "Host: " ++ h; str "Connection: close"] []) as Ef.
  rewrite app_nil_r in Ef. fold (request_lines h t) in Ef. inversion Hok as [|? ? Hl1 _]; subst. specialize (Ef Hl1). rewrite Ef.
  rewrite (small_pos _ _ _ 2 Hs Ef), (small_pos _ _ _ 4 Hs En) by lia.
  replace (Z.of_nat n + 4) with (Zlen t + Zlen h + 44) by (unfold Zlen in *; lia).
  replace (Z.of_nat (length (str "GET " ++ t ++ str " HTTP/1.0")) + 2) with (Zlen t + 15) by (rewrite !length_app; unfold Zlen; simpl; lia).
  unfold kMaxHttpRequestLineLength, kMaxHttpHeaderBlockLength. destruct (2048 <? _); [done|]. destruct (8192 <? _); [done|]. cbn [orb].
  rewrite Hn4, take_ge, drop_ge by lia. rewrite render_no_nul by done. cbn [has_value]. by rewrite parseHead_request.
Qed.

(** ** Responses the server sends *)

Definition statusCode (status : HttpStatus) : Z :=
  match status with Ok200 => 200 | BadRequest400 => 400 | NotFound404 => 404 | MethodNotAllowed405 => 405 | VersionNotSupported505 => 505 end.

Definition response_lines (r : HttpResponse) : list (list Z) :=
  (str "HTTP/1.0 " ++ statusLine (response_status r)) ::
  [str "Content-Type: " ++ content_type r; str "Content-Length: " ++ to_string (Zlen (response_body r))] ++
  (if include_allow_get r then [str "Allow: GET"] else []) ++ [str "Connection: close"].

(** Responses the client can hold; the server's own are such. *)
Definition response_ok (r : HttpResponse) : Prop :=
  cleanValue (content_type r) = true /\ Zlen (content_type r) <= 8000 /\ Zlen (response_body r) <= kMaxHttpResponseBodyLength.

Lemma serialize_render r : serializeHttpResponse r = render (response_lines r) ++ response_body r.
Proof.
  unfold serializeHttpResponse, response_lines, render. destruct (include_allow_get r); cbn [map concat app]; by rewrite <- !app_assoc.
Qed.

Lemma status_line_parses status : parseStatusLine (str "HTTP/1.0 " ++ statusLine status) = mkStatusLine StatusOk (statusCode status).
Proof. destruct status; vm_compute; reflexivity. Qed.

(** The decimal loop does not overflow on a value that fits. *)
Lemma contentLength_spec s v : all_digits s -> 0 <= v -> foldl (fun v c => v * 10 + (c - 48)) v s < 2 ^ 64 ->
  contentLength s v = (foldl (fun v c => v * 10 + (c - 48)) v s, false).
Proof.
  intros Hs. revert v. induction Hs as [|c s Hc Hs IH]; intros v Hv; cbn [contentLength foldl]; [done|]. apply is_digit_iff in Hc.
  change (ch "0") with 48. intros Hlt.
  assert (Hm : forall l w, all_digits l -> 0 <= w -> w <= foldl (fun v c => v * 10 + (c - 48)) w l).
  { clear. intros l w Hl. revert w. induction Hl as [|x l Hx Hl IH]; intros w Hw; simpl; [lia|]. apply is_digit_iff in Hx.
    specialize (IH (w * 10 + (x - 48))). lia. }
  specialize (Hm s (v * 10 + (c - 48)) Hs). rewrite (proj2 (Z.ltb_ge _ _)) by (Z.div_mod_to_equations; lia).
  rewrite Z.mod_small by lia. apply IH; lia.
Qed.

Lemma digits_visible s : all_digits s -> Forall visible s.
Proof. intros H. eapply Forall_impl; [exact H|]. intros c Hc. apply is_digit_iff in Hc. apply visible_spec. lia. Qed.

Lemma visible_blanks s : Forall visible s -> Forall (fun c => isBlank c = false) s.
Proof. intros H. eapply Forall_impl; [exact H | apply visible_not_blank]. Qed.

Lemma length_field_value v : 0 <= v < 2 ^ 64 ->
  exists s, to_string v = s /\ Forall visible s /\ isAllDigits s = true /\ contentLength s 0 = (v, false).
Proof.
  intros Hv. destruct (to_string_spec v) as (Hd & Hval & Hne & _); [lia|]. eexists. split; [reflexivity|]. split; [by apply digits_visible|]. split.
  - unfold isAllDigits. destruct (to_string v); [done|]. apply forallb_forall. by apply List.Forall_forall.
  - unfold decimal_value in Hval. rewrite contentLength_spec by (try done; lia). by rewrite Hval.
Qed.

Lemma response_headers_accepted r : response_ok r ->
  responseHeaders (tl (response_lines r)) (mkResponseHeaders false false 0 false) =
    Some (mkResponseHeaders true false (Zlen (response_body r)) false).
Proof.
  intros (Hct & _ & Hb). destruct (length_field_value (Zlen (response_body r))) as (s & Es & Hs & Hd & Hl);
    [pose proof (Zlen_nonneg (response_body r)); unfold kMaxHttpResponseBodyLength in Hb; lia|].
  unfold response_lines. rewrite Es. cbn [tl app responseHeaders].
  change (headerField (str "Content-Type: " ++ content_type r)) with (Some (str "Content-Type", skipBlank (content_type r))).
  change (headerField (str "Content-Length: " ++ s)) with (Some (str "Content-Length", skipBlank s)).
  cbn [fst snd]. rewrite (proj2 (cleanValue_spec (trimTrailingOws (skipBlank (content_type r)))))
    by (apply trim_Forall, skipBlank_Forall; by apply cleanValue_spec).
  rewrite skipBlank_id, trim_id, visible_clean by (try apply visible_blanks; done).
  change (text_eqb (toLower (str "Content-Type")) (str "transfer-encoding")) with false.
  change (text_eqb (toLower (str "Content-Type")) (str "content-length")) with false.
  change (text_eqb (toLower (str "Content-Length")) (str "transfer-encoding")) with false.
  change (text_eqb (toLower (str "Content-Length")) (str "content-length")) with true.
  cbn [negb seen_content_length has_transfer_encoding]. rewrite Hd, Hl. cbn [negb]. by destruct (include_allow_get r).
Qed.

Lemma decimal_digits_length fuel v acc : (length (decimal_digits fuel v acc) <= fuel + length acc)%nat.
Proof. revert v acc. induction fuel as [|fuel IH]; intros v acc; simpl; [lia|]. destruct (v <? 10); [simpl; lia|]. etransitivity; [apply IH|]. simpl. lia. Qed.

Lemma response_lines_ok r : response_ok r -> Forall line_ok (response_lines r).
Proof.
  intros (Hct & _ & Hb). unfold kMaxHttpResponseBodyLength in Hb. destruct (to_string_spec (Zlen (response_body r))) as (Hd & _); [pose proof (Zlen_nonneg (response_body r)); lia|].
  unfold response_lines. apply Forall_cons. split.
  { apply line_ok_app; [literal_line|]. destruct (response_status r); repeat constructor; discriminate. }
  apply Forall_app. split; [apply Forall_cons; split; [|apply Forall_cons; split; [|done]]|].
  - apply line_ok_app; [literal_line|]. apply cleanValue_spec in Hct. eapply Forall_impl; [exact Hct | intros c; apply clean_line].
  - apply line_ok_app; [literal_line|]. by apply visible_line, digits_visible.
  - apply Forall_app. split; [destruct (include_allow_get r); [apply Forall_cons; split; [literal_line | done] | done]|].
    apply Forall_cons. split; [literal_line | done].
Qed.

Lemma response_head_length r : response_ok r -> Zlen (render (response_lines r)) <= kMaxHttpResponseHeaderBlockLength.
Proof.
  intros (_ & Hct & _). pose proof (decimal_digits_length 20 (Zlen (response_body r)) []) as Hl. fold (to_string (Zlen (response_body r))) in Hl. simpl in Hl.
  assert (Hs : (length (statusLine (response_status r)) <= 30)%nat) by (destruct (response_status r); vm_compute; lia).
  unfold kMaxHttpResponseHeaderBlockLength, Zlen in *. unfold render, response_lines. set (n := to_string _) in *. clearbody n.
  destruct (include_allow_get r); cbn [map concat app]; rewrite !length_app; simpl; lia.
Qed.

(** A response parses at the client to its status code and its body. *)
Lemma response_accepted r fin : response_ok r ->
  parseHttpResponse (serializeHttpResponse r) fin =
    Some (mkHttpResponseResult RespComplete (Some (statusCode (response_status r))) (response_body r) true).
Proof.
  intros Hr. pose proof (response_lines_ok r Hr) as Hok. pose proof (response_head_length r Hr) as Hlen.
  rewrite serialize_render. set (ls := response_lines r) in *. destruct (find_terminator ls (response_body r) Hok) as (t & Et & Ht); [done|].
  assert (Ef : find_sub CRLF (render ls ++ response_body r) = Some (length (str "HTTP/1.0 " ++ statusLine (response_status r)))).
  { apply first_line. by inversion Hok. }
  unfold parseHttpResponse. rewrite Ef, Et. rewrite size_add_small by (destruct (response_status r); vm_compute; done).
  unfold Zlen in Hlen. rewrite size_add_small by (unfold kMaxHttpResponseHeaderBlockLength in Hlen; lia).
  rewrite (proj2 (Z.ltb_ge kMaxHttpResponseStatusLineLength _)) by (destruct (response_status r); vm_compute; done).
  assert (Efl : take (length (str "HTTP/1.0 " ++ statusLine (response_status r))) (render ls ++ response_body r) = str "HTTP/1.0 " ++ statusLine (response_status r)).
  { unfold ls, response_lines. rewrite render_cons. apply take_app_length. }
  rewrite Efl, status_line_parses. cbn [status_outcome status_line_code].
  rewrite (proj2 (Z.ltb_ge kMaxHttpResponseHeaderBlockLength _)) by lia. rewrite Ht, take_app_length, drop_app_length.
  rewrite render_no_nul by done. cbn [has_value]. rewrite head_lines_render by (try done; pose proof (render_length ls); lia). cbn [mbind option_bind].
  replace (removelast (tl (ls ++ [[]]))) with (tl ls) by (unfold ls, response_lines; destruct (include_allow_get r); done).
  unfold ls. rewrite response_headers_accepted by done. f_equal. unfold finishResponse. cbn [has_transfer_encoding seen_content_length content_length_overflowed content_length orb].
  destruct Hr as (_ & _ & Hb). rewrite (proj2 (Z.ltb_ge kMaxHttpResponseBodyLength _)), Z.ltb_irrefl by done. done.
Qed.

(** ** Verdicts are final *)

Lemma parseHttpResponse_total b fin : exists r, parseHttpResponse b fin = Some r /\
  (resp_status r = RespIncomplete -> fin = false) /\ (resp_status r = RespComplete -> has_value (resp_code r) = true).
Proof.
  assert (Hu : forall v l, (resp_status (unfinished v l fin) = RespIncomplete -> fin = false) /\
    (resp_status (unfinished v l fin) = RespComplete -> has_value (resp_code (unfinished v l fin)) = true)).
  { intros v l. unfold unfinished. destruct (l <? _); [done|]. by destruct fin. }
  unfold parseHttpResponse. destruct (find_sub CRLF b) as [n|]; [|eexists; split; [reflexivity | apply Hu]].
  destruct (_ <? size_add _ _); [by eexists|]. destruct (status_outcome _); [by eexists | by eexists|].
  destruct (find_sub (CRLF ++ CRLF) b) as [t|]; [|eexists; split; [reflexivity | apply Hu]].
  destruct (_ <? size_add _ _); [by eexists|]. destruct (has_value _); [by eexists|].
  destruct (head_lines_total (S (length (take (t + 4) b))) (take (t + 4) b)) as [[ls|] ->]; [lia| |by eexists]. cbn [mbind option_bind].
  eexists. split; [reflexivity|]. destruct (responseHeaders _ _) as [h|]; [|done]. unfold finishResponse.
  destruct (has_transfer_encoding h); [done|]. destruct (seen_content_length h).
  - destruct (_ || _); [done|]. destruct (_ <? _); [done|]. destruct (_ <? _); [by destruct fin | done].
  - destruct (_ <? _); [done|]. by destruct fin.
Qed.

Definition response_after_more (r : HttpResponseParseResult) (more : list Z) : HttpResponseParseResult :=
  match resp_status r with
  | RespComplete => if empty more then r else reject RespMalformed
  | _ => r
  end.

Lemma finish_final h code extra e : resp_status (finishResponse h code extra false) <> RespIncomplete ->
  finishResponse h code (extra ++ e) false = response_after_more (finishResponse h code extra false) e.
Proof.
  unfold finishResponse. destruct (has_transfer_encoding h); [done|]. rewrite Zlen_app. pose proof (Zlen_nonneg e).
  destruct (seen_content_length h).
  - destruct (_ || _); [done|]. destruct (Z.ltb_spec (content_length h) (Zlen extra)); [by zdec1|].
    destruct (Z.ltb_spec (Zlen extra) (content_length h)); [done|]. intros _. unfold response_after_more. cbn [resp_status].
    destruct e as [|x e]; cbn [empty]; [rewrite Zlen_nil in *; do 2 zdec1; by rewrite app_nil_r|]. rewrite Zlen_cons in *. pose proof (Zlen_nonneg e). by zdec1.
  - destruct (Z.ltb_spec kMaxHttpResponseBodyLength (Zlen extra)); [by zdec1 | done].
Qed.

Lemma response_final b e r : small (b ++ e) -> parseHttpResponse b false = Some r -> resp_status r <> RespIncomplete ->
  parseHttpResponse (b ++ e) false = Some (response_after_more r e).
Proof.
  intros Hs. unfold parseHttpResponse. pose proof (Zlen_nonneg e). destruct (find_sub CRLF b) as [n|] eqn:En.
  2:{ unfold unfinished. destruct (Z.ltb_spec kMaxHttpResponseStatusLineLength (Zlen b)) as [Hl|]; intros [= <-]; [intros _ | done].
      destruct (find_sub CRLF (b ++ e)) as [m|] eqn:Em; [|rewrite Zlen_app; by zdec1].
      rewrite (small_pos _ _ _ 2 Hs Em) by lia. apply find_sub_appears in Em; [|done]. simpl in Em. unfold Zlen in Hl. by zdec1. }
  rewrite (find_sub_extend _ _ e _ En). pose proof (find_sub_bound _ _ _ En) as Hb. rewrite take_app_le by lia.
  destruct (_ <? size_add _ _); [by intros [= <-]|]. destruct (status_outcome _); [by intros [= <-] | by intros [= <-]|].
  destruct (find_sub (CRLF ++ CRLF) b) as [t|] eqn:Et.
  2:{ unfold unfinished. destruct (Z.ltb_spec kMaxHttpResponseHeaderBlockLength (Zlen b)) as [Hl|]; intros [= <-]; [intros _ | done].
      destruct (find_sub (CRLF ++ CRLF) (b ++ e)) as [m|] eqn:Em; [|rewrite Zlen_app; by zdec1].
      rewrite (small_pos _ _ _ 4 Hs Em) by lia. apply find_sub_appears in Em; [|done]. simpl in Em. unfold Zlen in Hl. by zdec1. }
  rewrite (find_sub_extend _ _ e _ Et). pose proof (find_sub_bound _ _ _ Et) as Hbt. simpl in Hbt. rewrite take_app_le, drop_app_le by lia.
  destruct (_ <? size_add _ _); [by intros [= <-]|]. destruct (has_value _); [by intros [= <-]|].
  destruct (head_lines_total (S (length (take (t + 4) b))) (take (t + 4) b)) as [[ls|] ->]; [lia| |by intros [= <-]]. cbn [mbind option_bind].
  destruct (responseHeaders _ _) as [h|]; [|by intros [= <-]]. intros [= <-] Hr. f_equal. by apply finish_final.
Qed.

(** ** A session, delivery by delivery *)

Fixpoint receive_run (session : HttpClientSession) (deliveries : list (list Z * bool)) : option HttpClientSession :=
  match deliveries with
  | [] => Some session
  | (payload, peer_closed) :: deliveries => session ← receiveResponse session payload peer_closed; receive_run session deliveries
  end.

Definition new_client_session (ip : Ipv4Address) (port : Z) (host target : list Z) : HttpClientSession :=
  mkClientSession ip port host target false [] false false false false false 0 [].

(** A session that still waits for its response. *)
Definition waiting (s : HttpClientSession) : Prop :=
  response_complete s = false /\ failed s = false /\ response_overflowed s = false /\ peer_fin_seen s = false /\
  Zlen (response_buffer s) <= kCap.

(** How a delivery settles a waiting session. *)
Definition settled_by (s : HttpClientSession) (p : list Z) (fin : bool) (s' : HttpClientSession) : Prop :=
  failed s' = true /\ response_complete s' = false /\
    (kCap < Zlen (response_buffer s ++ p) \/
     exists r, parseHttpResponse (response_buffer s ++ p) fin = Some r /\ resp_status r <> RespComplete /\ resp_status r <> RespIncomplete) \/
  failed s' = false /\ response_complete s' = true /\ Zlen (response_buffer s ++ p) <= kCap /\
    exists cl, parseHttpResponse (response_buffer s ++ p) fin = Some (mkHttpResponseResult RespComplete (Some (status_code s')) (session_body s') cl).

Lemma receive_waiting s p fin : waiting s -> exists s', receiveResponse s p fin = Some s' /\
  (waiting s' /\ response_buffer s' = response_buffer s ++ p /\ fin = false /\
     (exists r, parseHttpResponse (response_buffer s ++ p) false = Some r /\ resp_status r = RespIncomplete) \/ settled_by s p fin s').
Proof.
  intros (Hc & Hf & Ho & Hp & Hb). unfold receiveResponse. rewrite Hc, Hf.
  set (s1 := if empty p then s else appendHttpClientBytes s p).
  assert (Hs1 : response_complete s1 = false /\ failed s1 = false /\ peer_fin_seen s1 = false /\
    (response_overflowed s1 = true /\ kCap < Zlen (response_buffer s ++ p) \/ (response_overflowed s1 = false /\ response_buffer s1 = response_buffer s ++ p /\ Zlen (response_buffer s1) <= kCap))).
  { unfold s1. destruct p as [|x p]; cbn [empty]; [rewrite app_nil_r; tauto|]. unfold appendHttpClientBytes. rewrite Ho.
    pose proof (Zlen_nonneg (response_buffer s)). rewrite Z.mod_small by (unfold kCap, kMaxHttpResponseHeaderBlockLength, kMaxHttpResponseBodyLength in *; lia).
    destruct (Z.ltb_spec (kCap - Zlen (response_buffer s)) (Zlen (x :: p))); simpl; rewrite Zlen_app; split_and!; try done; [left; split; [done | lia] | right].
    split_and!; try done. lia. }
  clearbody s1. destruct Hs1 as (Hc1 & Hf1 & Hp1 & Hcase).
  set (s2 := if fin then s1 <| peer_fin_seen := true |> else s1).
  assert (Hs2 : response_complete s2 = false /\ failed s2 = false /\ peer_fin_seen s2 = fin /\ response_overflowed s2 = response_overflowed s1 /\ response_buffer s2 = response_buffer s1).
  { unfold s2. by destruct fin. }
  clearbody s2. destruct Hs2 as (Hc2 & Hf2 & Hp2 & Ho2 & Hb2). rewrite Ho2, Hb2, Hp2.
  destruct Hcase as [[Ho1 Hover]|(Ho1 & Eb & Hlen)]; rewrite Ho1 in *.
  { eexists. split; [reflexivity|]. right. left. simpl. split_and!; try done. by left. }
  rewrite Eb in *. destruct (parseHttpResponse_total (response_buffer s ++ p) fin) as (r & E & Hinc & Hcode). rewrite E. cbn [mbind option_bind].
  destruct r as [st code body cl]. cbn [resp_status resp_code resp_body] in *.
  destruct st; try (eexists; split; [reflexivity|]; right; left; simpl; split_and!; try done; right; by eexists).
  - eexists. split; [reflexivity|]. left. specialize (Hinc eq_refl) as ->. unfold waiting. rewrite Hc2, Hf2, Hp2, Ho2, Hb2. split_and!; try done. by eexists.
  - destruct code as [code|]; [|by specialize (Hcode eq_refl)]. cbn [mbind option_bind]. eexists. split; [reflexivity|]. right. right. simpl.
    split_and!; try done. by exists cl.
Qed.

Lemma receive_failed s ds : response_complete s = false -> failed s = true -> receive_run s ds = Some s.
Proof. intros Hc Hf. induction ds as [|[p fin] ds IH]; simpl; [done|]. unfold receiveResponse. by rewrite Hc, Hf. Qed.

(** Bytes after a complete response make the session fail and change nothing else. *)
Lemma receive_complete ds : forall s, response_complete s = true ->
  receive_run s ds = Some (if existsb (fun d => negb (empty (fst d))) ds then s <| failed := true |> else s).
Proof.
  induction ds as [|[p fin] ds IH]; intros s Hc; simpl; [done|]. unfold receiveResponse. rewrite Hc. cbn [mbind option_bind].
  destruct (empty p); cbn [negb orb]; rewrite IH by done; [done|]. by destruct (existsb _ _).
Qed.

Lemma receive_bounded s p fin s' : Zlen (response_buffer s) <= kCap -> receiveResponse s p fin = Some s' -> Zlen (response_buffer s') <= kCap.
Proof.
  intros Hb. unfold receiveResponse. destruct (response_complete s); [intros [= <-]; by destruct (empty p)|]. destruct (failed s); [by intros [= <-]|].
  set (s1 := if empty p then s else appendHttpClientBytes s p).
  assert (H1 : Zlen (response_buffer s1) <= kCap).
  { unfold s1. destruct (empty p); [done|]. unfold appendHttpClientBytes. destruct (response_overflowed s); [done|].
    pose proof (Zlen_nonneg (response_buffer s)). rewrite Z.mod_small by (unfold kCap, kMaxHttpResponseHeaderBlockLength, kMaxHttpResponseBodyLength in *; lia).
    destruct (Z.ltb_spec (kCap - Zlen (response_buffer s)) (Zlen p)); simpl; [done|]. rewrite Zlen_app. lia. }
  clearbody s1. set (s2 := if fin then _ else _). assert (H2 : response_buffer s2 = response_buffer s1) by (unfold s2; by destruct fin). clearbody s2. rewrite <- H2 in H1.
  destruct (response_overflowed s2); [by intros [= <-]|]. destruct (parseHttpResponse _ _) as [r|]; cbn [mbind option_bind]; [|done].
  destruct (resp_status r); try by intros [= <-]. destruct (resp_code r); [by intros [= <-] | done].
Qed.

Lemma receive_run_bounded ds : forall s s', Zlen (response_buffer s) <= kCap -> receive_run s ds = Some s' -> Zlen (response_buffer s') <= kCap.
Proof.
  induction ds as [|[p fin] ds IH]; intros s s' Hb; simpl; [by intros [= <-]|].
  destruct (receiveResponse s p fin) as [s1|] eqn:E; [|done]. cbn [mbind option_bind]. apply IH. by apply (receive_bounded _ _ _ _ Hb E).
Qed.

(** The delivery that completes a response, and what follows it. *)
Definition completed_by (s : HttpClientSession) (ds : list (list Z * bool)) (s' : HttpClientSession) : Prop :=
  exists before p fin after cl, ds = before ++ (p, fin) :: after /\
    let bytes := response_buffer s ++ concat (map fst before) ++ p in
    Zlen bytes <= kCap /\
    parseHttpResponse bytes fin = Some (mkHttpResponseResult RespComplete (Some (status_code s')) (session_body s') cl) /\
    failed s' = existsb (fun d => negb (empty (fst d))) after.

Lemma receive_run_spec ds : forall s, waiting s -> exists s', receive_run s ds = Some s' /\
  (waiting s' /\ response_buffer s' = response_buffer s ++ concat (map fst ds) /\ Forall (fun d => snd d = false) ds \/
   failed s' = true /\ response_complete s' = false \/
   response_complete s' = true /\ completed_by s ds s').
Proof.
  induction ds as [|[p fin] ds IH]; intros s Hs; cbn [receive_run].
  { exists s. split; [done|]. left. simpl. by rewrite app_nil_r. }
  destruct (receive_waiting s p fin Hs) as (s1 & -> & [(Hw & Eb & -> & _)|[(Hf & Hc & _)|(Hf & Hc & Hl & cl & E)]]); cbn [mbind option_bind].
  - destruct (IH s1 Hw) as (s' & -> & [(H1 & H2 & H3)|[H|(Hc & before & q & fin' & after & cl & -> & Hl & E & Hf)]]); exists s'; (split; [done|]).
    + left. split_and!; [done | simpl; by rewrite H2, Eb, <- app_assoc | by constructor].
    + right. by left.
    + right. right. split; [done|]. exists ((p, false) :: before), q, fin', after, cl. rewrite Eb, <- app_assoc in *. simpl. by rewrite <- app_assoc.
  - rewrite receive_failed by done. exists s1. split; [done|]. right. by left.
  - rewrite receive_complete by done. eexists. split; [reflexivity|]. right. right. split; [by destruct (existsb _ _)|].
    exists [], p, fin, ds, cl. simpl. destruct (existsb _ _); by rewrite ?Hf.
Qed.

(** C38: the client accepts only whole responses. Whatever the peer sends,
    the session's buffer stays within its bound; a response is complete only
    when the bytes delivered up to some moment parse to its status code and
    body, and any later byte makes the session fail; the peer's close always
    settles the session; and a peer that sends more than the bound in total
    never leaves it successful. *)
Theorem http_client_session_sound ip port host target deliveries :
  let s := new_client_session ip port host target in
  exists s', receive_run s deliveries = Some s' /\ Zlen (response_buffer s') <= kCap /\
    (response_complete s' = true -> completed_by s deliveries s') /\
    (Exists (fun d => snd d = true) deliveries -> response_complete s' = true \/ failed s' = true) /\
    (kCap < Zlen (concat (map fst deliveries)) -> failed s' = true).
Proof.
  cbv zeta. set (s := new_client_session ip port host target). assert (Hw : waiting s) by (split_and!; done).
  destruct (receive_run_spec deliveries s Hw) as (s' & E & H). exists s'. split; [done|].
  assert (Hb : Zlen (response_buffer s') <= kCap) by (apply (receive_run_bounded deliveries s s'); [apply Hw | done]). split; [done|].
  destruct H as [((Hc & Hf & _) & Eb & Hfin)|[[Hf Hc]|[Hc Hby]]].
  - rewrite Hc. split_and!; [done| |].
    + intros H. exfalso. apply Exists_exists in H as (d & Hin & Hd). rewrite Forall_forall in Hfin. by rewrite (Hfin d Hin) in Hd.
    + rewrite Eb in Hb. simpl in Hb. lia.
  - rewrite Hc. split_and!; [done | by right | done].
  - split_and!; [done | by left|]. destruct Hby as (before & p & fin & after & cl & -> & Hl & _ & ->). simpl in Hl. intros Hlt.
    rewrite map_app, concat_app in Hlt. simpl in Hlt. rewrite app_assoc, Zlen_app in Hlt.
    destruct (existsb _ after) eqn:Ex; [done|]. exfalso. apply existsb_Forall in Ex.
    assert (Hz : concat (map fst after) = []).
    { clear -Ex. induction Ex as [|[q f] after Hq Ha IH]; [done|]. simpl. rewrite IH. by destruct q. }
    rewrite Hz, Zlen_nil in Hlt. lia.
Qed.

(** ** The client and the server together *)

Lemma select_ok req : response_ok (selectResponse req).
Proof.
  unfold selectResponse. destruct (text_eqb _ _); [by vm_compute|]. destruct (text_eqb _ _); [|by vm_compute].
  split_and!; [by vm_compute | by vm_compute |]. cbn [response_body]. unfold Zlen. rewrite length_replicate. by vm_compute.
Qed.

Lemma select_status req : statusCode (response_status (selectResponse req)) =
  if text_eqb (target req) (str "/") || text_eqb (target req) (str "/sack-test") then 200 else 404.
Proof. unfold selectResponse. destruct (text_eqb _ _); [reflexivity|]. cbn [orb]. by destruct (text_eqb _ _). Qed.

(** Any proper prefix of a response is incomplete. *)
Lemma response_prefix r p e : response_ok r -> p ++ e = serializeHttpResponse r -> e <> [] -> small (p ++ e) ->
  exists v, parseHttpResponse p false = Some v /\ resp_status v = RespIncomplete.
Proof.
  intros Hr E He Hs. destruct (parseHttpResponse_total p false) as (v & Ev & _). exists v. split; [done|].
  destruct (decide (resp_status v = RespIncomplete)) as [|Hn]; [done|]. exfalso.
  pose proof (response_final p e v Hs Ev Hn) as Hf. rewrite E, (response_accepted r false Hr) in Hf. apply (inj Some) in Hf.
  unfold response_after_more in Hf. destruct v as [[] c bd cl]; try done. cbn [resp_status] in Hf. by destruct e.
Qed.

Lemma receive_chunks r chunks : forall s c fin, response_ok r -> waiting s -> c <> [] ->
  response_buffer s ++ concat chunks ++ c = serializeHttpResponse r -> small (serializeHttpResponse r) ->
  Zlen (serializeHttpResponse r) <= kCap ->
  exists s', receive_run s (map (fun c => (c, false)) chunks ++ [(c, fin)]) = Some s' /\ response_complete s' = true /\
    failed s' = false /\ status_code s' = statusCode (response_status r) /\ session_body s' = response_body r.
Proof.
  induction chunks as [|p chunks IH]; intros s c fin Hr Hs Hc E Hsm Hcap; cbn [map app receive_run concat] in *.
  - destruct (receive_waiting s c fin Hs) as (s' & -> & H). rewrite E in H. cbn [mbind option_bind]. exists s'.
    destruct H as [(_ & _ & -> & v & Ev & Hv)|[(_ & _ & [?|(v & Ev & Hv & _)])|(Hf & Hcm & _ & cl & Ev)]].
    + rewrite response_accepted in Ev by done. by injection Ev as <-.
    + rewrite E in *. lia.
    + rewrite E, response_accepted in Ev by done. by injection Ev as <-.
    + rewrite E, response_accepted in Ev by done. by injection Ev as -> -> _.
  - rewrite <- app_assoc, app_assoc in E. destruct (response_prefix r (response_buffer s ++ p) (concat chunks ++ c) Hr E) as (v & Ev & Hv);
      [intros H; by apply app_eq_nil in H as [_ ?] | by rewrite E |].
    destruct (receive_waiting s p false Hs) as (s1 & -> & H). cbn [mbind option_bind].
    destruct H as [(Hw & Eb & _)|[(_ & _ & [Hl|(v' & Ev' & _ & Hv')])|(_ & _ & _ & cl & Ev')]].
    + apply (IH s1); try done. by rewrite Eb.
    + exfalso. rewrite <- E, Zlen_app in Hcap. pose proof (Zlen_nonneg (concat chunks ++ c)). lia.
    + rewrite Ev in Ev'. injection Ev' as <-. done.
    + rewrite Ev in Ev'. injection Ev' as ->. done.
Qed.

Lemma serialize_length r : response_ok r -> Zlen (serializeHttpResponse r) <= kCap.
Proof.
  intros Hr. rewrite serialize_render, Zlen_app. pose proof (response_head_length r Hr). destruct Hr as (_ & _ & Hb). unfold kCap. lia.
Qed.

(** A request and its response: the client's GET request for any valid
    target and host within the server's limits is parsed by the server,
    however it is cut into chunks, as exactly one request for that target; the
    response the server serializes is accepted by the client's session,
    however it is cut and whether or not the peer closes with the last chunk,
    with status 200 for the two known targets and 404 for every other, and
    with the body the server sent. *)
Theorem http_exchange host target bytes chunks :
  buildHttpGetRequest host target = Some bytes -> Zlen target <= 2033 -> Zlen target + Zlen host <= 8148 ->
  chunks <> [] -> Forall (fun c => c <> []) chunks -> concat chunks = bytes ->
  exists session response,
    serve_run new_http_session (map (fun c => (c, false)) chunks) =
      Some (session, replicate (length chunks - 1) None ++ [Some response]) /\
    forall ip port rchunks c fin, c <> [] -> concat rchunks ++ c = serializeHttpResponse response ->
      exists s', receive_run (new_client_session ip port host target) (map (fun c => (c, false)) rchunks ++ [(c, fin)]) = Some s' /\
        response_complete s' = true /\ failed s' = false /\ session_body s' = response_body response /\
        status_code s' = (if text_eqb target (str "/") || text_eqb target (str "/sack-test") then 200 else 404).
Proof.
  intros Eb Ht Hh Hne Hc Ecat.
  assert (Hlen : Zlen bytes = Zlen target + Zlen host + 44).
  { revert Eb. rewrite build_spec. destruct (decide _); [|done]. intros Eb. apply (inj Some) in Eb as <-. apply request_length. }
  assert (Hs : small bytes) by (unfold small; lia). destruct (request_accepted _ _ _ Eb Hs) as [_ Hp].
  rewrite (proj2 (Z.ltb_ge 2048 _)), (proj2 (Z.ltb_ge 8192 _)) in Hp by lia. cbn [orb] in Hp.
  set (req := mkHttpRequest (str "GET") target (str "HTTP/1.0")) in *.
  destruct (serve_chunks chunks new_http_session bytes req pending_new Hs Hne Hc Ecat Hp) as [session Es].
  exists session, (selectResponse req). split; [done|]. intros ip port rchunks c fin Hcn Er.
  pose proof (serialize_length _ (select_ok req)) as Hl.
  assert (Hsm : small (serializeHttpResponse (selectResponse req)))
    by (unfold small, kCap, kMaxHttpResponseHeaderBlockLength, kMaxHttpResponseBodyLength in *; lia).
  assert (Hw : waiting (new_client_session ip port host target)) by (split_and!; done).
  destruct (receive_chunks _ rchunks _ c fin (select_ok req) Hw Hcn Er Hsm Hl) as (s' & E & H1 & H2 & H3 & H4).
  exists s'. rewrite select_status in H3. repeat split; assumption.
Qed.

(** [http_exchange] for one request cut in two. *)
Lemma http_exchange_witness :
  exists session response,
    serve_run new_http_session [(str "GET / HTTP/1.0", false); (CRLF ++ str "Host: a:80" ++ CRLF ++ str "Connection: close" ++ CRLF ++ CRLF, false)] =
      Some (session, [None; Some response]) /\
    forall ip port c fin, c <> [] -> c = serializeHttpResponse response ->
      exists s', receive_run (new_client_session ip port (str "a:80") (str "/")) [(c, fin)] = Some s' /\ status_code s' = 200.
Proof.
  assert (E : exists bytes, buildHttpGetRequest (str "a:80") (str "/") = Some bytes /\
    concat [str "GET / HTTP/1.0"; CRLF ++ str "Host: a:80" ++ CRLF ++ str "Connection: close" ++ CRLF ++ CRLF] = bytes)
    by (eexists; split; vm_compute; reflexivity).
  destruct E as (bytes & Eb & Ec).
  destruct (http_exchange (str "a:80") (str "/") bytes [str "GET / HTTP/1.0"; CRLF ++ str "Host: a:80" ++ CRLF ++ str "Connection: close" ++ CRLF ++ CRLF] Eb)
    as (session & response & Es & H); [by vm_compute | by vm_compute | discriminate | by repeat constructor | exact Ec |].
  exists session, response. split; [exact Es|]. intros ip port c fin Hc E. destruct (H ip port [] c fin Hc E) as (s' & Er & _ & _ & _ & Hs).
  exists s'. split; [exact Er | exact Hs].
Defined.
