(* ===== verification/RuntimeOptions.v ===== *)
(** * Runtime options ([src/src/runtime_options.cpp], [runtime_options.hpp])

    The parser of the command line after the three positional arguments: the
    option loop, the rules on which options go together, and the conversion of
    ports, addresses, host names and targets. *)

From Stdlib Require Import String Ascii.
From S2P Require Import Prelude StdMap Addresses Text Dns Http HttpClient.

Inductive RuntimeMode := Passive | ActiveOpen | HttpGet.

Record RuntimeOptions := mkOptions {
  mode : RuntimeMode; destination_is_hostname : bool; opt_remote_ip : Ipv4Address; opt_hostname : list Z;
  opt_remote_port : Z; source_port : Z; dns_server_ip : Ipv4Address; dns_server_port : Z; opt_target : list Z
}.

Definition zero_ip : Ipv4Address := Ipv4 0 0 0 0.
Definition defaultOptions : RuntimeOptions := mkOptions Passive false zero_ip [] 0 0 zero_ip 0 [].

(** [RuntimeOptionsParseResult]: the options or the message of the error. *)
Definition RuntimeOptionsError : Type := list Z.
Definition RuntimeOptionsParseResult : Type := RuntimeOptions + RuntimeOptionsError.

(** ** Ports *)

(** The longest prefix of digits. *)
Fixpoint digits_prefix (s : list Z) : list Z :=
  match s with
  | c :: s => if is_digit c then c :: digits_prefix s else []
  | [] => []
  end.

(** [std::from_chars] for [unsigned long]: the value and how many characters
    it used; [None] where it reports an error (no digit, or overflow). *)
Definition from_chars (s : list Z) : option (Z * nat) :=
  let digits := digits_prefix s in
  if empty digits then None else
  if 2 ^ 64 <=? decimal_value digits then None else Some (decimal_value digits, length digits).

Definition parseStrictPort (text : list Z) : option Z :=
  if empty text || (hd 0 text <? ch "0") || (ch "9" <? hd 0 text) then None else
  match from_chars text with
  | None => None
  | Some (value, used) =>
      if negb (used =? length text)%nat then None else
      if (value =? 0) || (65535 <? value) then None else Some (u16 value)
  end.

(** ** The option loop *)

Record OptionArgs := mkOptionArgs {
  active_open_arg : option (list Z); http_get_arg : option (list Z); source_port_arg : option (list Z);
  target_arg : option (list Z); dns_server_arg : option (list Z)
}.
#[export] Instance eta_OptionArgs : Eta OptionArgs :=
  fun a => mkOptionArgs (active_open_arg a) (http_get_arg a) (source_port_arg a) (target_arg a) (dns_server_arg a).

Definition noArguments : OptionArgs := mkOptionArgs None None None None None.

(** What an option does with its value: [None] if it was given before. *)
Definition setArgument (arg : list Z) (a : OptionArgs) : option (option (list Z -> OptionArgs)) :=
  let once (old : option (list Z)) (set : list Z -> OptionArgs) := if has_value old then None else Some set in
  if text_eqb arg (str "--active-open") then Some (once (active_open_arg a) (fun v => a <| active_open_arg := Some v |>)) else
  if text_eqb arg (str "--http-get") then Some (once (http_get_arg a) (fun v => a <| http_get_arg := Some v |>)) else
  if text_eqb arg (str "--source-port") then Some (once (source_port_arg a) (fun v => a <| source_port_arg := Some v |>)) else
  if text_eqb arg (str "--target") then Some (once (target_arg a) (fun v => a <| target_arg := Some v |>)) else
  if text_eqb arg (str "--dns-server") then Some (once (dns_server_arg a) (fun v => a <| dns_server_arg := Some v |>)) else
  None.

Fixpoint argumentLoop (argv : list (list Z)) (a : OptionArgs) : OptionArgs + RuntimeOptionsError :=
  match argv with
  | [] => inl a
  | arg :: argv =>
      match setArgument arg a with
      | None => inr (str "unknown option: " ++ arg)
      | Some None => inr (arg ++ str " given more than once")
      | Some (Some set) =>
          match argv with
          | [] => inr (arg ++ str " requires a value")
          | value :: argv => argumentLoop argv (set value)
          end
      end
  end.

(** ** The rules *)

Definition describeTargetError (error : HttpClientTargetError) : list Z :=
  match error with
  | TargetEmpty => str "empty"
  | MissingLeadingSlash => str "must begin with '/'"
  | TargetInvalidByte => str "contains a space, CR, LF, or other control byte"
  end.

(** [std::string::rfind] of a character. *)
Definition rfind_char (c : Z) (s : list Z) : option nat :=
  option_map (fun n => (length s - 1 - n)%nat) (find_char c (rev s)).

(** The combinations of options that are refused, with the message. *)
Definition checkCombination (a : OptionArgs) : option RuntimeOptionsError :=
  let given (o : option (list Z)) := has_value o in
  if given (active_open_arg a) && given (http_get_arg a) then Some (str "--active-open and --http-get are mutually exclusive") else
  if given (target_arg a) && negb (given (http_get_arg a)) then Some (str "--target requires --http-get") else
  if given (dns_server_arg a) && given (active_open_arg a) then Some (str "--dns-server is not supported with --active-open") else
  None.

(** The destination is a host name: resolve it through the DNS server given. *)
Definition hostnameOptions (options : RuntimeOptions) (host_part : list Z) (dns_server : option (list Z)) : RuntimeOptionsParseResult :=
  match normalizeHostname host_part with
  | inr _ => inr (str "invalid destination: not a valid IPv4 address or hostname")
  | inl normalized =>
      match dns_server with
      | None => inr (str "hostname destination requires --dns-server")
      | Some dns =>
          match rfind_char (ch ":") dns with
          | None => inr (str "--dns-server must be <ip>:<port>")
          | Some dns_colon =>
              match Ipv4Address_parse (take dns_colon dns) with
              | None => inr (str "invalid --dns-server IPv4 address")
              | Some ip =>
                  match parseStrictPort (drop (S dns_colon) dns) with
                  | None => inr (str "invalid --dns-server port")
                  | Some port =>
                      inl (mkOptions (mode options) true (opt_remote_ip options) normalized (opt_remote_port options)
                             (source_port options) ip port (opt_target options))
                  end
              end
          end
      end
  end.

(** The destination and the ports of an active mode. *)
Definition activeOptions (a : OptionArgs) (destination source : list Z) : RuntimeOptionsParseResult :=
  match rfind_char (ch ":") destination with
  | None => inr (str "destination must be <ip-or-hostname>:<port>")
  | Some colon =>
      let host_part := take colon destination in
      match parseStrictPort (drop (S colon) destination) with
      | None => inr (str "invalid destination port")
      | Some remote_port =>
          match parseStrictPort source with
          | None => inr (str "invalid --source-port")
          | Some source_port =>
              if has_value (active_open_arg a) then
                match Ipv4Address_parse host_part with
                | None => inr (str "invalid destination IPv4 address")
                | Some ip => inl (mkOptions ActiveOpen false ip [] remote_port source_port zero_ip 0 [])
                end
              else
                let target := default [] (target_arg a) in
                match validateHttpClientTarget target with
                | Some e => inr (str "invalid --target: " ++ describeTargetError e)
                | None =>
                    let options := mkOptions HttpGet false zero_ip [] remote_port source_port zero_ip 0 target in
                    match Ipv4Address_parse host_part with
                    | Some ip =>
                        if has_value (dns_server_arg a)
                        then inr (str "--dns-server requires a hostname destination, not a literal IPv4 address")
                        else inl (mkOptions HttpGet false ip [] remote_port source_port zero_ip 0 target)
                    | None => hostnameOptions options host_part (dns_server_arg a)
                    end
                end
          end
      end
  end.

(** [argv] is what follows the positional arguments, argv[4..argc). *)
Definition parseRuntimeOptions (argv : list (list Z)) : RuntimeOptionsParseResult :=
  match argumentLoop argv noArguments with
  | inr e => inr e
  | inl a =>
      match checkCombination a with
      | Some e => inr e
      | None =>
          match active_open_arg a, http_get_arg a with
          | None, None =>
              if has_value (source_port_arg a) then inr (str "--source-port requires --active-open or --http-get") else
              if has_value (dns_server_arg a) then inr (str "--dns-server requires --http-get with a hostname destination") else
              inl defaultOptions
          | active_open, http_get =>
              match source_port_arg a with
              | None => inr (if has_value active_open then str "--active-open requires --source-port" else str "--http-get requires --source-port")
              | Some source =>
                  if has_value http_get && negb (has_value (target_arg a)) then inr (str "--http-get requires --target") else
                  activeOptions a (default (default [] http_get) active_open) source
              end
          end
      end
  end.

(** ** Ports and destinations *)

Definition is_port (p : Z) : Prop := 1 <= p <= 65535.

Lemma digits_prefix_id s : all_digits s -> digits_prefix s = s.
Proof. induction 1 as [|c s Hc Hs IH]; simpl; [done|]. by rewrite Hc, IH. Qed.

Lemma parseStrictPort_print p : is_port p -> parseStrictPort (to_string p) = Some p.
Proof.
  intros Hp. unfold is_port in Hp. destruct (to_string_spec p) as (Hd & Hv & Hne & _); [lia|]. unfold parseStrictPort.
  assert (Ef : from_chars (to_string p) = Some (p, length (to_string p))).
  { unfold from_chars. rewrite digits_prefix_id, Hv by done. destruct (to_string p); [done|]. cbn [empty]. by zdec1. }
  rewrite Ef, Nat.eqb_refl. destruct (to_string p) as [|c s]; [done|].
  inversion Hd as [|? ? Hc _]; subst. apply is_digit_iff in Hc. cbn [empty hd negb]. change (ch "0") with 48. change (ch "9") with 57.
  zdec. f_equal. apply u16_id. unfold is_u16. lia.
Qed.

Lemma parseStrictPort_range s p : parseStrictPort s = Some p -> is_port p.
Proof.
  unfold parseStrictPort. destruct (empty s || _ || _); [done|]. destruct (from_chars s) as [[v used]|] eqn:E; [|done].
  destruct (negb _); [done|]. destruct ((v =? 0) || (65535 <? v)) eqn:Ev; [done|]. bprop. intros [= <-].
  assert (0 <= v).
  { revert E. unfold from_chars. destruct (empty _); [done|]. destruct (_ <=? _); [done|]. intros [= <- _].
    assert (Hd : all_digits (digits_prefix s)).
    { clear. induction s as [|c s IH]; simpl; [constructor|]. destruct (is_digit c) eqn:Ec; [by constructor | constructor]. }
    pose proof (decimal_value_bounds _ Hd). lia. }
  rewrite u16_id; unfold is_u16, is_port; lia.
Qed.

(** [host:port], cut at its last colon. *)
Definition authority (host : list Z) (port : Z) : list Z := host ++ ch ":" :: to_string port.

Lemma authority_cut host port : is_port port ->
  rfind_char (ch ":") (authority host port) = Some (length host) /\
  take (length host) (authority host port) = host /\ drop (S (length host)) (authority host port) = to_string port.
Proof.
  intros Hp. unfold is_port in Hp. destruct (to_string_spec port) as (Hd & _); [lia|]. unfold authority. split_and!.
  - unfold rfind_char. rewrite rev_app_distr. cbn [rev]. rewrite <- app_assoc. unfold find_char. rewrite find_sub_first.
    + simpl. f_equal. rewrite length_app, length_rev. simpl. lia.
    + apply Forall_rev. eapply Forall_impl; [exact Hd|]. intros c Hc. apply is_digit_iff in Hc. change (ch ":") with 58. lia.
  - apply take_app_length.
  - rewrite cons_middle, app_assoc. apply drop_app_length'. rewrite length_app. simpl. lia.
Qed.

(** ** Host names are normalized once *)

Lemma tolower_ldh c : isLdhChar c = true -> isLdhChar (tolower c) = true.
Proof.
  unfold tolower. destruct (is_upper c) eqn:E; [|done]. intros _. unfold isLdhChar, is_lower, is_upper in *. bprop. zdec. done.
Qed.

Lemma checkLabel_toLower l : checkLabel l = None -> checkLabel (toLower l) = None.
Proof.
  unfold checkLabel. destruct (empty l) eqn:E; [done|].
  assert (He : empty (toLower l) = false) by (by destruct l). rewrite He.
  unfold Zlen. unfold toLower at 1. rewrite length_map. destruct (_ <? _); [done|].
  assert (Hh : (hd 0 (toLower l) =? ch "-") = (hd 0 l =? ch "-")) by (destruct l; [done|]; by apply tolower_sep).
  assert (Hl : (List.last (toLower l) 0 =? ch "-") = (List.last l 0 =? ch "-")).
  { destruct l as [|c l] using rev_ind; [done|]. unfold toLower. rewrite map_app. cbn [map]. rewrite !last_last. by apply tolower_sep. }
  rewrite Hh, Hl. destruct (_ || _); [done|]. destruct (forallb isLdhChar l) eqn:Ef; [|done]. intros _.
  assert (Hf : forallb isLdhChar (toLower l) = true).
  { unfold toLower. rewrite forallb_forall in *. intros c Hc. apply in_map_iff in Hc as (x & <- & Hx). by apply tolower_ldh, Ef. }
  by rewrite Hf.
Qed.

Lemma normalize_loop_accepts labels acc : Forall (fun l => checkLabel l = None) labels -> exists out, normalize_loop labels acc = inl out.
Proof. intros H. revert acc. induction H as [|l labels Hl Hls IH]; intros acc; simpl; [by eexists|]. rewrite Hl. apply IH. Qed.

Lemma normalizeHostname_lower h n : normalizeHostname h = inl n -> n = toLower h /\ normalizeHostname n = inl n.
Proof.
  unfold normalizeHostname. destruct (empty h) eqn:E; [done|]. destruct (253 <? Zlen h) eqn:El; [done|]. intros H.
  apply normalize_loop_ok in H as [Hf ->]. cbn [empty]. rewrite decoded_join by apply split_on_nonempty.
  assert (Hn : join (ch ".") (map toLower (split_on (ch ".") h)) = toLower h) by (rewrite <- split_toLower by done; apply join_split).
  rewrite Hn. split; [done|]. assert (He : empty (toLower h) = false) by (by destruct h). rewrite He.
  assert (Hlen : Zlen (toLower h) = Zlen h) by (unfold Zlen, toLower; by rewrite length_map). rewrite Hlen, El, split_toLower by done.
  assert (Hf' : Forall (fun l => checkLabel l = None) (map toLower (split_on (ch ".") h))).
  { apply List.Forall_map. eapply Forall_impl; [exact Hf | apply checkLabel_toLower]. }
  destruct (normalize_loop_accepts _ [] Hf') as [out Eo]. rewrite Eo. apply normalize_loop_ok in Eo as [_ ->]. cbn [empty].
  rewrite decoded_join by (pose proof (split_on_nonempty (ch ".") h); by destruct (split_on (ch ".") h)).
  rewrite <- !split_toLower, join_split by done. by rewrite toLower_idem.
Qed.

Lemma toLower_inv h s : Forall (fun c => is_lower c = false) s -> toLower h = s -> h = s.
Proof.
  intros H <-. induction h as [|c h IH]; simpl in *; [done|]. inversion H as [|? ? Hc Hh]; subst. f_equal; [|by apply IH].
  unfold tolower in *. destruct (is_upper c) eqn:E; [|done]. exfalso. unfold is_upper, is_lower in *. bprop. destruct Hc; bprop; lia.
Qed.

Lemma join_Forall P sep fs : P sep -> Forall (Forall P) fs -> Forall P (join sep fs).
Proof.
  intros Hs H. induction H as [|f fs Hf Hfs IH]; [by constructor|]. destruct fs as [|g fs]; [done|].
  change (join sep (f :: g :: fs)) with (f ++ sep :: join sep (g :: fs)). apply Forall_app. split; [done | by constructor].
Qed.

Lemma ipv4_text_no_letters ip : ip_ok ip -> Forall (fun c => is_lower c = false) (Ipv4Address_toString ip).
Proof.
  intros H. apply join_Forall; [done|]. apply List.Forall_map. eapply Forall_impl; [exact H|]. intros v Hv.
  destruct (to_string_spec v) as [Hd _]; [unfold is_u8 in Hv; lia|]. eapply Forall_impl; [exact Hd|].
  intros c Hc. apply is_digit_iff in Hc. unfold is_lower. by zdec.
Qed.

Lemma ipv4_parse_lower h : Ipv4Address_parse h = None -> Ipv4Address_parse (toLower h) = None.
Proof.
  intros Hn. destruct (Ipv4Address_parse (toLower h)) as [ip|] eqn:E; [|done]. apply Ipv4Address_parse_iff in E as [Hip E].
  apply toLower_inv in E; [|by apply ipv4_text_no_letters]. subst h.
  by rewrite (proj2 (Ipv4Address_parse_iff _ ip)) in Hn by done.
Qed.

(** ** What can be configured *)

(** The options of each mode; unused fields keep their defaults. *)
Definition valid_options (o : RuntimeOptions) : Prop :=
  match mode o with
  | Passive => o = defaultOptions
  | ActiveOpen =>
      exists ip rp sp, ip_ok ip /\ is_port rp /\ is_port sp /\ o = mkOptions ActiveOpen false ip [] rp sp zero_ip 0 []
  | HttpGet =>
      exists rp sp t, is_port rp /\ is_port sp /\ validateHttpClientTarget t = None /\
        ((exists ip, ip_ok ip /\ o = mkOptions HttpGet false ip [] rp sp zero_ip 0 t) \/
         exists h dip dp, normalizeHostname h = inl h /\ Ipv4Address_parse h = None /\ ip_ok dip /\ is_port dp /\
           o = mkOptions HttpGet true zero_ip h rp sp dip dp t)
  end.

(** A command line for the options. *)
Definition commandLine (o : RuntimeOptions) : list (list Z) :=
  match mode o with
  | Passive => []
  | ActiveOpen => [str "--active-open"; authority (Ipv4Address_toString (opt_remote_ip o)) (opt_remote_port o);
                   str "--source-port"; to_string (source_port o)]
  | HttpGet =>
      (if destination_is_hostname o
       then [str "--http-get"; authority (opt_hostname o) (opt_remote_port o);
             str "--dns-server"; authority (Ipv4Address_toString (dns_server_ip o)) (dns_server_port o)]
       else [str "--http-get"; authority (Ipv4Address_toString (opt_remote_ip o)) (opt_remote_port o)]) ++
      [str "--source-port"; to_string (source_port o); str "--target"; opt_target o]
  end.

Lemma ipv4_parse_print ip : ip_ok ip -> Ipv4Address_parse (Ipv4Address_toString ip) = Some ip.
Proof. intros H. by apply Ipv4Address_parse_iff. Qed.

Lemma active_cut a host rp sp : is_port rp -> is_port sp ->
  activeOptions a (authority host rp) (to_string sp) =
    (if has_value (active_open_arg a) then
       match Ipv4Address_parse host with
       | None => inr (str "invalid destination IPv4 address")
       | Some ip => inl (mkOptions ActiveOpen false ip [] rp sp zero_ip 0 [])
       end
     else
       match validateHttpClientTarget (default [] (target_arg a)) with
       | Some e => inr (str "invalid --target: " ++ describeTargetError e)
       | None =>
           match Ipv4Address_parse host with
           | Some ip => if has_value (dns_server_arg a)
                        then inr (str "--dns-server requires a hostname destination, not a literal IPv4 address")
                        else inl (mkOptions HttpGet false ip [] rp sp zero_ip 0 (default [] (target_arg a)))
           | None => hostnameOptions (mkOptions HttpGet false zero_ip [] rp sp zero_ip 0 (default [] (target_arg a))) host (dns_server_arg a)
           end
       end).
Proof.
  intros Hr Hs. unfold activeOptions. destruct (authority_cut host rp Hr) as (-> & -> & ->). by rewrite !parseStrictPort_print.
Qed.

Lemma commandLine_parses o : valid_options o -> parseRuntimeOptions (commandLine o) = inl o.
Proof.
  intros H. unfold valid_options in H. destruct (mode o) eqn:Em.
  - by rewrite H.
  - destruct H as (ip & rp & sp & Hip & Hr & Hs & ->). set (d := authority (Ipv4Address_toString ip) rp).
    change (activeOptions (mkOptionArgs (Some d) None (Some (to_string sp)) None None) d (to_string sp) =
      inl (mkOptions ActiveOpen false ip [] rp sp zero_ip 0 [])).
    unfold d. rewrite active_cut by done. cbn [has_value active_open_arg]. by rewrite ipv4_parse_print.
  - destruct H as (rp & sp & t & Hr & Hs & Ht & [(ip & Hip & ->)|(h & dip & dp & Hh & Hn & Hdi & Hdp & ->)]).
    + set (d := authority (Ipv4Address_toString ip) rp).
      change (activeOptions (mkOptionArgs None (Some d) (Some (to_string sp)) (Some t) None) d (to_string sp) =
        inl (mkOptions HttpGet false ip [] rp sp zero_ip 0 t)).
      unfold d. rewrite active_cut by done. cbn [has_value active_open_arg target_arg dns_server_arg from_option id]. by rewrite Ht, ipv4_parse_print.
    + set (d := authority h rp). set (n := authority (Ipv4Address_toString dip) dp).
      change (activeOptions (mkOptionArgs None (Some d) (Some (to_string sp)) (Some t) (Some n)) d (to_string sp) =
        inl (mkOptions HttpGet true zero_ip h rp sp dip dp t)).
      unfold d. rewrite active_cut by done. cbn [has_value active_open_arg target_arg dns_server_arg from_option id]. rewrite Ht, Hn.
      unfold hostnameOptions. rewrite Hh. unfold n. destruct (authority_cut (Ipv4Address_toString dip) dp Hdp) as (-> & -> & ->).
      by rewrite ipv4_parse_print, parseStrictPort_print.
Qed.

(** Every option of the command line leaves its argument. *)
Definition given (a : OptionArgs) : nat :=
  length (option_list (active_open_arg a) ++ option_list (http_get_arg a) ++ option_list (source_port_arg a) ++
          option_list (target_arg a) ++ option_list (dns_server_arg a)).

Lemma setArgument_given arg a set v : setArgument arg a = Some (Some set) -> given (set v) = S (given a).
Proof.
  unfold setArgument, given. destruct a as [[] [] [] [] []]; cbn [has_value active_open_arg http_get_arg source_port_arg target_arg dns_server_arg];
    repeat (destruct (text_eqb arg _); [intros [= <-]; done|]); done.
Qed.

Lemma argumentLoop_given argv a a' : argumentLoop argv a = inl a' -> length argv = (2 * (given a' - given a))%nat /\ (given a <= given a')%nat.
Proof.
  revert a. induction argv as [|arg|arg v argv IH] using list_pair_ind; intros a; cbn [argumentLoop].
  - intros [= <-]. simpl. lia.
  - destruct (setArgument arg a) as [[set|]|]; done.
  - destruct (setArgument arg a) as [[set|]|] eqn:E; [|done..]. intros H. apply IH in H. rewrite (setArgument_given _ _ _ v E) in H. simpl. lia.
Qed.

Lemma hostnameOptions_sound o0 host dns o : hostnameOptions o0 host dns = inl o ->
  exists h ip port, normalizeHostname host = inl h /\ ip_ok ip /\ is_port port /\
    o = mkOptions (mode o0) true (opt_remote_ip o0) h (opt_remote_port o0) (source_port o0) ip port (opt_target o0).
Proof.
  unfold hostnameOptions. destruct (normalizeHostname host) as [h|]; [|done]. destruct dns as [dns|]; [|done].
  destruct (rfind_char _ dns) as [n|]; [|done]. destruct (Ipv4Address_parse _) as [ip|] eqn:Ei; [|done].
  destruct (parseStrictPort _) as [port|] eqn:Ep; [|done]. intros [= <-]. exists h, ip, port. apply Ipv4Address_parse_iff in Ei as [? _].
  split_and!; try done. by eapply parseStrictPort_range.
Qed.

Lemma activeOptions_sound a d s o : activeOptions a d s = inl o -> valid_options o /\ mode o <> Passive.
Proof.
  unfold activeOptions. destruct (rfind_char _ d) as [n|]; [|done]. destruct (parseStrictPort (drop _ _)) as [rp|] eqn:Er; [|done].
  destruct (parseStrictPort s) as [sp|] eqn:Es; [|done]. apply parseStrictPort_range in Er, Es. destruct (has_value (active_open_arg a)).
  - destruct (Ipv4Address_parse _) as [ip|] eqn:Ei; [|done]. intros [= <-]. apply Ipv4Address_parse_iff in Ei as [? _].
    split; [|done]. by exists ip, rp, sp.
  - set (t := default [] (target_arg a)). destruct (validateHttpClientTarget t) eqn:Et; [done|].
    destruct (Ipv4Address_parse _) as [ip|] eqn:Ei.
    + destruct (has_value _); [done|]. intros [= <-]. apply Ipv4Address_parse_iff in Ei as [? _]. split; [|done].
      exists rp, sp, t. split_and!; try done. left. by exists ip.
    + intros H. apply hostnameOptions_sound in H as (h & dip & dp & Hh & Hdi & Hdp & ->). split; [|done].
      exists rp, sp, t. split_and!; try done. right. apply normalizeHostname_lower in Hh as [-> Hn].
      exists (toLower (take n d)), dip, dp. split_and!; try done. by apply ipv4_parse_lower.
Qed.

Lemma parse_sound argv o : parseRuntimeOptions argv = inl o ->
  (argv = [] /\ o = defaultOptions) \/ (argv <> [] /\ valid_options o /\ mode o <> Passive).
Proof.
  unfold parseRuntimeOptions. destruct (argumentLoop argv noArguments) as [a|] eqn:El; [|done].
  assert (Hgiven : length argv = (2 * given a)%nat) by (apply argumentLoop_given in El; change (given noArguments) with O in El; lia).
  destruct (checkCombination a) eqn:Ec; [done|].
  assert (Hact : forall d s, activeOptions a d s = inl o -> given a <> O -> argv <> [] /\ valid_options o /\ mode o <> Passive).
  { intros d s H Hg. apply activeOptions_sound in H. split; [|done]. intros ->. simpl in Hgiven. lia. }
  destruct a as [ao hg sp tg dns]. unfold given in *. cbn [active_open_arg http_get_arg source_port_arg target_arg dns_server_arg] in *.
  destruct ao as [x|], hg as [y|].
  - done.
  - destruct sp as [sp|]; [|done]. cbn [has_value andb]. intros H. right. by apply Hact in H.
  - destruct sp as [sp|]; [|done]. cbn [has_value andb]. destruct tg; [|done]. cbn [has_value negb]. intros H. right. by apply Hact in H.
  - destruct sp; [done|]. destruct dns; [done|]. cbn [has_value]. intros [= <-]. destruct tg; [done|]. left. by destruct argv.
Qed.

