(* ===== verification/Stack.v ===== *)
(** * The stack: packet dispatch ([src/src/main.cpp], up to [handleIpv4])

    The handlers that connect the protocols: what a received frame does to the
    stack's state and which frames it sends. A handler is an action on the
    state that also collects the frames written to the TAP device; failure
    stands for a read outside a buffer. Log messages are left out. The clock is
    read by the caller: handlers take the times they read as arguments. *)

From S2P Require Import Prelude StdMap Checksum Addresses Text ArpCache.
From S2P Require Import Ethernet Arp Ipv4 Icmp Udp Tcp.
From S2P Require Import Dns Http HttpClient RuntimeOptions.
From S2P Require Import TcpState TcpTable.

(** ** State *)

Record DnsRuntimeState := mkDnsRuntime {
  dns_session : DnsClientSession; dns_transaction_id : Z; query_started : bool;
  dns_tcp_source_port : Z; http_port : Z; dns_host_header : list Z
}.
#[export] Instance eta_DnsRuntimeState : Eta DnsRuntimeState :=
  fun d => mkDnsRuntime (dns_session d) (dns_transaction_id d) (query_started d) (dns_tcp_source_port d) (http_port d) (dns_host_header d).

#[export] Instance TcpConnectionKey_eq_dec : EqDecision TcpConnectionKey.
Proof. solve_decision. Defined.

(** The variables of [main] that the handlers and the loop share. *)
Record Stack := mkStack {
  arp_cache : ArpCache.ArpCache;
  udp_endpoints : UdpEndpointTable;
  tcp_connections : TcpConnectionTable;
  http_sessions : list (TcpConnectionKey * HttpConnectionState);
  http_client_sessions : list (TcpConnectionKey * HttpClientSession);
  active_open_started : bool;
  active_open_key : option TcpConnectionKey;
  dial_target_ip : option Ipv4Address;
  dns_state : option DnsRuntimeState
}.
#[export] Instance eta_Stack : Eta Stack :=
  fun s => mkStack (arp_cache s) (udp_endpoints s) (tcp_connections s) (http_sessions s) (http_client_sessions s)
    (active_open_started s) (active_open_key s) (dial_target_ip s) (dns_state s).

(** ** Actions *)

Definition action (A : Type) : Type := Stack -> option (A * Stack * list (list Z)).

#[export] Instance action_ret : MRet action := fun _ a s => Some (a, s, []).
#[export] Instance action_bind : MBind action := fun _ _ k m s =>
  match m s with
  | Some (a, s, out) => match k a s with Some (b, s, out') => Some (b, s, out ++ out') | None => None end
  | None => None
  end.

Definition done_ : action unit := mret tt.
(** [tap.write]: a failed write is only reported. *)
Definition write (frame : list Z) : action unit := fun s => Some (tt, s, [frame]).
Definition read {A} (f : Stack -> A) : action A := fun s => Some (f s, s, []).
Definition modify (f : Stack -> Stack) : action unit := fun s => Some (tt, f s, []).
(** A result of a parser or of the TCP table: [None] is an out-of-bounds read. *)
Definition guard_bounds {A} (o : option A) : action A := fun s => match o with Some a => Some (a, s, []) | None => None end.
(** Run an operation of a component and store its new state. *)
Definition on_arp {A} (f : ArpCache.ArpCache -> A * ArpCache.ArpCache) : action A :=
  fun s => let '(a, c) := f (arp_cache s) in Some (a, s <| arp_cache := c |>, []).
Definition on_tcp {A} (f : TcpConnectionTable -> A * TcpConnectionTable) : action A :=
  fun s => let '(a, t) := f (tcp_connections s) in Some (a, s <| tcp_connections := t |>, []).
Definition when (b : bool) (m : action unit) : action unit := if b then m else done_.
Fixpoint for_each {A} (l : list A) (body : A -> action unit) : action unit :=
  match l with
  | [] => done_
  | x :: l => body x ;; for_each l body
  end.

Definition kEtherTypeIpv4 : Z := 2048.
Definition kEtherTypeArp : Z := 2054.
Definition kProtocolIcmp : Z := 1.
Definition kProtocolTcp : Z := 6.
Definition kProtocolUdp : Z := 17.

Section Handlers.
Context (local_ip : Ipv4Address) (local_mac : MacAddress).

(** ** ARP *)

Definition sendArpRequest (target_ip : Ipv4Address) : action unit :=
  write (serializeEthernetFrame (mkEthernetFrame kBroadcast local_mac kEtherTypeArp
    (serializeArpPacket (makeArpRequest local_ip local_mac target_ip)))).

Definition resolveNeighbor (target_ip : Ipv4Address) (now : Z) : action (option MacAddress) :=
  mac ← on_arp (fun c => ArpCache.lookup c target_ip now);
  match mac with
  | Some mac => mret (Some mac)
  | None =>
      started ← on_arp (fun c => ArpCache.beginResolution c target_ip now);
      when started (sendArpRequest target_ip) ;; mret None
  end.

Definition insertNeighbor (ip : Ipv4Address) (mac : MacAddress) (now : Z) : action unit :=
  modify (fun s => s <| arp_cache := ArpCache.insert (arp_cache s) ip mac now |>).

(** An accepted ARP reply answers a pending resolution of ours. *)
Definition handleArpReply (frame : EthernetFrame) (reply : ArpPacket) (now : Z) : action unit :=
  if negb (mac_eqb (eth_destination frame) local_mac) || negb (isArpReplyFor reply local_ip local_mac) then done_ else
  state ← on_arp (fun c => ArpCache.stateOf c (sender_ip reply) now);
  if negb (bool_decide (state = Some ArpCache.Incomplete)) then done_ else
  insertNeighbor (sender_ip reply) (sender_mac reply) now.

Definition handleArp (frame : EthernetFrame) (now : Z) : action unit :=
  parsed ← guard_bounds (parseArpPacket (eth_payload frame));
  match parsed with
  | inr _ => done_
  | inl request =>
      if negb (mac_eqb (eth_source frame) (sender_mac request)) || mac_eqb (sender_mac request) mac_zero || isBroadcast (sender_mac request)
      then done_ else
      match arp_operation request with
      | ArpReply => handleArpReply frame request now
      | ArpRequest =>
          match maybeReply request local_ip local_mac with
          | None => done_
          | Some reply =>
              when (negb (ip_eqb (sender_ip request) zero_ip)) (insertNeighbor (sender_ip request) (sender_mac request) now) ;;
              write (serializeEthernetFrame (mkEthernetFrame (sender_mac request) local_mac kEtherTypeArp (serializeArpPacket reply)))
          end
      end
  end.

(** ** IPv4 output: the tail all senders share *)

Definition sendIpv4 (destination_mac : MacAddress) (packet : Ipv4Packet) : action unit :=
  match serializeIpv4Packet packet with
  | inr _ => done_
  | inl bytes => write (serializeEthernetFrame (mkEthernetFrame destination_mac local_mac kEtherTypeIpv4 bytes))
  end.

(** A packet with the defaults of [Ipv4Packet] and TTL 64. *)
Definition outgoing (proto : Z) (destination : Ipv4Address) (bytes : list Z) : Ipv4Packet :=
  mkIpv4Packet 0 0 64 proto local_ip destination bytes.

(** ** ICMP *)

Definition sendEchoReply (ip_packet : Ipv4Packet) (eth_frame : EthernetFrame) (request : IcmpEcho) : action unit :=
  sendIpv4 (eth_source eth_frame)
    (outgoing (protocol ip_packet) (ip_source ip_packet) (serializeIcmpEcho (makeEchoReply request))).

Definition handleIcmp (ip_packet : Ipv4Packet) (eth_frame : EthernetFrame) : action unit :=
  parsed ← guard_bounds (parseIcmpEcho (ip_payload ip_packet));
  match parsed with
  | inr _ => done_
  | inl message =>
      match icmp_type message with
      | EchoReply => done_
      | EchoRequest => sendEchoReply ip_packet eth_frame message
      end
  end.

(** ** UDP and the DNS client *)

Definition sendUdpPacket (remote_ip : Ipv4Address) (remote_mac : MacAddress) (local_port remote_port : Z) (bytes : list Z) : action unit :=
  match serializeUdpDatagram (mkUdpDatagram local_port remote_port bytes) local_ip remote_ip with
  | inr _ => done_
  | inl udp => sendIpv4 remote_mac (outgoing kProtocolUdp remote_ip udp)
  end.

(** Whether the datagram was for the DNS client. *)
Definition handleDnsClientUdp (tcp_local_port : Z) (ip_packet : Ipv4Packet) : action bool :=
  dns ← read dns_state;
  match dns with
  | None => mret false
  | Some state =>
      parsed ← guard_bounds (parseUdpDatagram (ip_payload ip_packet) (ip_source ip_packet) (ip_destination ip_packet));
      match parsed with
      | inr _ => mret false
      | inl datagram =>
          if negb (udp_destination_port datagram =? s_local_port (dns_session state)) then mret false else
          r ← guard_bounds (handleDnsResponse (dns_session state) (ip_source ip_packet) (udp_source_port datagram)
                (udp_destination_port datagram) (udp_payload datagram));
          let '(changed, session) := r in
          modify (fun s => s <| dns_state := Some (state <| dns_session := session |>) |>) ;;
          when (changed && bool_decide (s_state session = SessionResolved))
            (address ← guard_bounds (resolved_address session);
             modify (fun s => s <| dial_target_ip := Some address |>
                                <| active_open_key := Some (mkKey local_ip tcp_local_port address (http_port state)) |>)) ;;
          mret true
      end
  end.

Definition handleUdp (ip_packet : Ipv4Packet) (eth_frame : EthernetFrame) : action unit :=
  parsed ← guard_bounds (parseUdpDatagram (ip_payload ip_packet) (ip_source ip_packet) (ip_destination ip_packet));
  match parsed with
  | inr _ => done_
  | inl datagram =>
      endpoints ← read udp_endpoints;
      match udp_deliver endpoints (udp_destination_port datagram) (udp_payload datagram) with
      | None => done_
      | Some response =>
          if udp_source_port datagram =? 0 then done_ else
          match serializeUdpDatagram (mkUdpDatagram (udp_destination_port datagram) (udp_source_port datagram) response)
                  local_ip (ip_source ip_packet) with
          | inr _ => done_
          | inl udp => sendIpv4 (eth_source eth_frame) (outgoing (protocol ip_packet) (ip_source ip_packet) udp)
          end
      end
  end.

(** ** TCP *)

Definition sendTcpSegment (remote_ip : Ipv4Address) (remote_mac : MacAddress) (segment : TcpSegment) : action unit :=
  match serializeTcpSegment segment local_ip remote_ip with
  | inr _ => done_
  | inl tcp => sendIpv4 remote_mac (outgoing kProtocolTcp remote_ip tcp)
  end.

Definition sendTcpReply (ip_packet : Ipv4Packet) (eth_frame : EthernetFrame) (segment : TcpSegment) : action unit :=
  sendTcpSegment (ip_source ip_packet) (eth_source eth_frame) segment.

Definition for_option {A} (o : option A) (body : A -> action unit) : action unit :=
  match o with Some x => body x | None => done_ end.

(** *** The HTTP client of an active open *)

Definition set_client (key : TcpConnectionKey) (session : HttpClientSession) : action unit :=
  modify (fun s => s <| http_client_sessions := map_set (http_client_sessions s) key session |>).

(** The request is enqueued once, when the handshake completes. *)
Definition enqueueRequest (key : TcpConnectionKey) (session : HttpClientSession) (result : TcpReceiveResult)
    (ip_packet : Ipv4Packet) (eth_frame : EthernetFrame) (now : Z) : action HttpClientSession :=
  if connection_established result && negb (request_enqueued session) then
    match buildHttpGetRequest (host_header session) (session_target session) with
    | None => mret (session <| HttpClient.failed := true |>)
    | Some request =>
        sent ← on_tcp (fun t => makeOutgoingData t key request now);
        match send_error sent with
        | None =>
            for_each (send_segments sent) (sendTcpReply ip_packet eth_frame) ;;
            mret (session <| request_enqueued := true |>)
        | Some _ => mret (session <| HttpClient.failed := true |>)
        end
    end
  else mret session.

Definition handleHttpClient (key : TcpConnectionKey) (result : TcpReceiveResult) (ip_packet : Ipv4Packet)
    (eth_frame : EthernetFrame) (now : Z) : action unit :=
  sessions ← read http_client_sessions;
  match map_find sessions key with
  | None => done_
  | Some session =>
      session ← enqueueRequest key session result ip_packet eth_frame now;
      session ← guard_bounds (receiveResponse session (accepted_payload result) (peer_closed result));
      if (response_complete session || HttpClient.failed session) && negb (close_initiated session) then
        set_client key (session <| close_initiated := true |>) ;;
        close_result ← on_tcp (fun t => beginClose t key now);
        for_option (close_fin close_result) (sendTcpReply ip_packet eth_frame)
      else set_client key session
  end.

(** *** The HTTP server of a passive connection *)

Definition handleHttpServer (key : TcpConnectionKey) (result : TcpReceiveResult) (ip_packet : Ipv4Packet)
    (eth_frame : EthernetFrame) (now : Z) : action unit :=
  sessions ← read http_sessions;
  let session := default new_http_session (map_find sessions key) in
  served ← guard_bounds (serveHttp session (accepted_payload result) (peer_closed result));
  let '(session, response) := served in
  modify (fun s => s <| http_sessions := map_set (http_sessions s) key session |>) ;;
  for_option response (fun response =>
    sent ← on_tcp (fun t => makeOutgoingData t key (serializeHttpResponse response) now);
    match send_error sent with
    | None =>
        for_each (send_segments sent) (sendTcpReply ip_packet eth_frame) ;;
        close_result ← on_tcp (fun t => beginClose t key now);
        for_option (close_fin close_result) (sendTcpReply ip_packet eth_frame)
    | Some _ => done_
    end).

Definition eraseSessions (key : TcpConnectionKey) : action unit :=
  modify (fun s => s <| http_sessions := map_erase (http_sessions s) key |>
                     <| http_client_sessions := map_erase (http_client_sessions s) key |>).

(** What the application layer does with the result of a segment. *)
Definition dispatchResult (key : TcpConnectionKey) (result : TcpReceiveResult) (ip_packet : Ipv4Packet)
    (eth_frame : EthernetFrame) (now : Z) : action unit :=
  for_option (reply result) (sendTcpReply ip_packet eth_frame) ;;
  for_option (fast_retransmit result) (sendTcpReply ip_packet eth_frame) ;;
  for_each (scheduled result) (sendTcpReply ip_packet eth_frame) ;;
  open_key ← read active_open_key;
  when ((negb (empty (accepted_payload result)) || peer_closed result) && negb (bool_decide (Some key = open_key)))
    (handleHttpServer key result ip_packet eth_frame now) ;;
  handleHttpClient key result ip_packet eth_frame now ;;
  when (connection_reset result || connection_closed result) (eraseSessions key).

(** [generated] is what the generator of initial sequence numbers returns. *)
Definition handleTcp (ip_packet : Ipv4Packet) (eth_frame : EthernetFrame) (now : Z) (generated : option Z) : action unit :=
  parsed ← guard_bounds (parseTcpSegment (ip_payload ip_packet) (ip_source ip_packet) (ip_destination ip_packet));
  match parsed with
  | inr _ => done_
  | inl segment =>
      let key := mkKey local_ip (destination_port segment) (ip_source ip_packet) (Tcp.source_port segment) in
      table ← read tcp_connections;
      handled ← guard_bounds (handle table key segment now generated);
      let '(result, table) := handled in
      modify (fun s => s <| tcp_connections := table |>) ;;
      dispatchResult key result ip_packet eth_frame now
  end.

(** ** IPv4 input *)

(** [arp_now] is when the neighbour is recorded, [now] when TCP reads the
    clock. *)
Definition handleIpv4 (tcp_source_port : Z) (frame : EthernetFrame) (arp_now now : Z) (generated : option Z) : action unit :=
  parsed ← guard_bounds (parseIpv4Packet (eth_payload frame));
  match parsed with
  | inr _ => done_
  | inl packet =>
      if ttl packet =? 0 then done_ else
      if negb (ip_eqb (ip_destination packet) local_ip) then done_ else
      insertNeighbor (ip_source packet) (eth_source frame) arp_now ;;
      if protocol packet =? kProtocolIcmp then handleIcmp packet frame
      else if protocol packet =? kProtocolTcp then handleTcp packet frame now generated
      else if protocol packet =? kProtocolUdp then
        handleDnsClientUdp tcp_source_port packet ≫= fun consumed : bool =>
          if consumed then done_ else handleUdp packet frame
      else done_
  end.

(** ** A received frame *)

Definition receiveFrame (tcp_source_port : Z) (bytes : list Z) (arp_now now : Z) (generated : option Z) : action unit :=
  parsed ← guard_bounds (parseEthernetFrame bytes);
  match parsed with
  | inr _ => done_
  | inl frame =>
      if ether_type frame =? kEtherTypeArp then handleArp frame arp_now
      else if ether_type frame =? kEtherTypeIpv4 then handleIpv4 tcp_source_port frame arp_now now generated
      else done_
  end.

End Handlers.
