(* ===== verification/EventLoop.v ===== *)
(** * The event loop ([main] of src/src/main.cpp)

    The command line, the state the program starts with, how long the loop sleeps, and one
    iteration: a frame if one is readable, then the ARP, DNS, dial and TCP
    timers in the order of the source. *)

From Stdlib Require Import String Ascii.
From S2P Require Import Prelude StdMap Checksum Addresses Text ArpCache.
From S2P Require Import Ethernet Arp Ipv4 Icmp Udp Tcp.
From S2P Require Import Dns Http HttpClient RuntimeOptions.
From S2P Require Import TcpState TcpTable Stack.

Definition kEchoPort : Z := 9000.
Definition kTcpListenPort : Z := 8080.
Definition kDefaultMaxTcpConnections : Z := 1024.
Definition kDefaultMaxTcpHalfOpenConnections : Z := 256.

(** ** Start *)

(** The command line: what [main] runs with, unless it exits with an error.
    [argv] holds the program's name and arguments. *)
Definition startup (argv : list (list Z)) : option (Ipv4Address * MacAddress * RuntimeOptions) :=
  match argv with
  | _ :: _ :: ip :: mac :: rest =>
      local_ip ← Ipv4Address_parse ip;
      local_mac ← MacAddress_parse mac;
      match parseRuntimeOptions rest with
      | inr _ => None
      | inl options => Some (local_ip, local_mac, options)
      end
  | _ => None
  end.

(** The clock readings of one iteration, in the order they are taken; the
    clock does not run backwards but nothing below relies on it. *)
Record Clock := mkClock {
  c_receive_arp : Z;   (* [handleArp], [handleIpv4]: the neighbour is recorded *)
  c_receive_tcp : Z;   (* [handleTcp] *)
  c_arp : Z;           (* [arp_now] *)
  c_dns : Z;           (* the query, or its retry *)
  c_dns_lookup : Z;    (* the neighbour of a retry *)
  c_dial : Z;          (* the dial loop *)
  c_tcp : Z            (* retransmissions and persist probes *)
}.

Section Loop.
Context (local_ip : Ipv4Address) (local_mac : MacAddress) (options : RuntimeOptions).

(** [random] is what [std::random_device] returns. *)
Definition initialDnsState (random : Z) : option DnsRuntimeState :=
  match mode options with
  | HttpGet =>
      if destination_is_hostname options then
        let session := mkSession (dns_server_ip options) (dns_server_port options) kDnsClientSourcePort (opt_hostname options)
                         0 [] 0 None kDnsInitialInterval SessionPending None None in
        Some (mkDnsRuntime session (u16 random) false (RuntimeOptions.source_port options) (opt_remote_port options)
                (opt_hostname options ++ [ch ":"] ++ to_string (opt_remote_port options)))
      else None
  | _ => None
  end.

Definition initialDial : option Ipv4Address :=
  match mode options with
  | Passive => None
  | ActiveOpen => Some (opt_remote_ip options)
  | HttpGet => if destination_is_hostname options then None else Some (opt_remote_ip options)
  end.

Definition initialStack (random : Z) : Stack :=
  mkStack (ArpCache.new_cache ArpCache.kArpCacheCapacity ArpCache.kArpEntryLifetime)
    (snd (udp_bind [] kEchoPort (fun request => request)))
    (new_table kTcpListenPort kDefaultMaxTcpConnections kDefaultMaxTcpHalfOpenConnections) [] [] false
    (option_map (fun ip => mkKey local_ip (RuntimeOptions.source_port options) ip (opt_remote_port options)) initialDial)
    initialDial (initialDnsState random).

(** The first ARP request, before the loop. *)
Definition initialResolution (now : Z) : action unit :=
  dns ← read dns_state;
  dial ← read dial_target_ip;
  let initial_neighbor :=
    match dns with
    | Some state => Some (server_ip (dns_session state))
    | None => match mode options with Passive => None | _ => dial end
    end in
  for_option initial_neighbor (fun ip => resolveNeighbor local_ip local_mac ip now ;; done_).

(** ** How long the loop sleeps *)

Definition earlier (candidate deadline : option Z) : option Z :=
  match candidate with
  | Some c => match deadline with
              | None => Some c
              | Some d => if c <? d then Some c else deadline
              end
  | None => deadline
  end.

Definition loopDeadline (s : Stack) : option Z :=
  let deadline := nextRetransmissionDeadline (tcp_connections s) in
  let deadline := earlier (nextPersistDeadline (tcp_connections s)) deadline in
  let deadline := earlier (match dns_state s with Some d => s_next_deadline (dns_session d) | None => None end) deadline in
  earlier (ArpCache.nextDeadline (arp_cache s)) deadline.

(** Milliseconds for [poll]; -1 waits without limit. *)
Definition timeout_ms (deadline : option Z) (now : Z) : Z :=
  match deadline with
  | None => -1
  | Some d =>
      let remaining := if now <? d then (d - now) / 1000000 else 0 in
      Z.min remaining (2 ^ 31 - 1)
  end.

(** ** Timers *)

(** A neighbour that does not answer ends what waits for it. *)
Definition neighborFailed (ip : Ipv4Address) : action unit :=
  modify (fun s =>
    let s := match dns_state s with
             | Some d =>
                 if negb (query_started d) && ip_eqb (server_ip (dns_session d)) ip
                 then s <| dns_state := Some (d <| dns_session := ((dns_session d) <| s_state := SessionFailed |> <| s_next_deadline := None |>) |>) |>
                 else s
             | None => s
             end in
    if negb (active_open_started s) && bool_decide (dial_target_ip s = Some ip) then s <| active_open_started := true |> else s).

Definition arpTimers (arp_now : Z) : action unit :=
  due ← on_arp (fun c => ArpCache.poll c arp_now);
  for_each (ArpCache.requests due) (sendArpRequest local_ip local_mac) ;;
  for_each (ArpCache.failed due) neighborFailed.

Definition set_dns (d : DnsRuntimeState) : action unit := modify (fun s => s <| dns_state := Some d |>).

(** The first query, once the server's MAC address is known. *)
Definition startQuery (d : DnsRuntimeState) (now : Z) : action unit :=
  mac ← resolveNeighbor local_ip local_mac (server_ip (dns_session d)) now;
  for_option mac (fun mac =>
    let '(bytes, session) := beginDnsQuery (dns_session d) (mkDnsQuery (dns_transaction_id d) (s_hostname (dns_session d))) now in
    match bytes with
    | None => set_dns (d <| dns_session := session |>)
    | Some bytes =>
        set_dns (d <| dns_session := session |> <| query_started := true |>) ;;
        sendUdpPacket local_ip local_mac (server_ip session) mac (s_local_port session) (server_port session) bytes
    end).

Definition retryQuery (d : DnsRuntimeState) (now lookup_now : Z) : action unit :=
  let '(poll, session) := pollDnsTimeout (dns_session d) now in
  set_dns (d <| dns_session := session |>) ;;
  for_option (retransmit poll) (fun bytes =>
    mac ← on_arp (fun c => ArpCache.lookup c (server_ip session) lookup_now);
    for_option mac (fun mac =>
      sendUdpPacket local_ip local_mac (server_ip session) mac (s_local_port session) (server_port session) bytes)).

Definition dnsTimers (now lookup_now : Z) : action unit :=
  dns ← read dns_state;
  for_option dns (fun d =>
    match s_state (dns_session d) with
    | SessionPending => if query_started d then retryQuery d now lookup_now else startQuery d now
    | _ => done_
    end).

(** The session of an outbound request, when its connection is dialled. *)
Definition clientSession (dial_ip : Ipv4Address) (dns : option DnsRuntimeState) : HttpClientSession :=
  new_client_session dial_ip (opt_remote_port options)
    (if destination_is_hostname options then match dns with Some d => dns_host_header d | None => [] end
     else Ipv4Address_toString dial_ip ++ [ch ":"] ++ to_string (opt_remote_port options))
    (opt_target options).

(** [std::map::emplace]: an existing entry stays. *)
Definition emplace_client (key : TcpConnectionKey) (session : HttpClientSession) : action unit :=
  modify (fun s => if map_contains (http_client_sessions s) key then s
                   else s <| http_client_sessions := map_set (http_client_sessions s) key session |>).

(** The one attempt to connect, once the neighbour is known. *)
Definition connect (key : TcpConnectionKey) (dial_ip : Ipv4Address) (mac : MacAddress) (now : Z) (generated : option Z) : action unit :=
  connect_result ← on_tcp (fun t => beginConnect t key now generated);
  modify (fun s => s <| active_open_started := true |>) ;;
  if connect_accepted connect_result then
    for_option (connect_syn connect_result) (fun syn =>
      sendTcpSegment local_ip local_mac dial_ip mac syn ;;
      dns ← read dns_state;
      match mode options with
      | HttpGet => emplace_client key (clientSession dial_ip dns)
      | _ => done_
      end)
  else done_.

Definition dial (now : Z) (generated : option Z) : action unit :=
  started ← read active_open_started;
  target ← read dial_target_ip;
  match mode options, (started : bool), target with
  | Passive, _, _ | _, true, _ | _, _, None => done_
  | _, false, Some dial_ip =>
      mac ← resolveNeighbor local_ip local_mac dial_ip now;
      for_option mac (fun mac =>
        open_key ← read active_open_key;
        key ← guard_bounds open_key;
        connect key dial_ip mac now generated)
  end.

(** A segment a TCP timer sends, if its neighbour is known. *)
Definition sendTimed (now : Z) (p : TcpConnectionKey * TcpSegment) : action unit :=
  mac ← resolveNeighbor local_ip local_mac (TcpState.remote_ip (fst p)) now;
  for_option mac (fun mac => sendTcpSegment local_ip local_mac (TcpState.remote_ip (fst p)) mac (snd p)).

Definition tcpTimers (now : Z) : action unit :=
  due ← on_tcp (fun t => pollRetransmissions t now);
  for_each (retransmissions due) (sendTimed now) ;;
  probes ← on_tcp (fun t => pollPersistProbes t now);
  for_each probes (sendTimed now) ;;
  for_each (timed_out due) eraseSessions ;;
  for_each (time_wait_expired due) eraseSessions.

(** ** One iteration

    [frame] is what was readable, if anything; [isn1] and [isn2] are what the
    generator of initial sequence numbers returns for the frame and for the
    dial. *)
Definition iteration (frame : option (list Z)) (clock : Clock) (isn1 isn2 : option Z) : action unit :=
  for_option frame (fun bytes =>
    receiveFrame local_ip local_mac (RuntimeOptions.source_port options) bytes (c_receive_arp clock) (c_receive_tcp clock) isn1) ;;
  arpTimers (c_arp clock) ;;
  dnsTimers (c_dns clock) (c_dns_lookup clock) ;;
  dial (c_dial clock) isn2 ;;
  tcpTimers (c_tcp clock).

End Loop.
