(* ===== verification/StackSafety.v ===== *)
(** * The stack never reads outside its buffers

    The wire parsers are total, the handlers and the event loop keep the
    invariant of the stack, and so every iteration completes, whatever arrives,
    as long as TCP segments are not almost half the sequence space away. *)

From Stdlib Require Import String Ascii.
From S2P Require Import Prelude StdMap Checksum Addresses Text ArpCache.
From S2P Require Import Ethernet Arp Ipv4 Icmp Udp Tcp.
From S2P Require Import Dns Http HttpClient RuntimeOptions.
From S2P Require Import TcpState TcpHandler TcpTable TcpInvariant TcpProperties Stack EventLoop.

(** ** The parsers *)

#[local] Opaque internetChecksum udpChecksum tcpChecksum.

Lemma bytes_take n (l : list Z) : bytes_ok l -> bytes_ok (take n l).
Proof. apply Forall_take. Qed.

Lemma bytes_drop n (l : list Z) : bytes_ok l -> bytes_ok (drop n l).
Proof. apply Forall_drop. Qed.

#[export] Hint Resolve bytes_take bytes_drop : wire.

Ltac read_addresses :=
  repeat match goal with
  | |- context [readMacAddress ?d ?i] =>
      let m := fresh "m" in let E := fresh "E" in
      destruct (readMacAddress_Some d i) as [m E]; [unfold Zlen in *; simpl in *; lia | rewrite E; simpl]
  | |- context [readIpv4Address ?d ?i] =>
      let m := fresh "ip" in let E := fresh "E" in
      destruct (readIpv4Address_Some d i) as [m E]; [unfold Zlen in *; simpl in *; lia | rewrite E; simpl]
  end.

Lemma ethernet_total bytes : exists r, parseEthernetFrame bytes = Some r /\
  forall frame, r = inl frame -> bytes_ok bytes -> bytes_ok (eth_payload frame).
Proof.
  unfold parseEthernetFrame, kEthHeaderSize. destruct (Z.ltb_spec (Zlen bytes) 14); [by eexists|]. destruct (_ <? _); [by eexists|].
  read_addresses. read_ok. eexists. split; [reflexivity|]. intros frame [= <-] Hb. simpl. auto with wire.
Qed.

Lemma arp_total bytes : exists r, parseArpPacket bytes = Some r.
Proof.
  unfold parseArpPacket. destruct (Z.ltb_spec (Zlen bytes) 28); [by eexists|]. read_ok. destruct (negb _); [by eexists|].
  read_ok. destruct (negb _); [by eexists|]. read_ok. destruct (negb _); [by eexists|]. read_ok. destruct (negb _); [by eexists|].
  read_ok. destruct (_ && _); [by eexists|]. read_addresses. by eexists.
Qed.

Lemma ipv4_total bytes : exists r, parseIpv4Packet bytes = Some r /\
  forall packet, r = inl packet -> bytes_ok bytes -> bytes_ok (ip_payload packet).
Proof.
  unfold parseIpv4Packet, kIpHeaderSize. destruct (Z.ltb_spec (Zlen bytes) 20); [by eexists|]. read_ok.
  do 4 (match goal with |- context [if ?b then _ else _] => destruct b end; [by eexists|]). read_ok.
  destruct (_ || _); [by eexists|]. read_ok. destruct (_ || _); [by eexists|]. read_ok. read_addresses.
  eexists. split; [reflexivity|]. intros packet [= <-] Hb. simpl. auto with wire.
Qed.

Lemma icmp_total bytes : exists r, parseIcmpEcho bytes = Some r.
Proof.
  unfold parseIcmpEcho. destruct (Z.ltb_spec (Zlen bytes) 8); [by eexists|]. read_ok. destruct (_ && _); [by eexists|].
  read_ok. destruct (negb _); [by eexists|]. destruct (negb _); [by eexists|]. read_ok. by eexists.
Qed.

Lemma udp_total bytes source destination : exists r, parseUdpDatagram bytes source destination = Some r /\
  forall datagram, r = inl datagram -> bytes_ok bytes -> bytes_ok (udp_payload datagram).
Proof.
  unfold parseUdpDatagram. destruct (Z.ltb_spec (Zlen bytes) 8); [by eexists|]. read_ok. destruct (_ || _); [by eexists|].
  read_ok. destruct (_ && _); [by eexists|]. read_ok. eexists. split; [reflexivity|]. intros d [= <-] Hb. simpl. auto with wire.
Qed.

Lemma tcp_total bytes source destination : exists r, parseTcpSegment bytes source destination = Some r /\
  forall segment, r = inl segment -> bytes_ok bytes -> TcpHandler.segment_ok segment.
Proof.
  unfold parseTcpSegment, kMinHeaderSize. destruct (Z.ltb_spec (Zlen bytes) 20); [by eexists|].
  destruct (Z.ltb_spec kMaxTcpSegmentLength (Zlen bytes)) as [|Hlen]; [by eexists|]. destruct (lookup_in_range bytes 12) as [b Hb]; [lia|]. rewrite Hb. cbn [mbind option_bind].
  destruct (_ || _); [by eexists|]. destruct (negb _); [by eexists|]. read_ok. eexists. split; [reflexivity|].
  intros s [= <-] Hok. constructor; simpl; try done; try (eapply readBigEndian32_range; done); auto with wire.
  unfold kMaxTcpSegmentLength, Zlen in *. rewrite length_drop. lia.
Qed.

(** ** The bytes the applications send *)

Lemma bytes_app (a b : list Z) : bytes_ok (a ++ b) <-> bytes_ok a /\ bytes_ok b.
Proof. apply Forall_app. Qed.

Lemma str_bytes s : bytes_ok (str s).
Proof.
  induction s as [|c s IH]; simpl; constructor; [|done]. pose proof (N_ascii_bounded c). unfold is_u8. lia.
Qed.

Lemma CRLF_bytes : bytes_ok CRLF.
Proof. repeat constructor; unfold CR, LF; lia. Qed.

Lemma number_bytes v : 0 <= v < 10 ^ 20 -> bytes_ok (to_string v).
Proof.
  intros Hv. destruct (to_string_spec v Hv) as [H _]. eapply Forall_impl; [exact H|]. intros c Hc. apply is_digit_iff in Hc.
  unfold is_u8. lia.
Qed.

#[export] Hint Resolve str_bytes CRLF_bytes number_bytes : wire.
Ltac bytes_solve := repeat (apply bytes_app; split); auto with wire.

Lemma text_response_bytes status body allow : (Zlen (response_body (mkHttpResponse status kPlainTextContentType body allow)) <= kMaxHttpResponseBodyLength) ->
  bytes_ok body -> bytes_ok (serializeHttpResponse (mkHttpResponse status kPlainTextContentType body allow)).
Proof.
  intros Hl Hb. unfold serializeHttpResponse. cbn [response_status content_type response_body include_allow_get] in *. pose proof (Zlen_nonneg body). unfold kMaxHttpResponseBodyLength in Hl.
  assert (Hn : bytes_ok (to_string (Zlen body))) by (apply number_bytes; lia).
  assert (Hs : bytes_ok (statusLine status)) by (destruct status; apply str_bytes).
  unfold kPlainTextContentType. destruct allow; bytes_solve.
Qed.

Lemma LF_bytes s : bytes_ok (str s ++ [LF]).
Proof. apply bytes_app. split; [apply str_bytes|]. repeat constructor; unfold LF; lia. Qed.

Lemma select_bytes req : bytes_ok (serializeHttpResponse (selectResponse req)).
Proof.
  unfold selectResponse, makeOkResponse, makeNotFoundResponse. destruct (text_eqb _ _); [apply text_response_bytes; [by vm_compute | apply LF_bytes]|].
  destruct (text_eqb _ _); [|apply text_response_bytes; [by vm_compute | apply LF_bytes]].
  apply text_response_bytes; [cbn [response_body]; unfold Zlen; rewrite length_replicate; by vm_compute|].
  apply Forall_replicate. by vm_compute.
Qed.

Lemma request_bytes host target bytes : bytes_ok host -> bytes_ok target -> buildHttpGetRequest host target = Some bytes -> bytes_ok bytes.
Proof. intros Hh Ht. unfold buildHttpGetRequest. destruct (_ || _); [done|]. intros E. apply (inj Some) in E as <-. bytes_solve. Qed.

(** ** The applications on any session *)

Lemma serveHttp_ok session payload fin : Zlen (http_buffer session) <= kMaxHttpHeaderBlockLength ->
  exists session' response, serveHttp session payload fin = Some (session', response) /\
    Zlen (http_buffer session') <= kMaxHttpHeaderBlockLength /\
    forall r, response = Some r -> bytes_ok (serializeHttpResponse r).
Proof.
  intros Hb. unfold serveHttp. destruct (responded session); [by eexists _, _|].
  set (s1 := if empty payload then session else appendHttpBytes session payload).
  assert (H1 : Zlen (http_buffer s1) <= kMaxHttpHeaderBlockLength).
  { unfold s1. destruct (empty payload); [done|]. unfold appendHttpBytes.
    destruct (Z.leb_spec kMaxHttpHeaderBlockLength (Zlen (http_buffer session))); [done|]. simpl. rewrite Zlen_app. unfold Zlen at 2.
    rewrite length_take. lia. }
  clearbody s1. destruct (parseHttpRequest_total (http_buffer s1)) as [r ->]. cbn [mbind option_bind].
  eexists _, _. split; [reflexivity|]. split; [by destruct (has_value _)|].
  intros resp. destruct (req_status r); try (destruct fin); try (intros [= <-]; apply text_response_bytes; [by vm_compute | apply LF_bytes]); try done.
  all: destruct (req_request r); [|done]; intros [= <-]; apply select_bytes.
Qed.

(** What the stack relies on of an outbound session. *)
Definition client_ok (s : HttpClientSession) : Prop :=
  Zlen (response_buffer s) <= kCap /\ bytes_ok (host_header s) /\ bytes_ok (session_target s).

Lemma receiveResponse_ok s payload fin : client_ok s -> exists s', receiveResponse s payload fin = Some s' /\ client_ok s'.
Proof.
  intros (Hb & Hh & Ht).
  assert (E : exists s', receiveResponse s payload fin = Some s' /\ host_header s' = host_header s /\ session_target s' = session_target s).
  { unfold receiveResponse. destruct (response_complete s); [destruct (empty payload); by eexists|]. destruct (HttpClient.failed s); [by eexists|].
    set (s1 := if empty payload then s else appendHttpClientBytes s payload).
    assert (H1 : host_header s1 = host_header s /\ session_target s1 = session_target s).
    { unfold s1. destruct (empty payload); [done|]. unfold appendHttpClientBytes. destruct (response_overflowed s); [done|]. by destruct (_ <? _). }
    clearbody s1. set (s2 := if fin then _ else _). assert (H2 : host_header s2 = host_header s /\ session_target s2 = session_target s) by (unfold s2; by destruct fin).
    clearbody s2. destruct (response_overflowed s2); [by eexists|]. destruct (parseHttpResponse_total (response_buffer s2) (peer_fin_seen s2)) as (r & -> & _ & Hc).
    cbn [mbind option_bind]. destruct (resp_status r); try by eexists. destruct (resp_code r); [by eexists | by specialize (Hc eq_refl)]. }
  destruct E as (s' & E & E1 & E2). exists s'. split; [done|]. unfold client_ok. rewrite E1, E2. split; [|done]. by apply (receive_bounded _ _ _ _ Hb E).
Qed.

Lemma readIpv4_ok bytes offset a : bytes_ok bytes -> readIpv4Address bytes offset = Some a -> ip_ok a.
Proof.
  intros Hb. unfold readIpv4Address.
  destruct (bytes !! (offset + 0)%nat) eqn:E0; cbn [mbind option_bind]; [|done].
  destruct (bytes !! (offset + 1)%nat) eqn:E1; cbn [mbind option_bind]; [|done].
  destruct (bytes !! (offset + 2)%nat) eqn:E2; cbn [mbind option_bind]; [|done].
  destruct (bytes !! (offset + 3)%nat) eqn:E3; cbn [mbind option_bind]; [|done].
  intros [= <-]. repeat constructor; by eapply (bytes_ok_lookup bytes).
Qed.

Lemma handleDnsResponse_ok session ip sp dp bytes : bytes_ok bytes ->
  exists changed session', handleDnsResponse session ip sp dp bytes = Some (changed, session') /\
    (changed = true -> s_state session' = SessionResolved -> exists a, resolved_address session' = Some a /\ ip_ok a).
Proof.
  intros Hb. unfold handleDnsResponse. destruct (negb _); [by eexists _, _|]. destruct (_ || _); [by eexists _, _|].
  destruct (parseDnsResponse_sound bytes (transaction_id session) (s_hostname session) Hb) as ([o a] & -> & H). cbn [mbind option_bind fst snd].
  destruct o; eexists _, _; (split; [reflexivity|]); try done. intros _ _. simpl. destruct a as [a|]; [|done].
  destruct H as (_ & _ & offset & rr & _ & _ & _ & _ & _ & Ha). exists a. split; [done|]. by apply (readIpv4_ok _ _ _ Hb Ha).
Qed.

(** ** The invariant of the stack *)

Record stack_ok (s : Stack) : Prop := {
  so_arp : exists ops, arp_cache s = ArpCache.history ArpCache.kArpCacheCapacity ArpCache.kArpEntryLifetime ops;
  so_tcp : reachable kTcpListenPort kDefaultMaxTcpConnections kDefaultMaxTcpHalfOpenConnections (tcp_connections s);
  so_http : Forall (fun p => Zlen (http_buffer (snd p)) <= kMaxHttpHeaderBlockLength) (http_sessions s);
  so_client : Forall (fun p => client_ok (snd p)) (http_client_sessions s);
  so_dial : forall ip, dial_target_ip s = Some ip -> ip_ok ip /\ has_value (active_open_key s) = true;
  so_dns : forall d, dns_state s = Some d -> bytes_ok (dns_host_header d)
}.

(** An action that completes in state [s], keeping the invariant, with a
    result satisfying [P]. *)
Definition ensures {A} (P : A -> Prop) (m : action A) (s : Stack) : Prop :=
  exists a s' out, m s = Some (a, s', out) /\ stack_ok s' /\ P a.

Definition keeps (m : action unit) : Prop := forall s, stack_ok s -> ensures (fun _ => True) m s.

Lemma ensures_bind {A B} (P : A -> Prop) (Q : B -> Prop) (m : action A) (k : A -> action B) s :
  ensures P m s -> (forall a s', stack_ok s' -> P a -> ensures Q (k a) s') -> ensures Q (m ≫= k) s.
Proof.
  intros (a & s1 & o1 & E & Hs & Ha) Hk. destruct (Hk a s1 Hs Ha) as (b & s2 & o2 & E2 & Hs2 & Hb).
  exists b, s2, (o1 ++ o2). split; [|done]. unfold mbind, action_bind. by rewrite E, E2.
Qed.

Lemma ensures_then {B} (Q : B -> Prop) (m : action unit) (k : action B) s : stack_ok s ->
  keeps m -> (forall s', stack_ok s' -> ensures Q k s') -> ensures Q (m ;; k) s.
Proof. intros Hs Hm Hk. apply (ensures_bind (fun _ => True)); [by apply Hm|]. intros _ s' Hs' _. by apply Hk. Qed.

Lemma keeps_then m k : keeps m -> keeps k -> keeps (m ;; k).
Proof. intros Hm Hk s Hs. by apply ensures_then. Qed.

Lemma ensures_ret {A} (P : A -> Prop) a s : stack_ok s -> P a -> ensures P (mret a) s.
Proof. intros. by exists a, s, []. Qed.

Lemma ensures_guard {A} (P : A -> Prop) o a s : o = Some a -> stack_ok s -> P a -> ensures P (guard_bounds o) s.
Proof. intros -> Hs Ha. by exists a, s, []. Qed.

(** The value read is that of the current state. *)
Lemma ensures_read {A B} (f : Stack -> A) (Q : B -> Prop) (k : A -> action B) s :
  ensures Q (k (f s)) s -> ensures Q (read f ≫= k) s.
Proof. intros (b & s' & out & E & H). exists b, s', out. split; [|done]. unfold mbind, action_bind, read. by rewrite E. Qed.

Lemma ensures_modify {B} (f : Stack -> Stack) (Q : B -> Prop) (k : action B) s : ensures Q k (f s) -> ensures Q (modify f ;; k) s.
Proof. intros (b & s' & out & E & H). exists b, s', out. split; [|done]. unfold mbind, action_bind, modify. by rewrite E. Qed.

Lemma keeps_done : keeps done_.
Proof. intros s Hs. by apply ensures_ret. Qed.

Lemma keeps_write frame : keeps (write frame).
Proof. intros s Hs. by exists tt, s, [frame]. Qed.

Lemma keeps_modify f : (forall s, stack_ok s -> stack_ok (f s)) -> keeps (modify f).
Proof. intros H s Hs. exists tt, (f s), []. auto. Qed.

Lemma keeps_when b m : keeps m -> keeps (when b m).
Proof. intros H. destruct b; [done | apply keeps_done]. Qed.

Lemma keeps_for_option {A} (o : option A) body : (forall x, o = Some x -> keeps (body x)) -> keeps (for_option o body).
Proof. intros H. destruct o; [by apply H | apply keeps_done]. Qed.

Lemma keeps_for_each {A} (l : list A) body : (forall x, keeps (body x)) -> keeps (for_each l body).
Proof. intros H. induction l as [|x l IH]; simpl; [apply keeps_done | by apply keeps_then]. Qed.

Create HintDb stack discriminated.
#[export] Hint Resolve keeps_done keeps_write keeps_when keeps_then keeps_for_each : stack.
#[export] Hint Resolve keeps_for_option : stack.

(** ** The components as seen by the stack *)

(** The ARP cache changes by one of its operations. *)
Lemma stack_ok_arp s o : stack_ok s -> stack_ok (s <| arp_cache := ArpCache.exec (arp_cache s) o |>).
Proof.
  intros [[ops E] ? ? ? ? ?]. constructor; simpl; try done. exists (ops ++ [o]). unfold ArpCache.history. by rewrite foldl_app, E.
Qed.

Lemma ensures_arp {A} (f : ArpCache.ArpCache -> A * ArpCache.ArpCache) o s :
  (forall c, snd (f c) = ArpCache.exec c o) -> stack_ok s -> ensures (fun _ => True) (on_arp f) s.
Proof.
  intros Hf Hs. unfold ensures, on_arp. specialize (Hf (arp_cache s)). destruct (f (arp_cache s)) as [a c]. simpl in Hf. subst c.
  eexists _, _, _. split; [reflexivity|]. split; [by apply stack_ok_arp | done].
Qed.

(** The TCP table changes by one of its steps. *)
Lemma stack_ok_tcp s t : stack_ok s -> TcpInvariant.step (tcp_connections s) t -> stack_ok (s <| tcp_connections := t |>).
Proof. intros [? Ht ? ? ? ?] H. constructor; simpl; try done. by eapply reachable_step. Qed.

Lemma ensures_tcp {A} (f : TcpConnectionTable -> A * TcpConnectionTable) s :
  (forall t a t', f t = (a, t') -> TcpInvariant.step t t') -> stack_ok s -> ensures (fun _ => True) (on_tcp f) s.
Proof.
  intros Hf Hs. unfold ensures, on_tcp. destruct (f (tcp_connections s)) as [a t] eqn:E. eexists _, _, _.
  split; [reflexivity|]. split; [|done]. apply stack_ok_tcp; [done | by eapply Hf].
Qed.

Ltac stack_bind := apply (ensures_bind (fun _ => True)); [|intros ? ? ? _].

Section Safety.
Context (local_ip : Ipv4Address) (local_mac : MacAddress).

Lemma keeps_sendArpRequest ip : keeps (sendArpRequest local_ip local_mac ip).
Proof. apply keeps_write. Qed.

Lemma ensures_resolve ip now s : stack_ok s -> ensures (fun _ => True) (resolveNeighbor local_ip local_mac ip now) s.
Proof.
  intros Hs. unfold resolveNeighbor. stack_bind; [by apply (ensures_arp _ (ArpCache.Lookup ip now))|].
  destruct a; [by apply ensures_ret|]. stack_bind; [by apply (ensures_arp _ (ArpCache.Begin ip now))|].
  apply ensures_then; [done | apply keeps_when, keeps_sendArpRequest|]. intros. by apply ensures_ret.
Qed.

Lemma keeps_insertNeighbor ip m now : keeps (insertNeighbor ip m now).
Proof. apply keeps_modify. intros s. apply (stack_ok_arp s (ArpCache.Insert ip m now)). Qed.

Hint Resolve keeps_sendArpRequest keeps_insertNeighbor : stack.

Lemma keeps_handleArp frame now : keeps (handleArp local_ip local_mac frame now).
Proof.
  intros s Hs. unfold handleArp. destruct (arp_total (eth_payload frame)) as [r E]. stack_bind; [by eapply ensures_guard|].
  destruct a as [p|]; [|by apply keeps_done]. destruct (_ || _); [by apply keeps_done|]. destruct (arp_operation p).
  - destruct (maybeReply _ _ _); [|by apply keeps_done]. apply keeps_then; auto with stack.
  - unfold handleArpReply. destruct (_ || _); [by apply keeps_done|].
    stack_bind; [by apply (ensures_arp _ (ArpCache.Query (sender_ip p) now))|]. destruct (negb _); [by apply keeps_done | by apply keeps_insertNeighbor].
Qed.

Lemma keeps_sendIpv4 m p : keeps (sendIpv4 local_mac m p).
Proof. unfold sendIpv4. destruct (serializeIpv4Packet p); auto with stack. Qed.
Hint Resolve keeps_sendIpv4 : stack.

Lemma keeps_handleIcmp p frame : keeps (handleIcmp local_ip local_mac p frame).
Proof.
  intros s Hs. unfold handleIcmp. destruct (icmp_total (ip_payload p)) as [r E]. stack_bind; [by eapply ensures_guard|].
  destruct a as [m|]; [|by apply keeps_done]. destruct (icmp_type m); [by apply keeps_done | by apply keeps_sendIpv4].
Qed.

Lemma keeps_sendUdpPacket ip m lp rp bytes : keeps (sendUdpPacket local_ip local_mac ip m lp rp bytes).
Proof. unfold sendUdpPacket. destruct (serializeUdpDatagram _ _ _); auto with stack. Qed.

Lemma keeps_sendTcpSegment ip m seg : keeps (sendTcpSegment local_ip local_mac ip m seg).
Proof. unfold sendTcpSegment. destruct (serializeTcpSegment _ _ _); auto with stack. Qed.

Lemma keeps_sendTcpReply p frame seg : keeps (sendTcpReply local_ip local_mac p frame seg).
Proof. apply keeps_sendTcpSegment. Qed.
Hint Resolve keeps_sendUdpPacket keeps_sendTcpSegment keeps_sendTcpReply : stack.

Lemma keeps_handleUdp p frame : keeps (handleUdp local_ip local_mac p frame).
Proof.
  intros s Hs. unfold handleUdp. destruct (udp_total (ip_payload p) (ip_source p) (ip_destination p)) as (r & E & _).
  stack_bind; [by eapply ensures_guard|]. destruct a as [d|]; [|by apply keeps_done]. apply ensures_read.
  destruct (udp_deliver _ _ _); [|by apply keeps_done]. destruct (_ =? 0); [by apply keeps_done|].
  destruct (serializeUdpDatagram _ _ _); [by apply keeps_sendIpv4 | by apply keeps_done].
Qed.

Lemma ensures_handleDnsClientUdp port p s : stack_ok s -> bytes_ok (ip_payload p) ->
  ensures (fun _ => True) (handleDnsClientUdp local_ip port p) s.
Proof.
  intros Hs Hb. unfold handleDnsClientUdp. apply ensures_read. destruct (dns_state s) as [d|] eqn:Ed; [|by apply ensures_ret].
  destruct (udp_total (ip_payload p) (ip_source p) (ip_destination p)) as (r & E & Hr).
  apply (ensures_bind (fun x => x = r)); [by eapply ensures_guard|]. intros ? s1 Hs1 ->.
  destruct r as [g|]; [|by apply ensures_ret]. destruct (negb _); [by apply ensures_ret|].
  destruct (handleDnsResponse_ok (dns_session d) (ip_source p) (udp_source_port g) (udp_destination_port g) (udp_payload g) (Hr g eq_refl Hb))
    as (changed & session & Eh & Hres).
  apply (ensures_bind (fun x => x = (changed, session))); [by eapply ensures_guard|]. intros ? s2 Hs2 ->.
  apply ensures_then; [done | |].
  { apply keeps_modify. intros s3 [? ? ? ? ? _]. constructor; simpl; try done. intros d' [= <-]. simpl. by apply (so_dns _ Hs). }
  intros s3 Hs3. apply ensures_then; [done | | intros; by apply ensures_ret].
  destruct changed; [|apply keeps_done]. destruct (bool_decide_reflect (s_state session = SessionResolved)) as [Hst|]; [|apply keeps_done].
  destruct (Hres eq_refl Hst) as (ip & -> & Hip). cbn [andb when]. intros s4 Hs4.
  apply (ensures_bind (fun a => a = ip)); [by eapply ensures_guard|]. intros a s5 Hs5 ->. apply keeps_modify; [|done].
  intros s6 [? ? ? ? ? ?]. constructor; simpl; try done. by intros ? [= <-].
Qed.

Lemma keeps_eraseSessions key : keeps (eraseSessions key).
Proof. apply keeps_modify. intros s [? ? ? ? ? ?]. constructor; simpl; try done; by apply Forall_map_erase. Qed.

Lemma keeps_set_client key session : client_ok session -> keeps (set_client key session).
Proof. intros H. apply keeps_modify. intros s [? ? ? ? ? ?]. constructor; simpl; try done. by apply Forall_map_set. Qed.

Lemma ensures_send key bytes now s : stack_ok s -> bytes_ok bytes ->
  ensures (fun _ => True) (on_tcp (fun t => makeOutgoingData t key bytes now)) s.
Proof. intros Hs Hb. apply ensures_tcp; [|done]. intros t a t' E. by eapply step_send. Qed.

Lemma ensures_close key now s : stack_ok s -> ensures (fun _ => True) (on_tcp (fun t => beginClose t key now)) s.
Proof. intros Hs. apply ensures_tcp; [|done]. intros t a t' E. by eapply step_close. Qed.

(** Close the connection and send the FIN. *)
Lemma ensures_close_fin key now p frame s : stack_ok s ->
  ensures (fun _ => True) (close_result ← on_tcp (fun t => beginClose t key now);
    for_option (close_fin close_result) (sendTcpReply local_ip local_mac p frame)) s.
Proof. intros Hs. stack_bind; [by apply ensures_close|]. apply keeps_for_option; [|done]. auto with stack. Qed.

Lemma keeps_handleHttpServer key result p frame now : keeps (handleHttpServer local_ip local_mac key result p frame now).
Proof.
  intros s Hs. unfold handleHttpServer. apply ensures_read. set (session := default _ _).
  assert (Hb : Zlen (http_buffer session) <= kMaxHttpHeaderBlockLength).
  { unfold session. destruct (map_find (http_sessions s) key) eqn:E; [|by vm_compute]. apply (map_find_Forall _ _ _ _ (so_http _ Hs) E). }
  destruct (serveHttp_ok session (accepted_payload result) (peer_closed result) Hb) as (session' & response & E & Hb' & Hr).
  apply (ensures_bind (fun x => x = (session', response))); [by eapply ensures_guard|]. intros ? s1 Hs1 ->.
  apply ensures_then; [done | |].
  { apply keeps_modify. intros s2 [? ? ? ? ? ?]. constructor; simpl; try done. by apply Forall_map_set. }
  intros s2 Hs2. destruct response as [r|]; [|by apply keeps_done]. cbn [for_option]. stack_bind; [apply ensures_send; [done | by apply Hr]|].
  destruct (send_error a); [by apply keeps_done|]. apply ensures_then; [done | auto with stack|]. intros. by apply ensures_close_fin.
Qed.

Lemma ensures_enqueueRequest key session result p frame now s : stack_ok s -> client_ok session ->
  ensures client_ok (enqueueRequest local_ip local_mac key session result p frame now) s.
Proof.
  intros Hs (H1 & H2 & H3). unfold enqueueRequest. destruct (_ && _); [|by apply ensures_ret].
  destruct (buildHttpGetRequest _ _) as [bytes|] eqn:E; [|by apply ensures_ret].
  apply (ensures_bind (fun _ => True)); [apply ensures_send; [done | by apply (request_bytes _ _ _ H2 H3 E)]|]. intros r s1 Hs1 _.
  destruct (send_error r); [by apply ensures_ret|]. apply ensures_then; [done | auto with stack | intros; by apply ensures_ret].
Qed.

Lemma keeps_handleHttpClient key result p frame now : keeps (handleHttpClient local_ip local_mac key result p frame now).
Proof.
  intros s Hs. unfold handleHttpClient. apply ensures_read. destruct (map_find (http_client_sessions s) key) as [session|] eqn:E; [|by apply keeps_done].
  pose proof (map_find_Forall _ _ _ _ (so_client _ Hs) E) as Hc. simpl in Hc.
  apply (ensures_bind client_ok); [by apply ensures_enqueueRequest|]. intros s1 st1 Hst1 Hc1.
  destruct (receiveResponse_ok s1 (accepted_payload result) (peer_closed result) Hc1) as (s2 & E2 & Hc2).
  apply (ensures_bind client_ok); [by eapply ensures_guard|]. intros s3 st3 Hst3 Hc3.
  destruct (_ && _); [|by apply keeps_set_client]. apply ensures_then; [done | by apply keeps_set_client|]. intros. by apply ensures_close_fin.
Qed.

Lemma keeps_dispatchResult key result p frame now : keeps (dispatchResult local_ip local_mac key result p frame now).
Proof.
  intros s Hs. unfold dispatchResult. do 3 (apply ensures_then; [done | auto with stack|]; clear s Hs; intros s Hs). apply ensures_read.
  apply keeps_then; [apply keeps_when, keeps_handleHttpServer | | done].
  apply keeps_then; [apply keeps_handleHttpClient | apply keeps_when, keeps_eraseSessions].
Qed.

(** A TCP segment that is not almost half the sequence space away. *)
Definition plausible_packet (s : Stack) (p : Ipv4Packet) : Prop :=
  forall segment c, parseTcpSegment (ip_payload p) (ip_source p) (ip_destination p) = Some (inl segment) ->
    map_find (connections (tcp_connections s)) (mkKey local_ip (destination_port segment) (ip_source p) (Tcp.source_port segment)) = Some c ->
    half_open c = false -> plausible c segment.

Definition plausible_input (s : Stack) (bytes : list Z) : Prop :=
  forall frame p, parseEthernetFrame bytes = Some (inl frame) -> parseIpv4Packet (eth_payload frame) = Some (inl p) -> plausible_packet s p.

Lemma ensures_handleTcp p frame now g s : stack_ok s -> bytes_ok (ip_payload p) -> isn_ok g -> plausible_packet s p ->
  ensures (fun _ => True) (handleTcp local_ip local_mac p frame now g) s.
Proof.
  intros Hs Hb Hg Hp. unfold handleTcp. destruct (tcp_total (ip_payload p) (ip_source p) (ip_destination p)) as (r & E & Hr).
  unfold plausible_packet in Hp. rewrite E in *.
  destruct r as [seg|]; [|exists tt, s, []; by split]. specialize (Hr seg eq_refl Hb).
  set (key := mkKey local_ip (destination_port seg) (ip_source p) (Tcp.source_port seg)) in *.
  destruct (handle_ok (tcp_connections s) key seg now g (reachable_ok _ _ _ _ (so_tcp _ Hs)) Hg Hr) as (result & t & Eh & _).
  { intros c Hf Hh. by apply (Hp seg). }
  assert (Hs' : stack_ok (s <| tcp_connections := t |>)).
  { apply stack_ok_tcp; [done|]. eapply step_segment; [done | done | | exact Eh]. intros c Hf Hh. by apply (Hp seg). }
  destruct (keeps_dispatchResult key result p frame now _ Hs') as (u & s' & out & Ed & H).
  exists u, s', out. split; [|done]. unfold mbind, action_bind, guard_bounds, read, modify. fold key. by rewrite Eh, Ed.
Qed.

Lemma ensures_receiveFrame port bytes arp_now now g s : stack_ok s -> bytes_ok bytes -> isn_ok g -> plausible_input s bytes ->
  ensures (fun _ => True) (receiveFrame local_ip local_mac port bytes arp_now now g) s.
Proof.
  intros Hs Hb Hg Hp. unfold receiveFrame. destruct (ethernet_total bytes) as (r & E & Hr).
  destruct r as [frame|]; [|rewrite E; exists tt, s, []; by split]. specialize (Hr frame eq_refl Hb). specialize (Hp frame).
  destruct (ipv4_total (eth_payload frame)) as (r & E4 & Hr4).
  assert (H : ensures (fun _ => True) (handleIpv4 local_ip local_mac port frame arp_now now g) s).
  { unfold handleIpv4. destruct r as [p|]; [|rewrite E4; exists tt, s, []; by split]. specialize (Hr4 p eq_refl Hr). specialize (Hp p E E4).
    rewrite E4. apply (ensures_read (fun _ => inl p)). destruct (ttl p =? 0); [by apply keeps_done|]. destruct (negb _); [by apply keeps_done|].
    apply ensures_modify. set (s1 := s <| arp_cache := _ |>).
    assert (Hs1 : stack_ok s1) by (apply (stack_ok_arp s (ArpCache.Insert (ip_source p) (eth_source frame) arp_now) Hs)).
    destruct (_ =? kProtocolIcmp); [by apply keeps_handleIcmp|]. destruct (_ =? kProtocolTcp); [by apply ensures_handleTcp|].
    destruct (_ =? kProtocolUdp); [|by apply keeps_done].
    apply (ensures_bind (fun _ => True)); [by apply ensures_handleDnsClientUdp|]. intros consumed s2 Hs2 _.
    destruct consumed; [by apply keeps_done | by apply keeps_handleUdp]. }
  rewrite E. apply (ensures_read (fun _ => inl frame)). destruct (_ =? kEtherTypeArp); [by apply keeps_handleArp|].
  destruct (_ =? kEtherTypeIpv4); [done | by apply keeps_done].
Qed.

End Safety.

(** ** The event loop *)

Section LoopSafety.
Context (local_ip : Ipv4Address) (local_mac : MacAddress) (options : RuntimeOptions).
Context (Hvalid : valid_options options) (Htarget : bytes_ok (opt_target options)) (Hhostname : bytes_ok (opt_hostname options)).

Hint Resolve keeps_sendArpRequest keeps_sendUdpPacket keeps_sendTcpSegment keeps_eraseSessions : stack.

Lemma keeps_neighborFailed ip : keeps (neighborFailed ip).
Proof.
  apply keeps_modify. intros s Hs. cbv zeta.
  assert (H : forall s, stack_ok s -> stack_ok (if negb (active_open_started s) && bool_decide (dial_target_ip s = Some ip) then s <| active_open_started := true |> else s)).
  { intros s0 [? ? ? ? ? ?]. destruct (_ && _); constructor; done. }
  apply H. destruct (dns_state s) as [d|] eqn:Ed; [|done]. destruct (_ && _); [|done].
  destruct Hs as [? ? ? ? ? Hd]. constructor; simpl; try done. intros d' [= <-]. simpl. by apply Hd.
Qed.

Lemma keeps_arpTimers now : keeps (arpTimers local_ip local_mac now).
Proof.
  intros s Hs. unfold arpTimers. stack_bind; [by apply (ensures_arp _ (ArpCache.Poll now))|].
  apply keeps_then; [auto with stack | apply keeps_for_each, keeps_neighborFailed | done].
Qed.

Lemma keeps_set_dns d : bytes_ok (dns_host_header d) -> keeps (set_dns d).
Proof. intros Hd. apply keeps_modify. intros s [? ? ? ? ? ?]. constructor; simpl; try done. by intros ? [= <-]. Qed.

Lemma keeps_dnsTimers now lookup_now : keeps (dnsTimers local_ip local_mac now lookup_now).
Proof.
  intros s Hs. unfold dnsTimers. apply ensures_read. destruct (dns_state s) as [d|] eqn:Ed; [|by apply keeps_done].
  pose proof (so_dns _ Hs d Ed) as Hd. cbn [for_option]. destruct (s_state (dns_session d)); try by apply keeps_done. destruct (query_started d).
  - unfold retryQuery. destruct (pollDnsTimeout (dns_session d) now) as [r session]. apply keeps_then; [by apply keeps_set_dns | | done].
    apply keeps_for_option. intros bytes _ s1 Hs1. stack_bind; [by apply (ensures_arp _ (ArpCache.Lookup (server_ip session) lookup_now))|].
    apply keeps_for_option; [|done]. auto with stack.
  - unfold startQuery. stack_bind; [by apply ensures_resolve|]. apply keeps_for_option; [|done]. intros mac _.
    destruct (beginDnsQuery _ _ _) as [[bytes|] session]; [|by apply keeps_set_dns]. apply keeps_then; [by apply keeps_set_dns | auto with stack].
Qed.

(** Resolving a neighbour leaves the dial state alone. *)
Lemma resolve_frame ip now s a s' out : resolveNeighbor local_ip local_mac ip now s = Some (a, s', out) ->
  dial_target_ip s' = dial_target_ip s /\ active_open_key s' = active_open_key s.
Proof.
  unfold resolveNeighbor, mbind, action_bind, on_arp. destruct (ArpCache.lookup _ _ _) as [[mac|] c1]; [by intros [= <- <- <-]|].
  simpl. destruct (ArpCache.beginResolution _ _ _) as [[] c2]; simpl; by intros [= <- <- <-].
Qed.

Lemma valid_port : mode options <> Passive -> is_port (opt_remote_port options).
Proof.
  unfold valid_options in Hvalid. destruct (mode options); [done| |]; intros _.
  - by destruct Hvalid as (ip & rp & sp & _ & H & _ & ->).
  - by destruct Hvalid as (rp & sp & t & H & _ & _ & [(ip & _ & ->)|(h & dip & dp & _ & _ & _ & _ & ->)]).
Qed.

Lemma authority_bytes host : mode options <> Passive -> bytes_ok host -> bytes_ok (host ++ [ch ":"] ++ to_string (opt_remote_port options)).
Proof.
  intros Hm Hh. pose proof (valid_port Hm) as Hp. unfold is_port in Hp. repeat (apply bytes_app; split); [done | by repeat constructor|].
  apply number_bytes. lia.
Qed.

Lemma ipv4_text_bytes ip : ip_ok ip -> bytes_ok (Ipv4Address_toString ip).
Proof.
  intros H. apply join_Forall; [by vm_compute|]. apply List.Forall_map. eapply Forall_impl; [exact H|]. intros v Hv.
  apply number_bytes. unfold is_u8 in Hv. lia.
Qed.

Lemma clientSession_ok ip dns : mode options <> Passive -> ip_ok ip -> (forall d, dns = Some d -> bytes_ok (dns_host_header d)) ->
  client_ok (clientSession options ip dns).
Proof.
  intros Hm Hip Hd. split; [by vm_compute|]. split; [|done]. unfold clientSession, new_client_session. cbn [host_header].
  destruct (destination_is_hostname options); [|by apply authority_bytes, ipv4_text_bytes].
  destruct dns as [d|]; [by apply Hd | constructor].
Qed.

Lemma keeps_emplace key session : client_ok session -> keeps (emplace_client key session).
Proof.
  intros H. apply keeps_modify. intros s Hs. destruct (map_contains _ _); [done|]. destruct Hs. constructor; simpl; try done. by apply Forall_map_set.
Qed.

Lemma keeps_connect key ip mac now g : mode options <> Passive -> ip_ok ip -> isn_ok g ->
  keeps (connect local_ip local_mac options key ip mac now g).
Proof.
  intros Hm Hip Hg s Hs. unfold connect. stack_bind.
  { apply ensures_tcp; [|done]. intros t a t' E. by eapply step_connect. }
  apply keeps_then; [apply keeps_modify; intros s1 [? ? ? ? ? ?]; by constructor | | done].
  destruct (connect_accepted a); [|apply keeps_done]. apply keeps_for_option. intros syn _. apply keeps_then; [auto with stack|].
  intros s2 Hs2. apply ensures_read. destruct (mode options) eqn:Em; try by apply keeps_done. apply keeps_emplace; [|done].
  apply clientSession_ok; [congruence | done | by apply so_dns].
Qed.

Lemma keeps_dial now g : isn_ok g -> keeps (dial local_ip local_mac options now g).
Proof.
  intros Hg s Hs. unfold dial. do 2 apply ensures_read.
  assert (H : mode options <> Passive -> forall ip, dial_target_ip s = Some ip -> ensures (fun _ => True)
    (mac ← resolveNeighbor local_ip local_mac ip now;
     for_option mac (fun mac => open_key ← read active_open_key; key ← guard_bounds open_key; connect local_ip local_mac options key ip mac now g)) s).
  { intros Hm ip Eip. destruct (so_dial _ Hs ip Eip) as [Hip Hkey].
    destruct (ensures_resolve local_ip local_mac ip now s Hs) as (mac & s1 & out & E & Hs1 & _). destruct (resolve_frame _ _ _ _ _ _ E) as [_ Ek].
    destruct (active_open_key s) as [key|]; [|done]. destruct mac as [mac|].
    - destruct (keeps_connect key ip mac now g Hm Hip Hg s1 Hs1) as (u & s2 & out2 & E2 & H2). exists u, s2, (out ++ out2). split; [|done].
      unfold mbind, action_bind, for_option, read, guard_bounds. by rewrite E, Ek, E2.
    - exists tt, s1, (out ++ []). split; [|done]. unfold mbind, action_bind. by rewrite E. }
  destruct (mode options) eqn:Em, (active_open_started s), (dial_target_ip s) as [ip|]; try (by apply keeps_done); by apply H.
Qed.

Lemma keeps_sendTimed now p : keeps (sendTimed local_ip local_mac now p).
Proof. intros s Hs. unfold sendTimed. stack_bind; [by apply ensures_resolve|]. apply keeps_for_option; [|done]. auto with stack. Qed.
Hint Resolve keeps_sendTimed : stack.

Lemma keeps_tcpTimers now : keeps (tcpTimers local_ip local_mac now).
Proof.
  intros s Hs. unfold tcpTimers. stack_bind; [apply ensures_tcp; [intros t x t' E; by eapply step_retransmissions | done]|].
  apply ensures_then; [done | auto with stack|]. intros s1 Hs1.
  stack_bind; [apply ensures_tcp; [intros t x t' E; by eapply step_persist | done]|].
  repeat (apply keeps_then; [auto with stack | | try done]). auto with stack.
Qed.

Lemma ensures_iteration frame clock g1 g2 s : stack_ok s -> isn_ok g1 -> isn_ok g2 ->
  (forall bytes, frame = Some bytes -> bytes_ok bytes /\ plausible_input local_ip s bytes) ->
  ensures (fun _ => True) (iteration local_ip local_mac options frame clock g1 g2) s.
Proof.
  intros Hs H1 H2 Hf. unfold iteration. stack_bind.
  { destruct frame as [bytes|]; [|by apply keeps_done]. destruct (Hf bytes eq_refl). by apply ensures_receiveFrame. }
  repeat (apply keeps_then; [| | done]); auto using keeps_arpTimers, keeps_dnsTimers, keeps_dial, keeps_tcpTimers.
  apply keeps_then; [apply keeps_dnsTimers|]. apply keeps_then; [by apply keeps_dial | apply keeps_tcpTimers].
Qed.

Lemma initial_ok random : stack_ok (initialStack local_ip options random).
Proof.
  constructor; simpl; try done.
  - by exists [].
  - apply reachable_init.
  - unfold initialDial. intros ip. unfold valid_options in Hvalid. destruct (mode options) eqn:Em; [done| |].
    + destruct Hvalid as (ip0 & rp & sp & Hip & _ & _ & ->). by intros [= <-].
    + destruct Hvalid as (rp & sp & t & _ & _ & _ & [(ip0 & Hip & ->)|(h & dip & dp & _ & _ & _ & _ & ->)]); [by intros [= <-] | done].
  - intros d. unfold initialDnsState. destruct (mode options) eqn:Em; [done..|]. destruct (destination_is_hostname options); [|done].
    intros E. apply (inj Some) in E as <-. cbn [dns_host_header]. apply authority_bytes; [congruence | done].
Qed.

Lemma keeps_initialResolution now : keeps (initialResolution local_ip local_mac options now).
Proof.
  intros s Hs. unfold initialResolution. do 2 apply ensures_read. apply keeps_for_option; [|done]. intros ip _ s1 Hs1.
  stack_bind; [by apply ensures_resolve | by apply keeps_done].
Qed.
End LoopSafety.

(** ** The running program *)

(** What an iteration may be given: a frame of bytes whose TCP segment, if it
    holds one for a synchronized connection, is plausible, and 32-bit initial
    sequence numbers. *)
Record input_ok (local_ip : Ipv4Address) (s : Stack) (frame : option (list Z)) (isn1 isn2 : option Z) : Prop := {
  in_frame : forall bytes, frame = Some bytes -> bytes_ok bytes /\ plausible_input local_ip s bytes;
  in_isn1 : isn_ok isn1;
  in_isn2 : isn_ok isn2
}.

Inductive running (local_ip : Ipv4Address) (local_mac : MacAddress) (options : RuntimeOptions) : Stack -> Prop :=
| running_start random now s out :
    initialResolution local_ip local_mac options now (initialStack local_ip options random) = Some (tt, s, out) ->
    running local_ip local_mac options s
| running_iteration s frame clock isn1 isn2 s' out :
    running local_ip local_mac options s -> input_ok local_ip s frame isn1 isn2 ->
    iteration local_ip local_mac options frame clock isn1 isn2 s = Some (tt, s', out) ->
    running local_ip local_mac options s'.

(** The configuration comes from a command line that was accepted. *)
Definition configured (options : RuntimeOptions) : Prop :=
  valid_options options /\ bytes_ok (opt_target options) /\ bytes_ok (opt_hostname options).

Lemma running_ok local_ip local_mac options s : configured options -> running local_ip local_mac options s -> stack_ok s.
Proof.
  intros (H1 & H2 & H3). induction 1 as [random now s out E|s frame clock i1 i2 s' out _ IH [Hf Hi1 Hi2] E].
  - destruct (keeps_initialResolution local_ip local_mac options now _ (initial_ok local_ip options H1 H2 H3 random)) as (u & s' & o & E' & Hs & _).
    rewrite E in E'. by injection E' as _ -> _.
  - destruct (ensures_iteration local_ip local_mac options H1 H2 H3 frame clock i1 i2 s IH Hi1 Hi2 Hf) as (u & s2 & o & E' & Hs & _).
    rewrite E in E'. by injection E' as _ -> _.
Qed.

(** *** The configuration comes from the command line *)

Definition args_bytes (a : OptionArgs) : Prop :=
  forall v, v ∈ [active_open_arg a; http_get_arg a; source_port_arg a; target_arg a; dns_server_arg a] -> bytes_ok (default [] v).

Lemma setArgument_bytes arg a set v : setArgument arg a = Some (Some set) -> args_bytes a -> bytes_ok v -> args_bytes (set v).
Proof.
  unfold setArgument, args_bytes. cbv beta zeta. intros E Ha Hv w.
  repeat (destruct (text_eqb arg _); [apply (inj Some) in E; destruct (has_value _); [discriminate E|]; injection E as <-;
    cbn [active_open_arg http_get_arg source_port_arg target_arg dns_server_arg]; rewrite !elem_of_cons; intros Hw; destruct_or! Hw; subst;
    first [exact Hv | by apply elem_of_nil in Hw | apply Ha; rewrite !elem_of_cons; tauto]|]).
  done.
Qed.

Lemma argumentLoop_bytes argv a a' : Forall bytes_ok argv -> args_bytes a -> argumentLoop argv a = inl a' -> args_bytes a'.
Proof.
  revert a. induction argv as [|arg|arg v argv IH] using list_pair_ind; intros a Hv Ha; cbn [argumentLoop].
  - by intros [= <-].
  - by destruct (setArgument arg a) as [[set|]|].
  - destruct (setArgument arg a) as [[set|]|] eqn:E; [|done|done]. rewrite !Forall_cons in Hv. destruct Hv as (_ & Hv & Hvs).
    apply IH; [done|]. by eapply setArgument_bytes.
Qed.

Lemma toLower_bytes s : bytes_ok s -> bytes_ok (toLower s).
Proof.
  intros H. apply List.Forall_map. eapply Forall_impl; [exact H|]. intros c Hc. unfold tolower, is_upper. destruct (_ && _) eqn:E; [bprop|]; ulia.
Qed.

Lemma parse_bytes argv o : Forall bytes_ok argv -> parseRuntimeOptions argv = inl o -> bytes_ok (opt_target o) /\ bytes_ok (opt_hostname o).
Proof.
  intros Hv. unfold parseRuntimeOptions. destruct (argumentLoop argv noArguments) as [a|] eqn:El; [|done].
  apply argumentLoop_bytes in El; [|done|]; [|intros v; rewrite !elem_of_cons; intros H; destruct_or! H; subst; try constructor; by apply elem_of_nil in H].
  destruct (checkCombination a); [done|].
  assert (Hact : forall d s, bytes_ok d -> activeOptions a d s = inl o -> bytes_ok (opt_target o) /\ bytes_ok (opt_hostname o)).
  { intros d s Hd. unfold activeOptions. destruct (rfind_char _ d) as [n|]; [|done]. destruct (parseStrictPort _); [|done].
    destruct (parseStrictPort s); [|done]. destruct (has_value _).
    - destruct (Ipv4Address_parse _); [|done]. intros [= <-]. split; constructor.
    - assert (Ht : bytes_ok (default [] (target_arg a))) by (apply El; rewrite !elem_of_cons; tauto).
      destruct (validateHttpClientTarget _); [done|]. destruct (Ipv4Address_parse _).
      + destruct (has_value _); [done|]. intros [= <-]. split; [done | constructor].
      + intros H. apply hostnameOptions_sound in H as (h & ip & port & Hh & _ & _ & ->). split; [done|].
        apply normalizeHostname_lower in Hh as [-> _]. apply toLower_bytes. auto with wire. }
  assert (H1 : bytes_ok (default [] (active_open_arg a))) by (apply El; rewrite !elem_of_cons; tauto).
  assert (H2 : bytes_ok (default [] (http_get_arg a))) by (apply El; rewrite !elem_of_cons; tauto).
  destruct (active_open_arg a) as [x|], (http_get_arg a) as [y|]; try (destruct (source_port_arg a) as [src|]; [|done]; destruct (_ && _); [done|]; by apply Hact).
  destruct (has_value (source_port_arg a)); [done|]. destruct (has_value (dns_server_arg a)); [done|]. intros [= <-]. split; constructor.
Qed.

Lemma startup_configured argv ip mac options : Forall bytes_ok argv -> startup argv = Some (ip, mac, options) -> configured options.
Proof.
  destruct argv as [|? [|? [|ip' [|mac' rest]]]]; try done. rewrite !Forall_cons. intros (_ & _ & _ & _ & Hv). simpl.
  destruct (Ipv4Address_parse ip') as [ip1|]; [|done]. destruct (MacAddress_parse mac') as [mac1|]; [|done]. simpl.
  destruct (parseRuntimeOptions rest) as [o|] eqn:E; [|done]. intros [= -> -> ->].
  split; [by destruct (parse_sound _ _ E) as [[_ ->]|(_ & H & _)] | by eapply parse_bytes].
Qed.

Lemma startup_local_ip argv ip mac options : startup argv = Some (ip, mac, options) -> ip_ok ip.
Proof.
  destruct argv as [|? [|? [|ip' [|mac' rest]]]]; try done. simpl.
  destruct (Ipv4Address_parse ip') as [ip1|] eqn:E; [|done]. destruct (MacAddress_parse mac') as [mac1|]; [|done]. simpl.
  destruct (parseRuntimeOptions rest); [|done]. intros [= -> _ _]. by apply Ipv4Address_parse_iff in E as [H _].
Qed.


Module SampleStack.
Definition ip : Ipv4Address := Ipv4 10 0 0 2.
Definition mac : MacAddress := Mac 2 0 0 0 0 2.
(** [wirestack tap0 10.0.0.2 02:00:00:00:00:02] *)
Definition argv : list (list Z) := [str "wirestack"; str "tap0"; str "10.0.0.2"; str "02:00:00:00:00:02"].
Definition clock : Clock := mkClock 1 1 1 1 1 1 1.
(** A host asks who has our address. *)
Definition who_has : list Z :=
  serializeEthernetFrame (mkEthernetFrame kBroadcast (Mac 2 0 0 0 0 1) kEtherTypeArp
    (serializeArpPacket (makeArpRequest (Ipv4 10 0 0 1) (Mac 2 0 0 0 0 1) ip))).
(** The stack, new, asks for that host's hardware address. *)
Definition who_is : list Z :=
  serializeEthernetFrame (mkEthernetFrame kBroadcast mac kEtherTypeArp (serializeArpPacket (makeArpRequest ip mac (Ipv4 10 0 0 1)))).
Definition asking : Stack :=
  (initialStack ip defaultOptions 0) <| arp_cache := snd (ArpCache.beginResolution (arp_cache (initialStack ip defaultOptions 0)) (Ipv4 10 0 0 1) 1) |>.
End SampleStack.

