(* ===== verification/StackServices.v ===== *)
(** * What the stack answers

    The services of the receive path end to end: ARP requests, pings and UDP
    datagrams for a bound port, from the bytes of the received frame to the
    bytes of the frame that is sent; and runs of two stacks on one wire. *)

From Stdlib Require Import String Ascii.
From S2P Require Import Prelude StdMap Checksum Addresses Text ArpCache.
From S2P Require Import Ethernet Arp Ipv4 Icmp Udp Tcp.
From S2P Require Import Dns Http HttpClient RuntimeOptions.
From S2P Require Import TcpState TcpTable TcpInvariant Stack EventLoop StackSafety.

#[local] Opaque internetChecksum udpChecksum tcpChecksum.

(** ** What the parsers guarantee of their results *)

Lemma ethernet_parsed bytes frame : parseEthernetFrame bytes = Some (inl frame) -> Zlen (eth_payload frame) <= 65521.
Proof.
  unfold parseEthernetFrame, kEthHeaderSize. destruct (Z.ltb_spec (Zlen bytes) 14); [done|].
  destruct (Z.ltb_spec kMaxEthernetFrameLength (Zlen bytes)); [done|]. unfold kMaxEthernetFrameLength in *. read_addresses. read_ok.
  intros [= <-]. simpl. unfold Zlen in *. rewrite length_drop. lia.
Qed.

Lemma ipv4_parsed bytes p : bytes_ok bytes -> parseIpv4Packet bytes = Some (inl p) ->
  ip_ok (ip_source p) /\ bytes_ok (ip_payload p) /\ is_u8 (protocol p) /\ Zlen (ip_payload p) + 20 <= Zlen bytes.
Proof.
  intros Hb. unfold parseIpv4Packet, kIpHeaderSize. destruct (Z.ltb_spec (Zlen bytes) 20); [done|]. read_ok.
  do 4 (match goal with |- context [if ?b then _ else _] => destruct b end; [done|]). read_ok.
  destruct (_ || _) eqn:El; [done|]. bprop. read_ok. destruct (_ || _); [done|]. read_ok. read_addresses.
  intros [= <-]. simpl. split_and!; [by eapply readIpv4_ok | auto with wire | by eapply bytes_ok_lookup|].
  unfold Zlen in *. rewrite length_take, length_drop. lia.
Qed.

Lemma icmp_parsed bytes m : bytes_ok bytes -> Zlen bytes <= 65515 -> parseIcmpEcho bytes = Some (inl m) -> icmp_ok m /\ Zlen (icmp_payload m) + 8 = Zlen bytes.
Proof.
  intros Hb Hl. unfold parseIcmpEcho. destruct (Z.ltb_spec (Zlen bytes) 8); [done|]. read_ok. destruct (_ && _); [done|].
  read_ok. destruct (negb _); [done|]. destruct (negb _); [done|]. read_ok. intros [= <-].
  unfold icmp_ok. simpl. unfold Zlen in *. rewrite length_drop. split_and!; auto with wire; lia.
Qed.

Lemma udp_parsed bytes source destination d : bytes_ok bytes -> parseUdpDatagram bytes source destination = Some (inl d) -> udp_ok d.
Proof.
  intros Hb. unfold parseUdpDatagram. destruct (Z.ltb_spec (Zlen bytes) 8); [done|]. read_ok. destruct (_ || _); [done|].
  read_ok. destruct (_ && _); [done|]. read_ok. intros [= <-]. unfold udp_ok. simpl. split_and!; auto with wire.
Qed.

Lemma udp_serialized_length d s t bytes : serializeUdpDatagram d s t = inl bytes -> Zlen bytes = 8 + Zlen (udp_payload d).
Proof.
  intros E. destruct d as [sp dp payload]. unfold serializeUdpDatagram in E. destruct (_ <? _); [done|]. injection E as <-.
  cbn [app writeBigEndian16 udp_source_port udp_destination_port udp_payload] in *. simpl. rewrite !Zlen_cons. lia.
Qed.

(** ** Sending *)

Section Services.
Context (local_ip : Ipv4Address) (local_mac : MacAddress) (Hip : ip_ok local_ip).

(** [bytes] is a frame from us to [mac] that carries the payload to [ip]. *)
Definition carries (bytes : list Z) (mac : MacAddress) (proto : Z) (ip : Ipv4Address) (payload : list Z) : Prop :=
  exists data, parseEthernetFrame bytes = Some (inl (mkEthernetFrame mac local_mac kEtherTypeIpv4 data)) /\
    parseIpv4Packet data = Some (inl (mkIpv4Packet 0 0 64 proto local_ip ip payload)).

Lemma sendIpv4_carries mac proto ip payload s : is_u8 proto -> ip_ok ip -> Zlen payload <= 65501 ->
  exists bytes, sendIpv4 local_mac mac (outgoing local_ip proto ip payload) s = Some (tt, s, [bytes]) /\ carries bytes mac proto ip payload.
Proof.
  intros Hp Hi Hl. unfold sendIpv4.
  assert (Hok : ipv4_header_ok (outgoing local_ip proto ip payload)) by (unfold ipv4_header_ok; simpl; split_and!; done || ulia).
  pose proof (serialize_parse_ipv4 (outgoing local_ip proto ip payload) [] Hok) as H.
  destruct (serializeIpv4Packet (outgoing local_ip proto ip payload)) as [data|[]]; [|simpl in H; lia].
  destruct H as [H Hlen]. rewrite app_nil_r in H. simpl in Hlen. eexists. split; [reflexivity|].
  exists data. split; [|done]. apply parse_serialize_ethernet; simpl; [by vm_compute | lia].
Qed.

(** ** Receiving *)

Context (port arp_now now : Z) (g : option Z).

(** The packet is for us: its sender is recorded and it is dispatched. *)
Definition learned (s : Stack) (frame : EthernetFrame) (p : Ipv4Packet) : Stack :=
  s <| arp_cache := ArpCache.insert (arp_cache s) (ip_source p) (eth_source frame) arp_now |>.

Lemma bind_quiet {A B} (m : action A) (k : A -> action B) a s s' : m s = Some (a, s', []) -> (m ≫= k) s = k a s'.
Proof. intros E. unfold mbind, action_bind. rewrite E. by destruct (k a s') as [[[b s2] out]|]. Qed.

Lemma bind_guard {A B} (o : option A) (k : A -> action B) a s : o = Some a -> (guard_bounds o ≫= k) s = k a s.
Proof. intros ->. by apply bind_quiet. Qed.

Lemma bind_read {A B} (f : Stack -> A) (k : A -> action B) s : (read f ≫= k) s = k (f s) s.
Proof. by apply bind_quiet. Qed.

Lemma bind_modify {B} (f : Stack -> Stack) (k : action B) s : (modify f ;; k) s = k (f s).
Proof. by apply (bind_quiet (modify f) (fun _ => k) tt). Qed.

Lemma receive_packet bytes frame p s : parseEthernetFrame bytes = Some (inl frame) -> ether_type frame = kEtherTypeIpv4 ->
  parseIpv4Packet (eth_payload frame) = Some (inl p) -> ttl p <> 0 -> ip_destination p = local_ip ->
  receiveFrame local_ip local_mac port bytes arp_now now g s =
    (if protocol p =? kProtocolIcmp then handleIcmp local_ip local_mac p frame
     else if protocol p =? kProtocolTcp then handleTcp local_ip local_mac p frame now g
     else if protocol p =? kProtocolUdp then
       handleDnsClientUdp local_ip port p ≫= fun consumed : bool => if consumed then done_ else handleUdp local_ip local_mac p frame
     else done_) (learned s frame p).
Proof.
  intros Ef Et Ep Ht Hd. unfold receiveFrame. rewrite (bind_guard _ _ _ _ Ef). rewrite Et.
  change (kEtherTypeIpv4 =? kEtherTypeArp) with false. change (kEtherTypeIpv4 =? kEtherTypeIpv4) with true. cbv iota.
  unfold handleIpv4. rewrite (bind_guard _ _ _ _ Ep).
  rewrite (proj2 (Z.eqb_neq _ _) Ht). unfold ip_eqb. rewrite Hd, bool_decide_true by done. cbn [negb].
  unfold insertNeighbor. by rewrite bind_modify.
Qed.

Lemma ping_answered bytes frame p m s : bytes_ok bytes -> parseEthernetFrame bytes = Some (inl frame) -> ether_type frame = kEtherTypeIpv4 ->
  parseIpv4Packet (eth_payload frame) = Some (inl p) -> ttl p <> 0 -> ip_destination p = local_ip -> protocol p = kProtocolIcmp ->
  parseIcmpEcho (ip_payload p) = Some (inl m) -> icmp_type m = EchoRequest ->
  exists reply payload, receiveFrame local_ip local_mac port bytes arp_now now g s = Some (tt, learned s frame p, [reply]) /\
    carries reply (eth_source frame) kProtocolIcmp (ip_source p) payload /\
    parseIcmpEcho payload = Some (inl (mkIcmpEcho EchoReply (icmp_identifier m) (icmp_sequence m) (icmp_payload m))).
Proof.
  intros Hb Ef Et Ep Ht Hd Hp Em Hm. rewrite (receive_packet bytes frame p s) by done. rewrite Hp. cbv iota.
  change (kProtocolIcmp =? kProtocolIcmp) with true. cbv iota.
  destruct (ethernet_total bytes) as (r & Er & Hr). rewrite Ef in Er. apply (inj Some) in Er as <-. specialize (Hr frame eq_refl Hb).
  pose proof (ethernet_parsed _ _ Ef) as Hle. destruct (ipv4_parsed _ _ Hr Ep) as (Hsrc & Hpb & _ & Hlp).
  destruct (icmp_parsed _ _ Hpb ltac:(lia) Em) as [Hok Hlm].
  unfold handleIcmp. rewrite (bind_guard _ _ _ _ Em). rewrite Hm. unfold sendEchoReply. rewrite Hp.
  assert (Hl : Zlen (serializeIcmpEcho (makeEchoReply m)) = Zlen (icmp_payload m) + 8).
  { unfold serializeIcmpEcho, makeEchoReply, Zlen. simpl. lia. }
  destruct (sendIpv4_carries (eth_source frame) kProtocolIcmp (ip_source p) (serializeIcmpEcho (makeEchoReply m)) (learned s frame p)) as (reply & E & Hc);
    [by vm_compute | done | lia |].
  exists reply, (serializeIcmpEcho (makeEchoReply m)). split_and!; [done | done|]. by rewrite icmp_parse_serialize.
Qed.

Lemma udp_answered bytes frame p d response s : bytes_ok bytes -> parseEthernetFrame bytes = Some (inl frame) -> ether_type frame = kEtherTypeIpv4 ->
  parseIpv4Packet (eth_payload frame) = Some (inl p) -> ttl p <> 0 -> ip_destination p = local_ip -> protocol p = kProtocolUdp ->
  parseUdpDatagram (ip_payload p) (ip_source p) local_ip = Some (inl d) -> udp_source_port d <> 0 -> dns_state s = None ->
  udp_deliver (udp_endpoints s) (udp_destination_port d) (udp_payload d) = Some response -> bytes_ok response -> Zlen response <= 65493 ->
  exists reply payload, receiveFrame local_ip local_mac port bytes arp_now now g s = Some (tt, learned s frame p, [reply]) /\
    carries reply (eth_source frame) kProtocolUdp (ip_source p) payload /\
    parseUdpDatagram payload local_ip (ip_source p) = Some (inl (mkUdpDatagram (udp_destination_port d) (udp_source_port d) response)).
Proof.
  intros Hb Ef Et Ep Ht Hd Hp Em Hsp Hdns Hdel Hrb Hrl. rewrite (receive_packet bytes frame p s) by done. rewrite Hp.
  change (kProtocolUdp =? kProtocolIcmp) with false. change (kProtocolUdp =? kProtocolTcp) with false. change (kProtocolUdp =? kProtocolUdp) with true. cbv iota.
  destruct (ethernet_total bytes) as (r & Er & Hr). rewrite Ef in Er. apply (inj Some) in Er as <-. specialize (Hr frame eq_refl Hb).
  destruct (ipv4_parsed _ _ Hr Ep) as (Hsrc & Hpb & _ & _). destruct (udp_parsed _ _ _ _ Hpb Em) as (Hu1 & Hu2 & _).
  rewrite (bind_quiet _ _ false _ (learned s frame p)).
  2:{ unfold handleDnsClientUdp. rewrite bind_read. unfold learned. simpl. by rewrite Hdns. }
  unfold handleUdp. rewrite Hd, (bind_guard _ _ _ _ Em), bind_read. change (udp_endpoints (learned s frame p)) with (udp_endpoints s). rewrite Hdel, (proj2 (Z.eqb_neq _ _) Hsp), Hp.
  pose proof (udp_roundtrip (mkUdpDatagram (udp_destination_port d) (udp_source_port d) response) local_ip (ip_source p) [] (conj Hu2 (conj Hu1 Hrb)) Hip Hsrc) as H.
  destruct (serializeUdpDatagram _ _ _) as [payload|[]] eqn:Es; [|simpl in H; lia]. destruct H as [H _]. rewrite app_nil_r in H.
  pose proof (udp_serialized_length _ _ _ _ Es) as Hpl. simpl in Hpl.
  destruct (sendIpv4_carries (eth_source frame) kProtocolUdp (ip_source p) payload (learned s frame p)) as (reply & E & Hc); [by vm_compute | done | lia |].
  by exists reply, payload.
Qed.

(** ** ARP *)

Lemma serialized_arp_length packet : Zlen (serializeArpPacket packet) = 28.
Proof. by destruct packet as [op [] [] [] []]. Qed.

(** The sender of an ARP packet is a station the handler accepts. *)
Definition accepted_sender (frame : EthernetFrame) (packet : ArpPacket) : Prop :=
  eth_source frame = sender_mac packet /\ sender_mac packet <> mac_zero /\ isBroadcast (sender_mac packet) = false.

(** Requests from a host without an address teach us nothing. *)
Definition learned_arp (s : Stack) (request : ArpPacket) : Stack :=
  if bool_decide (sender_ip request = zero_ip) then s
  else s <| arp_cache := ArpCache.insert (arp_cache s) (sender_ip request) (sender_mac request) arp_now |>.

Lemma receive_arp bytes frame packet s : parseEthernetFrame bytes = Some (inl frame) -> ether_type frame = kEtherTypeArp ->
  parseArpPacket (eth_payload frame) = Some (inl packet) -> accepted_sender frame packet ->
  receiveFrame local_ip local_mac port bytes arp_now now g s =
    match arp_operation packet with
    | ArpReply => handleArpReply local_ip local_mac frame packet arp_now s
    | ArpRequest =>
        if ip_eqb (target_ip packet) local_ip
        then Some (tt, learned_arp s packet, [serializeEthernetFrame (mkEthernetFrame (sender_mac packet) local_mac kEtherTypeArp
                                               (serializeArpPacket (makeArpReply packet local_ip local_mac)))])
        else Some (tt, s, [])
    end.
Proof.
  intros Ef Et Ep (H1 & H2 & H3). unfold receiveFrame. rewrite (bind_guard _ _ _ _ Ef), Et. change (kEtherTypeArp =? kEtherTypeArp) with true.
  cbv iota. unfold handleArp. rewrite (bind_guard _ _ _ _ Ep). unfold mac_eqb at 1 2. rewrite H1, H3, bool_decide_true, bool_decide_false by done.
  cbn [negb orb]. destruct (arp_operation packet); [|done]. unfold maybeReply.
  destruct (ip_eqb (target_ip packet) local_ip); [|done]. unfold learned_arp, ip_eqb. by case_bool_decide.
Qed.

Lemma arp_answered bytes frame request s : parseEthernetFrame bytes = Some (inl frame) -> ether_type frame = kEtherTypeArp ->
  parseArpPacket (eth_payload frame) = Some (inl request) -> accepted_sender frame request ->
  arp_operation request = ArpRequest -> target_ip request = local_ip ->
  exists reply data, receiveFrame local_ip local_mac port bytes arp_now now g s = Some (tt, learned_arp s request, [reply]) /\
    parseEthernetFrame reply = Some (inl (mkEthernetFrame (sender_mac request) local_mac kEtherTypeArp data)) /\
    parseArpPacket data = Some (inl (makeArpReply request local_ip local_mac)).
Proof.
  intros Ef Et Ep Ha Ho Ht. rewrite (receive_arp bytes frame request s) by done. rewrite Ho, Ht. unfold ip_eqb. rewrite bool_decide_true by done.
  eexists _, _. split; [reflexivity|]. split.
  - apply parse_serialize_ethernet; [by vm_compute|]. cbn [eth_payload]. rewrite serialized_arp_length. lia.
  - rewrite <- (app_nil_r (serializeArpPacket _)). by rewrite parse_serialize_arp.
Qed.

(** A reply to a pending resolution of ours resolves the neighbour. *)
Lemma reply_accepted bytes frame reply s : cache_ok (arp_cache s) ->
  parseEthernetFrame bytes = Some (inl frame) -> ether_type frame = kEtherTypeArp -> eth_destination frame = local_mac ->
  parseArpPacket (eth_payload frame) = Some (inl reply) -> accepted_sender frame reply -> isArpReplyFor reply local_ip local_mac = true ->
  fst (ArpCache.stateOf (arp_cache s) (sender_ip reply) arp_now) = Some ArpCache.Incomplete ->
  let c := ArpCache.insert (ArpCache.expire (arp_cache s) arp_now) (sender_ip reply) (sender_mac reply) arp_now in
  receiveFrame local_ip local_mac port bytes arp_now now g s = Some (tt, s <| arp_cache := c |>, []) /\
  forall later, later - arp_now < ArpCache.entry_lifetime (arp_cache s) -> fst (ArpCache.lookup c (sender_ip reply) later) = Some (sender_mac reply).
Proof.
  intros Hc Ef Et Hd Ep Ha Hr Hst c. pose proof (stateOf_state (arp_cache s) (sender_ip reply) arp_now) as Hexp. split.
  - rewrite (receive_arp bytes frame reply s) by done. pose proof Hr as Hr'. unfold isArpReplyFor in Hr. destruct (arp_operation reply); [done|].
    unfold handleArpReply. unfold mac_eqb at 1. rewrite Hd, bool_decide_true, Hr' by done. cbn [negb orb].
    destruct (ArpCache.stateOf (arp_cache s) (sender_ip reply) arp_now) as [st c1] eqn:E. simpl in Hst, Hexp. subst st c1.
    rewrite (bind_quiet _ _ (Some ArpCache.Incomplete) _ (s <| arp_cache := expire (arp_cache s) arp_now |>)) by (unfold on_arp; by rewrite E).
    by rewrite bool_decide_true.
  - intros later Hl. unfold c. rewrite insert_found.
    + simpl. by rewrite (proj2 (Z.leb_gt _ _)) by lia.
    + by apply expire_ok.
    + left. unfold ArpCache.stateOf in Hst. rewrite expire_find by (by apply expire_ok).
      destruct (map_find (entries (expire (arp_cache s) arp_now)) (sender_ip reply)) as [e|] eqn:E; [|done]. simpl in Hst.
      unfold outlived, incomplete. injection Hst as ->. by rewrite bool_decide_true.
Qed.

End Services.



(** ** Two stacks on one wire *)

Definition station (mac : MacAddress) : Prop := mac <> mac_zero /\ isBroadcast mac = false.

(** A resolution that puts a frame on the wire has just begun. *)
Lemma resolution_begun ip mac target t s s1 request : cache_ok (arp_cache s) ->
  resolveNeighbor ip mac target t s = Some (None, s1, [request]) ->
  request = serializeEthernetFrame (mkEthernetFrame kBroadcast mac kEtherTypeArp (serializeArpPacket (makeArpRequest ip mac target))) /\
  cache_ok (arp_cache s1) /\ entry_lifetime (arp_cache s1) = entry_lifetime (arp_cache s) /\
  forall later, fst (ArpCache.stateOf (arp_cache s1) target later) = Some ArpCache.Incomplete.
Proof.
  intros Hc. unfold resolveNeighbor, on_arp, mbind, action_bind. pose proof (lookup_state (arp_cache s) target t) as El.
  destruct (ArpCache.lookup (arp_cache s) target t) as [found c1]. simpl in El. subst c1. apply (expire_ok _ t) in Hc.
  assert (Elife : entry_lifetime (expire (arp_cache s) t) = entry_lifetime (arp_cache s)) by done.
  destruct found; [done|]. set (c := expire (arp_cache s) t) in *. clearbody c. simpl.
  destruct (ArpCache.beginResolution c target t) as [started c2] eqn:E. pose proof (beginResolution_ok _ _ _ _ _ Hc E) as Hc2.
  destruct started; [|done]. simpl. intros [= <- <-]. simpl. split; [done|]. split; [done|].
  pose proof (expire_ok c t Hc) as Hce. unfold ArpCache.beginResolution in E. destruct (map_contains _ _); [done|].
  destruct (makeRoom (expire c t)) as [room c3] eqn:Er. destruct (makeRoom_ok _ _ _ Hce Er) as (Hc3 & Hroom).
  destruct room; [|done]. injection E as <-. split; [simpl; rewrite (proj1 (proj2 Hroom)); exact Elife|].
  intros later. unfold ArpCache.stateOf. rewrite expire_find by apply Hc2. simpl. by rewrite map_find_set, key_eqb_refl by apply Hc3.
Qed.

(** A frame that starts a resolution is answered by the station that has the
    address. *)
Lemma request_answered ip mac ip' mac' port t u g s : station mac ->
  exists reply data, receiveFrame ip' mac' port
      (serializeEthernetFrame (mkEthernetFrame kBroadcast mac kEtherTypeArp (serializeArpPacket (makeArpRequest ip mac ip')))) t u g s =
    Some (tt, learned_arp t s (makeArpRequest ip mac ip'), [reply]) /\
    parseEthernetFrame reply = Some (inl (mkEthernetFrame mac mac' kEtherTypeArp data)) /\
    parseArpPacket data = Some (inl (makeArpReply (makeArpRequest ip mac ip') ip' mac')).
Proof.
  intros Hm. apply (arp_answered ip' mac' port t u g _ (mkEthernetFrame kBroadcast mac kEtherTypeArp (serializeArpPacket (makeArpRequest ip mac ip')))
    (makeArpRequest ip mac ip')); [| | |done|done|done].
  - apply parse_serialize_ethernet; [by vm_compute|]. cbn [eth_payload]. rewrite serialized_arp_length. lia.
  - done.
  - cbn [eth_payload]. rewrite <- (app_nil_r (serializeArpPacket _)). apply parse_serialize_arp.
Qed.

(** Once a neighbour is found, resolving it sends nothing. *)
Lemma resolved ip mac target t s m : fst (ArpCache.lookup (arp_cache s) target t) = Some m ->
  exists s', resolveNeighbor ip mac target t s = Some (Some m, s', []).
Proof.
  intros H. unfold resolveNeighbor. destruct (ArpCache.lookup (arp_cache s) target t) as [found c] eqn:E. simpl in H. subst found.
  eexists. by rewrite (bind_quiet _ _ (Some m) _ (s <| arp_cache := c |>)) by (unfold on_arp; by rewrite E).
Qed.

(** C27 (refinement). Neighbour resolution works between any two stacks. When
    stack A starts to resolve B's address, the frame it broadcasts makes B
    send one reply, whatever state B is in, and that reply makes A resolve B
    to B's hardware address without sending anything, until the entry's
    lifetime is over. B has learned A in the same exchange, unless its cache
    was full of addresses still being resolved. *)
Theorem neighbors_resolve ip_a mac_a ip_b mac_b a b t a1 request port_a port_b ta ua ga tb ub gb :
  station mac_a -> station mac_b -> cache_ok (arp_cache a) -> cache_ok (arp_cache b) ->
  resolveNeighbor ip_a mac_a ip_b t a = Some (None, a1, [request]) ->
  exists b1 reply a2,
    receiveFrame ip_b mac_b port_b request tb ub gb b = Some (tt, b1, [reply]) /\
    receiveFrame ip_a mac_a port_a reply ta ua ga a1 = Some (tt, a2, []) /\
    (forall later, later - ta < entry_lifetime (arp_cache a) ->
       exists a3, resolveNeighbor ip_a mac_a ip_b later a2 = Some (Some mac_b, a3, [])) /\
    (ip_a <> zero_ip -> ArpCache.size (expire (arp_cache b) tb) < capacity (arp_cache b) \/
       Exists (fun p => incomplete (snd p) = false) (entries (expire (arp_cache b) tb)) ->
     forall later, later - tb < entry_lifetime (arp_cache b) ->
       exists b3, resolveNeighbor ip_b mac_b ip_a later b1 = Some (Some mac_a, b3, [])).
Proof.
  intros Ha Hb Hca Hcb E. destruct (resolution_begun _ _ _ _ _ _ _ Hca E) as (-> & Hc1 & Elife & Hinc).
  destruct (request_answered ip_a mac_a ip_b mac_b port_b tb ub gb b Ha) as (reply & data & E1 & E2 & E3).
  destruct (reply_accepted ip_a mac_a port_a ta ua ga reply _ _ a1 Hc1 E2 eq_refl eq_refl E3) as [E4 Hl].
  - done.
  - unfold isArpReplyFor, ip_eqb, mac_eqb. simpl. by rewrite !bool_decide_true.
  - apply Hinc.
  - eexists _, reply, _. split; [exact E1|]. split; [exact E4|]. split.
    + intros later Hlater. apply resolved. apply Hl. by rewrite Elife.
    + intros Hz Hroom later Hlater. apply resolved. unfold learned_arp. cbn [sender_ip sender_mac makeArpRequest].
      rewrite bool_decide_false by done. simpl. rewrite insert_found; [|done|tauto]. by rewrite (proj2 (Z.leb_gt _ _)) by lia.
Qed.

(** [neighbors_resolve] for two passive stacks. *)
Lemma neighbors_resolve_witness :
  exists b1 reply a2,
    receiveFrame (Ipv4 10 0 0 1) (Mac 2 0 0 0 0 1) 0 SampleStack.who_is 2 2 None (initialStack (Ipv4 10 0 0 1) defaultOptions 0) = Some (tt, b1, [reply]) /\
    receiveFrame SampleStack.ip SampleStack.mac 0 reply 3 3 None SampleStack.asking = Some (tt, a2, []) /\
    exists a3, resolveNeighbor SampleStack.ip SampleStack.mac (Ipv4 10 0 0 1) 4 a2 = Some (Some (Mac 2 0 0 0 0 1), a3, []).
Proof.
  destruct (neighbors_resolve SampleStack.ip SampleStack.mac (Ipv4 10 0 0 1) (Mac 2 0 0 0 0 1) (initialStack SampleStack.ip defaultOptions 0)
    (initialStack (Ipv4 10 0 0 1) defaultOptions 0) 1 SampleStack.asking SampleStack.who_is 0 0 3 3 None 2 2 None) as (b1 & reply & a2 & E1 & E2 & H & _).
  1-5: (by split) || apply new_cache_ok || reflexivity.
  exists b1, reply, a2. split; [exact E1|]. split; [exact E2|]. by apply H.
Defined.
