(* ===== verification/StackTimers.v ===== *)
(** * How long the event loop sleeps

    The loop of [main] waits for a frame until the earliest deadline of the
    TCP, DNS and ARP timers. Waking earlier would find nothing to do, and the
    time it asks [poll] to wait is never past that deadline. *)

From S2P Require Import Prelude StdMap Addresses ArpCache TcpState TcpTable.
From S2P Require Import TcpInvariant TcpTimers Dns RuntimeOptions.
From S2P Require Import Stack EventLoop StackSafety StackServices.

(** ** Deadlines *)

Definition before (deadline : option Z) (t : Z) : Prop := forall d, deadline = Some d -> t < d.

Lemma before_earlier a b t : before (earlier a b) t <-> before a t /\ before b t.
Proof.
  unfold before, earlier. destruct a as [a|], b as [b|]; try destruct (Z.ltb_spec a b); split; intros Hb; try split; intros d Hd; try destruct Hb as [H1 H2];
    simplify_eq; repeat match goal with H : forall d, Some ?x = Some d -> _ |- _ => specialize (H x eq_refl) end; lia.
Qed.

(** ** Polls before the deadline *)

Lemma retransmissions_idle t now : before (nextRetransmissionDeadline t) now -> pollRetransmissions t now = (nothing_polled, t).
Proof.
  intros H. apply nextRetransmissionDeadline_spec, poll_loop_idle in H. unfold pollRetransmissions. rewrite H. by destruct t.
Qed.

Lemma persist_loop_idle now l : Forall (fun p => before (persist_deadline (snd p)) now) l -> pollPersist_loop now l = ([], l).
Proof.
  induction 1 as [|[k c] l Hc _ IH]; [done|]. simpl. rewrite IH. unfold persistProbe. simpl in Hc.
  destruct (persist_deadline c) as [d|] eqn:E; [|done]. by rewrite (proj2 (Z.ltb_lt _ _) (Hc d eq_refl)).
Qed.

Lemma persist_idle t now : before (nextPersistDeadline t) now -> pollPersistProbes t now = ([], t).
Proof.
  intros H. unfold pollPersistProbes. rewrite persist_loop_idle; [by destruct t|]. apply Forall_forall. intros p Hp d Hd.
  unfold nextPersistDeadline in H. pose proof (earliestDeadline_spec (map (fun p => persist_deadline (snd p)) (connections t))) as Hs.
  assert (Hin : Some d ∈ map (fun p => persist_deadline (snd p)) (connections t)) by (apply list_elem_of_fmap; by exists p).
  destruct (earliestDeadline _) as [e|].
  - destruct Hs as [_ Hs]. specialize (Hs d Hin). specialize (H e eq_refl). lia.
  - rewrite Forall_forall in Hs. by apply Hs in Hin.
Qed.

Lemma arp_idle c now : cache_ok c -> before (nextDeadline c) now -> poll c now = (quiet, c) /\ expire c now = c.
Proof.
  intros Hc H.
  assert (Hn : Forall (fun p => ~ due c now (snd p)) (entries c)).
  { apply Forall_Exists_neg. intros Hex. apply nextDeadline_due in Hex as (d & Hd & Hle); [|apply Hc]. specialize (H d Hd). lia. }
  split; [by apply poll_idle|]. unfold expire. rewrite filter_all; [by destruct c|]. eapply Forall_impl; [exact Hn|].
  intros p Hp. simpl. destruct (outlived c now p.2) eqn:E; [|done]. destruct Hp. by left.
Qed.

Lemma dns_idle session now : before (s_next_deadline session) now -> pollDnsTimeout session now = (mkDnsPoll None false, session).
Proof.
  intros H. unfold pollDnsTimeout. destruct (s_state session); [|done|done]. destruct (s_next_deadline session) as [d|]; [|done].
  by rewrite (proj2 (Z.ltb_lt _ _) (H d eq_refl)).
Qed.

(** ** Waiting for a neighbour *)

Definition waits_for (c : ArpCache) (ip : Ipv4Address) : Prop := exists e, map_find (entries c) ip = Some e /\ e_state e <> ArpCache.Resolved.

Lemma resolve_idle ip mac target now s : expire (arp_cache s) now = arp_cache s -> waits_for (arp_cache s) target ->
  resolveNeighbor ip mac target now s = Some (None, s, []).
Proof.
  intros Hx (e & Hf & He). unfold resolveNeighbor, ArpCache.lookup, ArpCache.beginResolution, on_arp, mbind, action_bind.
  rewrite Hx, Hf. rewrite (bool_decide_false _ He). cbn [negb]. replace (s <| arp_cache := arp_cache s |>) with s by (by destruct s).
  rewrite Hx. unfold map_contains. rewrite Hf. by destruct s.
Qed.

Section Idle.
Context (local_ip : Ipv4Address) (local_mac : MacAddress) (options : RuntimeOptions).

(** Nothing is to be started: the DNS query is out, or its server's address
    is being resolved; the connection is dialled, or there is nothing to dial
    yet, or the address of the target is being resolved. *)
Definition settled (s : Stack) : Prop :=
  (forall d, dns_state s = Some d -> s_state (dns_session d) = SessionPending -> query_started d = false ->
     waits_for (arp_cache s) (server_ip (dns_session d))) /\
  (mode options = Passive \/ active_open_started s = true \/ forall ip, dial_target_ip s = Some ip -> waits_for (arp_cache s) ip).

(** The readings of the clock for the timers. *)
Definition timer_readings (clock : Clock) : list Z := [c_arp clock; c_dns clock; c_dns_lookup clock; c_dial clock; c_tcp clock].

Lemma bind_idle {A B} (m : action A) (k : A -> action B) a s : m s = Some (a, s, []) -> (m ≫= k) s = k a s.
Proof. apply bind_quiet. Qed.

Lemma on_arp_idle {A} (f : ArpCache -> A * ArpCache) a s : f (arp_cache s) = (a, arp_cache s) -> on_arp f s = Some (a, s, []).
Proof. intros E. unfold on_arp. rewrite E. by destruct s. Qed.

Lemma on_tcp_idle {A} (f : TcpConnectionTable -> A * TcpConnectionTable) a s :
  f (tcp_connections s) = (a, tcp_connections s) -> on_tcp f s = Some (a, s, []).
Proof. intros E. unfold on_tcp. rewrite E. by destruct s. Qed.

Lemma arpTimers_idle s now : cache_ok (arp_cache s) -> before (nextDeadline (arp_cache s)) now -> arpTimers local_ip local_mac now s = Some (tt, s, []).
Proof. intros Hc H. unfold arpTimers. by rewrite (bind_idle _ _ quiet) by (by apply on_arp_idle, arp_idle). Qed.

Lemma tcpTimers_idle s now : before (nextRetransmissionDeadline (tcp_connections s)) now -> before (nextPersistDeadline (tcp_connections s)) now ->
  tcpTimers local_ip local_mac now s = Some (tt, s, []).
Proof.
  intros H1 H2. unfold tcpTimers. rewrite (bind_idle _ _ nothing_polled) by (by apply on_tcp_idle, retransmissions_idle).
  cbn [retransmissions timed_out time_wait_expired nothing_polled for_each].
  rewrite (bind_idle done_ _ tt) by done. by rewrite (bind_idle _ _ []) by (by apply on_tcp_idle, persist_idle).
Qed.

Lemma dnsTimers_idle s now lookup_now : cache_ok (arp_cache s) -> settled s -> before (nextDeadline (arp_cache s)) now ->
  (forall d, dns_state s = Some d -> before (s_next_deadline (dns_session d)) now) ->
  dnsTimers local_ip local_mac now lookup_now s = Some (tt, s, []).
Proof.
  intros Hc [Hset _] Ha Hd. unfold dnsTimers. rewrite bind_read. destruct (dns_state s) as [d|] eqn:E; [|done]. simpl.
  destruct (s_state (dns_session d)) eqn:Es; [|done|done]. destruct (query_started d) eqn:Eq.
  - unfold retryQuery. rewrite dns_idle by (by apply Hd). cbn [for_option retransmit].
    unfold set_dns. rewrite bind_modify. replace (s <| dns_state := _ |>) with s; [done|]. destruct s, d. simpl in *. by subst.
  - unfold startQuery. rewrite (bind_idle _ _ None); [done|]. apply resolve_idle; [by apply arp_idle | by apply Hset].
Qed.

Lemma dial_idle s now g : cache_ok (arp_cache s) -> settled s -> before (nextDeadline (arp_cache s)) now ->
  dial local_ip local_mac options now g s = Some (tt, s, []).
Proof.
  intros Hc [_ Hset] Ha. unfold dial. rewrite !bind_read.
  destruct (mode options) eqn:Em; [done| |]; (destruct (active_open_started s) eqn:Est; [done|]);
    (destruct (dial_target_ip s) as [ip|] eqn:Ed; [|done]);
    (rewrite (bind_idle _ _ None); [done|]; apply resolve_idle; [by apply arp_idle|]; destruct Hset as [?|[?|H]]; [done|done|by apply H]).
Qed.

Lemma iteration_idle s clock isn1 isn2 : stack_ok s -> settled s -> Forall (before (loopDeadline s)) (timer_readings clock) ->
  iteration local_ip local_mac options None clock isn1 isn2 s = Some (tt, s, []).
Proof.
  intros Hs Hset Hclock.
  assert (Hc : cache_ok (arp_cache s)) by (destruct (so_arp s Hs) as [ops ->]; apply history_ok).
  assert (Hsplit : Forall (fun t => before (nextDeadline (arp_cache s)) t /\ (forall d, dns_state s = Some d -> before (s_next_deadline (dns_session d)) t) /\
    before (nextPersistDeadline (tcp_connections s)) t /\ before (nextRetransmissionDeadline (tcp_connections s)) t) (timer_readings clock)).
  { eapply Forall_impl; [exact Hclock|]. intros t Ht. unfold loopDeadline in Ht. rewrite !before_earlier in Ht.
    destruct Ht as (H1 & H2 & H3 & H4). split_and!; try done. intros d Hd. by rewrite Hd in H2. }
  unfold timer_readings in Hsplit. rewrite !Forall_cons in Hsplit. destruct Hsplit as ((Harp & _) & (Hd1 & Hd2 & _) & _ & (Hdial & _) & (_ & _ & Hp & Hr) & _).
  unfold iteration. simpl for_option. rewrite (bind_idle done_ _ tt) by done.
  rewrite (bind_idle _ _ tt) by (by apply arpTimers_idle). rewrite (bind_idle _ _ tt) by (by apply dnsTimers_idle).
  rewrite (bind_idle _ _ tt) by (by apply dial_idle). by apply tcpTimers_idle.
Qed.

End Idle.


