(* ===== verification/StackRuns.v ===== *)
(** * Runs of the whole stack

    Concrete runs, evaluated in the kernel: an HTTP request from one stack to
    another over a wire, and a server that stops answering a client. *)

From Stdlib Require Import String Ascii.
From S2P Require Import Prelude StdMap Addresses Text Ethernet Arp Ipv4 Tcp.
From S2P Require Import Dns Http HttpClient RuntimeOptions.
From S2P Require Import TcpState TcpTable Stack EventLoop.

Module Wire.
Definition client_ip : Ipv4Address := Ipv4 10 0 0 1.
Definition client_mac : MacAddress := Mac 2 0 0 0 0 1.
Definition server_ip : Ipv4Address := Ipv4 10 0 0 2.
Definition server_mac : MacAddress := Mac 2 0 0 0 0 2.
Definition client_port : Z := 40000.

Definition at_time (t : Z) : Clock := mkClock t t t t t t t.

(** A stack and its configuration; one iteration per received frame. *)
Record Host := mkHost { h_ip : Ipv4Address; h_mac : MacAddress; h_options : RuntimeOptions; h_stack : Stack }.

Definition turn (h : Host) (t : Z) (isn : Z) (frame : option (list Z)) : option (Host * list (list Z)) :=
  match iteration (h_ip h) (h_mac h) (h_options h) frame (at_time t) (Some isn) (Some isn) (h_stack h) with
  | Some (_, s, out) => Some (mkHost (h_ip h) (h_mac h) (h_options h) s, out)
  | None => None
  end.

Fixpoint receive_all (h : Host) (t : Z) (isn : Z) (frames : list (list Z)) : option (Host * list (list Z)) :=
  match frames with
  | [] => Some (h, [])
  | frame :: frames =>
      '(h, out) ← turn h t isn (Some frame);
      '(h, out') ← receive_all h t isn frames;
      Some (h, out ++ out')
  end.

(** The wire delivers what one host has sent to the other, in turns of a
    millisecond, until both are silent. *)
Fixpoint converse (fuel : nat) (a b : Host) (t : Z) (frames : list (list Z)) : option (Host * Host) :=
  match fuel, frames with
  | _, [] => Some (a, b)
  | O, _ => None
  | S fuel, _ =>
      '(b, replies) ← receive_all b t 5000 frames;
      '(a, frames) ← receive_all a (t + milliseconds 1) 7000 replies;
      converse fuel a b (t + milliseconds 2) frames
  end.

Definition start (ip : Ipv4Address) (mac : MacAddress) (options : RuntimeOptions) : option (Host * list (list Z)) :=
  match initialResolution ip mac options 0 (initialStack ip options 0) with
  | Some (_, s, out) => Some (mkHost ip mac options s, out)
  | None => None
  end.

(** [--http-get 10.0.0.2:8080 --source-port 40000 --target <target>] *)
Definition get (target : list Z) : RuntimeOptions := mkOptions HttpGet false server_ip [] kTcpListenPort client_port zero_ip 0 target.

Definition key : TcpConnectionKey := mkKey client_ip client_port server_ip kTcpListenPort.
Definition key' : TcpConnectionKey := mkKey server_ip kTcpListenPort client_ip client_port.

Definition fetch (target : list Z) : option (Host * Host) :=
  '(client, frames) ← start client_ip client_mac (get target);
  '(server, _) ← start server_ip server_mac defaultOptions;
  converse 8 client server 0 frames.

(** What a fetch leaves: the client's outcome and both ends' TCP states. *)
Definition outcome (target : list Z) : option (option (bool * Z * Z) * option TcpState * option TcpState) :=
  '(client, server) ← fetch target;
  Some (option_map (fun s => (response_complete s, status_code s, Zlen (session_body s))) (map_find (http_client_sessions (h_stack client)) key),
        option_map TcpState.state (map_find (connections (tcp_connections (h_stack client))) key),
        option_map TcpState.state (map_find (connections (tcp_connections (h_stack server))) key')).
End Wire.

(** The whole program against itself: address resolution, handshake, request,
    response and both closes, for the index page, for a page of 12000 bytes in
    nine segments, and for one that does not exist. *)
Example fetch_index : Wire.outcome (str "/") = Some (Some (true, 200, 21), Some TimeWait, Some TimeWait).
Proof. vm_compute. reflexivity. Qed.

Example fetch_segmented : Wire.outcome (str "/sack-test") = Some (Some (true, 200, 12000), Some TimeWait, Some TimeWait).
Proof. vm_compute. reflexivity. Qed.

Example fetch_missing :
  exists body, Wire.outcome (str "/none") = Some (Some (true, 404, body), Some TimeWait, Some TimeWait).
Proof. eexists. vm_compute. reflexivity. Qed.

(** ** A client the server stops answering *)

Module Stale.
Import Wire.

(** The frame of a segment from the client, as a peer builds it. *)
Definition frame_of (sequence ack_number : Z) (f : TcpFlags) (data : list Z) : list Z :=
  match serializeTcpSegment (mkTcpSegment client_port kTcpListenPort sequence ack_number f 65535 0 [] data) client_ip server_ip with
  | inl tcp =>
      match serializeIpv4Packet (mkIpv4Packet 0 0 64 kProtocolTcp client_ip server_ip tcp) with
      | inl bytes => serializeEthernetFrame (mkEthernetFrame server_mac client_mac kEtherTypeIpv4 bytes)
      | inr _ => []
      end
  | inr _ => []
  end.

Definition syn_ : TcpFlags := no_flags <| syn := true |>.
Definition ack_ : TcpFlags := no_flags <| ack := true |>.
Definition fin_ack : TcpFlags := ack_ <| fin := true |>.
Definition request : list Z := str "GET / HTTP/1.0" ++ CRLF ++ str "Host: x" ++ CRLF ++ CRLF.
Definition response_length : Z := Zlen (serializeHttpResponse makeOkResponse).

(** A first connection: handshake, then the request and FIN in one segment;
    the server answers and closes (ISN 5000). *)
Definition first_connection : list (list Z) :=
  [frame_of 100 0 syn_ []; frame_of 101 5001 ack_ []; frame_of 101 5001 fin_ack request].
(** The last ACK of that connection, alone or with the FIN retransmitted. *)
Definition plain_last_ack : list Z := frame_of (102 + Zlen request) (5002 + response_length) ack_ [].
Definition last_ack_with_fin : list Z := frame_of (101 + Zlen request) (5002 + response_length) fin_ack [].
(** A second connection from the same port sends the same request (ISN 6000). *)
Definition second_connection : list (list Z) := [frame_of 900 0 syn_ []; frame_of 901 6001 ack_ []].
Definition second_request : list Z := frame_of 901 6001 ack_ request.

(** The server after those frames. *)
Definition server_after (last : list Z) : option Host :=
  '(server, _) ← start server_ip server_mac defaultOptions;
  '(server, _) ← receive_all server 0 5000 (first_connection ++ [last]);
  Some server.

(** What it sends for the second request. *)
Definition second_answer (last : list Z) : option (list (list Z)) :=
  server ← server_after last;
  '(server, _) ← receive_all server 0 6000 second_connection;
  '(_, out) ← turn server 0 6000 (Some second_request);
  Some out.

Definition connection_gone (last : list Z) : option bool :=
  server ← server_after last; Some (negb (map_contains (connections (tcp_connections (h_stack server))) key')).
End Stale.


(** The first part of a request is taken into the connection's stream but not
    acknowledged: the acknowledgement is left to the response. *)
Example partial_request_unacknowledged :
  ('(server, _) ← Wire.start Wire.server_ip Wire.server_mac defaultOptions;
   '(server, _) ← Wire.receive_all server 0 5000 (take 2 Stale.first_connection);
   '(server, out) ← Wire.turn server 0 5000 (Some (Stale.frame_of 101 5001 Stale.ack_ (take 10 Stale.request)));
   Some (out, option_map rcv_nxt (map_find (connections (tcp_connections (Wire.h_stack server))) Wire.key'))) = Some ([], Some 111).
Proof. vm_compute. reflexivity. Qed.
