(* ===== verification/TcpOutput.v ===== *)
(** * The segments a connection sends are well formed

    A typing discipline for connections: the fields that end up in segments
    are integers of their width, the queued bytes are bytes, and no entry is
    longer than a segment. Every operation of the table keeps it, for any
    segment that arrives, and whatever it sends has the ports of its
    connection, fits in a frame, and is read back unchanged by the parser of
    the other side: serialization never fails. *)

From S2P Require Import Prelude StdMap Checksum Addresses Tcp SeqNum TcpState TcpCongestion.
From S2P Require Import TcpSegments TcpSender TcpReceiver TcpHandler TcpTable TcpInvariant.

#[local] Opaque internetChecksum.

(** ** Segments *)

Definition ports_ok (key : TcpConnectionKey) : Prop := is_u16 (local_port key) /\ is_u16 (remote_port key).

Definition options_wire (opts : list Z) : Prop := bytes_ok opts /\ Zlen opts mod 4 = 0 /\ Zlen opts <= 40.

Record well_formed (key : TcpConnectionKey) (seg : TcpSegment) : Prop := {
  wf_source : source_port seg = local_port key;
  wf_destination : destination_port seg = remote_port key;
  wf_ok : Tcp.segment_ok seg;
  wf_options : options_wire (options seg);
  wf_size : Zlen (options seg) + Zlen (payload seg) <= kTcpMss
}.

(** What it takes to be sent and received. *)
Lemma well_formed_travels key seg s d : well_formed key seg -> ip_ok s -> ip_ok d ->
  exists bytes, serializeTcpSegment seg s d = inl bytes /\ parseTcpSegment bytes s d = Some (inl seg) /\ Zlen bytes <= 20 + kTcpMss.
Proof.
  intros [_ _ Hok (_ & Hm & H40) Hsize] Hs Hd. pose proof (Zlen_nonneg (options seg)). pose proof (Zlen_nonneg (payload seg)). consts.
  rewrite serialize_layout, Hm, (proj2 (Z.ltb_ge _ _)), (proj2 (Z.ltb_ge _ _)) by lia. eexists. split; [reflexivity|]. split.
  - apply parse_layout; [exact Hok | apply internetChecksum_u16 | exact Hm | lia | lia | apply segment_verifies; [exact Hok | done | done | lia]].
  - unfold segment_rest. rewrite !Zlen_app. change (Zlen (segment_head seg)) with 16. change (Zlen (be16 _)) with 2. lia.
Qed.

Lemma well_formed_intro key seq a f w opts pl : ports_ok key -> is_u32 seq -> is_u32 a -> is_u16 w -> options_wire opts -> bytes_ok pl ->
  Zlen opts + Zlen pl <= kTcpMss -> well_formed key (mkTcpSegment (local_port key) (remote_port key) seq a f w 0 opts pl).
Proof. intros [H1 H2] ? ? ? Ho ? ?. constructor; try done. unfold Tcp.segment_ok; simpl. split_and!; try done; apply Ho. Qed.

(** ** Connections *)

Record typed_entry (e : PendingTransmission) : Prop := {
  te_seq : is_u32 (sequence_start e);
  te_bytes : bytes_ok (p_payload e);
  te_len : Zlen (p_payload e) <= kTcpMss;
  te_syn : is_syn e || is_active_syn e = true -> p_payload e = []
}.

Record typed (c : Connection) : Prop := {
  ty_snd : is_u32 (snd_nxt c);
  ty_rcv : is_u32 (rcv_nxt c);
  ty_isn : is_u32 (local_isn c);
  ty_mss : effective_send_mss c <= kTcpMss;
  ty_scale : is_u8 (local_window_scale c);
  ty_pending : Forall typed_entry (pending c);
  ty_unsent : bytes_ok (unsent c)
}.

(** What [typed] is about. *)
Definition type_part (c : Connection) :=
  (snd_nxt c, rcv_nxt c, local_isn c, effective_send_mss c, local_window_scale c, pending c, unsent c).

Lemma typed_part c c' : type_part c' = type_part c -> typed c -> typed c'.
Proof. unfold type_part. intros [= E1 E2 E3 E4 E5 E6 E7] []. constructor; by rewrite ?E1, ?E2, ?E3, ?E4, ?E5, ?E6, ?E7. Qed.

Lemma typed_new s isn : is_u32 isn -> typed (new_connection s isn).
Proof. intros H. by constructor; simpl; [by vm_compute | by vm_compute | | lia | by vm_compute | constructor | constructor]. Qed.

Lemma typed_pending c l : Forall typed_entry l -> typed c -> typed (c <| pending := l |>).
Proof. by intros ? []. Qed.

Lemma typed_entry_part e e' : (sequence_start e', is_syn e', is_active_syn e', p_payload e') = (sequence_start e, is_syn e, is_active_syn e, p_payload e) ->
  typed_entry e -> typed_entry e'.
Proof. intros [= E1 E2 E3 E4] []. constructor; by rewrite ?E1, ?E2, ?E3, ?E4. Qed.

Lemma typed_map (f : PendingTransmission -> PendingTransmission) l : (forall e, typed_entry e -> typed_entry (f e)) ->
  Forall typed_entry l -> Forall typed_entry (map f l).
Proof. intros Hf. induction 1; simpl; auto. Qed.

(** ** Options *)

Lemma options_wire_nil : options_wire [].
Proof. split; [constructor|]. change (Zlen []) with 0. by split. Qed.

Lemma options_wire_pad out : bytes_ok out -> Zlen out <= 36 -> options_wire (pad4 3 out).
Proof.
  intros Hb Hl. destruct (pad4_spec out) as (k & -> & Hk & Hm). unfold options_wire. rewrite bytes_ok_app, Zlen_app.
  unfold Zlen at 2 4. rewrite length_replicate. split_and!; [done | by apply Forall_replicate | done | lia].
Qed.

Lemma synack_options c : is_u8 (local_window_scale c) -> options_wire (buildSynAckOptions c).
Proof.
  intros H. unfold buildSynAckOptions. apply options_wire_pad; destruct (sack_permitted c), (window_scaling_enabled c); simpl;
    first [by vm_compute | repeat (constructor; [first [exact H | by vm_compute]|]); constructor].
Qed.

Lemma active_options : options_wire buildActiveSynOptions.
Proof. apply options_wire_pad; [|by vm_compute]. repeat (constructor; [by vm_compute|]). constructor. Qed.

Lemma sack_options_wire blocks : (length blocks <= 4)%nat -> options_wire (buildSackOptions blocks).
Proof.
  intros Hl. destruct blocks as [|b l] eqn:E; [apply options_wire_nil|]. rewrite <- E in *. rewrite buildSackOptions_eq by (subst; done).
  assert (Hz : Zlen (sack_bytes blocks) = 8 * Zlen blocks) by (unfold Zlen; rewrite length_sack_bytes; lia).
  assert (Hn : 0 <= Zlen blocks <= 4) by (unfold Zlen; lia).
  unfold options_wire. rewrite !bytes_ok_app, !Zlen_app, Hz. change (Zlen [_; _]) with 2. split_and!.
  - repeat constructor; ulia.
  - unfold sack_bytes. clear. induction blocks as [|b l IH]; [constructor|]. cbn [map concat]. rewrite !bytes_ok_app. auto using be32_ok.
  - repeat constructor; ulia.
  - replace (2 + (8 * Zlen blocks + 2)) with ((2 * Zlen blocks + 1) * 4) by lia. apply Z_mod_mult.
  - lia.
Qed.

(** ** The stages *)

Section Stages.
Context (key : TcpConnectionKey) (Hkey : ports_ok key).

(** What a stage returns: segments to send, and the connection. *)
Definition good (segments : list TcpSegment) (c : Connection) : Prop := Forall (well_formed key) segments /\ typed c.

Lemma good_none c : typed c -> good [] c.
Proof. by split. Qed.

Lemma typed_window c b : is_u16 (advertisedWindowFor c b).
Proof. apply advertisedWindowFor_u16. Qed.

Lemma pure_ack_wf c start : typed c -> well_formed key (makePureAck key c start).
Proof.
  intros [H1 H2 _ _ _ _ _]. assert (Ho : options_wire (if sack_permitted c then buildSackOptions (generateSackBlocks c start) else [])).
  { destruct (sack_permitted c); [|apply options_wire_nil]. apply sack_options_wire. unfold generateSackBlocks.
    destruct (empty (out_of_order c)); [simpl; lia|]. rewrite length_map, length_take. lia. }
  apply well_formed_intro; try done; [apply typed_window | constructor|]. destruct Ho as (_ & _ & Ho). change (Zlen []) with 0. consts. lia.
Qed.

Lemma synack_wf c : typed c -> well_formed key (makeSynAck key c).
Proof.
  intros [_ _ H1 _ H2 _ _]. pose proof (synack_options c H2) as Ho. apply well_formed_intro; try done; [apply u32_range | apply typed_window | constructor|].
  destruct Ho as (_ & _ & Ho). change (Zlen []) with 0. consts. lia.
Qed.

Lemma fin_wf c : typed c -> well_formed key (makeFin key c).
Proof. intros [H1 H2 _ _ _ _ _]. apply well_formed_intro; try done; [apply typed_window | apply options_wire_nil | constructor]. Qed.

(** *** Sending *)

Lemma typed_recordRttSample c r : typed c -> typed (recordRttSample c r).
Proof. apply typed_part. unfold recordRttSample. by destruct (has_rtt_sample c). Qed.

Lemma typed_growth c n : typed c -> typed (applyCongestionGrowth c n).
Proof.
  apply typed_part. unfold applyCongestionGrowth. destruct (n =? 0); [done|]. destruct (_ <? _); [done|]. by destruct (avoidance_loop _ _ _ _).
Qed.

Lemma typed_sack c a blocks : typed c -> typed (applySackBlocks c a blocks).
Proof.
  intros H. unfold applySackBlocks. destruct (empty _); [done|]. apply typed_pending; [|done]. apply typed_map; [|apply H].
  intros e He. unfold markSacked. destruct (_ || _); [done|]. by destruct (existsb _ _); [apply (typed_entry_part e)|].
Qed.

Lemma typed_clear c : typed c -> Forall typed_entry (clear_recovery_marks (pending c)).
Proof. intros H. apply typed_map; [|apply H]. intros e. by apply typed_entry_part. Qed.

Lemma typed_updateSendWindow c seg : typed c -> typed (updateSendWindow c seg).
Proof. apply typed_part. unfold updateSendWindow. by destruct (negb _). Qed.

Lemma good_recovery c now : typed c ->
  good (option_list (recoveryRetransmit key c now).1) (recoveryRetransmit key c now).2.
Proof.
  intros H. unfold recoveryRetransmit. destruct (selectRecoveryRetransmission c) as [[i e]|] eqn:E; [|by apply good_none].
  assert (He : typed_entry e).
  { unfold selectRecoveryRetransmission in E. pose proof (ty_pending _ H) as Hp. revert E Hp. generalize 0%nat. induction (pending c) as [|e0 l IH]; [done|].
    intros n. simpl. rewrite Forall_cons. intros E [H0 Hl]. destruct (is_syn e0 || is_fin e0); [by eapply IH|].
    destruct (negb _); [done|]. destruct (_ || _); [by eapply IH|]. by injection E as _ <-. }
  simpl. destruct He as [E1 E2 E3 E4]. split.
  - constructor; [|constructor]. destruct H. apply well_formed_intro; try done; [apply typed_window | apply options_wire_nil].
  - apply typed_pending; [|done]. apply Forall_insert; [apply H | by constructor].
Qed.

Lemma good_fast_recovery c now : typed c -> good (option_list (beginFastRecovery key c now).1) (beginFastRecovery key c now).2.
Proof. intros H. unfold beginFastRecovery. apply good_recovery, typed_pending; [exact (typed_clear c H) | by apply (typed_part c)]. Qed.

Lemma typed_retire_loop ack l acked sample front : is_u32 ack -> Forall typed_entry l ->
  Forall typed_entry (ret_pending (retire_loop ack l acked sample front)).
Proof.
  intros Ha Hl. revert acked sample front. induction Hl as [|e l He Hl IH]; intros; [constructor|]. simpl.
  destruct (sequenceLessOrEqual _ _); [by destruct (_ && _); apply IH|]. destruct (sequenceGreater _ _); [|by constructor].
  assert (He' : typed_entry (e <| p_payload := drop (Z.to_nat (u32 (ack - sequence_start e))) (p_payload e) |> <| sequence_start := ack |>
    <| retransmitted_in_recovery := false |>)).
  { destruct He as [E1 E2 E3 E4]. constructor; simpl; [done | by apply Forall_drop | |].
    - unfold Zlen in *. rewrite length_drop. lia.
    - intros Hs. rewrite (E4 Hs). apply drop_nil. }
  destruct (_ && _); by constructor.
Qed.

Lemma typed_front l : Forall typed_entry l -> Forall typed_entry (mark_front_sampled l).
Proof. destruct 1 as [|e l He Hl]; [constructor|]. constructor; [by apply (typed_entry_part e) | done]. Qed.

Lemma typed_retire c ack now : is_u32 ack -> typed c -> typed (retireAcknowledged c ack now).2.
Proof.
  intros Ha H. unfold retireAcknowledged. destruct (negb _); [done|].
  assert (H1 : typed (c <| snd_una := ack |> <| pending := ret_pending (retire_loop ack (pending c) 0 None false) |>))
    by (apply typed_pending; [by apply typed_retire_loop; [|apply H] | by apply (typed_part c)]).
  simpl. destruct (ret_sample _) as [first|]; [|exact H1]. destruct (first <=? now); [|exact H1]. simpl.
  apply (typed_recordRttSample _ (now - first)) in H1. destruct (ret_front _); [|exact H1]. apply typed_pending; [|exact H1].
  exact (typed_front _ (ty_pending _ H1)).
Qed.

Lemma typed_persist c now : typed c -> typed (updatePersistState c now).
Proof. apply typed_part. unfold updatePersistState. destruct (negb _); [done|]. by destruct (persist_deadline c). Qed.

Lemma typed_new_entry seq f now rto bytes : is_u32 seq -> bytes_ok bytes -> Zlen bytes <= kTcpMss ->
  typed_entry ((new_pending seq f now rto) <| p_payload := bytes |>).
Proof. intros. by constructor. Qed.

Lemma good_fin c now : typed c -> good (maybeSequenceFin key c now).1 (maybeSequenceFin key c now).2.
Proof.
  intros H. unfold maybeSequenceFin. do 4 (destruct (_ : bool); [by apply good_none|]). simpl. split; [by repeat constructor; apply fin_wf|].
  pose proof H as [H1 H2 H3 H4 H5 H6 H7]. constructor; simpl; try done; [apply u32_range|]. apply Forall_app. split; [done|]. constructor; [|constructor].
  by constructor; simpl; [| apply Forall_nil_2 | vm_compute |].
Qed.

Lemma good_schedule_loop fuel c now to_send draining seq offset : typed c -> is_u32 seq ->
  let '(segments, entries, seq') := schedule_loop fuel key c now to_send draining seq offset in
  Forall (well_formed key) segments /\ Forall typed_entry entries /\ is_u32 seq'.
Proof.
  intros H. revert seq offset. induction fuel as [|fuel IH]; intros seq offset Hs; simpl; [done|]. destruct (negb _); [done|].
  specialize (IH (u32 (seq + u32 (Z.min (effective_send_mss c) (to_send - offset)))) (offset + Z.min (effective_send_mss c) (to_send - offset)) (u32_range _)).
  destruct (schedule_loop _ _ _ _ _ _ _ _) as [[segments entries] seq']. destruct IH as (I1 & I2 & I3).
  set (bytes := take _ _). assert (Hb : bytes_ok bytes) by (apply Forall_take, Forall_drop, H).
  assert (Hl : Zlen bytes <= kTcpMss) by (pose proof (ty_mss _ H); unfold bytes, Zlen in *; rewrite length_take; consts; lia).
  split_and!; [|by constructor; [apply typed_new_entry|]|done]. constructor; [|done]. destruct H.
  apply well_formed_intro; try done; [apply typed_window | apply options_wire_nil].
Qed.

Lemma good_schedule c now : typed c -> good (scheduleQueuedData key c now).1 (scheduleQueuedData key c now).2.
Proof.
  intros H. unfold scheduleQueuedData. set (to_send := Z.min _ _). set (draining := _ && _).
  set (r := if 0 <? to_send then _ else _). assert (Hr : good r.1 r.2).
  { unfold r. destruct (0 <? to_send); [|by apply good_none].
    pose proof (good_schedule_loop (Z.to_nat kMaxSegmentsPerSend) c now to_send draining (snd_nxt c) 0 H (ty_snd _ H)) as Hl.
    destruct (schedule_loop _ _ _ _ _ _ _ _) as [[segments entries] seq']. destruct Hl as (I1 & I2 & I3). split; [done|].
    destruct H. constructor; simpl; try done; [by apply Forall_app | by apply Forall_drop]. }
  clearbody r. destruct r as [segments c1]. destruct Hr as [H1 H2]. simpl in *.
  set (f := if empty (unsent c1) then _ else _). assert (Hf : good f.1 f.2) by (unfold f; destruct (empty (unsent c1)); [by apply good_fin | by apply good_none]).
  clearbody f. destruct f as [fins c2]. destruct Hf as [H3 H4]. split; [by apply Forall_app | by apply typed_persist].
Qed.

(** *** Receiving *)

Lemma typed_processAck c seg blocks now : is_u32 (acknowledgment_number seg) -> typed c -> typed (processAck c seg blocks now).2.
Proof.
  intros Ha H. apply (typed_retire c _ now Ha) in H. unfold processAck. destruct (retireAcknowledged _ _ _) as [r c1]. simpl in *.
  apply typed_updateSendWindow. destruct (sack_permitted c1); [by apply typed_sack | done].
Qed.

Lemma good_congestion c seg r changed now : typed c ->
  good (option_list (congestionStep key c seg r changed now).1) (congestionStep key c seg r changed now).2.
Proof.
  intros H. unfold congestionStep. destruct (ack_advanced r).
  - cbv zeta. destruct (in_fast_recovery _); [destruct (sequenceLessOrEqual _ _)|].
    + apply good_none, typed_pending; [by apply (typed_clear c) | by apply (typed_part c)].
    + apply good_recovery. by apply (typed_part c).
    + apply good_none, typed_growth. by apply (typed_part c).
  - destruct (isDuplicateAck _ _ _); [cbv zeta; destruct (in_fast_recovery _); [destruct (sack_permitted _)|destruct (_ =? 3)]|destruct changed].
    + apply good_recovery. by apply (typed_part c).
    + apply good_none. by apply (typed_part c).
    + apply good_fast_recovery. by apply (typed_part c).
    + apply good_none. by apply (typed_part c).
    + apply good_none. by apply (typed_part c).
    + by apply good_none.
Qed.

Lemma typed_timeWait c now : typed c -> typed (startTimeWait c now).
Proof. intros H. apply typed_pending; [constructor | by apply (typed_part c)]. Qed.

Lemma typed_localFin c now : typed c -> typed (localFinStep c now).
Proof.
  intros H. unfold localFinStep. destruct (_ && _); [by apply (typed_part c)|]. destruct (_ && _); [by apply typed_timeWait|].
  destruct (_ && _); [by apply (typed_part c) | done].
Qed.

Lemma good_sendable c now : typed c -> good (scheduleIfSendable key c now).1 (scheduleIfSendable key c now).2.
Proof. intros H. unfold scheduleIfSendable. destruct (_ && _); [by apply good_schedule | by apply good_none, typed_persist]. Qed.

(** All a result sends. *)
Definition result_segments (r : TcpReceiveResult) : list TcpSegment := option_list (reply r) ++ option_list (fast_retransmit r) ++ scheduled r.

Definition good_result (r : TcpReceiveResult * Connection) : Prop := good (result_segments r.1) r.2.

Lemma good_no_result r c : result_segments r = [] -> typed c -> good_result (r, c).
Proof. intros E H. unfold good_result. simpl. rewrite E. by apply good_none. Qed.

Lemma good_reply seg r c : result_segments r = [seg] -> well_formed key seg -> typed c -> good_result (r, c).
Proof. intros E Hs H. unfold good_result. simpl. rewrite E. split; [by apply Forall_singleton | done]. Qed.

(** A result that may add an acknowledgement to what is retransmitted and
    scheduled. *)
Lemma good_finish (retransmit : option TcpSegment) segments c (b : bool) start r :
  Forall (well_formed key) (option_list retransmit) -> good segments c -> fast_retransmit r = retransmit -> scheduled r = segments -> reply r = None ->
  good_result (if b then r <| reply := Some (makePureAck key c start) |> else r, c).
Proof.
  intros Hr [Hs Hc] <- <- E. split; [|done]. unfold result_segments. destruct b; simpl.
  - apply Forall_cons_2; [by apply pure_ack_wf | by apply Forall_app].
  - rewrite E. simpl. by apply Forall_app.
Qed.

Lemma good_finishPureAck c retransmit now : typed c -> Forall (well_formed key) (option_list retransmit) -> good_result (finishPureAck key c retransmit now).
Proof.
  intros H Hr. unfold finishPureAck. pose proof (good_sendable c now H) as Hs. destruct (scheduleIfSendable _ _ _) as [segments c1].
  by apply (good_finish retransmit segments).
Qed.

Lemma good_finishOutside c retransmit now : typed c -> Forall (well_formed key) (option_list retransmit) -> good_result (finishOutside key c retransmit now).
Proof.
  intros H Hr. unfold finishOutside. pose proof (good_sendable c now H) as Hs. destruct (scheduleIfSendable _ _ _) as [segments c1].
  by apply (good_finish retransmit segments).
Qed.

Lemma release_loop_u32 nxt l : is_u32 nxt -> is_u32 (release_loop nxt l).1.2.
Proof.
  revert nxt. induction l as [|f l IH]; intros nxt H; [done|]. simpl. destruct (_ =? _); [|done].
  specialize (IH (u32 (nxt + u32 (Zlen (frag_payload f)))) (u32_range _)). by destruct (release_loop _ l) as [[? ?] ?].
Qed.

Lemma typed_deliver c now : typed c -> typed (deliver c now).2.
Proof.
  intros H. unfold deliver, releaseContiguous. pose proof (release_loop_u32 (rcv_nxt c) (out_of_order c) (ty_rcv _ H)) as Hn.
  destruct (release_loop _ _) as [[released nxt] rest]. simpl in Hn.
  assert (H1 : typed (c <| rcv_nxt := nxt |> <| out_of_order := rest |>)) by (by destruct H).
  destruct (pending_fin_seq _) as [f|]; [|exact H1]. destruct (_ =? _); [|exact H1].
  assert (H2 : typed (c <| rcv_nxt := nxt |> <| out_of_order := rest |> <| rcv_nxt := u32 (nxt + 1) |> <| pending_fin_seq := None |>))
    by (pose proof (u32_range (nxt + 1)); by destruct H).
  simpl. destruct (state_eqb _ Established); [by eapply typed_part, H2|]. destruct (state_eqb _ FinWait1); [by eapply typed_part, H2|].
  destruct (state_eqb _ FinWait2); [by apply typed_timeWait | exact H2].
Qed.

Lemma good_finishReceive c retransmit start now : typed c -> Forall (well_formed key) (option_list retransmit) ->
  good_result (finishReceive key c retransmit start now).
Proof.
  intros H Hr. unfold finishReceive. apply (typed_deliver c now) in H. destruct (deliver c now) as [[released closed] c1]. simpl in H.
  pose proof (good_sendable c1 now H) as Hs. destruct (scheduleIfSendable _ _ _) as [segments c2]. by apply (good_finish retransmit segments).
Qed.

Lemma good_receive c seg retransmit now r : typed c -> Forall (well_formed key) (option_list retransmit) ->
  receiveSegment key c seg retransmit now = Some r -> good_result r.
Proof.
  intros H Hr. unfold receiveSegment. destruct (_ && _); [intros [= <-]; by apply good_finishOutside|].
  destruct (if sequenceGreater _ _ then _ else _) as [[start c1]|] eqn:E; [|done]. cbn [mbind option_bind].
  intros E'. apply (inj Some) in E' as <-. apply good_finishReceive; [|done].
  assert (H1 : typed c1).
  { destruct (sequenceGreater _ _); [|by injection E as _ <-]. unfold storePayload in E. destruct (subRange _ _ _); [|done].
    injection E as _ <-. by apply (typed_part c). }
  destruct (_ && _); [by apply (typed_part c1) | done].
Qed.

(** *** Handlers *)

Lemma good_synchronized c seg now r : is_u32 (acknowledgment_number seg) -> typed c -> handleSynchronized key c seg now = Some r -> good_result r.
Proof.
  intros Ha H. unfold handleSynchronized. destruct (syn (flags seg)).
  { destruct (negb _); intros [= <-]; [by apply good_no_result | eapply good_reply; [done | by apply pure_ack_wf | done]]. }
  destruct (parseTcpOptions _) as [[opts|e]|]; [| by intros [= <-]; apply good_no_result | done]. cbn [mbind option_bind].
  destruct (rst (flags seg)); [destruct (_ =? _); intros [= <-]; apply good_no_result; try done; by apply (typed_part c)|].
  destruct (negb (ack _)); [intros [= <-]; by apply good_no_result|]. destruct (negb _); [intros [= <-]; by apply good_no_result|].
  pose proof (typed_processAck c seg (sack_blocks opts) now Ha H) as H1. destruct (processAck _ _ _ _) as [[ar changed] c1]. simpl in H1.
  pose proof (good_congestion c1 seg ar changed now H1) as [H2 H3]. destruct (congestionStep _ _ _ _ _ _) as [retransmit c2]. simpl in *.
  apply (typed_localFin _ now) in H3. destruct (empty _ && _).
  - intros E. apply (inj Some) in E as <-. by apply good_finishPureAck.
  - by apply good_receive.
Qed.

Lemma typed_negotiate c opts : typed c -> typed (negotiate c opts).
Proof.
  intros [H1 H2 H3 H4 H5 H6 H7]. unfold negotiate. destruct (window_scale opts); constructor; simpl; try done; try apply Z.le_min_l; by vm_compute.
Qed.

Lemma good_synSent c seg now r : segment_ok seg -> typed c -> handleSynSent key c seg now = Some r -> good_result r.
Proof.
  intros Hs H. unfold handleSynSent. destruct (parseTcpOptions _) as [[opts|e]|]; [| by intros [= <-]; apply good_no_result | done]. cbn [mbind option_bind].
  destruct (rst (flags seg)); [destruct (_ && _); intros [= <-]; apply good_no_result; try done; by apply (typed_part c)|].
  do 4 (destruct (_ : bool); [intros [= <-]; by apply good_no_result|]). cbv zeta.
  set (c1 := negotiate _ opts). assert (H1 : typed c1).
  { apply typed_negotiate. pose proof (u32_range (sequence_number seg + 1)). by destruct H. }
  clearbody c1. assert (H2 : typed (retireAcknowledged (c1 <| state := Established |>) (acknowledgment_number seg) now).2).
  { apply typed_retire; [apply Hs | by apply (typed_part c1)]. }
  destruct (retireAcknowledged _ _ _) as [ar c2]. simpl in H2.
  intros E. apply (inj Some) in E as <-. eapply good_reply; [done | | by apply (typed_part c2)]. destruct H2.
  apply well_formed_intro; try done; [apply typed_window | apply options_wire_nil | constructor].
Qed.

Lemma good_timeWait c seg now : typed c -> good_result (handleTimeWait key c seg now).
Proof.
  intros H. unfold handleTimeWait. destruct (rst _); [destruct (_ =? _); apply good_no_result; try done; by apply (typed_part c)|].
  destruct (_ || _); [by apply good_no_result|]. destruct (_ && _); [|by apply good_no_result].
  eapply good_reply; [done | apply pure_ack_wf |]; by apply (typed_part c).
Qed.

Lemma reset_wf seg : segment_ok seg -> local_port key = destination_port seg -> remote_port key = source_port seg -> well_formed key (makeClosedPortReset seg).
Proof.
  intros Hs E1 E2. unfold makeClosedPortReset. destruct Hkey as [K1 K2]. rewrite E1 in K1. rewrite E2 in K2.
  destruct (ack (flags seg)); constructor; simpl; try done; try (by apply options_wire_nil).
  all: split_and!; try done; try constructor; try ulia; try apply Hs; apply u32_range.
Qed.

(** *** Timers *)

Lemma good_probe c now : typed c -> good (option_list (persistProbe key c now).1) (persistProbe key c now).2.
Proof.
  intros H. unfold persistProbe. destruct (persist_deadline c); [|by apply good_none]. destruct (now <? _); [by apply good_none|].
  destruct (negb _); [apply good_none; by apply (typed_part c)|]. split; [|by apply (typed_part c)]. apply Forall_singleton. destruct H.
  apply well_formed_intro; try done; [apply u32_range | apply typed_window | apply options_wire_nil | by apply Forall_take |].
  unfold Zlen. rewrite length_take. change (@length Z []) with 0%nat. consts. lia.
Qed.

Lemma timeout_wf c e : typed c -> typed_entry e -> well_formed key (timeoutSegment key c e).
Proof.
  intros H [E1 E2 E3 E4]. pose proof (synack_options c (ty_scale _ H)) as Ho. pose proof active_options as Ha. destruct H.
  apply well_formed_intro; try done; [| apply typed_window | |].
  - destruct (is_active_syn e); [by vm_compute|]. destruct (is_syn e); [apply u32_range | done].
  - destruct (is_active_syn e); [done|]. destruct (is_syn e); [done | apply options_wire_nil].
  - destruct Ho as (_ & _ & Ho), Ha as (_ & _ & Ha). destruct (is_active_syn e), (is_syn e); try (rewrite E4 by done); change (Zlen []) with 0; consts; lia.
Qed.

Lemma good_poll c now : typed c -> match pollConnection key c now with Retransmitted seg c' => good [seg] c' | _ => True end.
Proof.
  intros H. unfold pollConnection. destruct (state_eqb _ _); [destruct (time_wait_deadline c); [by destruct (_ <=? _) | done]|].
  destruct (pending c) as [|oldest l] eqn:Ep; [done|]. destruct (now <? _); [done|]. destruct (_ <=? _); [done|].
  set (c1 := if _ && _ then _ else c). assert (H1 : typed c1).
  { unfold c1. destruct (_ && _); [|done]. apply typed_pending; [|by apply (typed_part c)]. apply typed_map; [|apply H]. intros e. by apply typed_entry_part. }
  clearbody c1. pose proof (ty_pending _ H1) as Hp. destruct (pending c1) as [|e rest]; [done|]. apply Forall_cons in Hp as [He Hp].
  split; [by apply Forall_singleton, timeout_wf|]. destruct H1. constructor; simpl; try done. constructor; [by apply (typed_entry_part e) | done].
Qed.

End Stages.

(** ** The table *)

Definition typed_table (t : TcpConnectionTable) : Prop := Forall (fun p => ports_ok (fst p) /\ typed (snd p)) (connections t).

Section Table.
Context (t : TcpConnectionTable) (Ht : typed_table t).

Lemma typed_find key c : map_find (connections t) key = Some c -> typed c.
Proof. intros E. apply (map_find_Forall _ _ _ _ Ht E). Qed.

Lemma typed_set t1 key c : connections t1 = connections t -> ports_ok key -> typed c -> typed_table (set_connection t1 key c).
Proof. intros E Hk Hc. unfold typed_table. simpl. rewrite E. by apply Forall_map_set. Qed.

Lemma typed_update key c : ports_ok key -> typed c -> typed_table (update_connection t key c).
Proof. intros Hk Hc. unfold update_connection. destruct (pending_removal c); [by apply Forall_map_erase | by apply typed_set]. Qed.

Lemma typed_nextIsn g : typed_table (nextIsn t g).2.
Proof. unfold nextIsn. destruct g; [|done]. by destruct (bool_decide _). Qed.

Lemma table_unknown key seg now g res t' : ports_ok key -> local_port key = destination_port seg -> remote_port key = source_port seg ->
  segment_ok seg -> isn_ok g -> handleUnknown t key seg now g = Some (res, t') -> typed_table t' /\ Forall (well_formed key) (result_segments res).
Proof.
  intros Hk E1 E2 Hs Hg. unfold handleUnknown. pose proof (reset_wf key Hk seg Hs E1 E2) as Hr.
  destruct (negb _); [destruct (rst _); intros [= <- <-]; (split; [done|]); by repeat apply Forall_cons_2|].
  destruct (rst _); [intros [= <- <-]; by split|]. destruct (_ || _); [intros [= <- <-]; split; [done|]; by repeat apply Forall_cons_2|].
  destruct (parseTcpOptions _) as [[opts|e]|]; cbn [mbind option_bind]; [|intros [= <- <-]; by split | done].
  destruct (negb _); [intros [= <- <-]; by split|]. destruct (at_capacity t); [intros [= <- <-]; by split|].
  pose proof (typed_nextIsn g) as Hn. destruct (nextIsn t g) as [[isn|] t1] eqn:En; [|intros [= <- <-]; by split].
  apply nextIsn_frame in En as (N1 & _ & _ & _ & _ & N6). specialize (Hg isn (N6 isn eq_refl)).
  set (c := negotiate _ opts). assert (Hc : typed c) by (by apply typed_negotiate, (typed_part (new_connection SynReceived isn)), typed_new).
  clearbody c. intros [= <- <-]. split; [|repeat apply Forall_cons_2; [by apply synack_wf | constructor]].
  apply typed_set; [done | done|]. apply typed_pending; [|done]. constructor; [|constructor]. by constructor; simpl; [| apply Forall_nil_2 | vm_compute |].
Qed.

Lemma table_synReceived key c seg now res t' : ports_ok key -> map_find (connections t) key = Some c ->
  handleSynReceived t key c seg now = (res, t') -> typed_table t' /\ Forall (well_formed key) (result_segments res).
Proof.
  intros Hk Hf. pose proof (typed_find key c Hf) as Hc. unfold handleSynReceived.
  destruct (rst _); [destruct (_ =? _); intros [= <- <-]; split; try done; by apply Forall_map_erase|].
  destruct (_ && _).
  { destruct (_ =? _); intros [= <- <-]; [|by split]. assert (H : typed (c <| pending := rearm_front now (pending c) |>)).
    { apply typed_pending; [|done]. pose proof (ty_pending _ Hc) as Hp. destruct Hp as [|e l He Hl]; constructor; [by apply (typed_entry_part e) | done]. }
    split; [by apply typed_set|]. repeat apply Forall_cons_2; [by apply synack_wf | constructor]. }
  destruct (_ && _); [|intros [= <- <-]; by split]. destruct (_ && _); [|intros [= <- <-]; by split]. cbv zeta.
  set (c1 := c <| state := Established |> <| rcv_nxt := _ |> <| snd_una := _ |> <| snd_nxt := _ |>).
  assert (H1 : typed c1) by (pose proof (u32_range (remote_isn c + 1)); pose proof (u32_range (local_isn c + 1)); by destruct Hc).
  pose proof (typed_retire c1 (u32 (local_isn c1 + 1)) now (u32_range _) H1) as H2. destruct (retireAcknowledged _ _ _) as [ar c2].
  intros [= <- <-]. split; [|done]. apply typed_set; [done | done|]. by apply (typed_part c2).
Qed.

Lemma table_handle key seg now g res t' : ports_ok key -> local_port key = destination_port seg -> remote_port key = source_port seg ->
  segment_ok seg -> isn_ok g -> handle t key seg now g = Some (res, t') -> typed_table t' /\ Forall (well_formed key) (result_segments res).
Proof.
  intros Hk E1 E2 Hs Hg. unfold handle. destruct (map_find (connections t) key) as [c|] eqn:Ef; [|by apply table_unknown].
  pose proof (typed_find key c Ef) as Hc.
  assert (H : forall o, (forall r, o = Some r -> good_result key r) -> ('(result, connection) ← o; Some (result, update_connection t key connection)) = Some (res, t') ->
    typed_table t' /\ Forall (well_formed key) (result_segments res)).
  { intros [[r c']|] Hr; [|done]. intros [= <- <-]. destruct (Hr _ eq_refl). by split; [apply typed_update|]. }
  destruct (state c); try (apply H; intros r; apply good_synchronized; [done | apply Hs | done]).
  - apply H. intros r. by apply good_synSent.
  - intros E. apply (inj Some) in E. by eapply table_synReceived.
  - pose proof (good_timeWait key Hk c seg now Hc) as [H1 H2]. destruct (handleTimeWait _ _ _ _) as [r c']. intros [= <- <-].
    by split; [apply typed_update|].
Qed.

Lemma table_connect key now g res t' : ports_ok key -> isn_ok g -> beginConnect t key now g = (res, t') ->
  typed_table t' /\ Forall (well_formed key) (option_list (connect_syn res)).
Proof.
  intros Hk Hg. unfold beginConnect. do 3 (destruct (_ : bool); [intros [= <- <-]; by split|]). pose proof (typed_nextIsn g) as Hn.
  destruct (nextIsn t g) as [[isn|] t1] eqn:En; [|intros [= <- <-]; by split].
  apply nextIsn_frame in En as (N1 & _ & _ & _ & _ & N6). specialize (Hg isn (N6 isn eq_refl)). intros [= <- <-].
  pose proof (u32_range (isn + 1)) as Hu. split.
  - apply typed_set; [done | done|]. apply typed_pending; [|by destruct (typed_new SynSent isn Hg)]. apply Forall_singleton.
    by constructor; simpl; [| apply Forall_nil_2 | vm_compute |].
  - apply Forall_singleton. destruct active_options as (Ha1 & Ha2 & Ha3).
    apply well_formed_intro; first [done | by vm_compute | apply typed_window | constructor].
Qed.

Lemma table_send key data now res t' : ports_ok key -> bytes_ok data -> makeOutgoingData t key data now = (res, t') ->
  typed_table t' /\ Forall (well_formed key) (send_segments res).
Proof.
  intros Hk Hb. unfold makeOutgoingData. do 2 (destruct (_ : bool); [intros [= <- <-]; by split|]).
  destruct (map_find (connections t) key) as [c|] eqn:Ef; [|intros [= <- <-]; by split]. apply typed_find in Ef.
  do 3 (destruct (_ : bool); [intros [= <- <-]; by split|]).
  assert (Hc : typed (c <| unsent := unsent c ++ data |>)) by (destruct Ef; constructor; try done; by apply Forall_app).
  pose proof (good_schedule key Hk _ now Hc) as [H1 H2]. destruct (scheduleQueuedData _ _ _) as [segments c']. intros [= <- <-].
  split; [by apply typed_set | done].
Qed.

Lemma table_close key now res t' : ports_ok key -> beginClose t key now = (res, t') ->
  typed_table t' /\ Forall (well_formed key) (option_list (close_fin res)).
Proof.
  intros Hk. unfold beginClose. destruct (map_find (connections t) key) as [c|] eqn:Ef; [|intros [= <- <-]; by split]. apply typed_find in Ef.
  destruct (_ : bool); [intros [= <- <-]; by split|]. assert (Hc : typed (c <| close_requested := true |>)) by (by apply (typed_part c)).
  pose proof (good_fin key Hk _ now Hc) as [H1 H2]. destruct (maybeSequenceFin _ _ _) as [segments c']. intros [= <- <-].
  split; [by apply typed_set; [..|apply typed_persist]|]. simpl in *. destruct H1; [constructor | by apply Forall_singleton].
Qed.

Lemma table_retransmissions now res t' : pollRetransmissions t now = (res, t') ->
  typed_table t' /\ Forall (fun p => ports_ok (fst p) /\ well_formed (fst p) (snd p)) (retransmissions res).
Proof.
  unfold pollRetransmissions, typed_table in *. assert (H : let r := pollRetransmissions_loop now (connections t) in
    Forall (fun p => ports_ok (fst p) /\ typed (snd p)) r.2 /\ Forall (fun p => ports_ok (fst p) /\ well_formed (fst p) (snd p)) (retransmissions r.1)).
  { generalize Ht. generalize (connections t). induction 1 as [|[key c] l [Hk Hc] Hl IH]; [done|]. simpl. destruct (pollRetransmissions_loop now l) as [r l']. simpl in IH. destruct IH as [IH1 IH2].
    pose proof (good_poll key Hk c now Hc) as Hp. destruct (pollConnection key c now) as [|seg c'| |]; simpl;
      [split; [by apply Forall_cons_2 | done] | | done | done].
    destruct Hp as [Hp1 Hp2]. apply Forall_inv in Hp1.
    split; apply Forall_cons_2; try done. }
  destruct (pollRetransmissions_loop now (connections t)) as [r l]. by intros [= <- <-].
Qed.

Lemma table_probes now res t' : pollPersistProbes t now = (res, t') ->
  typed_table t' /\ Forall (fun p => ports_ok (fst p) /\ well_formed (fst p) (snd p)) res.
Proof.
  unfold pollPersistProbes, typed_table in *. assert (H : let r := pollPersist_loop now (connections t) in
    Forall (fun p => ports_ok (fst p) /\ typed (snd p)) r.2 /\ Forall (fun p => ports_ok (fst p) /\ well_formed (fst p) (snd p)) r.1).
  { generalize Ht. generalize (connections t). induction 1 as [|[key c] l [Hk Hc] Hl IH]; [done|]. simpl. destruct (pollPersist_loop now l) as [r l']. simpl in IH. destruct IH as [IH1 IH2].
    pose proof (good_probe key Hk c now Hc) as [Hp1 Hp2]. destruct (persistProbe key c now) as [[probe|] c']; simpl in *; (split; [by apply Forall_cons_2|]); [|done].
    apply Forall_inv in Hp1. by apply Forall_cons_2. }
  destruct (pollPersist_loop now (connections t)) as [r l]. by intros [= <- <-].
Qed.

End Table.

Lemma typed_empty port n h : typed_table (new_table port n h).
Proof. constructor. Qed.

(** What is promised of a segment: it is serialized between any two
    addresses, to at most 1480 bytes, and the other side parses the very
    segment. *)
Definition travels (key : TcpConnectionKey) (seg : TcpSegment) : Prop :=
  source_port seg = local_port key /\ destination_port seg = remote_port key /\ forall s d, ip_ok s -> ip_ok d ->
    exists bytes, serializeTcpSegment seg s d = inl bytes /\ parseTcpSegment bytes s d = Some (inl seg) /\ Zlen bytes <= 1480.

Lemma travels_wf key seg : well_formed key seg -> travels key seg.
Proof.
  intros H. split_and!; [apply H..|]. intros s d Hs Hd. by apply (well_formed_travels key).
Qed.

(** C23 (type). The table only sends what can be sent. Call a table well typed when
    the fields of its connections that go into segments have their machine
    widths, the queued data are bytes, and no queued entry is longer than a
    segment. The empty table is well typed and each of the six operations
    keeps a well-typed table well typed, whatever segment arrives and whatever
    the state of the connections; and every segment it returns (replies,
    retransmissions, scheduled data, FINs, SYNs, resets, probes) carries the
    ports of its connection and is serialized, without one of the three
    errors of the serializer, to at most 1480 bytes that the peer's parser
    reads back as the same segment. *)
Theorem tcp_output_well_typed :
  (forall port n h, typed_table (new_table port n h)) /\
  forall t, typed_table t ->
  (forall key seg now g res t', ports_ok key -> local_port key = destination_port seg -> remote_port key = source_port seg ->
     segment_ok seg -> isn_ok g -> handle t key seg now g = Some (res, t') -> typed_table t' /\ Forall (travels key) (result_segments res)) /\
  (forall key now g res t', ports_ok key -> isn_ok g -> beginConnect t key now g = (res, t') ->
     typed_table t' /\ Forall (travels key) (option_list (connect_syn res))) /\
  (forall key data now res t', ports_ok key -> bytes_ok data -> makeOutgoingData t key data now = (res, t') ->
     typed_table t' /\ Forall (travels key) (send_segments res)) /\
  (forall key now res t', ports_ok key -> beginClose t key now = (res, t') ->
     typed_table t' /\ Forall (travels key) (option_list (close_fin res))) /\
  (forall now res t', pollRetransmissions t now = (res, t') ->
     typed_table t' /\ Forall (fun p => travels (fst p) (snd p)) (retransmissions res)) /\
  (forall now res t', pollPersistProbes t now = (res, t') ->
     typed_table t' /\ Forall (fun p => travels (fst p) (snd p)) res).
Proof.
  assert (Hw : forall key l, Forall (well_formed key) l -> Forall (travels key) l) by (intros key l Hl; exact (Forall_impl _ _ _ Hl (travels_wf key))).
  assert (Hw2 : forall l, Forall (fun p => ports_ok (fst p) /\ well_formed (fst p) (snd p)) l -> Forall (fun p => travels (fst p) (snd p)) l).
  { intros l Hl. eapply Forall_impl; [exact Hl|]. intros p [_ H]. by apply travels_wf. }
  split; [apply typed_empty|]. intros t Ht. split_and!; intros.
  - edestruct (table_handle t Ht); [done..|]. auto.
  - edestruct (table_connect t Ht); [done..|]. auto.
  - edestruct (table_send t Ht); [done..|]. auto.
  - edestruct (table_close t Ht); [done..|]. auto.
  - edestruct (table_retransmissions t Ht); [done..|]. auto.
  - edestruct (table_probes t Ht); [done..|]. auto.
Qed.

(** A SYN arrives at a listening port, and the SYN-ACK travels. *)
Lemma tcp_output_well_typed_witness :
  let key := mkKey (Ipv4 10 0 0 2) 8080 (Ipv4 10 0 0 1) 40000 in
  let syn_segment := mkTcpSegment 40000 8080 1000 0 (no_flags <| syn := true |>) 65535 0 [] [] in
  exists t' reply, handle (new_table 8080 16 4) key syn_segment 0 (Some 7) = Some (no_result <| TcpState.reply := Some reply |>, t') /\
    typed_table t' /\ travels key reply.
Proof.
  intros key syn_segment. eexists _, _. split; [reflexivity|].
  destruct tcp_output_well_typed as [Hnew H]. destruct (H _ (Hnew 8080 16 4)) as [Hh _].
  destruct (Hh key syn_segment 0 (Some 7) _ _ ltac:(split; by vm_compute) eq_refl eq_refl
    ltac:(constructor; first [by vm_compute | constructor]) ltac:(intros v [= <-]; by vm_compute) eq_refl) as [H1 H2].
  split; [exact H1|]. by inversion H2.
Defined.
