(* ===== verification/TcpFlow.v ===== *)
(** * What a connection sends

    The sending side against its specification: an application writes bytes
    and closes, and every segment the connection ever sends, whether new,
    retransmitted or a probe, is a piece of what was written, with a FIN only
    at its end, and acknowledges a position it has received up to. *)

From S2P Require Import Prelude StdMap Addresses Tcp SeqNum TcpState TcpCongestion.
From S2P Require Import TcpSegments TcpSender TcpReceiver TcpHandler TcpTable TcpInvariant TcpOutput.

(** ** The specification *)

(** What the application has written, and whether the end was sent. *)
Record Written := mkWritten { w_bytes : list Z; w_ended : bool }.

(** More may be written until the end was sent. *)
Definition extends (w w' : Written) : Prop :=
  (w_ended w = true -> w' = w) /\ w_bytes w `prefix_of` w_bytes w'.

Lemma extends_refl w : extends w w.
Proof. by split. Qed.

Lemma extends_length w w' : extends w w' -> Zlen (w_bytes w) <= Zlen (w_bytes w').
Proof. intros [_ H]. apply prefix_length in H. unfold Zlen. lia. Qed.

Section Flow.
(** The positions of the first byte sent and of the first byte received. *)
Context (A0 B0 : Z).

Definition last_position (w : Written) : Z := A0 + Zlen (w_bytes w).

(** A segment at position [pos]: from position [U] on its bytes are those
    written there, a FIN is at the end, and what it acknowledges is at most
    [R]. (The one byte of a window probe comes before [U].) *)
Record slice_at (w : Written) (U R pos : Z) (seg : TcpSegment) : Prop := {
  sl_seq : sequence_number seg = u32 pos;
  sl_range : A0 - 1 <= pos <= last_position w + 1;
  sl_bytes : forall k b, payload seg !! k = Some b -> U <= pos + Z.of_nat k ->
    w_bytes w !! Z.to_nat (pos + Z.of_nat k - A0) = Some b;
  sl_fin : fin (flags seg) = true -> w_ended w = true /\ pos + Zlen (payload seg) = last_position w;
  sl_syn : syn (flags seg) = false;
  sl_ack : rst (flags seg) = false -> ack (flags seg) = true /\ exists q, acknowledgment_number seg = u32 q /\ B0 <= q <= R
}.

Definition slice (w : Written) (U R : Z) (seg : TcpSegment) : Prop := exists pos, slice_at w U R pos seg.

Lemma slice_mono w w' U U' R R' seg : extends w w' -> U <= U' -> R <= R' -> slice w U R seg -> slice w' U' R' seg.
Proof.
  intros Hw HU HR (pos & [S1 S2 S3 S4 S5 S6]). pose proof (extends_length _ _ Hw). exists pos. unfold last_position in *. constructor; auto.
  - unfold last_position. lia.
  - intros k b Hk Hp. eapply prefix_lookup_Some; [apply S3; [done | lia] | apply Hw].
  - intros Hf. destruct (S4 Hf) as [He Hp]. by rewrite (proj1 Hw He).
  - intros Hr. destruct (S6 Hr) as (Ha & q & E & Hq). split; [done|]. exists q. split; [done | lia].
Qed.

(** The flags of an entry that is not a SYN. *)
Definition entry_flags (e : PendingTransmission) : Prop :=
  fin (p_flags e) = is_fin e /\ syn (p_flags e) = false /\ is_active_syn e = false /\ ack (p_flags e) = true.

(** The connection holds what was written and is not acknowledged, from
    position [U] on. *)
Record flow (w : Written) (U : Z) (c : Connection) : Prop := {
  fl_una : snd_una c = u32 U;
  fl_low : A0 <= U;
  fl_nxt : U + pend_len (pending c) + Zlen (unsent c) = last_position w + (if has_value (local_fin_seq c) then 1 else 0);
  fl_owned : forall k b, owned c !! k = Some b -> w_bytes w !! (Z.to_nat (U - A0) + k)%nat = Some b;
  fl_flags : Forall entry_flags (pending c);
  fl_ended : w_ended w = has_value (local_fin_seq c)
}.

(** ** Queues *)

Lemma pend_len_exact has l : Forall (fun e => is_syn e = false) l -> fin_shape has l ->
  pend_len l = Zlen (app_bytes l) + (if has && negb (empty l) then 1 else 0).
Proof.
  intros Hs. revert has. induction Hs as [|e l He Hl IH]; intros has Hf; [by destruct has|].
  unfold app_bytes. cbn [map concat]. fold (app_bytes l). rewrite Zlen_app. simpl pend_len. unfold seq_len. rewrite He.
  destruct l as [|e2 l].
  - simpl in *. rewrite Hf. change (Zlen (app_bytes [])) with 0. rewrite andb_true_r. lia.
  - destruct Hf as [Hf1 Hf2]. specialize (IH has Hf2). rewrite Hf1. simpl in *. lia.
Qed.

Lemma fin_shape_front has l1 e l2 : fin_shape has (l1 ++ e :: l2) -> fin_shape false l1 /\ (is_fin e = true -> l2 = [] /\ has = true).
Proof.
  induction l1 as [|a l1 IH]; simpl; intros H.
  - split; [done|]. intros He. destruct l2; [by rewrite <- H | destruct H; congruence].
  - destruct (l1 ++ e :: l2) as [|x l] eqn:E; [by destruct l1|]. destruct H as [H1 H2]. destruct (IH H2) as [I1 I2].
    split; [|done]. by destruct l1.
Qed.

(** A queued entry sits at its place in what was written. *)
Lemma entry_slice w U R c i e seg : sender_ok c -> flow w U c -> pending c !! i = Some e -> B0 <= R ->
  sequence_number seg = sequence_start e -> payload seg = p_payload e -> flags seg = p_flags e ->
  acknowledgment_number seg = u32 R -> slice w U R seg.
Proof.
  intros Hs [F1 F2 F3 F4 F5 F6] Hi HR E1 E2 E3 E4. apply list_elem_of_split_length in Hi as (l1 & l2 & Hp & _).
  pose proof (so_nosyn _ Hs) as Hn. pose proof (so_fin _ Hs) as Hf. pose proof (so_chain _ Hs) as Hc. pose proof (so_entries _ Hs) as He.
  rewrite Hp in *. destruct (fin_shape_front _ _ _ _ Hf) as [Hf1 Hf2]. apply Forall_app in Hn as [Hn1 Hn2].
  pose proof (pend_len_exact _ _ Hn1 Hf1) as Hl. simpl in Hl. rewrite Z.add_0_r in Hl.
  rewrite F1 in Hc. apply (pend_chain_u32 _ U) in Hc; [|by u32_norm]. apply pend_chain_app in Hc as [_ [Hstart _]].
  apply Forall_app in F5 as [_ F5]. apply Forall_inv in F5 as (G1 & G2 & G3 & G4).
  apply Forall_app in He as [He1 He2]. pose proof (Forall_inv He2) as He0. pose proof (pend_len_nonneg _ He1). pose proof (pend_len_nonneg _ (Forall_inv_tail He2)).
  pose proof (entry_ok_seq_len e He0). pose proof (Zlen_nonneg (unsent c)). rewrite pend_len_app in F3. simpl in F3.
  exists (U + pend_len l1). constructor.
  - congruence.
  - destruct (has_value _); lia.
  - intros k b Hk _. rewrite E2 in Hk. replace (Z.to_nat (U + pend_len l1 + Z.of_nat k - A0)) with (Z.to_nat (U - A0) + (length (app_bytes l1) + k))%nat
      by (unfold Zlen in Hl; lia).
    apply F4. unfold owned. rewrite Hp, app_bytes_app, <- app_assoc, lookup_app_r by lia. rewrite Nat.add_comm, Nat.add_sub.
    unfold app_bytes. cbn [map concat]. rewrite <- app_assoc. by apply lookup_app_l_Some.
  - rewrite E3, G1. intros Hfin. destruct (Hf2 Hfin) as [-> Hhas]. rewrite F6. split; [done|]. rewrite Hhas in F3. simpl in F3.
    assert (Hu : unsent c = []) by (destruct (local_fin_seq c) as [f|] eqn:Ef; [by apply (so_fin_seq _ Hs f) | done]).
    rewrite Hu in F3. change (Zlen []) with 0 in F3. apply Forall_inv in Hn2. unfold seq_len in F3. rewrite Hn2, Hfin in F3. rewrite E2. lia.
  - by rewrite E3.
  - intros _. rewrite E3. split; [done|]. by exists R.
Qed.

(** ** The stages *)

Lemma remarked_flags l l' : Forall2 remarked l l' -> Forall entry_flags l -> Forall entry_flags l'.
Proof.
  induction 1 as [|e e' l l' He Hl IH]; intros F5; [constructor|]. apply Forall_cons in F5 as [F5 F6]. constructor; [|auto].
  destruct He as (_ & _ & E1 & E2 & E3 & _). unfold entry_flags. by rewrite E1, E2, E3.
Qed.

Lemma flow_entries w U c c' : flow w U c -> pend_len (pending c') = pend_len (pending c) -> app_bytes (pending c') = app_bytes (pending c) ->
  Forall entry_flags (pending c') -> (snd_una c', unsent c', local_fin_seq c') = (snd_una c, unsent c, local_fin_seq c) -> flow w U c'.
Proof. intros [F1 F2 F3 F4 F5 F6] Hl Hb Hf [= E1 E2 E3]. constructor; unfold owned; rewrite ?E1, ?E3, ?Hl, ?Hb, ?E2; auto. Qed.

Lemma flow_remarked w U c c' : flow w U c -> Forall2 remarked (pending c) (pending c') ->
  (snd_una c', unsent c', local_fin_seq c') = (snd_una c, unsent c, local_fin_seq c) -> flow w U c'.
Proof.
  intros HF Hm E. apply (flow_entries w U c); auto; [by apply remarked_len | by apply remarked_app_bytes|].
  apply (remarked_flags _ _ Hm), HF.
Qed.

Lemma flow_part w U c c' : send_part c' = send_part c -> flow w U c -> flow w U c'.
Proof. unfold send_part. intros [= E1 E2 E3 E4 E5 E6] H. apply (flow_remarked w U c); [done | rewrite E3; apply remarked_list_refl | congruence]. Qed.

Lemma retire_loop_Forall (P : PendingTransmission -> Prop) a l acked sample front : (forall e d, P e -> P (trim_entry e a d)) ->
  Forall P l -> Forall P (ret_pending (retire_loop a l acked sample front)).
Proof.
  intros HP Hl. revert acked sample front. induction Hl as [|e l He Hl IH]; intros; [constructor|]. simpl.
  destruct (sequenceLessOrEqual _ _); [by destruct (_ && _); apply IH|]. destruct (sequenceGreater _ _); [|by constructor].
  destruct (_ && _); (constructor; [by apply (HP e (u32 (a - sequence_start e))) | done]).
Qed.

(** An acknowledgement moves [U] to the position it names, or not at all. *)
Lemma flow_retire w U c q now res c' : sender_ok c -> flow w U c -> Zlen (w_bytes w) < 2 ^ 31 -> A0 <= q <= last_position w + 1 ->
  sequenceLessOrEqual (u32 q) (snd_nxt c) = true -> retireAcknowledged c (u32 q) now = (res, c') ->
  exists U', flow w U' c' /\ U <= U' /\ (U' = U \/ U' = q).
Proof.
  intros Hs F Hw Hq Hle E. pose proof F as [F1 F2 F3 F4 F5 F6].
  destruct (retireAcknowledged_spec _ _ _ _ _ Hs (u32_range q) Hle E) as (R1 & R2 & R3 & R4 & R5 & R6 & R7 & R8).
  destruct (ack_advanced res) eqn:Ea; [|exists U; rewrite (R8 eq_refl); split_and!; [done | lia | by left]].
  specialize (R7 eq_refl). destruct (retireAcknowledged_frame _ _ _ _ _ E (proj1 R6 eq_refl)) as (l & s & v & o & h & -> & Hm & _ & _).
  set (c' := with_retired c (u32 q) l s v o h) in *. assert (Hp : pending c' = l) by done. assert (Hun : unsent c' = unsent c) by done.
  assert (Hfin : local_fin_seq c' = local_fin_seq c) by done. assert (Hnxt : snd_nxt c' = snd_nxt c) by done. clearbody c'.
  pose proof (Zlen_nonneg (unsent c)). pose proof (pend_len_nonneg _ (so_entries _ R1)). unfold last_position in *.
  assert (HU : U + newly_acked_sequence_space res = q).
  { apply u32_eq_near; [|destruct (has_value _); lia]. rewrite (so_nxt _ R1), (so_nxt _ Hs), R7, F1 in Hnxt. u32_norm. ulia. }
  exists q. split; [|split; [lia | by right]]. constructor; rewrite ?Hun, ?Hfin; auto; [lia | unfold last_position; lia | |].
  - intros k b Hk. rewrite R2 in Hk. assert (Hne : owned c' <> []) by (rewrite R2; by destruct (drop _ _)).
    assert (Hd : newly_acked_data_bytes res = newly_acked_sequence_space res).
    { pose proof (pend_len_exact _ _ (so_nosyn _ Hs) (so_fin _ Hs)) as L1. pose proof (pend_len_exact _ _ (so_nosyn _ R1) (so_fin _ R1)) as L2.
      rewrite Hfin in L2. apply (f_equal Zlen) in R2. unfold owned in R2 at 1. rewrite Zlen_app, Hun in R2. unfold Zlen at 3 in R2. rewrite length_drop in R2.
      unfold owned in R2, R4. rewrite length_app in R2. rewrite Zlen_app in R4. unfold Zlen in R2, R4, L1, L2.
      assert (Hx : has_value (local_fin_seq c) && negb (empty (pending c')) = has_value (local_fin_seq c) && negb (empty (pending c))).
      { destruct (local_fin_seq c) as [f|] eqn:Ef; [|done]. simpl. destruct (so_fin_seq _ R1 f Hfin) as [Hz _].
        destruct (pending c') eqn:E1; [unfold owned in Hne; by rewrite E1, Hz in Hne|]. destruct (pending c) eqn:E2; [|done].
        pose proof (so_entries _ R1) as Hx. rewrite E1 in Hx. simpl in R5.
        pose proof (entry_ok_seq_len _ (Forall_inv Hx)). pose proof (pend_len_nonneg _ (Forall_inv_tail Hx)). lia. }
      rewrite Hx in L2. lia. }
    rewrite lookup_drop in Hk. apply F4 in Hk. rewrite <- Hk. f_equal. lia.
  - rewrite Hp. apply (remarked_flags _ _ Hm), retire_loop_Forall; done.
Qed.

Lemma flow_processAck w U R runs c seg blocks q now res changed c' : sync_ok R runs c -> segment_ok seg -> flow w U c ->
  Zlen (w_bytes w) < 2 ^ 31 -> acknowledgment_number seg = u32 q -> A0 <= q <= last_position w + 1 ->
  sequenceLessOrEqual (acknowledgment_number seg) (snd_nxt c) = true -> processAck c seg blocks now = (res, changed, c') ->
  exists U', flow w U' c' /\ U <= U' /\ (U' = U \/ U' = q).
Proof.
  intros [S1 _ _ S4 S5 _] Hseg HF Hw Eq Hq Hle. unfold processAck. rewrite Eq in *.
  destruct (retireAcknowledged c (u32 q) now) as [res1 c1] eqn:E1. destruct (flow_retire _ _ _ _ _ _ _ S1 HF Hw Hq Hle E1) as (U' & H1 & H2).
  destruct (retireAcknowledged_spec _ _ _ _ _ S1 (u32_range q) Hle E1) as (R1 & _).
  set (c2 := if sack_permitted c1 then _ else _). assert (Hm : remarked_conn c1 c2).
  { unfold c2. destruct (sack_permitted c1); [apply applySackBlocks_remarked | apply remarked_conn_refl]. }
  destruct Hm as (l & -> & Hm). intros [= <- <- <-]. exists U'. split; [|done].
  apply (flow_remarked w U' c1); [done | |]; unfold updateSendWindow; by destruct (negb _).
Qed.

(** [s] is the transmission of a queued entry, acknowledging [c]'s position. *)
Definition resends (c : Connection) (s : TcpSegment) : Prop := exists i e, pending c !! i = Some e /\
  sequence_number s = sequence_start e /\ payload s = p_payload e /\ flags s = p_flags e /\ acknowledgment_number s = rcv_nxt c.

Lemma resends_slice w U R c s : sender_ok c -> flow w U c -> rcv_nxt c = u32 R -> B0 <= R -> resends c s -> slice w U R s.
Proof. intros Hs HF HR HB (i & e & Hi & E1 & E2 & E3 & E4). eapply (entry_slice w U R c); eauto. congruence. Qed.

Lemma ack_slice w U R c seg : sender_ok c -> flow w U c -> rcv_nxt c = u32 R -> B0 <= R -> sequence_number seg = snd_nxt c ->
  payload seg = [] -> fin (flags seg) = false -> syn (flags seg) = false -> ack (flags seg) = true -> acknowledgment_number seg = rcv_nxt c -> slice w U R seg.
Proof.
  intros Hs [F1 F2 F3 F4 F5 _] HR HB E1 E2 E3 E4 E5 E6. pose proof (pend_len_nonneg _ (so_entries _ Hs)). pose proof (Zlen_nonneg (unsent c)).
  exists (U + pend_len (pending c)). constructor; auto.
  - rewrite E1, (so_nxt _ Hs), F1. by u32_norm.
  - destruct (has_value _); lia.
  - intros k b. rewrite E2. by rewrite lookup_nil.
  - congruence.
  - intros _. split; [done|]. exists R. split; [congruence | lia].
Qed.

Lemma recovery_resends key c now s c' : recoveryRetransmit key c now = (Some s, c') -> resends c' s.
Proof.
  unfold recoveryRetransmit, selectRecoveryRetransmission. destruct (selectRecovery_from _ _ _) as [[i e]|] eqn:E; [|done].
  apply selectRecovery_from_lookup in E as (k & -> & Hk & _). intros [= <- <-]. exists k. simpl.
  rewrite list_lookup_insert_eq by (by eapply lookup_lt_Some). by eexists.
Qed.

Lemma congestion_resends key c seg res changed now s c' : congestionStep key c seg res changed now = (Some s, c') -> resends c' s.
Proof.
  unfold congestionStep. destruct (ack_advanced res).
  - cbv zeta. destruct (in_fast_recovery _); [destruct (sequenceLessOrEqual _ _)|]; try done. apply recovery_resends.
  - destruct (isDuplicateAck _ _ _); [cbv zeta; destruct (in_fast_recovery _); [destruct (sack_permitted _)|destruct (_ =? 3)]|destruct changed]; try done;
      apply recovery_resends.
Qed.

(** A state change of the local FIN leaves the queue as it is. *)
Lemma localFin_send c now : sender_ok c -> send_part (localFinStep c now) = send_part c.
Proof.
  intros Hs. unfold localFinStep. destruct (local_fin_seq c) as [f|] eqn:Ef; [|by rewrite !andb_false_r].
  destruct (sequenceLessOrEqual _ _) eqn:Ea; [|by rewrite !andb_false_r]. apply (fin_acked_iff c f Hs Ef) in Ea.
  destruct (_ && _); [done|]. destruct (_ && _); [|by destruct (_ && _)]. unfold send_part. simpl. by rewrite Ea.
Qed.

(** ** Scheduling *)

Definition ended_by (w : Written) (c : Connection) : Written := mkWritten (w_bytes w) (has_value (local_fin_seq c)).

Definition fin_len (c : Connection) : Z := if has_value (local_fin_seq c) then 1 else 0.

Lemma flow_scheduled w U c segs ents c' : scheduled_from c segs ents c' -> flow w U c ->
  pend_len (pending c') + Zlen (unsent c') + fin_len c = pend_len (pending c) + Zlen (unsent c) + fin_len c' ->
  flow (ended_by w c') U c' /\ Forall (resends c') segs.
Proof.
  intros [S1 S2 S3 S4 S5 S6 _ _ _ _ _ _] [F1 F2 F3 F4 F5 F6] Hl. fold (fin_len c) in F3. split.
  - constructor; auto; [congruence | fold (fin_len c'); change (last_position (ended_by w c')) with (last_position w); lia | |].
    + unfold owned in *. rewrite S1, app_bytes_app, <- app_assoc, S3. exact F4.
    + rewrite S1. apply Forall_app. split; [done|]. clear -S2. induction S2 as [|s e l l' H Hl IH]; constructor; [|done].
      destruct H as (_ & _ & E & _ & E1 & E2 & E3 & E4 & _). unfold entry_flags. by rewrite <- E.
  - apply Forall_lookup_2. intros i s Hi. destruct (Forall2_lookup_l _ _ _ _ _ S2 Hi) as (e & He & E1 & E2 & E3 & E4 & _).
    exists (length (pending c) + i)%nat, e. rewrite S1, lookup_app_r by lia. unfold recv_part in S6. split_and!; [|congruence..].
    rewrite <- He. f_equal. lia.
Qed.

Lemma flow_schedule key w U R runs c now segs c' : sync_ok R runs c -> pending_removal c = false -> sendable (state c) = true -> flow w U c ->
  scheduleQueuedData key c now = (segs, c') -> flow (ended_by w c') U c' /\ Forall (resends c') segs.
Proof.
  intros [S1 S2 S3 S4 S5 S6] Hr Hsend HF E. rewrite Hr in S6. pose proof (sendable_no_fin c S6 Hsend) as Hf.
  destruct (scheduleQueuedData_spec key c now segs c' S1 S4 S3 Hf E) as (Q1 & (ents & Q2 & Q3 & _) & Q4 & _).
  apply (flow_scheduled w U c segs ents c' Q2 HF). pose proof (f_equal Zlen (sf_bytes _ _ _ _ Q2)) as Hb. rewrite Zlen_app in Hb. unfold fin_len. rewrite Hf. simpl.
  destruct Q4 as [(-> & _ & Hl)|(f & -> & _ & _ & _ & Hl & _)]; simpl; lia.
Qed.

Lemma flow_sendable key w U R runs c now segs c' : sync_ok R runs c -> flow w U c -> scheduleIfSendable key c now = (segs, c') ->
  flow (ended_by w c') U c' /\ Forall (resends c') segs /\ extends w (ended_by w c').
Proof.
  intros Hok HF E. assert (Hx : forall w', w_bytes w' = w_bytes w -> (w_ended w = true -> w_ended w' = true) -> extends w w').
  { intros [b e] Hb He. simpl in *. subst b. split; [|done]. intros Hew. destruct w as [b ew]. simpl in *. by rewrite Hew, (He Hew). }
  revert E. unfold scheduleIfSendable. fold (sendable (state c)). destruct (pending_removal c) eqn:Hr; cbn [negb andb]; [|destruct (sendable (state c)) eqn:Hs].
  2: { intros E. destruct (flow_schedule key w U R runs c now segs c' Hok Hr Hs HF E). split_and!; auto. apply Hx; [done|].
       pose proof (sy_state _ _ _ Hok) as Hst. rewrite Hr in Hst. rewrite (fl_ended _ _ _ HF), (sendable_no_fin c Hst Hs). done. }
  all: destruct (updatePersistState_frame c now) as (d & i & -> & _); intros [= <- <-];
    (assert (Ew : ended_by w (c <| persist_deadline := d |> <| persist_interval := i |>) = w) by
      (unfold ended_by; simpl; rewrite <- (fl_ended _ _ _ HF); by destruct w));
    rewrite Ew; split_and!; [by apply (flow_part w U c) | constructor | apply extends_refl].
Qed.

(** ** The handlers *)

(** What processing does to the sending side: nothing more is written, the
    position of the unacknowledged bytes may move to [q], and the segments
    sent are slices. *)
Definition continues (w : Written) (U q R : Z) (segs : list TcpSegment) (c' : Connection) : Prop :=
  exists w' U', w_bytes w' = w_bytes w /\ extends w w' /\ flow w' U' c' /\ U <= U' /\ (U' = U \/ U' = q) /\ Forall (slice w' U' R) segs.

Lemma continues_same w U q R segs c : flow w U c -> Forall (slice w U R) segs -> continues w U q R segs c.
Proof. intros HF Hs. exists w, U. split_and!; auto using extends_refl; lia. Qed.

Lemma pure_ack_slice key w U R c start : sender_ok c -> flow w U c -> rcv_nxt c = u32 R -> B0 <= R -> slice w U R (makePureAck key c start).
Proof. intros. by eapply ack_slice. Qed.

Lemma flow_finished key w U R R' rest c retransmit now res c' : flow w U c -> B0 <= R <= R' ->
  Forall (slice w U R) (option_list retransmit) -> finished key c retransmit now R' rest res c' -> continues w U U R' (result_segments res) c'.
Proof.
  intros HF HR Hret (c1 & start & Hok & Hp & E & Hf & Hreply). assert (HF1 : flow w U c1) by (by apply (flow_part w U c)).
  destruct (flow_sendable key w U R' rest c1 now _ _ Hok HF1 E) as (F1 & F2 & F3).
  destruct (scheduleIfSendable_sync _ _ _ _ _ _ _ Hok E) as (Hok' & _). pose proof (ro_nxt _ _ _ (sy_recv _ _ _ Hok')) as Hn.
  exists (ended_by w c'), U. split_and!; auto; [lia|]. unfold result_segments. rewrite Hf, !Forall_app. split_and!.
  - destruct Hreply as [-> | ->]; [constructor|]. apply Forall_singleton. apply pure_ack_slice; [apply Hok' | done | done | lia].
  - eapply Forall_impl; [exact Hret|]. intros s. apply slice_mono; [done | lia | lia].
  - eapply Forall_impl; [exact F2|]. intros s. apply resends_slice; [apply Hok' | done | done | lia].
Qed.

Lemma continues_trans w w1 U U1 q R R' segs c : w_bytes w1 = w_bytes w -> extends w w1 -> U <= U1 -> U1 = U \/ U1 = q ->
  R <= R' -> continues w1 U1 U1 R segs c -> continues w U q R' segs c.
Proof.
  intros H1 H2 H3 H4 HR (w' & U' & G1 & G2 & G3 & G4 & G5 & G6). exists w', U'. split_and!; try lia; try congruence; try done.
  - destruct H2 as [A1 A2], G2 as [B1 B2]. split; [|by etrans]. intros He. specialize (A1 He). subst w1. by apply B1.
  - eapply Forall_impl; [exact G6|]. intros s. by apply slice_mono; [apply extends_refl|..].
Qed.

(** The stages of acknowledgement processing. *)
Lemma flow_ackStages key w U R runs c seg blocks q now res changed c1 retransmit c2 : sync_ok R runs c -> pending_removal c = false ->
  state c <> TimeWait -> segment_ok seg -> flow w U c -> Zlen (w_bytes w) < 2 ^ 31 -> acknowledgment_number seg = u32 q ->
  A0 <= q <= last_position w + 1 -> B0 <= R -> sequenceLessOrEqual (acknowledgment_number seg) (snd_nxt c) = true ->
  processAck c seg blocks now = (res, changed, c1) -> congestionStep key c1 seg res changed now = (retransmit, c2) ->
  exists U', flow w U' (localFinStep c2 now) /\ U <= U' /\ (U' = U \/ U' = q) /\ Forall (slice w U' R) (option_list retransmit).
Proof.
  intros Hok Hrem Htw Hseg HF Hw Eq Hq HB Hle E1 E2. pose proof Hok as [S1 S2 S3 S4 S5 S6].
  destruct (flow_processAck _ _ _ _ _ _ _ _ _ _ _ _ Hok Hseg HF Hw Eq Hq Hle E1) as (U' & F1 & F2 & F3).
  destruct (processAck_spec _ _ _ _ _ _ _ S1 S4 S5 (sg_ack _ Hseg) (sg_window _ Hseg) Hle E1)
    as (P1 & _ & P3 & P4 & P5 & _ & _ & _ & _ & P10 & _ & P12 & _).
  destruct (congestionStep_spec _ _ _ _ _ _ _ _ ltac:(by apply (congestion_ok_part c)) P10 P12 E2) as [(C1 & C2 & _ & C4 & _) _].
  assert (Hs2 : sender_ok c2) by (by eapply sender_ok_remark).
  assert (HF2 : flow w U' c2) by (apply (flow_remarked w U' c1); [done | done | unfold send_part in C1; simpl in C1; congruence]).
  exists U'. split_and!; try done; [by apply (flow_part w U' c2); [apply localFin_send|]|].
  destruct retransmit as [s|]; [|constructor]. apply Forall_singleton, (resends_slice w U' R c2); try done.
  - rewrite <- (ro_nxt _ _ _ S2). unfold recv_part in *. congruence.
  - by eapply congestion_resends.
Qed.

Lemma flow_synchronized key w U R runs c seg pos q now res c' : sync_ok R runs c -> pending_removal c = false -> state c <> TimeWait ->
  segment_ok seg -> sequence_number seg = u32 pos -> seq_plausible R pos -> flow w U c -> Zlen (w_bytes w) < 2 ^ 31 -> B0 <= R ->
  (rst (flags seg) = false -> acknowledgment_number seg = u32 q /\ A0 <= q <= last_position w + 1) ->
  handleSynchronized key c seg now = Some (res, c') ->
  continues w U q (R + Zlen (accepted_payload res) + (if peer_closed res then 1 else 0)) (result_segments res) c'.
Proof.
  intros Hok Hrem Htw Hseg Hpos Hpl HF Hw HB Hq. unfold handleSynchronized.
  assert (Hnone : forall r, result_segments r = [] -> Some (r, c) = Some (res, c') ->
    continues w U q (R + Zlen (accepted_payload res) + (if peer_closed res then 1 else 0)) (result_segments res) c').
  { intros r Hr [= <- <-]. rewrite Hr. by apply continues_same. }
  destruct (syn (flags seg)).
  { destruct (negb _); [by apply Hnone|]. intros [= <- <-]. apply continues_same; [done|]. apply Forall_singleton.
    simpl. change (Zlen []) with 0. rewrite !Z.add_0_r. apply pure_ack_slice; [apply Hok | done | apply Hok | done]. }
  destruct (parseTcpOptions (options seg)) as [[opts|]|]; [|by apply Hnone | done]. cbn [mbind option_bind].
  destruct (rst (flags seg)) eqn:Er.
  { destruct (_ =? _); [|by apply Hnone]. intros [= <- <-]. apply continues_same; [by apply (flow_part w U c) | constructor]. }
  destruct (Hq eq_refl) as [Eq Hq']. destruct (negb (ack _)); [by apply Hnone|]. destruct (sequenceLessOrEqual _ _) eqn:Ele; [|by apply Hnone]. cbn [negb].
  destruct (processAck c seg (sack_blocks opts) now) as [[ar changed] c1] eqn:E1.
  destruct (congestionStep key c1 seg ar changed now) as [retransmit c2] eqn:E2.
  destruct (flow_ackStages _ _ _ _ _ _ _ _ _ _ _ _ _ _ _ Hok Hrem Htw Hseg HF Hw Eq Hq' HB Ele E1 E2) as (U' & G1 & G2 & G3 & G4).
  destruct (ackStages_spec _ _ _ _ _ _ _ _ _ _ _ _ Hok Hrem Htw Hseg Ele E1 E2) as [Hok' _].
  destruct (empty (payload seg) && _).
  - destruct (finishPureAck_spec key R runs (localFinStep c2 now) seg pos retransmit now Hok') as (r & c3 & -> & Hr & _ & _ & Hfin).
    intros [= <- <-]. rewrite <- (rv_pos _ _ _ _ _ _ _ _ _ Hr).
    apply (continues_trans w w U U' q R); auto using extends_refl; [lia|]. by apply (flow_finished key w U' R R runs (localFinStep c2 now) retransmit now).
  - destruct (receiveSegment_spec key R runs (localFinStep c2 now) seg pos retransmit now Hok' Hseg Hpos Hpl) as (r & R' & rest & c3 & -> & Hr & _ & Hfin).
    intros [= <- <-]. rewrite <- (rv_pos _ _ _ _ _ _ _ _ _ Hr). pose proof (rv_pos _ _ _ _ _ _ _ _ _ Hr) as HR'. pose proof (Zlen_nonneg (accepted_payload r)).
    apply (continues_trans w w U U' q R'); auto using extends_refl; [lia|].
    apply (flow_finished key w U' R R' rest (localFinStep c2 now) retransmit now); auto. destruct (peer_closed r); lia.
Qed.

Lemma flow_timeWait key w U R runs c seg q now res c' : sync_ok R runs c -> flow w U c -> B0 <= R ->
  handleTimeWait key c seg now = (res, c') -> continues w U q R (result_segments res) c'.
Proof.
  intros Hok HF HB. unfold handleTimeWait.
  assert (Hnone : continues w U q R (result_segments no_result) c) by (by apply continues_same).
  destruct (rst _); [destruct (_ =? _); intros [= <- <-]; [by apply continues_same; [apply (flow_part w U c)|]|done]|].
  destruct (_ || _); [by intros [= <- <-]|]. destruct (_ && _); intros [= <- <-]; [|done]. apply continues_same; [by apply (flow_part w U c)|].
  apply Forall_singleton, pure_ack_slice; [by apply (sender_ok_part c), Hok | by apply (flow_part w U c) | apply Hok | done].
Qed.

(** ** Timers *)

Lemma flow_poll key w U R runs c now seg c' : sync_ok R runs c -> pending_removal c = false -> flow w U c -> B0 <= R ->
  pollConnection key c now = Retransmitted seg c' -> flow w U c' /\ slice w U R seg.
Proof.
  intros Hok Hrem HF HB E. destruct (pollConnection_sync _ _ _ _ _ _ _ Hok Hrem E) as (Hok' & _). pose proof (so_nosyn _ (sy_send _ _ _ Hok)) as Hn.
  assert (H : flow w U c' /\ resends c' seg).
  { revert E. unfold pollConnection. destruct (state_eqb _ _); [destruct (time_wait_deadline c); [by destruct (_ <=? _) | done]|].
    destruct (pending c) as [|oldest l] eqn:Ep; [done|]. destruct (now <? _); [done|]. destruct (_ <=? _); [done|].
    set (c1 := if _ && _ then _ else c). assert (Hm : Forall2 remarked (pending c) (pending c1) /\
      (snd_una c1, unsent c1, local_fin_seq c1) = (snd_una c, unsent c, local_fin_seq c)).
    { unfold c1. destruct (_ && _); (split; [|done]); [apply remarked_map; intros e; unfold remarked; simpl; tauto | apply remarked_list_refl]. }
    destruct Hm as [Hm Hsame]. apply (flow_remarked w U c c1 HF Hm) in Hsame as HF1. rewrite <- Ep in Hn. apply (remarked_nosyn _ _ Hm) in Hn. clearbody c1.
    pose proof (fl_flags _ _ _ HF1) as Hfl. destruct (pending c1) as [|e rest] eqn:Ep1; [done|]. intros [= <- <-].
    apply Forall_inv in Hn. pose proof (Forall_inv Hfl) as (_ & _ & G3 & _). split.
    - apply (flow_entries w U c1); rewrite ?Ep1; try done. apply Forall_cons in Hfl as [? ?]. by apply Forall_cons_2.
    - exists 0%nat. eexists. split; [reflexivity|]. simpl. rewrite G3, Hn. done. }
  destruct H as [H1 H2]. split; [done|]. apply (resends_slice w U R c'); [apply Hok' | done | apply Hok' | done | done].
Qed.

(** A window probe repeats the sequence number before the first byte that is
    not acknowledged. *)
Lemma flow_probe key w U R runs c now s c' : sync_ok R runs c -> flow w U c -> B0 <= R ->
  persistProbe key c now = (s, c') -> flow w U c' /\ Forall (slice w U R) (option_list s).
Proof.
  intros Hok HF HB E. destruct (persistProbe_frame _ _ _ _ _ E) as (d & i & ->).
  split; [by apply (flow_part w U c)|]. revert E. unfold persistProbe. destruct (persist_deadline c); [|by intros [= <- _]].
  destruct (now <? _); [by intros [= <- _]|]. destruct (persistEligible c) eqn:Ee; cbn [negb]; [|by intros [= <- _]]. intros [= <- _ _].
  unfold persistEligible in Ee. bprop. apply Forall_singleton. destruct HF as [F1 F2 F3 _ _ _].
  pose proof (pend_len_nonneg _ (so_entries _ (sy_send _ _ _ Hok))). pose proof (Zlen_nonneg (unsent c)).
  exists (U - 1). constructor; simpl; try done.
  - match goal with E : snd_nxt c = snd_una c |- _ => rewrite E, F1 end. by u32_norm.
  - destruct (has_value _); lia.
  - intros k b Hk Hp. apply lookup_take_Some in Hk as [_ Hk]. lia.
  - intros _. split; [done|]. exists R. split; [apply Hok | lia].
Qed.

(** ** The application *)

(** More is written. *)
Lemma flow_enqueue w U c p : sender_ok c -> flow w U c -> local_fin_seq c = None ->
  flow (mkWritten (w_bytes w ++ p) false) U (c <| unsent := unsent c ++ p |>).
Proof.
  intros Hs [F1 F2 F3 F4 F5 F6] Hf. unfold last_position in *. pose proof (pend_len_exact _ _ (so_nosyn _ Hs) (so_fin _ Hs)) as Hl. rewrite Hf in Hl, F3. simpl in Hl, F3.
  constructor; simpl; auto.
  - rewrite Hf. unfold last_position. simpl. rewrite !Zlen_app. lia.
  - intros k b. assert (Eo : owned (c <| unsent := unsent c ++ p |>) = owned c ++ p) by (unfold owned; simpl; by rewrite app_assoc). rewrite Eo.
    intros [Hk|[Hge Hk]]%lookup_app_Some; [by apply lookup_app_l_Some, F4|].
    rewrite lookup_app_r; unfold owned, Zlen in *; rewrite length_app in *; [|lia]. rewrite <- Hk. f_equal. lia.
  - by rewrite Hf.
Qed.
End Flow.
