(* ===== verification/TcpHandshake.v ===== *)
(** * Opening a connection between two tables

    The life of a connection before it is synchronized, seen from one side:
    its SYN may be sent and may arrive any number of times, and the segment
    that establishes it leaves it at the two agreed positions. *)

From S2P Require Import Prelude StdMap Addresses Tcp SeqNum TcpState TcpCongestion.
From S2P Require Import TcpSegments TcpSender TcpReceiver TcpHandler TcpTable TcpInvariant TcpStream TcpOutput TcpFlow TcpOpening.

(** Nothing was written yet. *)
Definition nothing : Written := mkWritten [] false.

(** A SYN of the side whose first byte is at position [A0]. *)
Definition opens (A0 : Z) (seg : TcpSegment) : Prop := syn (flags seg) = true /\ sequence_number seg = A0 - 1.

(** A segment that carries no data and matters only to a connection that is
    being opened, or that resets one. *)
Definition control (A0 : Z) (seg : TcpSegment) : Prop := rst (flags seg) = true \/ opens A0 seg.

(** What a side may send: a piece of what was written, or a control segment. *)
Definition says (A0 B0 : Z) (w : Written) (U R : Z) (seg : TcpSegment) : Prop := slice A0 B0 w U R seg \/ control A0 seg.

Section Opening.
(** The positions of the first byte sent and of the first byte received. *)
Context (A0 B0 : Z) (key : TcpConnectionKey).

Record opening (c : Connection) : Prop := {
  og_kind : syn_sent_ok c \/ (syn_received_ok c /\ remote_isn c = B0 - 1);
  og_isn : local_isn c = A0 - 1;
  og_flags : Forall (fun e => syn (p_flags e) = true) (pending c)
}.

Lemma opening_conn c : opening c -> opening_ok c.
Proof. intros [[K|[K _]] _ _]; apply K. Qed.

Lemma opening_state c : opening c -> state c = SynSent \/ state c = SynReceived.
Proof. intros [[K|[K _]] _ _]; [left | right]; apply K. Qed.

Lemma opening_kept c : opening c -> pending_removal c = false.
Proof. intros H. apply opening_conn in H. apply H. Qed.

(** Neither data nor a close is accepted yet. *)
Lemma opening_not_sendable c : opening c -> sendable (state c) = false.
Proof. intros [-> | ->]%opening_state; done. Qed.

(** ** Becoming synchronized *)

(** The connection is at the two agreed positions. *)
Definition settled (c : Connection) : Prop :=
  pending_removal c = false /\ flow A0 nothing A0 c /\ (forall data, position_ok B0 data B0 [] c) /\ pending_fin_seq c = None.

Lemma untouched_settled isn c : isn = A0 - 1 -> sync_ok B0 [] c -> state c = Established -> pending_removal c = false -> untouched isn c -> settled c.
Proof.
  intros -> Hok Hst Hrem (U1 & U2 & U3 & U4 & _). pose proof (sy_state _ _ _ Hok) as Hs. rewrite Hrem in Hs. unfold state_ok in Hs. rewrite Hst in Hs.
  replace (A0 - 1 + 1) with A0 in U1 by lia. split_and!; [done | | |done].
  - constructor; rewrite ?U2, ?U3, ?Hs; try done. intros k b. unfold owned. by rewrite U2, U3.
  - intros data. pose proof (Zlen_nonneg data). constructor; [done | by intros x b Hx; inversion Hx | lia | by rewrite U4].
Qed.

(** What an arrival leaves of a connection that was being opened. *)
Definition opening_outcome (res : TcpReceiveResult) (o : option Connection) : Prop :=
  accepted_payload res = [] /\ peer_closed res = false /\
  match o with
  | None => result_segments res = []
  | Some c => (opening c /\ Forall (opens A0) (result_segments res)) \/ (settled c /\ Forall (slice A0 B0 nothing A0 B0) (result_segments res))
  end.

Lemma outcome_same c : opening c -> opening_outcome no_result (Some c).
Proof. intros H. split_and!; auto. Qed.

Lemma opening_synSent c seg now : opening c -> syn_sent_ok c -> segment_ok seg -> (syn (flags seg) = true -> rst (flags seg) = false -> opens B0 seg) ->
  exists res c', handleSynSent key c seg now = Some (res, c') /\ opening_outcome res (if pending_removal c' then None else Some c').
Proof.
  intros Hop Hc Hseg Hsyn. destruct (handleSynSent_spec key c seg now Hc Hseg) as (res & c' & E & [[-> ->]|[K|K]]); exists res || exists no_result.
  - exists c. split; [done|]. rewrite (opening_kept c Hop). by apply outcome_same.
  - destruct K as (_ & -> & Hr & Ha & Hn). exists (c <| pending_removal := true |>). split; [done|]. simpl. revert E. unfold handleSynSent.
    destruct (parseTcpOptions _) as [[opts|]|]; [|by intros [= <- _] | done]. cbn [mbind option_bind]. rewrite Hr, Ha, Hn, Z.eqb_refl. simpl. by intros [= <-].
  - destruct K as ((C1 & C2 & C3 & _) & _ & _ & _ & K1 & K2 & K3 & _ & a & _ & K4 & K5 & K6 & K7 & K8 & K9).
    exists c'. split; [done|]. rewrite K2. destruct (Hsyn C1 C3) as [_ Hseq].
    replace (sequence_number seg + 1) with B0 in * by lia. pose proof (untouched_settled _ c' (og_isn _ Hop) K3 K1 K2 K9) as Hset.
    rewrite K8. split_and!; [done | done|]. right. split; [done|]. apply Forall_singleton. rewrite (proj2 (ss_seq _ Hc)), (og_isn _ Hop) in K5.
    exists A0. constructor; rewrite ?K6, ?K7; try done.
    + rewrite K5. f_equal. lia.
    + unfold last_position. simpl. change (Zlen []) with 0. lia.
    + intros _. split; [done|]. exists B0. split; [done | lia].
Qed.

(** A change of the queued SYN's timer. *)
Lemma opening_rest c c' : opening c -> opening_ok c' -> Forall (fun e => syn (p_flags e) = true) (pending c') ->
  (state c', local_isn c', remote_isn c', snd_una c', snd_nxt c') = (state c, local_isn c, remote_isn c, snd_una c, snd_nxt c) ->
  nego_part c' = nego_part c -> cong_part c' = cong_part c -> opening c'.
Proof.
  intros [G1 G2 G3] Ho Hfl E En Ec. assert (Hsame : local_isn c' = local_isn c /\ remote_isn c' = remote_isn c) by (split; congruence).
  destruct Hsame as [Hl Hr']. constructor; [|congruence|done]. destruct G1 as [[]|[[] Hr]]; [left | right; split; [|congruence]]; constructor; auto; try congruence.
  - unfold nego_part in En. injection En as _ _ -> -> -> _ _ _ _. done.
  - by apply (congestion_ok_part c).
  - by apply (scale_ok_part c).
Qed.

Lemma opening_passive c : opening c -> syn_received_ok c -> remote_isn c = B0 - 1.
Proof. intros [[K|[_ K]] _ _] Hc; [|done]. pose proof (ss_state _ K). pose proof (sr_state _ Hc). congruence. Qed.

Lemma opening_synReceived t c seg now res t' : opening c -> syn_received_ok c -> segment_ok seg -> map_ok (connections t) ->
  map_find (connections t) key = Some c -> handleSynReceived t key c seg now = (res, t') -> opening_outcome res (map_find (connections t') key).
Proof.
  intros Hop Hc Hseg Hm Ef. assert (Hsame : opening_outcome no_result (map_find (connections t) key)) by (rewrite Ef; by apply outcome_same).
  unfold handleSynReceived. destruct (rst (flags seg)).
  { destruct (_ =? _); intros [= <- <-]; [|done]. simpl. rewrite map_find_erase, key_eqb_refl by done. done. }
  destruct (syn (flags seg) && _).
  { destruct (_ =? _); intros [= <- <-]; [|done]. simpl. rewrite map_find_set, key_eqb_refl by done. split_and!; [done | done|]. left.
    split; [|apply Forall_singleton; split; [done | apply Hop]]. pose proof (og_flags _ Hop) as Hfl.
    destruct Hc as [_ [O1 (e & P1 & P2 & P3 & P4) O3 O4 O5 O6] _ _ _]. rewrite P1 in *. apply (opening_rest c); auto.
    - constructor; auto. simpl. eexists. split; [reflexivity|]. split_and!; auto. destruct P3. by constructor.
    - apply Forall_inv in Hfl. by constructor. }
  destruct (ack (flags seg) && _); [|by intros [= <- <-]]. destruct (_ && _) eqn:Ea; [|by intros [= <- <-]].
  destruct (retireAcknowledged _ _ _) as [rr c'] eqn:E. intros [= <- <-].
  destruct (handleSynReceived_established c seg now rr c' Hc Hseg E) as (K1 & K2 & K3 & K4).
  simpl. rewrite map_find_set, key_eqb_refl by done. split_and!; [done | done|]. right. split; [|constructor].
  rewrite (opening_passive c Hop Hc) in K1. replace (B0 - 1 + 1) with B0 in K1 by lia. by apply (untouched_settled (local_isn c)); [apply Hop|..].
Qed.

(** ** Timers *)

Lemma opening_poll c now seg c' : opening c -> pollConnection key c now = Retransmitted seg c' -> opening c' /\ opens A0 seg.
Proof.
  intros Hop E. destruct (pollConnection_opening _ _ _ _ _ (opening_conn c Hop) E) as (e & _ & Ho). pose proof (og_flags _ Hop) as Hfl.
  destruct (op_pending _ (opening_conn c Hop)) as (e0 & P1 & P2 & _ & P4). revert E. unfold pollConnection.
  destruct (state_eqb _ _); [destruct (time_wait_deadline c); [by destruct (_ <=? _) | done]|]. rewrite P1 in *. apply Forall_inv in Hfl.
  destruct (now <? _); [done|]. destruct (_ <=? _); [done|]. rewrite P2. cbn [negb andb]. rewrite P1. intros [= <- <-].
  split; [|split; [done | by simpl; rewrite P4, (og_isn _ Hop)]]. apply (opening_rest c); auto. by constructor.
Qed.

Lemma opening_probe c now s c' : opening c -> persistProbe key c now = (s, c') -> s = None /\ opening c'.
Proof.
  intros Hop E. destruct (persistProbe_frame _ _ _ _ _ E) as (d & i & Ec). split.
  - revert E. unfold persistProbe. destruct (persist_deadline c); [|by intros [= <- _]]. destruct (_ <? _); [by intros [= <- _]|].
    unfold persistEligible. fold (sendable (state c)). rewrite (opening_not_sendable c Hop). by intros [= <- _].
  - subst c'. apply (opening_rest c); auto; [|apply Hop]. by apply (opening_ok_part c); [apply opening_conn|..].
Qed.

(** ** The first segment *)

(** A connect is refused, or leaves a connection that is being opened, and its SYN. *)
Lemma opening_dial t now g res t' : map_ok (connections t) -> is_u32 (A0 - 1) -> g = None \/ g = Some (A0 - 1) ->
  beginConnect t key now g = (res, t') ->
  (connect_syn res = None /\ connections t' = connections t) \/
  (g <> None /\ map_find (connections t) key = None /\ exists seg c, connect_syn res = Some seg /\ opens A0 seg /\ map_find (connections t') key = Some c /\ opening c).
Proof.
  intros Hm Hi Hg. unfold beginConnect. destruct (_ || _); [intros [= <- <-]; by left|]. destruct (map_contains _ _) eqn:Ec; [intros [= <- <-]; by left|].
  destruct (at_capacity t); [intros [= <- <-]; by left|]. destruct (nextIsn t g) as [isn t1] eqn:En. apply nextIsn_frame in En as (N1 & _ & _ & _ & _ & N6).
  destruct isn as [isn|]; [|intros [= <- <-]; by left]. specialize (N6 isn eq_refl). intros [= <- <-]. right.
  assert (isn = A0 - 1) as -> by (destruct Hg; congruence). split_and!; [congruence | unfold map_contains in Ec; by destruct (map_find _ _)|].
  simpl. rewrite N1, map_find_set, key_eqb_refl by done. eexists _, _. split; [reflexivity|]. split; [done|]. split; [reflexivity|].
  constructor; [left; by apply active_open_ok | done | by constructor].
Qed.

(** A segment for a connection that does not exist: it is ignored or reset, or
    it is a SYN and opens the connection. *)
Lemma opening_unknown t seg now g res t' : map_ok (connections t) -> map_find (connections t) key = None -> segment_ok seg ->
  (syn (flags seg) = true -> rst (flags seg) = false -> opens B0 seg) -> is_u32 (A0 - 1) -> g = None \/ g = Some (A0 - 1) ->
  handleUnknown t key seg now g = Some (res, t') ->
  accepted_payload res = [] /\ peer_closed res = false /\
  ((map_find (connections t') key = None /\ Forall (fun s => rst (flags s) = true) (result_segments res)) \/
   (g <> None /\ exists c r, map_find (connections t') key = Some c /\ opening c /\ result_segments res = [r] /\ opens A0 r)).
Proof.
  intros Hm Ef Hseg Hsyn Hi Hg. unfold handleUnknown.
  assert (Hreset : Forall (fun s => rst (flags s) = true) [makeClosedPortReset seg]).
  { apply Forall_singleton. unfold makeClosedPortReset. by destruct (ack (flags seg)). }
  destruct (negb _); [destruct (rst (flags seg)); intros [= <- <-]; split_and!; auto; by left|].
  destruct (rst (flags seg)); [intros [= <- <-]; split_and!; auto|]. destruct (syn (flags seg)) eqn:Es; cbn [negb orb]; [|intros [= <- <-]; split_and!; auto].
  destruct (ack (flags seg)); [intros [= <- <-]; split_and!; auto|]. destruct (parseTcpOptions_total (options seg)) as (o & -> & Ho). cbn [mbind option_bind].
  destruct o as [opts|]; [|intros [= <- <-]; split_and!; auto]. specialize (Ho (sg_options _ Hseg)). destruct (negb _); [intros [= <- <-]; split_and!; auto|].
  destruct (at_capacity t); [intros [= <- <-]; split_and!; auto|]. destruct (nextIsn t g) as [isn t1] eqn:En. apply nextIsn_frame in En as (N1 & _ & _ & _ & _ & N6).
  destruct isn as [isn|]; intros [= <- <-]; [|rewrite N1; split_and!; auto].
  assert (isn = A0 - 1) as -> by (specialize (N6 isn eq_refl); destruct Hg; congruence). destruct (Hsyn eq_refl eq_refl) as [_ Hseq].
  split_and!; [done | done|]. right. split; [specialize (N6 _ eq_refl); congruence|]. simpl. rewrite N1, map_find_set, key_eqb_refl by done. eexists _, _. split; [reflexivity|].
  destruct (negotiate_isns ((new_connection SynReceived (A0 - 1)) <| remote_isn := sequence_number seg |>) opts) as (I1 & I2 & _).
  split; [|split; [reflexivity | split; [done | exact I1]]]. constructor; [|exact I1 | by constructor].
  right. split; [by apply passive_open_ok | by rewrite <- Hseq; exact I2].
Qed.

(** ** Control segments for a synchronized connection *)

Lemma control_synchronized R runs c seg now : sync_ok R runs c -> pending_removal c = false -> segment_ok seg -> control B0 seg ->
  exists res c', (if state_eqb (state c) TimeWait then Some (handleTimeWait key c seg now) else handleSynchronized key c seg now) = Some (res, c') /\
    accepted_payload res = [] /\ peer_closed res = false /\
    (result_segments res = [] /\ (c' = c \/ pending_removal c' = true) \/ result_segments res = [makePureAck key c None] /\ c' = c).
Proof.
  intros Hok Hrem Hseg Hctl. destruct (state_eqb (state c) TimeWait).
  - unfold handleTimeWait. destruct (rst (flags seg)) eqn:Er; [destruct (_ =? _); eexists _, _; split_and!; auto|].
    destruct Hctl as [?|[-> _]]; [congruence|]. cbn [orb]. eexists _, _. split_and!; auto.
  - unfold handleSynchronized. destruct (syn (flags seg)) eqn:Es; [destruct (negb _); eexists _, _; split_and!; auto|].
    destruct Hctl as [Hr|[? _]]; [|congruence]. destruct (parseTcpOptions_total (options seg)) as (o & -> & _). cbn [mbind option_bind]. rewrite Hr.
    destruct o; [destruct (_ =? _)|]; eexists _, _; split_and!; auto.
Qed.

End Opening.
