(* ===== verification/TcpEndToEnd.v ===== *)
(** * Two stacks talking

    Two connection tables joined by a network that may lose, repeat, delay
    and reorder segments: what either application reads is a prefix of what
    the other wrote, and the end of the stream is reported only after all of
    it. The two tables go on serving other connections meanwhile. *)

From stdpp Require Import relations.
From S2P Require Import Prelude StdMap Checksum Addresses Tcp SeqNum TcpState TcpCongestion.
From S2P Require Import TcpSegments TcpSender TcpReceiver TcpHandler TcpTable TcpInvariant TcpStream TcpOutput TcpFlow TcpHandshake.

#[local] Opaque internetChecksum tcpChecksum.

(** ** The operations of a table, seen from one connection *)

(** A retransmission leaves the receiving side and the state alone. *)
Lemma poll_keeps key c now seg c' : pollConnection key c now = Retransmitted seg c' -> recv_part c' = recv_part c /\ state c' = state c.
Proof.
  unfold pollConnection. destruct (state_eqb _ _); [destruct (time_wait_deadline c); [by destruct (_ <=? _) | done]|].
  destruct (pending c); [done|]. destruct (now <? _); [done|]. destruct (_ <=? _); [done|].
  destruct (_ && _); simpl; [destruct (map _ _) | destruct (pending c)]; try done; by intros [= <- <-].
Qed.

Section Local.
Context (A0 B0 : Z) (key : TcpConnectionKey).

(** The segments of a poll that belong to the connection. *)
Definition for_key (l : list (TcpConnectionKey * TcpSegment)) : list TcpSegment :=
  map snd (List.filter (fun p => key_eqb key (fst p)) l).

Lemma for_key_Forall (P : TcpConnectionKey -> TcpSegment -> Prop) Q l : Forall (fun p => Q (fst p) /\ P (fst p) (snd p)) l -> Forall (P key) (for_key l).
Proof.
  unfold for_key. induction 1 as [|[k x] l [_ Hx] Hrest IH]; simpl; [constructor|]. destruct (key_eqb key k) eqn:Ek; [|done].
  apply key_eqb_eq in Ek as ->. by constructor.
Qed.

(** An operation that does not receive: the connection may be gone, or it
    has taken [accepted] from the application and sent [segs]. *)
Definition acted (w : Written) (U R : Z) (runs : list run) (c : Connection) (accepted : list Z) (segs : list TcpSegment)
    (o : option Connection) : Prop :=
  match o with
  | None => segs = [] /\ accepted = []
  | Some c' => exists w', sync_ok R runs c' /\ pending_removal c' = false /\ recv_part c' = recv_part c /\ flow A0 w' U c' /\
      w_bytes w' = w_bytes w ++ accepted /\ extends w w' /\ Forall (slice A0 B0 w' U R) segs
  end.

Section Operation.
Context (w : Written) (U R : Z) (runs : list run) (t : TcpConnectionTable) (c : Connection).
Context (Ht : table_ok t) (Hfind : map_find (connections t) key = Some c).
Context (Hok : sync_ok R runs c) (Hrem : pending_removal c = false) (HF : flow A0 w U c) (HB : B0 <= R).

Lemma acted_same : acted w U R runs c [] [] (Some c).
Proof. exists w. rewrite app_nil_r. split_and!; auto using extends_refl. Qed.

Lemma find_set c' : map_find (connections (set_connection t key c')) key = Some c'.
Proof. simpl. rewrite map_find_set by apply Ht. by rewrite key_eqb_refl. Qed.

Lemma acted_send p now res t' : bytes_ok p -> makeOutgoingData t key p now = (res, t') ->
  acted w U R runs c (take (Z.to_nat (bytes_accepted res)) p) (send_segments res) (map_find (connections t') key).
Proof.
  intros Hb. unfold makeOutgoingData.
  assert (Hnone : forall e, (mkSendResult [] 0 (Some e), t) = (res, t') ->
    acted w U R runs c (take (Z.to_nat (bytes_accepted res)) p) (send_segments res) (map_find (connections t') key)).
  { intros e [= <- <-]. rewrite Hfind. apply acted_same. }
  destruct (empty p); [apply Hnone|]. destruct (_ <? _); [apply Hnone|]. rewrite Hfind. rewrite <- negb_orb. fold (sendable (state c)).
  destruct (sendable (state c)) eqn:Es; cbn [negb]; [|apply Hnone]. destruct (close_requested c); [apply Hnone|].
  rewrite (appOwnedBytes_eq c) by apply Hok. pose proof (owned_len c (sy_send _ _ _ Hok)).
  destruct (Z.ltb_spec (if kTcpSendBufferCapacity <=? Zlen (owned c) then 0 else kTcpSendBufferCapacity - Zlen (owned c)) (Zlen p)); [apply Hnone|].
  assert (Hcap : Zlen (owned c) + Zlen p <= kTcpSendBufferCapacity) by (zcases; lia).
  destruct (enqueue_ok R runs c p Hok Hrem Es Hb Hcap) as [Q1 Q2]. pose proof (sy_state _ _ _ Hok) as Hst. rewrite Hrem in Hst.
  pose proof (sendable_no_fin c Hst Es) as Hf. pose proof (flow_enqueue A0 w U c p (sy_send _ _ _ Hok) HF Hf) as HF1.
  destruct (scheduleQueuedData _ _ _) as [segs c'] eqn:E. intros [= <- <-]. rewrite find_set.
  destruct (schedule_sync key R runs _ now segs c' Q1 Hrem Es E) as (S1 & S2 & S3 & S4 & S5 & _).
  destruct (flow_schedule A0 key _ U R runs _ now segs c' Q1 Hrem Es HF1 E) as [G1 G2].
  eexists. split_and!; [exact S1 | exact S5 | exact S3 | exact G1 | | |].
  - simpl. unfold Zlen. by rewrite Nat2Z.id, firstn_all.
  - split; [by rewrite (fl_ended _ _ _ _ HF), Hf|]. simpl. by apply prefix_app_r.
  - eapply Forall_impl; [exact G2|]. intros s. apply resends_slice; [apply S1 | exact G1 | apply S1 | done].
Qed.

Lemma acted_close now res t' : beginClose t key now = (res, t') ->
  acted w U R runs c [] (option_list (close_fin res)) (map_find (connections t') key).
Proof.
  intros E. destruct (beginClose_cases t key now res t' Ht E) as [(-> & _ & ->)|(c0 & c' & R1 & runs1 & H0 & _ & K & Hr & -> & Hs & _)];
    [rewrite Hfind; by apply acted_same|].
  rewrite Hfind in H0. injection H0 as <-. revert E. unfold beginClose. rewrite Hfind, <- negb_orb. fold (sendable (state c)). rewrite Hs. cbn [negb].
  set (c1 := c <| close_requested := true |>). assert (HF1 : flow A0 w U c1) by (by apply (flow_part A0 w U c)).
  assert (Hs1 : sender_ok c1) by (by apply (sender_ok_part c), Hok). pose proof (sy_state _ _ _ Hok) as Hst. rewrite Hrem in Hst.
  pose proof (sendable_no_fin c Hst Hs) as Hf. destruct (maybeSequenceFin key c1 now) as [segs c2] eqn:E2.
  destruct (maybeSequenceFin_spec key c1 now segs c2 Hs1 ltac:(by apply (rto_ok_part c), Hok) Hf E2) as (M1 & (ents & M2 & M3 & _) & M4 & M5).
  destruct (updatePersistState_frame c2 now) as (d & i & -> & _). intros [= <- E]. apply (f_equal (fun m => map_find m key)) in E.
  rewrite !map_find_set, key_eqb_refl in E by apply Ht. injection E as <-. rewrite find_set by done. simpl close_fin.
  pose proof (f_equal Zlen (sf_bytes _ _ _ _ M2)) as Hb. rewrite M3 in Hb. simpl in Hb.
  destruct (flow_scheduled A0 w U c1 segs ents c2 M2 HF1) as [G1 G2].
  { unfold fin_len. rewrite Hb. change (local_fin_seq c1) with (local_fin_seq c). rewrite Hf.
    destruct M5 as [[_ ->]|(f & -> & _ & _ & _ & Hl & _)]; [simpl; rewrite Hf; simpl; lia | simpl in *; lia]. }
  pose proof (sf_recv _ _ _ _ M2) as Hrv. eexists. split_and!; [| exact Hr | exact Hrv | by apply (flow_part A0 _ U c2), G1 | | |].
  - destruct K as [K1 K2 K3 K4 K5 K6]. constructor; try done. apply (receiver_ok_part R runs c); [exact Hrv | apply Hok].
  - simpl. by rewrite app_nil_r.
  - split; [by rewrite (fl_ended _ _ _ _ HF), Hf | done].
  - assert (Hsl : Forall (slice A0 B0 (ended_by w c2) U R) segs).
    { eapply Forall_impl; [exact G2|]. intros s. apply resends_slice; [done | exact G1 | | done]. unfold recv_part in Hrv. simpl in Hrv.
      rewrite <- (ro_nxt _ _ _ (sy_recv _ _ _ Hok)). congruence. }
    destruct Hsl; [constructor | by apply Forall_singleton].
Qed.

(** *** Timers *)

Lemma poll_at now l r l' : map_ok l -> pollRetransmissions_loop now l = (r, l') ->
  map_find l' key = match map_find l key with
    | Some c => match pollConnection key c now with Idle => Some c | Retransmitted _ c' => Some c' | _ => None end
    | None => None
    end /\
  for_key (retransmissions r) = match map_find l key with
    | Some c => match pollConnection key c now with Retransmitted seg _ => [seg] | _ => [] end
    | None => []
    end.
Proof.
  revert r l'. induction l as [|[k x] l IH]; intros r l' Hm; simpl; [by intros [= <- <-]|].
  apply map_ok_cons in Hm as [Hk Hm]. destruct (pollRetransmissions_loop now l) as [r1 l1]. destruct (IH r1 l1 Hm eq_refl) as [I1 I2].
  destruct (key_eqb key k) eqn:Ek.
  - apply key_eqb_eq in Ek as <-. rewrite (map_find_not_in l key Hk) in I1, I2. unfold for_key in *.
    destruct (pollConnection key x now); intros [= <- <-]; simpl; rewrite ?key_eqb_refl; simpl; by rewrite ?I1, ?I2.
  - unfold for_key in *. destruct (pollConnection k x now); intros [= <- <-]; simpl; rewrite ?Ek; simpl; auto.
Qed.

Lemma acted_timeout now res t' : pollRetransmissions t now = (res, t') ->
  acted w U R runs c [] (for_key (retransmissions res)) (map_find (connections t') key).
Proof.
  unfold pollRetransmissions. destruct (pollRetransmissions_loop now (connections t)) as [r l] eqn:E. intros [= <- <-]. simpl.
  destruct (poll_at now _ _ _ (tk_map _ Ht) E) as [-> ->]. rewrite Hfind. destruct (pollConnection key c now) as [|seg c'| |] eqn:Ep; [by apply acted_same | | done | done].
  destruct (pollConnection_sync _ _ _ _ _ _ _ Hok Hrem Ep) as (K1 & K2 & _). destruct (flow_poll A0 B0 key w U R runs c now seg c' Hok Hrem HF HB Ep) as [G1 G2].
  exists w. rewrite app_nil_r. split_and!; auto using extends_refl. by rewrite (proj1 (poll_keeps key c now seg c' Ep)).
Qed.

Lemma probe_at now l r l' : map_ok l -> pollPersist_loop now l = (r, l') ->
  map_find l' key = option_map (fun c => (persistProbe key c now).2) (map_find l key) /\
  for_key r = match map_find l key with Some c => option_list (persistProbe key c now).1 | None => [] end.
Proof.
  revert r l'. induction l as [|[k x] l IH]; intros r l' Hm; simpl; [by intros [= <- <-]|].
  apply map_ok_cons in Hm as [Hk Hm]. destruct (pollPersist_loop now l) as [r1 l1]. destruct (IH r1 l1 Hm eq_refl) as [I1 I2].
  destruct (persistProbe k x now) as [s x'] eqn:Ep. unfold for_key in *. destruct (key_eqb key k) eqn:Ek.
  - apply key_eqb_eq in Ek as <-. rewrite (map_find_not_in l key Hk) in I1, I2.
    intros [= <- <-]. simpl. rewrite key_eqb_refl, Ep. destruct s; simpl; rewrite ?key_eqb_refl; simpl; by rewrite I2.
  - intros [= <- <-]. simpl. rewrite Ek. destruct s; simpl; rewrite ?Ek; auto.
Qed.

Lemma acted_probe now res t' : pollPersistProbes t now = (res, t') ->
  acted w U R runs c [] (for_key res) (map_find (connections t') key).
Proof.
  unfold pollPersistProbes. destruct (pollPersist_loop now (connections t)) as [r l] eqn:E. intros [= <- <-]. simpl.
  destruct (probe_at now _ _ _ (tk_map _ Ht) E) as [-> ->]. rewrite Hfind. simpl. destruct (persistProbe key c now) as [s c'] eqn:Ep. simpl.
  destruct (flow_probe A0 B0 key w U R runs c now s c' Hok HF HB Ep) as [G1 G2]. destruct (persistProbe_frame _ _ _ _ _ Ep) as (d & i & ->).
  exists w. rewrite app_nil_r. split_and!; auto using extends_refl, sync_ok_persist.
Qed.
End Operation.

(** The operations on a connection that is being opened: nothing is accepted,
    and only its SYN is sent. *)
Definition still_opening (accepted : list Z) (segs : list TcpSegment) (o : option Connection) : Prop :=
  accepted = [] /\ Forall (opens A0) segs /\ match o with None => True | Some c => opening A0 B0 c end.

Section Operation.
Context (t : TcpConnectionTable) (c : Connection) (Ht : table_ok t) (Hfind : map_find (connections t) key = Some c) (Hop : opening A0 B0 c).

Lemma opening_same : still_opening [] [] (map_find (connections t) key).
Proof. rewrite Hfind. split_and!; auto. Qed.

Lemma opening_send p now res t' : makeOutgoingData t key p now = (res, t') ->
  still_opening (take (Z.to_nat (bytes_accepted res)) p) (send_segments res) (map_find (connections t') key).
Proof.
  unfold makeOutgoingData. rewrite Hfind, <- negb_orb. fold (sendable (state c)). rewrite (opening_not_sendable _ _ c Hop).
  destruct (empty p); [|destruct (_ <? _)]; intros [= <- <-]; apply opening_same.
Qed.

Lemma opening_close now res t' : beginClose t key now = (res, t') -> still_opening [] (option_list (close_fin res)) (map_find (connections t') key).
Proof.
  unfold beginClose. rewrite Hfind, <- negb_orb. fold (sendable (state c)). rewrite (opening_not_sendable _ _ c Hop). intros [= <- <-]. apply opening_same.
Qed.

Lemma opening_timeout now res t' : pollRetransmissions t now = (res, t') ->
  still_opening [] (for_key (retransmissions res)) (map_find (connections t') key).
Proof.
  unfold pollRetransmissions. destruct (pollRetransmissions_loop now (connections t)) as [r l] eqn:E. intros [= <- <-]. simpl.
  destruct (poll_at now _ _ _ (tk_map _ Ht) E) as [-> ->]. rewrite Hfind. destruct (pollConnection key c now) as [|seg c'| |] eqn:Ep; [by split_and!| |by split_and!..].
  destruct (opening_poll _ _ _ _ _ _ _ Hop Ep). split_and!; auto.
Qed.

Lemma opening_probes now res t' : pollPersistProbes t now = (res, t') -> still_opening [] (for_key res) (map_find (connections t') key).
Proof.
  unfold pollPersistProbes. destruct (pollPersist_loop now (connections t)) as [r l] eqn:E. intros [= <- <-]. simpl.
  destruct (probe_at now _ _ _ (tk_map _ Ht) E) as [-> ->]. rewrite Hfind. simpl. destruct (persistProbe key c now) as [x c'] eqn:Ep. simpl.
  destruct (opening_probe _ _ _ _ _ _ _ Hop Ep) as [-> ?]. by split_and!.
Qed.
End Operation.
End Local.

(** Operations on a connection that does not exist do nothing. *)
Definition connection_of (key : TcpConnectionKey) (t : TcpConnectionTable) : option Connection := map_find (connections t) key.

Section Gone.
Context (key : TcpConnectionKey) (t : TcpConnectionTable) (Ht : table_ok t) (Hgone : connection_of key t = None).

Lemma gone_send p now res t' : makeOutgoingData t key p now = (res, t') ->
  connection_of key t' = None /\ send_segments res = [] /\ take (Z.to_nat (bytes_accepted res)) p = [].
Proof.
  unfold connection_of in *. unfold makeOutgoingData. rewrite Hgone. destruct (empty p); [by intros [= <- <-]|]. destruct (_ <? _); by intros [= <- <-].
Qed.

Lemma gone_close now res t' : beginClose t key now = (res, t') -> connection_of key t' = None /\ option_list (close_fin res) = [].
Proof. unfold connection_of in *. unfold beginClose. rewrite Hgone. by intros [= <- <-]. Qed.

Lemma gone_timeout now res t' : pollRetransmissions t now = (res, t') -> connection_of key t' = None /\ for_key key (retransmissions res) = [].
Proof.
  unfold connection_of in *. unfold pollRetransmissions. destruct (pollRetransmissions_loop _ _) as [r l] eqn:E. intros [= <- <-].
  destruct (poll_at key now _ _ _ (tk_map _ Ht) E) as [H1 H2]. rewrite Hgone in H1, H2. done.
Qed.

Lemma gone_probe now res t' : pollPersistProbes t now = (res, t') -> connection_of key t' = None /\ for_key key res = [].
Proof.
  unfold connection_of in *. unfold pollPersistProbes. destruct (pollPersist_loop _ _) as [r l] eqn:E. intros [= <- <-].
  destruct (probe_at key now _ _ _ (tk_map _ Ht) E) as [H1 H2]. rewrite Hgone in H1, H2. done.
Qed.
End Gone.

(** ** One side of the conversation *)

(** A table, with what passed between it, the network and the application of
    one connection: segments sent, bytes written and read, end reported. *)
Record side := mkSide {
  s_table : TcpConnectionTable;
  s_sent : list TcpSegment;
  s_written : list Z;
  s_read : list Z;
  s_eof : bool
}.

(** What the table does for other connections. *)
Inductive other_step (key : TcpConnectionKey) : TcpConnectionTable -> TcpConnectionTable -> Prop :=
| other_segment t t' key' seg now g res : key <> key' -> ports_ok key' -> local_port key' = destination_port seg ->
    remote_port key' = source_port seg -> segment_ok seg -> isn_ok g ->
    (forall c, map_find (connections t) key' = Some c -> half_open c = false -> plausible c seg) ->
    handle t key' seg now g = Some (res, t') -> other_step key t t'
| other_connect t t' key' now g res : key <> key' -> ports_ok key' -> isn_ok g -> beginConnect t key' now g = (res, t') -> other_step key t t'
| other_send t t' key' p now res : key <> key' -> ports_ok key' -> bytes_ok p -> makeOutgoingData t key' p now = (res, t') -> other_step key t t'
| other_close t t' key' now res : key <> key' -> ports_ok key' -> beginClose t key' now = (res, t') -> other_step key t t'.

(** The side has opened the connection: it has sent a SYN. *)
Definition opened (s : side) : Prop := Exists (fun seg => syn (flags seg) = true) (s_sent s).

(** What the generator of initial sequence numbers may give: nothing, or [isn],
    and that only until the connection is opened. The connection is opened
    once; another one with the same addresses and ports, after it is gone,
    would be another conversation. *)
Definition may_draw (isn : Z) (s : side) (g : option Z) : Prop := g = None \/ (g = Some isn /\ ~ opened s).

Lemma may_draw_value isn s g : may_draw isn s g -> g = None \/ g = Some isn.
Proof. intros [->|[-> _]]; auto. Qed.

Lemma may_draw_ok isn s g : is_u32 isn -> may_draw isn s g -> isn_ok g.
Proof. intros Hi [->|[-> _]] v E; [done | by injection E as <-]. Qed.

(** The connection's own steps: the application dials, writes or closes, a
    timer runs, or one of the segments in [incoming] arrives, as bytes. *)
Inductive side_step (key : TcpConnectionKey) (isn : Z) (incoming : list TcpSegment) : side -> side -> Prop :=
| side_dial s now g res t' : may_draw isn s g -> beginConnect (s_table s) key now g = (res, t') ->
    side_step key isn incoming s (mkSide t' (s_sent s ++ option_list (connect_syn res)) (s_written s) (s_read s) (s_eof s))
| side_send s p now res t' : bytes_ok p -> makeOutgoingData (s_table s) key p now = (res, t') ->
    side_step key isn incoming s (mkSide t' (s_sent s ++ send_segments res) (s_written s ++ take (Z.to_nat (bytes_accepted res)) p) (s_read s) (s_eof s))
| side_close s now res t' : beginClose (s_table s) key now = (res, t') ->
    side_step key isn incoming s (mkSide t' (s_sent s ++ option_list (close_fin res)) (s_written s) (s_read s) (s_eof s))
| side_timeout s now res t' : pollRetransmissions (s_table s) now = (res, t') ->
    side_step key isn incoming s (mkSide t' (s_sent s ++ for_key key (retransmissions res)) (s_written s) (s_read s) (s_eof s))
| side_probe s now res t' : pollPersistProbes (s_table s) now = (res, t') ->
    side_step key isn incoming s (mkSide t' (s_sent s ++ for_key key res) (s_written s) (s_read s) (s_eof s))
| side_receive s seg bytes seg' now g res t' : seg ∈ incoming -> may_draw isn s g ->
    serializeTcpSegment seg (remote_ip key) (local_ip key) = inl bytes ->
    parseTcpSegment bytes (remote_ip key) (local_ip key) = Some (inl seg') ->
    handle (s_table s) key seg' now g = Some (res, t') ->
    side_step key isn incoming s (mkSide t' (s_sent s ++ result_segments res) (s_written s) (s_read s ++ accepted_payload res) (s_eof s || peer_closed res))
| side_other s t' : other_step key (s_table s) t' -> side_step key isn incoming s (mkSide t' (s_sent s) (s_written s) (s_read s) (s_eof s)).

(** ** Its invariant *)

Section Side.
Context (A0 B0 : Z) (key : TcpConnectionKey).

(** A synchronized connection sends what was written ([flow]) and has received
    a part of what the peer wrote ([position_ok]). *)
Definition synced (peer w : Written) (U R : Z) (c : Connection) : Prop :=
  pending_removal c = false /\ flow A0 w U c /\
  (exists runs, position_ok B0 (w_bytes peer) R runs c) /\ (has_value (pending_fin_seq c) = true -> w_ended peer = true).

(** The connection, while it exists. *)
Definition conn_side (peer w : Written) (U R : Z) (o : option Connection) : Prop :=
  match o with
  | None => True
  | Some c => (opening A0 B0 c /\ w = nothing /\ U = A0 /\ R = B0) \/ synced peer w U R c
  end.

Definition sends (w : Written) (U R : Z) (seg : TcpSegment) : Prop := well_formed key seg /\ says A0 B0 w U R seg.

Record side_ok (peer w : Written) (U R : Z) (s : side) : Prop := {
  sd_table : table_ok (s_table s);
  sd_typed : typed_table (s_table s);
  sd_written : s_written s = w_bytes w;
  sd_conn : conn_side peer w U R (map_find (connections (s_table s)) key);
  sd_sent : Forall (sends w U R) (s_sent s);
  sd_read : s_read s = take (length (s_read s)) (w_bytes peer);
  sd_position : R = B0 + Zlen (s_read s) + (if s_eof s then 1 else 0);
  sd_eof : s_eof s = true -> w_ended peer = true /\ s_read s = w_bytes peer;
  sd_fresh : ~ opened s -> map_find (connections (s_table s)) key = None /\ w = nothing /\ U = A0 /\ R = B0
}.

Lemma says_mono w w' U U' R R' seg : extends w w' -> U <= U' -> R <= R' -> says A0 B0 w U R seg -> says A0 B0 w' U' R' seg.
Proof. intros H1 H2 H3 [H|H]; [left; by eapply slice_mono | by right]. Qed.

Lemma says_Forall w U R segs : Forall (slice A0 B0 w U R) segs -> Forall (says A0 B0 w U R) segs.
Proof. intros H. eapply Forall_impl; [exact H|]. by left. Qed.

Lemma sends_Forall w U R segs : Forall (well_formed key) segs -> Forall (says A0 B0 w U R) segs -> Forall (sends w U R) segs.
Proof. rewrite !Forall_forall. unfold sends. auto. Qed.

Lemma side_range peer w U R s : side_ok peer w U R s -> B0 <= R <= last_position B0 peer + 1.
Proof.
  intros H. pose proof (sd_position _ _ _ _ _ H) as HR. pose proof (f_equal length (sd_read _ _ _ _ _ H)) as Hl. rewrite length_take in Hl.
  unfold last_position, Zlen in *. destruct (s_eof s); lia.
Qed.

Lemma holds_byte gap lo hi runs x b : runs_ok gap lo hi runs -> holds runs x b -> is_u8 b.
Proof.
  intros Hr Hx. revert lo Hr. induction Hx as [r l [_ Hb]|r l Hx IH]; intros lo (_ & _ & Hbytes & _ & Hrest); [|by eapply IH].
  by apply (Forall_lookup_1 _ _ _ _ Hbytes Hb).
Qed.

(** More written by the peer changes nothing here. *)
Lemma position_mono R runs c (data data' : list Z) : data `prefix_of` data' -> pending_fin_seq c = None ->
  position_ok B0 data R runs c -> position_ok B0 data' R runs c.
Proof.
  intros Hd Hf [P1 P2 P3 P4]. apply prefix_length in Hd as Hl. constructor; [done | | unfold Zlen in *; lia | congruence].
  intros x b Hx. assert (Hb : is_u8 b).
  { exact (holds_byte _ _ _ _ _ _ (ro_runs _ _ _ (sy_recv _ _ _ P1)) Hx). }
  apply P2 in Hx. symmetry in Hx. destruct (stream_byte _ _ _ _ Hx Hb) as [Hr Hlook]. unfold stream.
  destruct (Z.ltb_spec (R + x) B0); [lia|]. by rewrite (prefix_lookup_Some _ _ _ _ Hlook Hd).
Qed.

Lemma side_mono peer peer' w U R s : extends peer peer' -> side_ok peer w U R s -> side_ok peer' w U R s.
Proof.
  intros He H. destruct (decide (w_ended peer = true)) as [Ee|Ee]; [by rewrite (proj1 He Ee)|]. destruct H as [D1 D2 D3 D4 D5 D6 D7 D8 D9]. constructor; auto.
  - destruct (map_find _ _) as [c|]; [|done]. destruct D4 as [D4|(C1 & C2 & (runs & C3) & C4)]; [by left|]. right.
    split_and!; [done | done | | by intros Hf; specialize (C4 Hf)].
    exists runs. apply (position_mono R runs c (w_bytes peer)); [apply He | | done].
    destruct (pending_fin_seq c); [|done]. by specialize (C4 eq_refl).
  - pose proof (f_equal length D6) as Hl. rewrite length_take in Hl. destruct He as [_ [l ->]]. by rewrite take_app_le by lia.
  - intros Hf. by destruct (D8 Hf).
Qed.

(** An operation that does not receive. *)
Lemma side_acted peer w U R s t' segs accepted : side_ok peer w U R s -> table_ok t' -> typed_table t' -> Forall (well_formed key) segs ->
  (forall c runs, map_find (connections (s_table s)) key = Some c -> sync_ok R runs c -> pending_removal c = false -> flow A0 w U c ->
     acted A0 B0 w U R runs c accepted segs (map_find (connections t') key)) ->
  (forall c, map_find (connections (s_table s)) key = Some c -> opening A0 B0 c -> still_opening A0 B0 accepted segs (map_find (connections t') key)) ->
  (map_find (connections (s_table s)) key = None -> map_find (connections t') key = None /\ segs = [] /\ accepted = []) ->
  exists w', side_ok peer w' U R (mkSide t' (s_sent s ++ segs) (s_written s ++ accepted) (s_read s) (s_eof s)) /\ extends w w'.
Proof.
  intros [D1 D2 D3 D4 D5 D6 D7 D8 D9] Ht Hty Hwf Hact Hopen Hgone.
  assert (H : exists w', w_bytes w' = w_bytes w ++ accepted /\ extends w w' /\ conn_side peer w' U R (map_find (connections t') key) /\
    Forall (says A0 B0 w' U R) segs /\ (map_find (connections (s_table s)) key = None -> map_find (connections t') key = None /\ w' = w)).
  { destruct (map_find (connections (s_table s)) key) as [c|].
    2:{ destruct (Hgone eq_refl) as (-> & -> & ->). exists w. rewrite app_nil_r. split_and!; try done; apply extends_refl. }
    destruct D4 as [(C1 & C2)|(C1 & C2 & (runs & [P1 P2 P3 P4]) & C4)].
    { destruct (Hopen c eq_refl C1) as (-> & O2 & O3). exists w. rewrite app_nil_r. split_and!; try done; [destruct (map_find _ _); [by left | done] |].
      eapply Forall_impl; [exact O2|]. intros seg Hs. right. by right. }
    specialize (Hact c runs eq_refl P1 C1 C2). destruct (map_find (connections t') key) as [c'|].
    2:{ destruct Hact as [-> ->]. exists w. rewrite app_nil_r. split_and!; try done; apply extends_refl. }
    destruct Hact as (w' & G1 & G2 & G3 & G4 & G5 & G6 & G7). exists w'. split_and!; auto using says_Forall; [|done]. right.
    assert (Hf : pending_fin_seq c' = pending_fin_seq c) by (unfold recv_part in G3; congruence). unfold synced. rewrite Hf. split_and!; auto.
    exists runs. constructor; auto. by rewrite Hf. }
  destruct H as (w' & G1 & G2 & G3 & G4 & G5). exists w'. split; [|done]. constructor; simpl; auto; [congruence | |].
  - apply Forall_app. split; [|by apply sends_Forall]. eapply Forall_impl; [exact D5|]. intros seg [? ?]. split; [done|]. by apply (says_mono w w' U U R R).
  - unfold opened. simpl. rewrite Exists_app. intros Hno. destruct D9 as (F1 & F2 & F3 & F4); [by intros ?; apply Hno; left|]. destruct (G5 F1) as [? ->]. done.
Qed.

(** Dialling opens the connection, or changes nothing. *)
Lemma side_dialled peer w U R s now g res t' : side_ok peer w U R s -> ports_ok key -> is_u32 (A0 - 1) -> may_draw (A0 - 1) s g ->
  beginConnect (s_table s) key now g = (res, t') ->
  side_ok peer w U R (mkSide t' (s_sent s ++ option_list (connect_syn res)) (s_written s) (s_read s) (s_eof s)) \/
  (connect_syn res = None /\ connections t' = connections (s_table s) /\ table_ok t' /\ typed_table t').
Proof.
  intros [D1 D2 D3 D4 D5 D6 D7 D8 D9] Hk Hi Hg E. pose proof (may_draw_ok _ _ _ Hi Hg) as Hg'. pose proof (beginConnect_ok _ _ _ _ _ _ D1 Hg' E) as Ht.
  destruct (table_connect _ D2 key now g res t' Hk Hg' E) as [Hty Hwf].
  destruct (opening_dial A0 B0 key _ now g res t' (tk_map _ D1) Hi (may_draw_value _ _ _ Hg) E) as [[H1 H2]|(Hn & Ef & seg & c & H1 & H2 & H3 & H4)]; [by right|].
  left. assert (Hno : ~ opened s) by (by destruct Hg as [?|[_ ?]]). destruct (D9 Hno) as (_ & F1 & F2 & F3). rewrite H1 in *. constructor; simpl; auto.
  - rewrite H3. by left.
  - apply Forall_app. split; [done|]. apply Forall_inv in Hwf. apply Forall_singleton. split; [done|]. right. by right.
  - unfold opened. simpl. rewrite Exists_app. intros Hx. exfalso. apply Hx. right. left. apply H2.
Qed.

(** *** Receiving *)

Definition mirror : TcpConnectionKey := mkKey (remote_ip key) (remote_port key) (local_ip key) (local_port key).

(** What was sent by the peer can be processed. *)
Lemma well_formed_segment k seg : well_formed k seg -> segment_ok seg.
Proof.
  intros [_ _ (_ & _ & H3 & H4 & H5 & _ & H7 & H8) _ H]. pose proof (Zlen_nonneg (options seg)). constructor; auto. consts. lia.
Qed.

Lemma side_advance peer w U R s t' res w' U' R' : side_ok peer w U R s -> table_ok t' -> typed_table t' -> Forall (well_formed key) (result_segments res) ->
  Forall (says A0 B0 w' U' R') (result_segments res) -> w_bytes w' = w_bytes w -> extends w w' -> U <= U' ->
  R' = R + Zlen (accepted_payload res) + (if peer_closed res then 1 else 0) -> conn_side peer w' U' R' (map_find (connections t') key) ->
  accepted_payload res = take (length (accepted_payload res)) (drop (Z.to_nat (R - B0)) (w_bytes peer)) ->
  (peer_closed res = true -> w_ended peer = true /\ R + Zlen (accepted_payload res) = last_position B0 peer) ->
  (map_find (connections (s_table s)) key = None -> ~ Exists (fun seg => syn (flags seg) = true) (result_segments res) ->
     map_find (connections t') key = None /\ w' = w /\ U' = U /\ R' = R) ->
  side_ok peer w' U' R' (mkSide t' (s_sent s ++ result_segments res) (s_written s) (s_read s ++ accepted_payload res) (s_eof s || peer_closed res)).
Proof.
  intros H Ht Hty Hwf Hsl Hb Hx HU HR Hc Hacc Hcl Hfr. pose proof (side_range _ _ _ _ _ H) as Hrange. destruct H as [D1 D2 D3 D4 D5 D6 D7 D8 D9]. unfold last_position in *.
  pose proof (Zlen_nonneg (accepted_payload res)) as Hn.
  assert (He : s_eof s = true -> accepted_payload res = [] /\ peer_closed res = false).
  { intros He. destruct (D8 He) as [_ Er]. rewrite He, Er in D7. rewrite drop_ge in Hacc by (unfold Zlen in *; lia). rewrite take_nil in Hacc.
    rewrite Hacc in *. split; [done|]. destruct (peer_closed res); [|done]. destruct (Hcl eq_refl) as [_ Hl]. change (Zlen []) with 0 in Hl. lia. }
  assert (Hread : s_read s ++ accepted_payload res = take (length (s_read s ++ accepted_payload res)) (w_bytes peer)).
  { destruct (s_eof s); [destruct (He eq_refl) as [-> _]; by rewrite app_nil_r|]. rewrite length_app. replace (Z.to_nat (R - B0)) with (length (s_read s)) in Hacc by (unfold Zlen in *; lia).
    rewrite D6 at 1. rewrite Hacc at 1. apply take_take_drop. }
  constructor; simpl; auto; [congruence | | rewrite Zlen_app | |].
  - apply Forall_app. split; [|by apply sends_Forall].
    eapply Forall_impl; [exact D5|]. intros seg [? ?]. split; [done|]. apply (says_mono w w' U U' R R'); try done. destruct (peer_closed res); lia.
  - destruct (s_eof s); [destruct (He eq_refl) as [Ea Ec]; rewrite Ea, Ec in *|]; simpl; lia.
  - destruct (s_eof s) eqn:Ees; [destruct (He eq_refl) as [-> _]; rewrite app_nil_r; auto|]. simpl. intros Hp. destruct (Hcl Hp) as [Hend Hl]. split; [done|].
    rewrite Hread. apply take_ge. rewrite length_app. unfold Zlen in *. lia.
  - unfold opened. simpl. rewrite Exists_app. intros Hno. destruct D9 as (F1 & F2 & F3 & F4); [by intros ?; apply Hno; left|].
    destruct (Hfr F1) as (? & -> & -> & ->); [by intros ?; apply Hno; right | done].
Qed.

Section Arrival.
Context (peer w : Written) (U R Up Rp : Z) (s : side) (seg : TcpSegment) (now : Z) (g : option Z).
Context (Hside : side_ok peer w U R s) (Hports : ports_ok key) (Hwf : well_formed mirror seg) (Hsmall' : Zlen (w_bytes peer) <= 2 ^ 30).

Lemma arrival_plausible c : slice B0 A0 peer Up Rp seg -> synced peer w U R c -> plausible c seg.
Proof.
  intros Hseg (_ & _ & (runs & Hp) & _).
  pose proof (side_range _ _ _ _ _ Hside). destruct Hseg as (pos & Hs). pose proof (sl_range _ _ _ _ _ _ _ Hs). unfold last_position in *.
  unfold plausible. rewrite (sl_seq _ _ _ _ _ _ _ Hs), (ro_nxt _ _ _ (sy_recv _ _ _ (po_sync _ _ _ _ _ Hp))).
  rewrite i32_sub_u32, i32_small; lia.
Qed.

(** A control segment for a synchronized connection. *)
Lemma arrival_control c : control B0 seg -> map_find (connections (s_table s)) key = Some c -> synced peer w U R c ->
  exists res c', handle (s_table s) key seg now g = Some (res, update_connection (s_table s) key c') /\ table_ok (update_connection (s_table s) key c') /\
    accepted_payload res = [] /\ peer_closed res = false /\ Forall (slice A0 B0 w U R) (result_segments res) /\ (c' = c \/ pending_removal c' = true).
Proof.
  intros Hctl Ef (C1 & C2 & (runs & P) & _). pose proof (po_sync _ _ _ _ _ P) as Hok. pose proof (sy_state _ _ _ Hok) as Hst. rewrite C1 in Hst.
  destruct (control_synchronized B0 key R runs c seg now Hok C1 (well_formed_segment _ _ Hwf) Hctl) as (res & c' & E & E1 & E2 & E3).
  exists res, c'. split_and!; [| | done | done | |].
  - unfold handle. rewrite Ef. unfold state_ok in Hst. destruct (state c); try done; simpl in E; try (by rewrite E). by injection E as ->.
  - apply (table_ok_update _ (sd_table _ _ _ _ _ Hside) key c); [done|]. intros Hr. assert (c' = c) as -> by (destruct E3 as [[_ [?|?]]|[_ ?]]; congruence).
    split; [right; right; split; [done | by eexists _, _] | lia].
  - destruct E3 as [[-> _]|[-> _]]; [constructor|]. apply Forall_singleton. pose proof (side_range _ _ _ _ _ Hside).
    apply pure_ack_slice; [apply Hok | done | apply Hok | lia].
  - destruct E3 as [[_ ?]|[_ ?]]; auto.
Qed.

Lemma arrival_handled : isn_ok g -> says B0 A0 peer Up Rp seg -> exists res t', handle (s_table s) key seg now g = Some (res, t') /\ table_ok t'.
Proof.
  intros Hg Hseg. pose proof (sd_conn _ _ _ _ _ Hside) as D4. destruct (map_find (connections (s_table s)) key) as [c|] eqn:Ef.
  2:{ apply handle_ok; [apply Hside | done | by eapply well_formed_segment|]. congruence. }
  destruct D4 as [[Hop _]|Hsy], Hseg as [Hsl|Hctl].
  4:{ destruct (arrival_control c Hctl Ef Hsy) as (res & c' & E & Ht & _). by eexists _, _. }
  all: apply handle_ok; [apply Hside | done | by eapply well_formed_segment|]; rewrite Ef; intros c0 [= <-] Hh.
  3: by eapply arrival_plausible.
  all: unfold half_open in Hh; by destruct (opening_state _ _ _ Hop) as [E|E]; rewrite E in Hh.
Qed.

Context (Hg : may_draw (A0 - 1) s g) (HA : is_u32 (A0 - 1)).
Context (HUp : Up <= R) (HRp : A0 <= Rp <= last_position A0 w + 1) (HU : U <= Rp) (Hsmall : Zlen (w_bytes w) <= 2 ^ 30).

(** The position the segment acknowledges. *)
Lemma arrival_ack : slice B0 A0 peer Up Rp seg -> exists q, A0 <= q <= last_position A0 w + 1 /\ q <= Rp /\
  (rst (flags seg) = false -> ack (flags seg) = true /\ acknowledgment_number seg = u32 q).
Proof.
  intros (pos & Hs). pose proof (sl_ack _ _ _ _ _ _ _ Hs) as Hack. destruct (rst (flags seg)); [exists A0; split_and!; done || lia|].
  destruct (Hack eq_refl) as (H1 & q & H2 & H3). exists q. split_and!; done || lia.
Qed.

(** What the side is afterwards. *)
Definition advanced (res : TcpReceiveResult) (t' : TcpConnectionTable) : Prop := exists w' U' R',
  side_ok peer w' U' R' (mkSide t' (s_sent s ++ result_segments res) (s_written s) (s_read s ++ accepted_payload res) (s_eof s || peer_closed res)) /\
  extends w w' /\ U' <= Rp /\ R <= R'.

Section Outcome.
Context (res : TcpReceiveResult) (t' : TcpConnectionTable) (Ht' : table_ok t') (Hty' : typed_table t') (Hwf' : Forall (well_formed key) (result_segments res)).

Lemma advanced_quiet (o : option Connection) : map_find (connections t') key = o -> accepted_payload res = [] -> peer_closed res = false ->
  conn_side peer w U R o -> Forall (says A0 B0 w U R) (result_segments res) ->
  (map_find (connections (s_table s)) key = None -> ~ Exists (fun seg => syn (flags seg) = true) (result_segments res) -> o = None) -> advanced res t'.
Proof.
  intros Ho Ha Hc Hconn Hsays Hfr. exists w, U, R. split; [|split_and!; [apply extends_refl | done | lia]].
  eapply side_advance; eauto using extends_refl; rewrite ?Ha, ?Hc, ?Ho; try done; try (change (Zlen []) with 0; lia). intros H1 H2. split_and!; auto.
Qed.

Lemma advanced_unknown : map_find (connections (s_table s)) key = None -> handleUnknown (s_table s) key seg now g = Some (res, t') ->
  says B0 A0 peer Up Rp seg -> advanced res t'.
Proof.
  intros Ef E Hseg. assert (Hsyn : syn (flags seg) = true -> rst (flags seg) = false -> opens B0 seg).
  { intros Hs Hr. destruct Hseg as [(pos & Hsl)|[?|?]]; [|congruence | done]. pose proof (sl_syn _ _ _ _ _ _ _ Hsl). congruence. }
  destruct (opening_unknown A0 B0 key _ seg now g res t' (tk_map _ (sd_table _ _ _ _ _ Hside)) Ef (well_formed_segment _ _ Hwf) Hsyn HA (may_draw_value _ _ _ Hg) E)
    as (Ha & Hc & [[H1 H2]|(Hgn & c & r & H1 & H2 & H3 & H4)]).
  - apply (advanced_quiet None); auto; [done|]. eapply Forall_impl; [exact H2|]. intros x Hx. right. by left.
  - assert (Hno : ~ opened s) by (by destruct Hg as [?|[_ ?]]). destruct (sd_fresh _ _ _ _ _ Hside Hno) as (_ & F1 & F2 & F3).
    apply (advanced_quiet (Some c)); auto; [by left | | ]; rewrite H3; [apply Forall_singleton; right; by right|]. intros _ Hx. exfalso. apply Hx.
    left. apply H4.
Qed.

Lemma advanced_opening c : map_find (connections (s_table s)) key = Some c -> opening A0 B0 c -> w = nothing -> U = A0 -> R = B0 ->
  handle (s_table s) key seg now g = Some (res, t') -> says B0 A0 peer Up Rp seg -> advanced res t'.
Proof.
  intros Ef Hop Ew EU ER E Hseg. pose proof (sd_table _ _ _ _ _ Hside) as Ht. pose proof (well_formed_segment _ _ Hwf) as Hsok.
  assert (Hsyn : syn (flags seg) = true -> rst (flags seg) = false -> opens B0 seg).
  { intros Hs Hr. destruct Hseg as [(pos & Hsl)|[?|?]]; [|congruence | done]. pose proof (sl_syn _ _ _ _ _ _ _ Hsl). congruence. }
  assert (Hout : opening_outcome A0 B0 res (map_find (connections t') key)).
  { revert E. unfold handle. rewrite Ef. destruct (og_kind _ _ _ Hop) as [K|[K _]].
    - rewrite (ss_state _ K). destruct (opening_synSent A0 B0 key c seg now Hop K Hsok Hsyn) as (r & c' & -> & Hr). cbn [mbind option_bind]. intros [= <- <-].
      unfold update_connection. destruct (pending_removal c'); simpl; rewrite ?map_find_set, ?map_find_erase, key_eqb_refl by apply Ht; done.
    - rewrite (sr_state _ K). intros E. injection E as E. by eapply (opening_synReceived A0 B0 key (s_table s) c); [..|apply Ht|done|]. }
  destruct Hout as (Ha & Hc & Ho). apply (advanced_quiet (map_find (connections t') key)); auto; [..|by rewrite Ef].
  - destruct (map_find (connections t') key) as [c'|]; [|done]. destruct Ho as [[Ho _]|[(H1 & H2 & H3 & H4) _]]; [by left|]. right.
    unfold synced. rewrite Ew, EU, ER, H4. split_and!; [done | done | by eexists | done].
  - destruct (map_find (connections t') key) as [c'|]; [|by rewrite Ho]. destruct Ho as [[_ Ho]|[_ Ho]]; [|by rewrite Ew, EU, ER; apply says_Forall].
    eapply Forall_impl; [exact Ho|]. intros x Hx. right. by right.
Qed.

Lemma advanced_timeWait c r c' : map_find (connections (s_table s)) key = Some c -> handleTimeWait key c seg now = (r, c') ->
  res = r -> t' = update_connection (s_table s) key c' -> state c = TimeWait -> synced peer w U R c -> advanced res t'.
Proof.
  intros Ef E -> Et Hst (C1 & C2 & (runs & P) & C4).
  pose proof (side_range _ _ _ _ _ Hside) as [HB _]. pose proof (po_sync _ _ _ _ _ P) as Hok.
  destruct (flow_timeWait A0 B0 key w U R runs c seg U now r c' Hok C2 HB E) as (w' & U' & G1 & G2 & G3 & G4 & G5 & G6).
  destruct (handleTimeWait_spec key R runs c seg now r c' Hok C1 Hst E) as (T1 & _ & T3 & _ & T5).
  assert (U' = U) as -> by lia. exists w', U, R. split; [|split_and!; [done | done | lia]].
  eapply side_advance; eauto using says_Forall; rewrite ?T1, ?T3; try done; try (change (Zlen []) with 0; lia); [|by rewrite Ef].
  rewrite Et. unfold update_connection. destruct (pending_removal c') eqn:Er.
  - simpl. rewrite map_find_erase by apply Hside. by rewrite key_eqb_refl.
  - rewrite find_set by apply Hside. destruct T5 as [(? & _ & _)|(K & _ & _ & _)]; [congruence|].
    assert (Hrv : pending_fin_seq c' = pending_fin_seq c).
    { revert E. unfold handleTimeWait. repeat case_match; by intros [= <- <-]. }
    destruct P as [P1 P2 P3 P4]. right. split_and!; auto; [|by rewrite Hrv]. exists runs. constructor; auto. by rewrite Hrv.
Qed.

Lemma advanced_synchronized c r c' : map_find (connections (s_table s)) key = Some c -> handleSynchronized key c seg now = Some (r, c') ->
  res = r -> t' = update_connection (s_table s) key c' -> state c <> TimeWait -> synced peer w U R c -> slice B0 A0 peer Up Rp seg -> advanced res t'.
Proof.
  intros Ef E -> Et Hst (C1 & C2 & (runs & P) & C4) Hseg.
  pose proof (side_range _ _ _ _ _ Hside) as HB. pose proof (po_sync _ _ _ _ _ P) as Hok. pose proof (well_formed_segment _ _ Hwf) as Hsok.
  destruct (arrival_ack Hseg) as (q & Hq & HqR & Ha). destruct Hseg as (pos & Hs). pose proof Hs as [Q1 Q2 Q3 Q4 Q5 Q6].
  assert (Hpl : seq_plausible R pos) by (unfold seq_plausible, last_position in *; lia).
  assert (Hfit : fits B0 (w_bytes peer) R pos seg).
  { split_and!; [done | | intros Hf; by destruct (Q4 Hf)]. intros k b Hk Hge. apply Q3; [done | lia]. }
  destruct (flow_synchronized A0 B0 key w U R runs c seg pos q now r c' Hok C1 Hst Hsok Q1 Hpl C2 ltac:(lia) ltac:(lia)) as (w' & U' & G1 & G2 & G3 & G4 & G5 & G6);
    [intros Hr; split; [by apply Ha | lia] | done |].
  assert (HU' : U' <= Rp) by (destruct G5; lia). pose proof (Zlen_nonneg (accepted_payload r)).
  destruct (position_step key B0 (w_bytes peer) R runs c pos seg now r c' P C1 Hst Hsok Hfit Hpl E)
    as [(Hrm & Hacc & Hcl)|(R' & rest & -> & P' & Hacc & Hcl & Hfin)].
  - exists w', U', R. rewrite Hacc, Hcl in G6. change (Zlen []) with 0 in G6. rewrite !Z.add_0_r in G6. split; [|split_and!; [done | done | lia]].
    eapply side_advance; eauto using says_Forall; rewrite ?Hacc, ?Hcl; try done; try (change (Zlen []) with 0; lia); [|by rewrite Ef].
    rewrite Et. unfold update_connection. rewrite Hrm. simpl. rewrite map_find_erase by apply Hside. by rewrite key_eqb_refl.
  - assert (Hfin' : peer_closed r || has_value (pending_fin_seq c') = true -> w_ended peer = true).
    { intros Hx. specialize (Hfin Hx). apply orb_true_iff in Hfin as [Hf|Hf]; [auto | by destruct (Q4 Hf)]. }
    eexists w', U', _. split; [|split_and!; [done | done |]].
    + eapply side_advance; eauto using says_Forall; [| |by rewrite Ef].
      * rewrite Et. unfold update_connection. destruct (pending_removal c') eqn:Er.
        -- simpl. rewrite map_find_erase by apply Hside. by rewrite key_eqb_refl.
        -- rewrite find_set by apply Hside. right. split_and!; auto; [by exists rest|]. intros Hv. apply Hfin'. by rewrite Hv, orb_true_r.
      * intros Hc. split; [apply Hfin'; by rewrite Hc | by apply Hcl].
    + destruct (peer_closed r); lia.
Qed.
End Outcome.

Lemma arrival_advances res t' : says B0 A0 peer Up Rp seg -> handle (s_table s) key seg now g = Some (res, t') -> advanced res t'.
Proof.
  intros Hseg E. assert (Hg' : isn_ok g) by (by eapply may_draw_ok). destruct (arrival_handled Hg' Hseg) as (r & t1 & E' & Ht').
  rewrite E in E'. injection E' as <- <-.
  assert (Hty : typed_table t' /\ Forall (well_formed key) (result_segments res)).
  { apply (table_handle (s_table s)) with seg now g; try done; [apply Hside | symmetry; apply Hwf | symmetry; apply Hwf | by eapply well_formed_segment]. }
  destruct Hty as [Hty Hwf']. assert (Hcase : map_find (connections (s_table s)) key = None \/ exists c, map_find (connections (s_table s)) key = Some c)
    by (destruct (map_find _ _); eauto).
  destruct Hcase as [Ef|[c Ef]]; [unfold handle in E; rewrite Ef in E; by eapply advanced_unknown|]. pose proof (sd_conn _ _ _ _ _ Hside) as D4. rewrite Ef in D4.
  destruct D4 as [(Hop & E1 & E2 & E3)|Hsy]; [by eapply (advanced_opening res t' Ht' Hty Hwf' c)|]. destruct Hseg as [Hsl|Hctl].
  2:{ destruct (arrival_control c Hctl Ef Hsy) as (r & c' & E' & _ & Ha & Hc & Hs & Hk). rewrite E in E'. injection E' as <- Et.
      eapply (advanced_quiet res t' Ht' Hty Hwf' (if pending_removal c' then None else Some c')); auto using says_Forall; [| |by rewrite Ef].
      - rewrite Et. unfold update_connection. destruct (pending_removal c'); simpl; rewrite ?map_find_set, ?map_find_erase, key_eqb_refl by apply Hside; done.
      - destruct Hk as [-> | ->]; [|done]. destruct (pending_removal c); [done | by right]. }
  pose proof Hsy as (C1 & _ & (runs & P) & _). pose proof (sy_state _ _ _ (po_sync _ _ _ _ _ P)) as Hst. rewrite C1 in Hst. revert E. unfold handle. rewrite Ef.
  assert (Hsync : state c <> TimeWait -> ('(result, connection) ← handleSynchronized key c seg now; Some (result, update_connection (s_table s) key connection)) = Some (res, t') ->
    advanced res t').
  { intros Hne. destruct (handleSynchronized key c seg now) as [[r c']|] eqn:Eh; [|done]. intros [= <- <-]. by eapply advanced_synchronized. }
  unfold state_ok in Hst. destruct (state c) eqn:Es; try done; try (by apply Hsync).
  destruct (handleTimeWait key c seg now) as [r c'] eqn:Eh. intros [= <- <-]. by eapply advanced_timeWait.
Qed.
End Arrival.
End Side.

(** ** Other connections *)

Section Other.
Context (key key' : TcpConnectionKey) (Hne : key <> key').

Lemma find_other_set t c : map_ok (connections t) -> map_find (connections (set_connection t key' c)) key = map_find (connections t) key.
Proof. intros H. simpl. rewrite map_find_set by done. by rewrite (proj2 (key_eqb_neq _ _) Hne). Qed.

Lemma find_other_erase t : map_ok (connections t) -> map_find (connections (erase_connection t key')) key = map_find (connections t) key.
Proof. intros H. simpl. rewrite map_find_erase by done. by rewrite (proj2 (key_eqb_neq _ _) Hne). Qed.

Lemma find_other_update t c : map_ok (connections t) -> map_find (connections (update_connection t key' c)) key = map_find (connections t) key.
Proof. intros H. unfold update_connection. destruct (pending_removal c); auto using find_other_set, find_other_erase. Qed.

Lemma find_other_new t g isn t1 c : map_ok (connections t) -> nextIsn t g = (isn, t1) ->
  map_find (connections (set_connection t1 key' c)) key = map_find (connections t) key.
Proof. intros H E. apply nextIsn_frame in E as (E & _). rewrite find_other_set; rewrite E; done. Qed.

Lemma find_other_isn t g isn t1 : nextIsn t g = (isn, t1) -> map_find (connections t1) key = map_find (connections t) key.
Proof. intros E. apply nextIsn_frame in E as (E & _). by rewrite E. Qed.

Lemma find_other_unknown t seg now g res t' : map_ok (connections t) -> handleUnknown t key' seg now g = Some (res, t') ->
  map_find (connections t') key = map_find (connections t) key.
Proof.
  intros H. unfold handleUnknown. destruct (negb _); [destruct (rst _); by intros [= <- <-]|]. destruct (rst _); [by intros [= <- <-]|].
  destruct (_ || _); [by intros [= <- <-]|]. destruct (parseTcpOptions _) as [[opts|e]|]; cbn [mbind option_bind]; [|by intros [= <- <-] | done].
  destruct (negb _); [by intros [= <- <-]|]. destruct (at_capacity t); [by intros [= <- <-]|].
  destruct (nextIsn t g) as [[isn|] t1] eqn:En; intros [= <- <-]; [by eapply find_other_new | by eapply find_other_isn].
Qed.

Lemma find_other_handle t seg now g res t' : map_ok (connections t) -> handle t key' seg now g = Some (res, t') ->
  map_find (connections t') key = map_find (connections t) key.
Proof.
  intros H. unfold handle. destruct (map_find (connections t) key') as [c|]; [|by apply find_other_unknown].
  assert (Hu : forall o, ('(result, connection) ← o; Some (result, update_connection t key' connection)) = Some (res, t') ->
    map_find (connections t') key = map_find (connections t) key).
  { intros [[r c']|]; [|done]. intros [= <- <-]. by apply find_other_update. }
  destruct (state c); try apply Hu.
  - intros E. apply (inj Some) in E. revert E. unfold handleSynReceived. repeat case_match; intros [= <- <-]; auto using find_other_set, find_other_erase.
  - destruct (handleTimeWait _ _ _ _) as [r c']. intros [= <- <-]. by apply find_other_update.
Qed.
End Other.

Lemma other_step_ok key t t' : other_step key t t' -> table_ok t -> typed_table t ->
  table_ok t' /\ typed_table t' /\ map_find (connections t') key = map_find (connections t) key.
Proof.
  destruct 1 as [t t' key' seg now g res Hne Hk E1 E2 Hs Hg Hp E|t t' key' now g res Hne Hk Hg E|t t' key' p now res Hne Hk Hb E
    |t t' key' now res Hne Hk E]; intros Ht Hty.
  - split_and!; [apply (step_ok t); [by eapply step_segment | done] | by eapply (table_handle t) | by eapply find_other_handle; [|apply Ht|]].
  - split_and!; [apply (step_ok t); [by eapply step_connect | done] | by eapply (table_connect t)|]. revert E. unfold beginConnect.
    do 3 (destruct (_ : bool); [by intros [= <- <-]|]). destruct (nextIsn t g) as [[isn|] t1] eqn:En; intros [= <- <-];
      [by eapply find_other_new; [|apply Ht|] | by eapply find_other_isn].
  - split_and!; [apply (step_ok t); [by eapply step_send | done] | by eapply (table_send t)|]. 
    destruct (makeOutgoingData_cases _ _ _ _ _ _ Ht Hb E) as [[-> _]|(c & c' & R & runs & _ & _ & _ & _ & -> & _)]; [done|]. by apply find_other_set; [|apply Ht].
  - split_and!; [apply (step_ok t); [by eapply step_close | done] | by eapply (table_close t)|].
    destruct (beginClose_cases _ _ _ _ _ Ht E) as [[-> _]|(c & c' & R & runs & _ & _ & _ & _ & -> & _)]; [done|]. by apply find_other_set; [|apply Ht].
Qed.

(** ** Every step keeps the invariant *)

Lemma side_step_ok A0 B0 key peer w U R Up Rp s incoming s' :
  ports_ok key -> ip_ok (local_ip key) -> ip_ok (remote_ip key) -> is_u32 (A0 - 1) -> side_ok A0 B0 key peer w U R s ->
  Forall (sends B0 A0 (mirror key) peer Up Rp) incoming -> Up <= R -> A0 <= Rp <= last_position A0 w + 1 -> U <= Rp ->
  Zlen (w_bytes w) <= 2 ^ 30 -> Zlen (w_bytes peer) <= 2 ^ 30 -> side_step key (A0 - 1) incoming s s' ->
  exists w' U' R', side_ok A0 B0 key peer w' U' R' s' /\ extends w w' /\ U' <= Rp /\ R <= R'.
Proof.
  intros Hk Hl Hr HA Hs Hin HUp HRp HU Hw Hp Hstep. pose proof (side_range _ _ _ _ _ _ _ _ Hs) as [HB _].
  pose proof (sd_table _ _ _ _ _ _ _ _ Hs) as Ht. pose proof (sd_typed _ _ _ _ _ _ _ _ Hs) as Hty.
  assert (Hlocal : forall t' segs accepted, table_ok t' -> typed_table t' -> Forall (well_formed key) segs ->
    (forall c runs, map_find (connections (s_table s)) key = Some c -> sync_ok R runs c -> pending_removal c = false -> flow A0 w U c ->
       acted A0 B0 w U R runs c accepted segs (map_find (connections t') key)) ->
    (forall c, map_find (connections (s_table s)) key = Some c -> opening A0 B0 c -> still_opening A0 B0 accepted segs (map_find (connections t') key)) ->
    (map_find (connections (s_table s)) key = None -> map_find (connections t') key = None /\ segs = [] /\ accepted = []) ->
    exists w' U' R', side_ok A0 B0 key peer w' U' R' (mkSide t' (s_sent s ++ segs) (s_written s ++ accepted) (s_read s) (s_eof s)) /\
      extends w w' /\ U' <= Rp /\ R <= R').
  { intros t' segs accepted H1 H2 H3 H4 H5 H6. destruct (side_acted A0 B0 key peer w U R s t' segs accepted Hs H1 H2 H3 H4 H5 H6) as (w' & G1 & G2).
    exists w', U, R. split_and!; auto. lia. }
  destruct Hstep as [s now g res t' Hg E|s p now res t' Hb E|s now res t' E|s now res t' E|s now res t' E|s seg bytes seg' now g res t' Hseg Hg E1 E2 E|s t' E].
  - destruct (side_dialled A0 B0 key peer w U R s now g res t' Hs Hk HA Hg E) as [H|(E1 & E2 & H1 & H2)]; [exists w, U, R; split_and!; auto using extends_refl; lia|].
    rewrite E1, <- (app_nil_r (s_written s)). apply Hlocal; [done | done | constructor | | |by rewrite E2]; intros c; rewrite E2.
    + intros runs Ef Hok Hrem HF. rewrite Ef. by apply acted_same.
    + intros Ef Hop. rewrite Ef. by split_and!.
  - apply Hlocal; [by eapply makeOutgoingData_ok | by eapply (table_send _ Hty) | by eapply (table_send _ Hty) | intros; by eapply acted_send | intros; by eapply opening_send |].
    intros Ef. exact (gone_send key _ Ef _ _ _ _ E).
  - rewrite <- (app_nil_r (s_written s)).
    apply Hlocal; [by eapply beginClose_ok | by eapply (table_close _ Hty) | by eapply (table_close _ Hty) | intros; by eapply acted_close | intros; by eapply opening_close |].
    intros Ef. by destruct (gone_close key _ Ef _ _ _ E).
  - rewrite <- (app_nil_r (s_written s)). destruct (table_retransmissions _ Hty _ _ _ E) as [Hty' Hwf].
    apply Hlocal; [by eapply pollRetransmissions_ok | done | by eapply for_key_Forall | intros; by eapply acted_timeout | intros; by eapply opening_timeout |].
    intros Ef. by destruct (gone_timeout key _ Ht Ef _ _ _ E).
  - rewrite <- (app_nil_r (s_written s)). destruct (table_probes _ Hty _ _ _ E) as [Hty' Hwf].
    apply Hlocal; [by eapply pollPersistProbes_ok | done | by eapply for_key_Forall | intros; by eapply acted_probe | intros; by eapply opening_probes |].
    intros Ef. by destruct (gone_probe key _ Ht Ef _ _ _ E).
  - apply list_elem_of_lookup_1 in Hseg as (i & Hi). destruct (Forall_lookup_1 _ _ _ _ Hin Hi) as [Hwf Hsl].
    destruct (well_formed_travels _ _ _ _ Hwf Hr Hl) as (b & T1 & T2 & _). rewrite E1 in T1. injection T1 as <-. rewrite E2 in T2. injection T2 as ->.
    by apply (arrival_advances A0 B0 key peer w U R Up Rp s seg now g).
  - destruct (other_step_ok key _ _ E Ht Hty) as (H1 & H2 & H3). rewrite <- (app_nil_r (s_written s)), <- (app_nil_r (s_sent s)).
    apply Hlocal; [done | done | constructor | | |by rewrite H3]; intros c; rewrite H3.
    + intros runs Ef Hok Hrem HF. rewrite Ef. by apply acted_same.
    + intros Ef Hop. rewrite Ef. by split_and!.
Qed.

Lemma side_step_written key isn incoming s s' : side_step key isn incoming s s' -> Zlen (s_written s) <= Zlen (s_written s').
Proof. destruct 1; simpl; try lia. rewrite Zlen_app. pose proof (Zlen_nonneg (take (Z.to_nat (bytes_accepted res)) p)). lia. Qed.

(** ** The conversation *)

(** The two sides, with their initial sequence numbers. *)
Inductive world_step (key : TcpConnectionKey) (isn_a isn_b : Z) : side * side -> side * side -> Prop :=
| step_left a a' b : side_step key isn_a (s_sent b) a a' -> world_step key isn_a isn_b (a, b) (a', b)
| step_right a b b' : side_step (mirror key) isn_b (s_sent a) b b' -> world_step key isn_a isn_b (a, b) (a, b').

(** A side before anything has happened. *)
Definition start (t : TcpConnectionTable) : side := mkSide t [] [] [] false.

Definition world_ok (key : TcpConnectionKey) (a0 b0 : Z) (p : side * side) : Prop := exists wa ua ra wb ub rb,
  side_ok a0 b0 key wb wa ua ra p.1 /\ side_ok b0 a0 (mirror key) wa wb ub rb p.2 /\ ua <= rb /\ ub <= ra.

Lemma start_ok key a0 b0 t : table_ok t -> typed_table t -> map_find (connections t) key = None ->
  side_ok a0 b0 key nothing nothing a0 b0 (start t).
Proof. intros H1 H2 H3. constructor; simpl; try done; [by rewrite H3 | change (Zlen []) with 0; lia]. Qed.

Lemma mirror_mirror key : mirror (mirror key) = key.
Proof. by destruct key. Qed.

Section Conversation.
Context (key : TcpConnectionKey) (a0 b0 : Z) (Hk : ports_ok key) (Hl : ip_ok (local_ip key)) (Hr : ip_ok (remote_ip key)).
Context (Hia : is_u32 (a0 - 1)) (Hib : is_u32 (b0 - 1)).

Definition brief (p : side * side) : Prop := Zlen (s_written p.1) <= 2 ^ 30 /\ Zlen (s_written p.2) <= 2 ^ 30.

Lemma world_step_ok p p' : world_ok key a0 b0 p -> world_step key (a0 - 1) (b0 - 1) p p' -> brief p' -> world_ok key a0 b0 p' /\ brief p.
Proof.
  intros (wa & ua & ra & wb & ub & rb & Ha & Hb & Hab & Hba) Hstep [B1 B2].
  pose proof (side_range _ _ _ _ _ _ _ _ Ha) as Rga. pose proof (side_range _ _ _ _ _ _ _ _ Hb) as Rgb.
  pose proof (sd_written _ _ _ _ _ _ _ _ Ha) as Wa. pose proof (sd_written _ _ _ _ _ _ _ _ Hb) as Wb.
  destruct Hstep as [a a' b Hs|a b b' Hs]; simpl in *; pose proof (side_step_written _ _ _ _ _ Hs).
  - rewrite Wa, Wb in *. destruct (side_step_ok a0 b0 key wb wa ua ra ub rb a (s_sent b) a') as (w' & U' & R' & G1 & G2 & G3 & G4); auto; try lia; [apply Hb|].
    split; [|split; simpl; rewrite ?Wa, ?Wb; lia]. exists w', U', R', wb, ub, rb. split_and!; [done | by eapply side_mono | lia | lia].
  - rewrite Wa, Wb in *. destruct (side_step_ok b0 a0 (mirror key) wa wb ub rb ua ra b (s_sent a) b') as (w' & U' & R' & G1 & G2 & G3 & G4); auto; try lia.
    + split; apply Hk.
    + rewrite mirror_mirror. apply Ha.
    + split; [|split; simpl; rewrite ?Wa, ?Wb; lia]. exists wa, ua, ra, w', U', R'. split_and!; [by eapply side_mono | done | lia | lia].
Qed.

Lemma conversation_ok p p' : world_ok key a0 b0 p -> rtc (world_step key (a0 - 1) (b0 - 1)) p p' -> brief p' -> world_ok key a0 b0 p'.
Proof.
  intros Hok H. revert Hok. induction H as [p|p q r Hpq Hqr IH]; intros Hok Hbrief; [done|].
  assert (Hq : brief q).
  { clear -Hqr Hbrief. induction Hqr as [|x y z Hxy Hyz IH]; [done|]. specialize (IH Hbrief). unfold brief in *.
    destruct Hxy as [a a' b Hs|a b b' Hs]; simpl in *; pose proof (side_step_written _ _ _ _ _ Hs); lia. }
  apply IH; [|done]. by eapply world_step_ok.
Qed.
End Conversation.

(** What [reader] has read is what [writer] wrote, so far and at the end. *)
Definition delivers (writer reader : side) : Prop :=
  s_read reader = take (length (s_read reader)) (s_written writer) /\ (s_eof reader = true -> s_read reader = s_written writer).

(** Whatever [sender] has sent travels as bytes, and the table of the other
    side, where the connection has the key [k], can always process it. *)
Definition arrives_safely (k : TcpConnectionKey) (sender receiver : side) : Prop := forall seg, seg ∈ s_sent sender ->
  exists bytes, serializeTcpSegment seg (remote_ip k) (local_ip k) = inl bytes /\ parseTcpSegment bytes (remote_ip k) (local_ip k) = Some (inl seg) /\
    forall now g, isn_ok g -> exists res t', handle (s_table receiver) k seg now g = Some (res, t').

Lemma side_delivers A0 B0 key peer w U R s : side_ok A0 B0 key peer w U R s -> s_read s = take (length (s_read s)) (w_bytes peer) /\
  (s_eof s = true -> s_read s = w_bytes peer).
Proof. intros [_ _ _ _ _ H1 _ H2 _]. split; [done|]. intros He. by destruct (H2 He). Qed.

Lemma side_safe A0 B0 key peer w U R Up Rp s sender : ports_ok key -> ip_ok (local_ip key) -> ip_ok (remote_ip key) -> side_ok A0 B0 key peer w U R s ->
  Forall (sends B0 A0 (mirror key) peer Up Rp) (s_sent sender) -> Zlen (w_bytes peer) <= 2 ^ 30 -> arrives_safely key sender s.
Proof.
  intros Hk Hl Hr Hs Hin Hw seg Hseg. apply list_elem_of_lookup_1 in Hseg as (i & Hi). destruct (Forall_lookup_1 _ _ _ _ Hin Hi) as [Hwf Hsl].
  destruct (well_formed_travels _ _ _ _ Hwf Hr Hl) as (b & T1 & T2 & _). exists b. split_and!; auto. intros now g Hg.
  destruct (arrival_handled A0 B0 key peer w U R Up Rp s seg now g Hs Hwf Hw Hg Hsl) as (res & t' & E & _). by eexists _, _.
Qed.

(** What holds of one side of any conversation. *)
Record engaged (key : TcpConnectionKey) (peer s : side) : Prop := {
  en_table : table_ok (s_table s);
  en_delivers : delivers peer s;
  en_safe : arrives_safely key peer s;
  en_sent : Forall (well_formed key) (s_sent s);
  en_fresh : ~ opened s -> map_find (connections (s_table s)) key = None /\ s_written s = [] /\ s_read s = [] /\ s_eof s = false
}.

Lemma side_engaged A0 B0 key peer w U R Up Rp s sender : ports_ok key -> ip_ok (local_ip key) -> ip_ok (remote_ip key) -> side_ok A0 B0 key peer w U R s ->
  Forall (sends B0 A0 (mirror key) peer Up Rp) (s_sent sender) -> s_written sender = w_bytes peer -> Zlen (w_bytes peer) <= 2 ^ 30 -> engaged key sender s.
Proof.
  intros Hk Hl Hr Hs Hin Hpeer Hw. constructor; [apply Hs | | by eapply side_safe | |].
  - unfold delivers. rewrite Hpeer. by eapply side_delivers.
  - eapply Forall_impl; [apply (sd_sent _ _ _ _ _ _ _ _ Hs)|]. by intros seg [? _].
  - intros Hno. destruct (sd_fresh _ _ _ _ _ _ _ _ Hs Hno) as (F1 & F2 & _ & F3). pose proof (sd_position _ _ _ _ _ _ _ _ Hs) as HR.
    rewrite F3 in HR. pose proof (Zlen_nonneg (s_read s)). rewrite (sd_written _ _ _ _ _ _ _ _ Hs), F2. split_and!; [done | done | |].
    + assert (Hz : Zlen (s_read s) = 0) by (destruct (s_eof s); lia). by destruct (s_read s).
    + destruct (s_eof s); [lia | done].
Qed.

Lemma conversation_engaged key isn_a isn_b ta tb a b :
  ports_ok key -> ip_ok (local_ip key) -> ip_ok (remote_ip key) -> is_u32 isn_a -> is_u32 isn_b ->
  table_ok ta -> typed_table ta -> map_find (connections ta) key = None ->
  table_ok tb -> typed_table tb -> map_find (connections tb) (mirror key) = None ->
  rtc (world_step key isn_a isn_b) (start ta, start tb) (a, b) -> Zlen (s_written a) <= 2 ^ 30 -> Zlen (s_written b) <= 2 ^ 30 ->
  engaged key b a /\ engaged (mirror key) a b.
Proof.
  replace isn_a with (isn_a + 1 - 1) by lia. replace isn_b with (isn_b + 1 - 1) by lia. set (a0 := isn_a + 1). set (b0 := isn_b + 1).
  intros Hk Hl Hr Hia Hib H1 H2 H3 H4 H5 H6 Hsteps Hwa Hwb.
  pose proof (start_ok key a0 b0 ta H1 H2 H3) as Ha. pose proof (start_ok (mirror key) b0 a0 tb H4 H5 H6) as Hb.
  destruct (conversation_ok key a0 b0 Hk Hl Hr Hia Hib (start ta, start tb) (a, b)) as (wa & ua & ra & wb & ub & rb & Oa & Ob & _ & _); [|done|done|].
  { eexists _, a0, b0, _, b0, a0. split_and!; [exact Ha | exact Hb | lia | lia]. }
  pose proof (sd_written _ _ _ _ _ _ _ _ Oa) as Wa. pose proof (sd_written _ _ _ _ _ _ _ _ Ob) as Wb. simpl in Oa, Ob, Wa, Wb. rewrite Wa in Hwa. rewrite Wb in Hwb. split.
  - eapply side_engaged; [done | done | done | exact Oa | apply Ob | done | done].
  - eapply side_engaged; [split; apply Hk | done | done | exact Ob | rewrite mirror_mirror; apply Oa | done | done].
Qed.

(** C1 (refinement): TCP end to end. Two tables without a connection between
    them, and a network that may lose, repeat, delay and reorder segments: any
    segment one side ever sent, the SYNs included, may arrive at the other,
    late, repeatedly, in any order or never, as the bytes it was serialized to.
    The applications dial, write and close, the timers of either side run, both
    tables serve other connections. Then, in each direction, what was read is a
    prefix of what was written, and when the end was reported it is all of it,
    as long as neither side has written more than 2^30 bytes; and every segment
    ever sent is serialized, parsed back, and processed without reading outside
    a buffer. Each side opens the connection at most once. *)
Theorem tcp_end_to_end key isn_a isn_b ta tb a b :
  ports_ok key -> ip_ok (local_ip key) -> ip_ok (remote_ip key) -> is_u32 isn_a -> is_u32 isn_b ->
  table_ok ta -> typed_table ta -> map_find (connections ta) key = None ->
  table_ok tb -> typed_table tb -> map_find (connections tb) (mirror key) = None ->
  rtc (world_step key isn_a isn_b) (start ta, start tb) (a, b) -> Zlen (s_written a) <= 2 ^ 30 -> Zlen (s_written b) <= 2 ^ 30 ->
  delivers a b /\ delivers b a /\ arrives_safely (mirror key) a b /\ arrives_safely key b a.
Proof.
  intros Hk Hl Hr Hia Hib H1 H2 H3 H4 H5 H6 Hsteps Hwa Hwb.
  by destruct (conversation_engaged key isn_a isn_b ta tb a b) as [[_ Da Sa _ _] [_ Db Sb _ _]].
Qed.

(** ** A conversation *)

Module Talk.
Definition key : TcpConnectionKey := mkKey (Ipv4 10 0 0 1) 5000 (Ipv4 10 0 0 2) 80.
Definition hello : list Z := [104; 101; 108; 108; 111].

Definition client00 : side := start (new_table 0 4 2).
Definition server0 : side := start (new_table 80 4 2).

(** The client dials. *)
Definition client0 : side :=
  let '(res, t') := beginConnect (s_table client00) key 0 (Some 7000) in mkSide t' (option_list (connect_syn res)) [] [] false.

(** Segment [i] of those [sender] has sent arrives. *)
Definition hear (k : TcpConnectionKey) (g : option Z) (sender : side) (i : nat) (now : Z) (s : side) : option side :=
  seg ← s_sent sender !! i;
  bytes ← match serializeTcpSegment seg (remote_ip k) (local_ip k) with inl b => Some b | inr _ => None end;
  seg' ← match parseTcpSegment bytes (remote_ip k) (local_ip k) with Some (inl x) => Some x | _ => None end;
  '(res, t') ← handle (s_table s) k seg' now g;
  Some (mkSide t' (s_sent s ++ result_segments res) (s_written s) (s_read s ++ accepted_payload res) (s_eof s || peer_closed res)).

Lemma hears k isn g sender i now s s' : hear k g sender i now s = Some s' -> may_draw isn s g -> side_step k isn (s_sent sender) s s'.
Proof.
  intros H Hg. unfold hear in H. destruct (s_sent sender !! i) as [seg|] eqn:Ei; [|done]. cbn [mbind option_bind] in H.
  destruct (serializeTcpSegment seg _ _) as [bytes|] eqn:E1; [|done]. cbn [mbind option_bind] in H.
  destruct (parseTcpSegment bytes _ _) as [[seg'|]|] eqn:E2; [|done..]. cbn [mbind option_bind] in H.
  destruct (handle _ _ _ _ _) as [[res t']|] eqn:E3; [|done]. injection H as <-.
  eapply (side_receive k isn _ s seg bytes seg' now g); auto. by eapply list_elem_of_lookup_2.
Qed.

Definition say (k : TcpConnectionKey) (p : list Z) (now : Z) (s : side) : side :=
  let '(res, t') := makeOutgoingData (s_table s) k p now in
  mkSide t' (s_sent s ++ send_segments res) (s_written s ++ take (Z.to_nat (bytes_accepted res)) p) (s_read s) (s_eof s).
Definition hang_up (k : TcpConnectionKey) (now : Z) (s : side) : side :=
  let '(res, t') := beginClose (s_table s) k now in mkSide t' (s_sent s ++ option_list (close_fin res)) (s_written s) (s_read s) (s_eof s).

Lemma says_it k isn incoming p now s : bytes_ok p -> side_step k isn incoming s (say k p now s).
Proof. intros Hp. unfold say. destruct (makeOutgoingData _ _ _ _) as [res t'] eqn:E. by apply side_send with now. Qed.
Lemma hangs_up k isn incoming now s : side_step k isn incoming s (hang_up k now s).
Proof. unfold hang_up. destruct (beginClose _ _ _) as [res t'] eqn:E. by apply side_close with now. Qed.

(** The handshake; the SYN arrives a second time at the end. The client says
    hello and closes, and the FIN overtakes the greeting. *)
Definition server1 : side := default server0 (hear (mirror key) (Some 9000) client0 0 1 server0).
Definition client1 : side := default client0 (hear key None server1 0 2 client0).
Definition server2 : side := default server0 (hear (mirror key) None client1 1 3 server1).
Definition server3 : side := default server0 (hear (mirror key) None client1 0 4 server2).
Definition client2 : side := say key hello 10 client1.
Definition client3 : side := hang_up key 11 client2.
Definition server4 : side := default server0 (hear (mirror key) None client3 3 12 server3).
Definition server5 : side := default server0 (hear (mirror key) None client3 2 13 server4).

Lemma talk : rtc (world_step key 7000 9000) (client00, server0) (client3, server5).
Proof.
  apply (rtc_l _ _ (client0, server0)); [apply step_left, (side_dial key 7000 _ client00 0 (Some 7000)); [right; split; [done | intros H; inversion H] | done]|].
  apply (rtc_l _ _ (client0, server1)); [apply step_right, (hears (mirror key) 9000 (Some 9000) client0 0 1); [by vm_compute | right; split; [done | intros H; inversion H]]|].
  apply (rtc_l _ _ (client1, server1)); [apply step_left, (hears key 7000 None server1 0 2); [by vm_compute | by left]|].
  apply (rtc_l _ _ (client1, server2)); [apply step_right, (hears (mirror key) 9000 None client1 1 3); [by vm_compute | by left]|].
  apply (rtc_l _ _ (client1, server3)); [apply step_right, (hears (mirror key) 9000 None client1 0 4); [by vm_compute | by left]|].
  apply (rtc_l _ _ (client2, server3)); [apply step_left, says_it; by repeat (apply Forall_cons_2; [by vm_compute|]); apply Forall_nil_2|].
  apply (rtc_l _ _ (client3, server3)); [apply step_left, hangs_up|].
  apply (rtc_l _ _ (client3, server4)); [apply step_right, (hears (mirror key) 9000 None client3 3 12); [by vm_compute | by left]|].
  apply (rtc_l _ _ (client3, server5)); [apply step_right, (hears (mirror key) 9000 None client3 2 13); [by vm_compute | by left] | done].
Qed.
End Talk.

(** The greeting is read before the end is reported. *)
Lemma tcp_end_to_end_witness : s_read Talk.server5 = Talk.hello /\ s_eof Talk.server5 = true /\ delivers Talk.client3 Talk.server5.
Proof.
  split; [by vm_compute|]. split; [by vm_compute|].
  assert (Hip : ip_ok (local_ip Talk.key) /\ ip_ok (remote_ip Talk.key)) by (split; by repeat (apply Forall_cons_2; [by vm_compute|]); apply Forall_nil_2).
  refine (proj1 (tcp_end_to_end Talk.key 7000 9000 (new_table 0 4 2) (new_table 80 4 2) Talk.client3 Talk.server5
    _ (proj1 Hip) (proj2 Hip) _ _ (new_table_ok 0 4 2) (typed_empty 0 4 2) _ (new_table_ok 80 4 2) (typed_empty 80 4 2) _ Talk.talk _ _)); by vm_compute.
Defined.
