(* ===== verification/TcpReports.v ===== *)
(** * What the table reports to the application

    The applications keep a session per connection and rely on what an
    operation reports of one: a connection that does not exist stays silent,
    one that is being dialled delivers nothing until it is established, and one
    reported as reset, closed, timed out or expired is gone. *)

From S2P Require Import Prelude StdMap Addresses Tcp SeqNum TcpState TcpCongestion.
From S2P Require Import TcpSegments TcpSender TcpReceiver TcpHandler TcpTable TcpInvariant TcpStream TcpOutput TcpFlow TcpHandshake TcpEndToEnd.

Section Reports.
Context (key : TcpConnectionKey).

(** ** A connection that does not exist *)

Section Gone.
Context (t : TcpConnectionTable) (Ht : table_ok t) (Hgone : connection_of key t = None).

(** Without a new sequence number nothing is opened. *)
Lemma gone_dial now res t' : beginConnect t key now None = (res, t') -> t' = t /\ connect_accepted res = false /\ connect_syn res = None.
Proof. unfold beginConnect. simpl. repeat case_match; by intros [= <- <-]. Qed.

Lemma gone_handle seg now g res t' : handle t key seg now g = Some (res, t') ->
  accepted_payload res = [] /\ peer_closed res = false /\ connection_established res = false /\
  connection_reset res = false /\ connection_closed res = false /\
  (g = None -> connection_of key t' = None /\ Forall (fun s => syn (flags s) = false) (result_segments res)).
Proof.
  unfold connection_of in *. unfold handle. rewrite Hgone. unfold handleUnknown.
  assert (Hreset : Forall (fun s => syn (flags s) = false) [makeClosedPortReset seg]).
  { apply Forall_singleton. unfold makeClosedPortReset. by destruct (ack (flags seg)). }
  destruct (negb _); [destruct (rst (flags seg)); intros [= <- <-]; split_and!; auto|]. destruct (rst (flags seg)); [intros [= <- <-]; split_and!; auto|].
  destruct (_ || _); [intros [= <- <-]; split_and!; auto|]. destruct (parseTcpOptions (options seg)) as [[opts|]|]; [|intros [= <- <-]; split_and!; auto|done].
  cbn [mbind option_bind]. destruct (negb _); [intros [= <- <-]; split_and!; auto|]. destruct (at_capacity t); [intros [= <- <-]; split_and!; auto|].
  destruct g as [isn|]; simpl; [|intros [= <- <-]; split_and!; auto]. destruct (bool_decide _); intros [= <- <-]; split_and!; auto; done.
Qed.
End Gone.

(** ** A connection that is being dialled *)

(** It exists only while its SYN is unanswered. *)
Definition dialling (o : option Connection) : Prop := match o with None => True | Some c => state c = SynSent end.

(** A connection to which a first request can be written. *)
Definition ready (c : Connection) : Prop := state c = Established /\ close_requested c = false /\ pending c = [] /\ unsent c = [].

Lemma dialled_handle t c seg now g res t' : table_ok t -> connection_of key t = Some c -> state c = SynSent -> segment_ok seg ->
  handle t key seg now g = Some (res, t') ->
  accepted_payload res = [] /\ peer_closed res = false /\
  (connection_established res = false /\ dialling (connection_of key t') \/
   connection_established res = true /\ exists c', connection_of key t' = Some c' /\ ready c').
Proof.
  unfold connection_of. intros Ht Ef Hst Hseg. unfold handle. rewrite Ef, Hst. pose proof (map_find_Forall _ _ _ _ (tk_conns _ Ht) Ef) as Hc. simpl in Hc.
  assert (Hok : syn_sent_ok c).
  { destruct Hc as [Hc|[Hc|(Hr & R & runs & Hc)]]; [done | pose proof (sr_state _ Hc); congruence|].
    pose proof (sy_state _ _ _ Hc) as H. rewrite Hr in H. unfold state_ok in H. by rewrite Hst in H. }
  destruct (handleSynSent_spec key c seg now Hok Hseg) as (r & c' & E & H). rewrite E. cbn [mbind option_bind]. intros [= <- <-]. unfold update_connection.
  destruct H as [[-> ->]|[(_ & -> & Hr & Ha & Hn)|(_ & _ & _ & _ & K1 & K2 & _ & _ & a & _ & _ & _ & _ & _ & -> & _ & K3 & K4 & _ & K5)]].
  - rewrite (proj1 (op_flags _ (ss_opening _ Hok))). simpl. rewrite map_find_set, key_eqb_refl by apply Ht. split_and!; auto.
  - simpl. rewrite map_find_erase, key_eqb_refl by apply Ht. revert E. unfold handleSynSent.
    destruct (parseTcpOptions _) as [[opts|]|]; [| |done]; cbn [mbind option_bind]; [rewrite Hr, Ha, Hn, Z.eqb_refl; simpl|];
      intros E; apply (f_equal (option_map fst)) in E; injection E as <-; split_and!; auto; by left.
  - rewrite K2. simpl. rewrite map_find_set, key_eqb_refl by apply Ht. split_and!; auto. right. split; [done|]. eexists. split; [done|]. by split_and!.
Qed.

(** The first request is taken whole. *)
Lemma ready_send t c p now : connection_of key t = Some c -> ready c -> p <> [] -> Zlen p <= kMaxApplicationSendSize ->
  exists segs t', makeOutgoingData t key p now = (mkSendResult segs (Zlen p) None, t').
Proof.
  unfold connection_of. intros Ef (R1 & R2 & R3 & R4) Hp Hl. unfold makeOutgoingData. replace (empty p) with false by (by destruct p).
  rewrite (proj2 (Z.ltb_ge kMaxApplicationSendSize (Zlen p))) by done. rewrite Ef, R1, R2. change (negb (state_eqb Established Established) && negb (state_eqb Established CloseWait)) with false. cbv iota.
  assert (appOwnedBytes c = 0) as -> by (unfold appOwnedBytes; by rewrite R3, R4). cbv zeta. change (kTcpSendBufferCapacity <=? 0) with false. cbv iota.
  rewrite (proj2 (Z.ltb_ge (kTcpSendBufferCapacity - 0) (Zlen p))) by (unfold kMaxApplicationSendSize, kTcpSendBufferCapacity in *; lia). destruct (scheduleQueuedData _ _ _) as [segs c']. by eexists _, _.
Qed.

(** A send takes everything or nothing. *)
Lemma send_whole t p now res t' : makeOutgoingData t key p now = (res, t') ->
  take (Z.to_nat (bytes_accepted res)) p = if has_value (send_error res) then [] else p.
Proof.
  unfold makeOutgoingData. repeat (case_match; try by intros [= <- <-]); intros [= <- <-]; simpl; unfold Zlen; by rewrite Nat2Z.id, firstn_all.
Qed.

(** A connect that is accepted leaves a connection that is being dialled; one
    that is refused changes nothing. *)
Lemma dial_report t now g res t' : table_ok t -> beginConnect t key now g = (res, t') ->
  if connect_accepted res then
    g <> None /\ (exists seg, connect_syn res = Some seg /\ syn (flags seg) = true) /\ exists c, connection_of key t' = Some c /\ state c = SynSent
  else connect_syn res = None /\ connections t' = connections t.
Proof.
  intros Ht. unfold beginConnect. do 3 (destruct (_ : bool); [by intros [= <- <-]|]). destruct (nextIsn t g) as [isn t1] eqn:En.
  apply nextIsn_frame in En as (N1 & _ & _ & _ & _ & N6). destruct isn as [isn|]; intros [= <- <-]; simpl; [|done].
  specialize (N6 isn eq_refl). split_and!; [congruence | by eexists|]. unfold connection_of. simpl. rewrite N1, map_find_set, key_eqb_refl by apply Ht. by eexists.
Qed.

(** ** Timers *)

(** Timers change neither the state of a connection nor open one. *)
Definition settles (o o' : option Connection) : Prop :=
  match o' with None => True | Some c' => exists c, o = Some c /\ state c' = state c end.

Lemma settles_refl o : settles o o.
Proof. destruct o; simpl; eauto. Qed.

Lemma settles_trans o o1 o2 : settles o o1 -> settles o1 o2 -> settles o o2.
Proof. destruct o2 as [c2|]; [|done]. intros H (c1 & -> & E). destruct H as (c & -> & E'). exists c. by rewrite E. Qed.

Lemma settles_gone o o' : settles o o' -> o = None -> o' = None.
Proof. destruct o' as [c'|]; [|done]. by intros (c & -> & _). Qed.

Lemma settles_dialling o o' : settles o o' -> dialling o -> dialling o'.
Proof. destruct o' as [c'|]; [|done]. intros (c & -> & E) H. simpl in *. congruence. Qed.

(** The keys a poll reports as ended. *)
Definition ended_keys (r : TcpTimeoutPollResult) : list TcpConnectionKey := timed_out r ++ time_wait_expired r.

Lemma poll_reports now l r l' : pollRetransmissions_loop now l = (r, l') ->
  Forall (fun k => exists c, In (k, c) l /\ (pollConnection k c now = TimedOut \/ pollConnection k c now = TimeWaitExpired)) (ended_keys r).
Proof.
  unfold ended_keys. revert r l'. induction l as [|[k c] l IH]; intros r l'; simpl; [by intros [= <- <-]|].
  destruct (pollRetransmissions_loop now l) as [r1 l1]. specialize (IH r1 l1 eq_refl).
  assert (H : Forall (fun k0 => exists c0, ((k, c) = (k0, c0) \/ In (k0, c0) l) /\ (pollConnection k0 c0 now = TimedOut \/ pollConnection k0 c0 now = TimeWaitExpired))
    (timed_out r1 ++ time_wait_expired r1)) by (eapply Forall_impl; [exact IH|]; intros k0 (c0 & ? & ?); eauto).
  apply Forall_app in H as [H1 H2]. destruct (pollConnection k c now) eqn:E; intros [= <- <-]; simpl; [by apply Forall_app..| |].
  - apply Forall_cons. split; [eauto|]. by apply Forall_app.
  - apply Forall_app. split; [done|]. apply Forall_cons. split; [eauto | done].
Qed.

Lemma timeout_settles t now res t' : table_ok t -> pollRetransmissions t now = (res, t') ->
  settles (connection_of key t) (connection_of key t') /\ (key ∈ ended_keys res -> connection_of key t' = None).
Proof.
  unfold connection_of. intros Ht. unfold pollRetransmissions. destruct (pollRetransmissions_loop _ _) as [r l] eqn:E. intros [= <- <-]. simpl.
  destruct (poll_at key now _ _ _ (tk_map _ Ht) E) as [-> _]. split.
  - destruct (map_find (connections t) key) as [c|]; [|done]. destruct (pollConnection key c now) as [|seg c'| |] eqn:Ep; simpl; eauto. exists c. split; [done | by eapply poll_keeps].
  - pose proof (poll_reports _ _ _ _ E) as H. rewrite Forall_forall in H. intros Hin. destruct (H key Hin) as (c & Hc & Hp).
    rewrite (In_map_find _ _ _ (tk_map _ Ht) Hc). by destruct Hp as [-> | ->].
Qed.

Lemma probe_settles t now res t' : table_ok t -> pollPersistProbes t now = (res, t') -> settles (connection_of key t) (connection_of key t').
Proof.
  unfold connection_of. intros Ht. unfold pollPersistProbes. destruct (pollPersist_loop _ _) as [r l] eqn:E. intros [= <- <-]. simpl.
  destruct (probe_at key now _ _ _ (tk_map _ Ht) E) as [-> _]. destruct (map_find (connections t) key) as [c|]; simpl; [|done].
  exists c. split; [done|]. destruct (persistProbe key c now) as [x c'] eqn:Ep. destruct (persistProbe_frame _ _ _ _ _ Ep) as (d & i & ->). done.
Qed.

(** ** A connection that is reported as ended is gone *)

Lemma schedule_removal c now segs c' : scheduleIfSendable key c now = (segs, c') -> pending_removal c = true -> pending_removal c' = true.
Proof.
  unfold scheduleIfSendable. intros E Hr. rewrite Hr in E. cbn [negb andb] in E. injection E as <- <-.
  destruct (updatePersistState_frame c now) as (d & i & -> & _). done.
Qed.

Lemma synchronized_ended c seg now res c' : handleSynchronized key c seg now = Some (res, c') ->
  connection_reset res || connection_closed res = true -> pending_removal c' = true.
Proof.
  unfold handleSynchronized. destruct (syn (flags seg)); [destruct (negb _); by intros [= <- <-]|].
  destruct (parseTcpOptions _) as [[opts|]|]; [|by intros [= <- <-] | done]. cbn [mbind option_bind].
  destruct (rst (flags seg)); [destruct (_ =? _); by intros [= <- <-]|]. destruct (negb _); [by intros [= <- <-]|]. destruct (negb _); [by intros [= <- <-]|].
  destruct (processAck _ _ _ _) as [[a w] c1]. destruct (congestionStep _ _ _ _ _ _) as [rt c2]. set (c3 := localFinStep c2 now). clearbody c3.
  destruct (_ && _).
  - unfold finishPureAck. destruct (scheduleIfSendable key c3 now) as [segs c4] eqn:E. intros [= <- <-] H. apply (schedule_removal _ _ _ _ E).
    by destruct (sack_permitted c4 && negb (empty (out_of_order c4))).
  - assert (Hfin : forall rt m c, connection_reset (fst (finishReceive key c rt m now)) || connection_closed (fst (finishReceive key c rt m now)) = false).
    { intros rt0 m c0. unfold finishReceive. destruct (deliver _ _) as [[rel cl] c5]. destruct (scheduleIfSendable _ _ _) as [segs c6]. simpl. by destruct ((_ && _) || _). }
    unfold receiveSegment. cbv zeta. destruct (_ && _).
    + unfold finishOutside. destruct (scheduleIfSendable _ _ _). destruct (_ || _); by intros [= <- <-].
    + destruct (if sequenceGreater _ _ then _ else _) as [[m c5]|]; [|done]. cbn [mbind option_bind]. intros [= E]. apply (f_equal fst) in E. simpl in E. subst res. by rewrite Hfin.
Qed.

Lemma synSent_ended c seg now res c' : handleSynSent key c seg now = Some (res, c') ->
  connection_reset res || connection_closed res = true -> pending_removal c' = true.
Proof.
  unfold handleSynSent. destruct (parseTcpOptions _) as [[opts|]|]; [|by intros [= <- <-] | done]. cbn [mbind option_bind].
  destruct (rst (flags seg)); [destruct (_ && _); by intros [= <- <-]|]. do 4 (destruct (_ : bool); [by intros [= <- <-]|]).
  destruct (retireAcknowledged _ _ _). by intros [= <- <-].
Qed.

Lemma handle_ended t seg now g res t' : table_ok t -> handle t key seg now g = Some (res, t') ->
  connection_reset res || connection_closed res = true -> connection_of key t' = None.
Proof.
  intros Ht E Hend. destruct (map_find (connections t) key) as [c|] eqn:Ef.
  2:{ destruct (gone_handle t Ef seg now g res t' E) as (_ & _ & _ & H1 & H2 & _). by rewrite H1, H2 in Hend. }
  assert (Hgone : forall c', pending_removal c' = true -> connection_of key (update_connection t key c') = None).
  { intros c' Hr. unfold connection_of, update_connection. rewrite Hr. simpl. by rewrite map_find_erase, key_eqb_refl by apply Ht. }
  assert (Hsync : forall o, (r ← handleSynchronized key c seg now; let '(r, c') := r in Some (r, update_connection t key c')) = Some (res, t') -> o = t' -> connection_of key o = None).
  { intros o. destruct (handleSynchronized key c seg now) as [[r c']|] eqn:Es; [|done]. cbn [mbind option_bind]. intros [= <- <-] ->. apply Hgone. by eapply synchronized_ended. }
  revert E. unfold handle. rewrite Ef. destruct (state c); try (intros E; by eapply Hsync).
  - destruct (handleSynSent key c seg now) as [[r c']|] eqn:Es; [|done]. cbn [mbind option_bind]. intros [= <- <-]. apply Hgone. by eapply synSent_ended.
  - intros E. apply (inj Some) in E. revert E. unfold handleSynReceived. repeat case_match; intros [= <- <-]; done.
  - destruct (handleTimeWait key c seg now) as [r c'] eqn:Es. intros [= <- <-]. exfalso. revert Es Hend. unfold handleTimeWait.
    repeat case_match; intros E; apply (f_equal fst) in E; cbn [fst] in E; by subst r.
Qed.

End Reports.
