(* ===== verification/StackOutput.v ===== *)
(** * What the stack sends

    Every frame the program writes to the device is one of its own: it comes
    from our hardware address and carries an ARP packet with our addresses as
    the sender, or an IPv4 packet from our address with a valid header around
    an echo reply, a UDP datagram or a TCP segment. It fits in a standard
    Ethernet frame, or it is not longer than the frame it answers. *)

From S2P Require Import Prelude StdMap Checksum Addresses Text ArpCache.
From S2P Require Import Ethernet Arp Ipv4 Icmp Udp Tcp.
From S2P Require Import Dns Http HttpClient RuntimeOptions.
From S2P Require Import TcpState TcpHandler TcpTable TcpInvariant TcpOutput.
From S2P Require Import Stack EventLoop StackSafety StackServices.

#[local] Opaque internetChecksum udpChecksum tcpChecksum.

(** ** The keys of the connection table *)

Section Keys.
Context (Q : TcpConnectionKey -> Prop).

Definition keyed (t : TcpConnectionTable) : Prop := Forall (fun p => Q (fst p)) (connections t).

Lemma keyed_set t key c : Q key -> keyed t -> keyed (set_connection t key c).
Proof. intros Hk Ht. by apply Forall_map_set. Qed.

Lemma keyed_erase t key : keyed t -> keyed (erase_connection t key).
Proof. intros Ht. by apply Forall_map_erase. Qed.

Lemma keyed_update t key c : Q key -> keyed t -> keyed (update_connection t key c).
Proof. intros. unfold update_connection. destruct (pending_removal c); auto using keyed_set, keyed_erase. Qed.

Lemma keyed_nextIsn t g : keyed t -> keyed (snd (nextIsn t g)).
Proof. intros Ht. unfold nextIsn. destruct g; [|done]. by destruct (bool_decide _). Qed.

Lemma keyed_handle t key seg now g res t' : Q key -> keyed t -> handle t key seg now g = Some (res, t') -> keyed t'.
Proof.
  intros Hk Ht. unfold handle. destruct (map_find (connections t) key) as [c|].
  - assert (H : forall c', keyed (update_connection t key c')) by (intros; by apply keyed_update).
    destruct (state c); try (destruct (handleSynchronized _ _ _ _) as [[r c']|]; [|done]; intros [= <- <-]; apply H).
    + destruct (handleSynSent _ _ _ _) as [[r c']|]; [|done]. intros [= <- <-]. apply H.
    + intros E. apply (inj Some) in E. revert E. unfold handleSynReceived. repeat case_match; intros [= <- <-]; auto using keyed_set, keyed_erase.
    + destruct (handleTimeWait _ _ _ _) as [r c']. intros [= <- <-]. apply H.
  - unfold handleUnknown. pose proof (keyed_nextIsn t g Ht) as Hn. destruct (negb (_ =? _)); [destruct (rst _); by intros [= <- <-]|].
    destruct (rst _); [by intros [= <- <-]|]. destruct (_ || _); [by intros [= <- <-]|].
    destruct (parseTcpOptions _) as [[opts|]|]; cbn [mbind option_bind]; [|by intros [= <- <-]|done].
    destruct (negb _); [by intros [= <- <-]|]. destruct (at_capacity t); [by intros [= <- <-]|].
    destruct (nextIsn t g) as [[isn|] t1]; intros [= <- <-]; [by apply keyed_set | done].
Qed.

Lemma keyed_connect t key now g res t' : Q key -> keyed t -> beginConnect t key now g = (res, t') -> keyed t'.
Proof.
  intros Hk Ht. unfold beginConnect. pose proof (keyed_nextIsn t g Ht) as Hn. do 3 (case_match; [by intros [= <- <-]|]).
  destruct (nextIsn t g) as [[isn|] t1]; intros [= <- <-]; [by apply keyed_set | done].
Qed.

Lemma keyed_send t key bytes now res t' : Q key -> keyed t -> makeOutgoingData t key bytes now = (res, t') -> keyed t'.
Proof.
  intros Hk Ht. unfold makeOutgoingData. repeat (case_match; try by intros [= <- <-]); intros [= <- <-]; by apply keyed_set.
Qed.

Lemma keyed_close t key now res t' : Q key -> keyed t -> beginClose t key now = (res, t') -> keyed t'.
Proof. intros Hk Ht. unfold beginClose. repeat (case_match; try by intros [= <- <-]); intros [= <- <-]; by apply keyed_set. Qed.

(** The polls keep the keys and report some of them. *)
Lemma keyed_retransmissions t now res t' : keyed t -> pollRetransmissions t now = (res, t') ->
  keyed t' /\ Forall (fun p => Q (fst p)) (retransmissions res).
Proof.
  unfold keyed, pollRetransmissions. destruct (pollRetransmissions_loop now (connections t)) as [r l] eqn:E. intros Ht [= <- <-]. simpl.
  revert r l E. induction Ht as [|[k c] l0 Hk Hl IH]; intros r l; simpl; [intros [= <- <-]; by split; constructor|].
  destruct (pollRetransmissions_loop now l0) as [r1 l1]. destruct (IH r1 l1 eq_refl) as [H1 H2].
  destruct (pollConnection k c now); intros [= <- <-]; split; simpl; auto.
Qed.

Lemma keyed_persist t now probes t' : keyed t -> pollPersistProbes t now = (probes, t') -> keyed t' /\ Forall (fun p => Q (fst p)) probes.
Proof.
  unfold keyed, pollPersistProbes. destruct (pollPersist_loop now (connections t)) as [r l] eqn:E. intros Ht [= <- <-]. simpl.
  revert r l E. induction Ht as [|[k c] l0 Hk Hl IH]; intros r l; simpl; [intros [= <- <-]; by split; constructor|].
  destruct (persistProbe k c now) as [probe c']. destruct (pollPersist_loop now l0) as [r1 l1]. destruct (IH r1 l1 eq_refl) as [H1 H2].
  intros [= <- <-]. split; [by constructor|]. destruct probe; auto.
Qed.

End Keys.

(** ** Lengths *)

Lemma ethernet_length frame : Zlen (serializeEthernetFrame frame) = 14 + Zlen (eth_payload frame).
Proof. destruct frame as [[] [] t payload]. unfold serializeEthernetFrame. simpl. rewrite !Zlen_cons. lia. Qed.

Lemma arp_length p : Zlen (serializeArpPacket p) = 28.
Proof. by destruct p as [[] [] [] [] []]. Qed.

Lemma ipv4_length p data : serializeIpv4Packet p = inl data -> Zlen data = 20 + Zlen (ip_payload p).
Proof.
  unfold serializeIpv4Packet. destruct (65535 <? _); [done|]. intros E. apply (inj inl) in E as <-. destruct p as [? ? ? ? [] [] pl].
  unfold Zlen. simpl. lia.
Qed.

Lemma icmp_length m : Zlen (serializeIcmpEcho m) = 8 + Zlen (icmp_payload m).
Proof. unfold serializeIcmpEcho, Zlen. rewrite !length_insert. simpl. lia. Qed.

Lemma udp_length d s t data : serializeUdpDatagram d s t = inl data -> Zlen data = 8 + Zlen (udp_payload d).
Proof.
  unfold serializeUdpDatagram. destruct (65535 <? _); [done|]. intros E. apply (inj inl) in E as <-. unfold Zlen. rewrite !length_insert. simpl. lia.
Qed.

Lemma ethernet_payload_length bytes frame : parseEthernetFrame bytes = Some (inl frame) -> 14 + Zlen (eth_payload frame) = Zlen bytes.
Proof.
  unfold parseEthernetFrame, kEthHeaderSize. destruct (Z.ltb_spec (Zlen bytes) 14); [done|]. destruct (_ <? _); [done|].
  read_addresses. read_ok. intros [= <-]. simpl. unfold Zlen in *. rewrite length_drop. lia.
Qed.

Lemma icmp_payload_length data m : parseIcmpEcho data = Some (inl m) -> 8 + Zlen (icmp_payload m) = Zlen data.
Proof.
  unfold parseIcmpEcho. destruct (Z.ltb_spec (Zlen data) 8); [done|]. read_ok. destruct (_ && _); [done|]. read_ok. destruct (negb _); [done|].
  destruct (negb _); [done|]. read_ok. intros [= <-]. simpl. unfold Zlen in *. rewrite length_drop. lia.
Qed.

Lemma udp_payload_length data s t d : parseUdpDatagram data s t = Some (inl d) -> 8 + Zlen (udp_payload d) <= Zlen data.
Proof.
  unfold parseUdpDatagram. destruct (Z.ltb_spec (Zlen data) 8); [done|]. read_ok. destruct (_ || _) eqn:El; [done|]. bprop. read_ok.
  destruct (_ && _); [done|]. read_ok. intros [= <-]. simpl. unfold Zlen in *. rewrite length_drop, length_take. lia.
Qed.

Lemma tcp_ports bytes s t seg : parseTcpSegment bytes s t = Some (inl seg) -> is_u16 (Tcp.source_port seg) /\ is_u16 (destination_port seg).
Proof.
  unfold parseTcpSegment, kMinHeaderSize. destruct (Z.ltb_spec (Zlen bytes) 20); [done|]. destruct (_ <? _); [done|].
  destruct (bytes !! 12%nat); [|done]. cbn [mbind option_bind]. destruct (_ || _); [done|]. destruct (negb _); [done|]. read_ok. intros [= <-]. simpl.
  by split.
Qed.

Lemma query_length query bytes : serializeDnsQuery query = Some bytes -> Zlen bytes <= kMaxDnsMessageSize.
Proof.
  unfold serializeDnsQuery. destruct (normalizeHostname _); [|done]. destruct (negb _); [done|].
  cbv zeta. match goal with |- context [kMaxDnsMessageSize <? Zlen ?out] => destruct (Z.ltb_spec kMaxDnsMessageSize (Zlen out)) end; [done|].
  intros E. by apply (inj Some) in E as <-.
Qed.

(** ** Frames of our own *)

Section Output.
Context (local_ip : Ipv4Address) (local_mac : MacAddress) (Hlocal : ip_ok local_ip).

(** What an IPv4 packet of ours carries. *)
Inductive transport (p : Ipv4Packet) : Prop :=
| carries_echo_reply m : protocol p = kProtocolIcmp -> icmp_type m = EchoReply -> ip_payload p = serializeIcmpEcho m -> transport p
| carries_udp d : protocol p = kProtocolUdp -> serializeUdpDatagram d local_ip (ip_destination p) = inl (ip_payload p) -> transport p
| carries_tcp seg : protocol p = kProtocolTcp -> serializeTcpSegment seg local_ip (ip_destination p) = inl (ip_payload p) ->
    parseTcpSegment (ip_payload p) local_ip (ip_destination p) = Some (inl seg) -> transport p.

(** A frame of ours of at most [limit] bytes. *)
Inductive emitted (limit : Z) (bytes : list Z) : Prop :=
| emitted_arp mac p : bytes = serializeEthernetFrame (mkEthernetFrame mac local_mac kEtherTypeArp (serializeArpPacket p)) ->
    sender_ip p = local_ip -> sender_mac p = local_mac -> Zlen bytes <= limit -> emitted limit bytes
| emitted_ipv4 mac data p : bytes = serializeEthernetFrame (mkEthernetFrame mac local_mac kEtherTypeIpv4 data) ->
    parseIpv4Packet data = Some (inl p) -> ip_source p = local_ip -> ttl p = 64 -> transport p -> Zlen bytes <= limit -> emitted limit bytes.

Lemma emitted_mono limit limit' bytes : limit <= limit' -> emitted limit bytes -> emitted limit' bytes.
Proof. intros Hl [mac p E1 E2 E3 E4|mac data p E1 E2 E3 E4 E5 E6]; [eapply emitted_arp | eapply emitted_ipv4]; try done; lia. Qed.

(** What the state holds for later sends can be sent. *)
Definition key_ok (k : TcpConnectionKey) : Prop := ip_ok (TcpState.remote_ip k) /\ ports_ok k.
Definition table_peers (t : TcpConnectionTable) : Prop := keyed key_ok t /\ typed_table t.

Record dns_peer (d : DnsRuntimeState) : Prop := {
  dp_server : ip_ok (server_ip (dns_session d));
  dp_query : Zlen (query_bytes (dns_session d)) <= kMaxDnsMessageSize;
  dp_port : is_u16 (http_port d);
  dp_host : bytes_ok (dns_host_header d)
}.

Record peers_ok (s : Stack) : Prop := {
  po_tcp : table_peers (tcp_connections s);
  po_dial : forall ip, dial_target_ip s = Some ip -> ip_ok ip;
  po_open : forall k, active_open_key s = Some k -> key_ok k;
  po_dns : forall d, dns_state s = Some d -> dns_peer d;
  po_udp : forall port request response, udp_deliver (udp_endpoints s) port request = Some response -> Zlen response <= Zlen request;
  po_http : Forall (fun p => Zlen (http_buffer (snd p)) <= kMaxHttpHeaderBlockLength) (http_sessions s);
  po_client : Forall (fun p => client_ok (snd p)) (http_client_sessions s)
}.

(** The longest frame allowed; a standard frame always is. *)
Context (limit : Z) (Hlimit : 1514 <= limit).

(** If the action completes in [s], what it sends is ours. *)
Definition speaks {A} (P : A -> Prop) (m : action A) (s : Stack) : Prop :=
  forall a s' out, m s = Some (a, s', out) -> peers_ok s' /\ Forall (emitted limit) out /\ P a.

Definition sends (m : action unit) : Prop := forall s, peers_ok s -> speaks (fun _ => True) m s.

Lemma speaks_bind {A B} (P : A -> Prop) (Q : B -> Prop) (m : action A) (k : A -> action B) s :
  speaks P m s -> (forall a s', peers_ok s' -> P a -> speaks Q (k a) s') -> speaks Q (m ≫= k) s.
Proof.
  intros Hm Hk b s2 out. unfold mbind, action_bind. destruct (m s) as [[[a s1] o1]|] eqn:E; [|done].
  destruct (Hm a s1 o1 E) as (H1 & H2 & H3). destruct (k a s1) as [[[b' s2'] o2]|] eqn:E2; [|done]. intros [= <- <- <-].
  destruct (Hk a s1 H1 H3 b' s2' o2 E2) as (H4 & H5 & H6). split_and!; [done | by apply Forall_app | done].
Qed.

Lemma speaks_ret {A} (P : A -> Prop) a s : peers_ok s -> P a -> speaks P (mret a) s.
Proof. intros Hs Ha b s' out [= <- <- <-]. by split_and!. Qed.

Lemma speaks_guard {A} (P : A -> Prop) o s : peers_ok s -> (forall a, o = Some a -> P a) -> speaks P (guard_bounds o) s.
Proof. intros Hs Ha b s' out. unfold guard_bounds. destruct o; [|done]. intros [= <- <- <-]. split_and!; [done | done | by apply Ha]. Qed.

Lemma speaks_read {A B} (f : Stack -> A) (Q : B -> Prop) (k : A -> action B) s : speaks Q (k (f s)) s -> speaks Q (read f ≫= k) s.
Proof. intros H b s' out. rewrite bind_read. apply H. Qed.

Lemma sends_then m k : sends m -> sends k -> sends (m ;; k).
Proof. intros Hm Hk s Hs. apply (speaks_bind (fun _ => True)); [by apply Hm|]. intros. by apply Hk. Qed.

Lemma speaks_then {B} (Q : B -> Prop) m (k : action B) s : peers_ok s -> sends m -> (forall s', peers_ok s' -> speaks Q k s') -> speaks Q (m ;; k) s.
Proof. intros Hs Hm Hk. apply (speaks_bind (fun _ => True)); [by apply Hm|]. intros. by apply Hk. Qed.

Lemma sends_done : sends done_.
Proof. intros s Hs. by apply speaks_ret. Qed.

Lemma sends_write frame : emitted limit frame -> sends (write frame).
Proof. intros Hf s Hs a s' out [= <- <- <-]. split_and!; [done | by repeat constructor | done]. Qed.

Lemma sends_modify f : (forall s, peers_ok s -> peers_ok (f s)) -> sends (modify f).
Proof. intros H s Hs a s' out [= <- <- <-]. split_and!; [by apply H | done | done]. Qed.

Lemma sends_when b m : sends m -> sends (when b m).
Proof. intros H. destruct b; [done | apply sends_done]. Qed.

Lemma sends_for_option {A} (o : option A) body : (forall x, o = Some x -> sends (body x)) -> sends (for_option o body).
Proof. intros H. destruct o; [by apply H | apply sends_done]. Qed.

Lemma sends_for_each {A} (l : list A) body : Forall (fun x => sends (body x)) l -> sends (for_each l body).
Proof. induction 1; simpl; [apply sends_done | by apply sends_then]. Qed.

Lemma speaks_arp {A} (f : ArpCache.ArpCache -> A * ArpCache.ArpCache) s : peers_ok s -> speaks (fun _ => True) (on_arp f) s.
Proof. intros [] a s' out. unfold on_arp. destruct (f _). intros [= <- <- <-]. by split_and!. Qed.

Lemma speaks_tcp {A} (P : A -> Prop) (f : TcpConnectionTable -> A * TcpConnectionTable) s : peers_ok s ->
  (forall t a t', table_peers t -> f t = (a, t') -> table_peers t' /\ P a) -> speaks P (on_tcp f) s.
Proof.
  intros [] Hf a s' out. unfold on_tcp. destruct (f (tcp_connections s)) as [b t] eqn:E. intros [= <- <- <-].
  destruct (Hf _ _ _ po_tcp0 E). by split_and!.
Qed.

(** ** The handlers *)

Hint Resolve sends_done sends_when sends_then sends_for_option : stack.
Ltac speak_bind := apply (speaks_bind (fun _ => True)); [|intros ? ? ? _].

Lemma sends_arp_packet mac p : sender_ip p = local_ip -> sender_mac p = local_mac ->
  sends (write (serializeEthernetFrame (mkEthernetFrame mac local_mac kEtherTypeArp (serializeArpPacket p)))).
Proof. intros H1 H2. eapply sends_write, emitted_arp; [done..|]. rewrite ethernet_length. cbn [eth_payload]. rewrite arp_length. lia. Qed.

Lemma sends_sendArpRequest ip : sends (sendArpRequest local_ip local_mac ip).
Proof. by apply sends_arp_packet. Qed.

Lemma speaks_resolve ip now s : peers_ok s -> speaks (fun _ => True) (resolveNeighbor local_ip local_mac ip now) s.
Proof.
  intros Hs. unfold resolveNeighbor. speak_bind; [by apply speaks_arp|]. destruct a; [by apply speaks_ret|]. speak_bind; [by apply speaks_arp|].
  apply speaks_then; [done | apply sends_when, sends_sendArpRequest|]. intros. by apply speaks_ret.
Qed.

Lemma sends_insertNeighbor ip m now : sends (insertNeighbor ip m now).
Proof. apply sends_modify. intros s []. by constructor. Qed.
Hint Resolve sends_insertNeighbor : stack.

Lemma sends_handleArp frame now : sends (handleArp local_ip local_mac frame now).
Proof.
  intros s Hs. unfold handleArp. speak_bind; [by apply speaks_guard|]. destruct a as [p|]; [|by apply sends_done].
  destruct (_ || _); [by apply sends_done|]. destruct (arp_operation p).
  - destruct (maybeReply p local_ip local_mac) as [r|] eqn:E; [|by apply sends_done]. apply sends_then; [auto with stack | | done].
    unfold maybeReply in E. destruct (negb _); [done|]. injection E as <-. by apply sends_arp_packet.
  - unfold handleArpReply. destruct (_ || _); [by apply sends_done|]. speak_bind; [by apply speaks_arp|].
    destruct (negb _); [by apply sends_done | by apply sends_insertNeighbor].
Qed.

Lemma sends_sendIpv4 mac proto ip payload : is_u8 proto -> ip_ok ip -> 34 + Zlen payload <= limit -> transport (outgoing local_ip proto ip payload) ->
  sends (sendIpv4 local_mac mac (outgoing local_ip proto ip payload)).
Proof.
  intros Hp Hip Hl Ht. unfold sendIpv4.
  assert (Hok : ipv4_header_ok (outgoing local_ip proto ip payload)) by (unfold ipv4_header_ok; simpl; split_and!; done || ulia).
  pose proof (serialize_parse_ipv4 (outgoing local_ip proto ip payload) [] Hok) as H.
  destruct (serializeIpv4Packet _) as [data|] eqn:E; [|apply sends_done]. apply ipv4_length in E. rewrite app_nil_r in H. destruct H as [H _].
  eapply sends_write, emitted_ipv4; [done..|]. rewrite ethernet_length. simpl in *. lia.
Qed.

Lemma sends_handleIcmp p frame : protocol p = kProtocolIcmp -> ip_ok (ip_source p) -> 34 + Zlen (ip_payload p) <= limit ->
  sends (handleIcmp local_ip local_mac p frame).
Proof.
  intros Hp Hip Hl s Hs. unfold handleIcmp. destruct (icmp_total (ip_payload p)) as [r E]. rewrite E.
  apply (speaks_bind (fun x => x = r)); [by apply speaks_guard; [|intros ? [= <-]]|]. intros ? s1 Hs1 ->. destruct r as [m|]; [|by apply sends_done].
  apply icmp_payload_length in E. destruct (icmp_type m); [by apply sends_done|]. apply sends_sendIpv4; [by rewrite Hp | done | | | done].
  - rewrite icmp_length. simpl. lia.
  - by apply (carries_echo_reply _ (makeEchoReply m)).
Qed.

Lemma sends_sendUdpPacket ip m lp rp bytes : ip_ok ip -> Zlen bytes <= kMaxDnsMessageSize -> sends (sendUdpPacket local_ip local_mac ip m lp rp bytes).
Proof.
  intros Hip Hl. unfold sendUdpPacket. destruct (serializeUdpDatagram _ _ _) eqn:E; [|apply sends_done]. pose proof (udp_length _ _ _ _ E) as Hu.
  apply sends_sendIpv4; [by vm_compute | done | | by eapply carries_udp]. unfold kMaxDnsMessageSize in *. simpl in Hu. lia.
Qed.

Lemma sends_sendTcpSegment key ip m seg : ip_ok ip -> well_formed key seg -> sends (sendTcpSegment local_ip local_mac ip m seg).
Proof.
  intros Hip Hw. unfold sendTcpSegment. destruct (well_formed_travels key seg local_ip ip Hw Hlocal Hip) as (bytes & E & Hp & Hl). rewrite E.
  apply sends_sendIpv4; [by vm_compute | done | unfold kTcpMss in Hl; lia | by eapply carries_tcp].
Qed.

Lemma sends_handleUdp p frame : protocol p = kProtocolUdp -> ip_ok (ip_source p) -> 34 + Zlen (ip_payload p) <= limit ->
  sends (handleUdp local_ip local_mac p frame).
Proof.
  intros Hp Hip Hl s Hs. unfold handleUdp. destruct (udp_total (ip_payload p) (ip_source p) (ip_destination p)) as (r & Er & _). rewrite Er.
  apply (speaks_bind (fun x => x = r)); [by apply speaks_guard; [|intros ? [= <-]]|]. intros ? s1 Hs1 ->. destruct r as [d|]; [|by apply sends_done].
  apply udp_payload_length in Er. apply speaks_read. destruct (udp_deliver _ _ _) as [response|] eqn:Ed; [|by apply sends_done].
  apply (po_udp _ Hs1) in Ed. destruct (_ =? 0); [by apply sends_done|].
  destruct (serializeUdpDatagram _ _ _) eqn:E; [|by apply sends_done]. pose proof (udp_length _ _ _ _ E) as Hu. simpl in Hu.
  apply sends_sendIpv4; [by rewrite Hp | done | lia | by eapply carries_udp | done].
Qed.

(** *** The DNS client *)

(** The resolver keeps its server and its query. *)
Definition same_query (session session' : DnsClientSession) : Prop :=
  server_ip session' = server_ip session /\ query_bytes session' = query_bytes session.

Lemma handleDnsResponse_same session ip sp dp bytes changed session' :
  handleDnsResponse session ip sp dp bytes = Some (changed, session') -> same_query session session'.
Proof.
  unfold handleDnsResponse. destruct (negb _); [by intros [= <- <-]|]. destruct (_ || _); [by intros [= <- <-]|].
  destruct (parseDnsResponse _ _ _) as [[o a]|]; [|done]. cbn [mbind option_bind fst snd]. destruct o; by intros [= <- <-].
Qed.

Lemma pollDnsTimeout_same session now : same_query session (snd (pollDnsTimeout session now)) /\
  forall bytes, retransmit (fst (pollDnsTimeout session now)) = Some bytes -> bytes = query_bytes session.
Proof. unfold pollDnsTimeout. repeat case_match; (split; [done|]); try done. by intros bytes [= <-]. Qed.

Lemma beginDnsQuery_query session query now : let r := beginDnsQuery session query now in
  server_ip (snd r) = server_ip session /\
  (Zlen (query_bytes session) <= kMaxDnsMessageSize -> Zlen (query_bytes (snd r)) <= kMaxDnsMessageSize) /\
  forall bytes, fst r = Some bytes -> Zlen bytes <= kMaxDnsMessageSize.
Proof.
  unfold beginDnsQuery. destruct (serializeDnsQuery query) as [bytes|] eqn:E; [|done]. apply query_length in E. split_and!; [done | done |]. by intros ? [= <-].
Qed.

Lemma dns_peer_session d session : dns_peer d -> same_query (dns_session d) session -> dns_peer (d <| dns_session := session |>).
Proof. intros [] [E1 E2]. constructor; simpl; by rewrite ?E1, ?E2. Qed.

Lemma sends_set_dns d : dns_peer d -> sends (set_dns d).
Proof. intros H. apply sends_modify. intros s []. constructor; simpl; try done. by intros ? [= <-]. Qed.

Lemma speaks_handleDnsClientUdp port p s : peers_ok s -> is_u16 port -> bytes_ok (ip_payload p) ->
  speaks (fun _ => True) (handleDnsClientUdp local_ip port p) s.
Proof.
  intros Hs Hport Hb. unfold handleDnsClientUdp. apply speaks_read. destruct (dns_state s) as [d|] eqn:Ed; [|by apply speaks_ret].
  pose proof (po_dns _ Hs d Ed) as Hd. destruct (udp_total (ip_payload p) (ip_source p) (ip_destination p)) as (r & E & Hr). rewrite E.
  apply (speaks_bind (fun x => x = r)); [by apply speaks_guard; [|intros ? [= <-]]|]. intros ? s1 Hs1 ->.
  destruct r as [g|]; [|by apply speaks_ret]. destruct (negb _); [by apply speaks_ret|].
  destruct (handleDnsResponse_ok (dns_session d) (ip_source p) (udp_source_port g) (udp_destination_port g) (udp_payload g) (Hr g eq_refl Hb))
    as (changed & session & Eh & Hres). pose proof (handleDnsResponse_same _ _ _ _ _ _ _ Eh) as Hsame. rewrite Eh.
  apply (speaks_bind (fun x => x = (changed, session))); [by apply speaks_guard; [|intros ? [= <-]]|]. intros ? s2 Hs2 ->.
  apply speaks_then; [done | apply (sends_set_dns (d <| dns_session := session |>)); by apply dns_peer_session |].
  intros s3 Hs3. apply speaks_then; [done | | intros; by apply speaks_ret].
  destruct changed; [|apply sends_done]. destruct (bool_decide_reflect (s_state session = SessionResolved)) as [Hst|]; [|apply sends_done].
  destruct (Hres eq_refl Hst) as (ip & -> & Hip). cbn [andb when]. intros s4 Hs4.
  apply (speaks_bind (fun a => a = ip)); [by apply speaks_guard; [|intros ? [= <-]]|]. intros a s5 Hs5 ->. apply sends_modify; [|done].
  intros s6 []. constructor; simpl; try done; intros ? [= <-]; [done|]. split; [done|]. by split; [|apply Hd].
Qed.

(** *** TCP and HTTP *)

Lemma sends_eraseSessions key : sends (eraseSessions key).
Proof. apply sends_modify. intros s []. constructor; simpl; try done; by apply Forall_map_erase. Qed.

Lemma sends_set_client key session : client_ok session -> sends (set_client key session).
Proof. intros H. apply sends_modify. intros s []. constructor; simpl; try done. by apply Forall_map_set. Qed.
Hint Resolve sends_eraseSessions : stack.

Section Connection.
Context (key : TcpConnectionKey) (p : Ipv4Packet) (frame : EthernetFrame) (now : Z) (Hkey : key_ok key) (Hsource : ip_ok (ip_source p)).

Lemma sends_reply seg : well_formed key seg -> sends (sendTcpReply local_ip local_mac p frame seg).
Proof. by apply sends_sendTcpSegment. Qed.

Lemma sends_reply_option o : Forall (well_formed key) (option_list o) -> sends (for_option o (sendTcpReply local_ip local_mac p frame)).
Proof. intros H. apply sends_for_option. intros seg ->. apply sends_reply. by inversion H. Qed.

Lemma sends_replies segs : Forall (well_formed key) segs -> sends (for_each segs (sendTcpReply local_ip local_mac p frame)).
Proof. intros H. apply sends_for_each. eapply Forall_impl; [exact H|]. intros seg. apply sends_reply. Qed.

Lemma speaks_send bytes s : peers_ok s -> bytes_ok bytes ->
  speaks (fun r => Forall (well_formed key) (send_segments r)) (on_tcp (fun t => makeOutgoingData t key bytes now)) s.
Proof.
  intros Hs Hb. apply speaks_tcp; [done|]. intros t a t' [Ht1 Ht2] E. destruct (table_send t Ht2 key bytes now a t' (proj2 Hkey) Hb E).
  split; [|done]. split; [by eapply keyed_send | done].
Qed.

Lemma speaks_close_fin s : peers_ok s ->
  speaks (fun _ => True) (close_result ← on_tcp (fun t => beginClose t key now); for_option (close_fin close_result) (sendTcpReply local_ip local_mac p frame)) s.
Proof.
  intros Hs. apply (speaks_bind (fun r => Forall (well_formed key) (option_list (close_fin r)))).
  - apply speaks_tcp; [done|]. intros t a t' [Ht1 Ht2] E. destruct (table_close t Ht2 key now a t' (proj2 Hkey) E).
    split; [|done]. split; [by eapply keyed_close | done].
  - intros r s1 Hs1 Hr. by apply sends_reply_option.
Qed.

Lemma sends_handleHttpServer result : sends (handleHttpServer local_ip local_mac key result p frame now).
Proof.
  intros s Hs. unfold handleHttpServer. apply speaks_read. set (session := default _ _).
  assert (Hb : Zlen (http_buffer session) <= kMaxHttpHeaderBlockLength).
  { unfold session. destruct (map_find (http_sessions s) key) eqn:E; [|by vm_compute]. apply (map_find_Forall _ _ _ _ (po_http _ Hs) E). }
  destruct (serveHttp_ok session (accepted_payload result) (peer_closed result) Hb) as (session' & response & E & Hb' & Hr).
  apply (speaks_bind (fun x => x = (session', response))); [by apply speaks_guard; [|rewrite E; intros ? [= <-]]|]. intros ? s1 Hs1 ->.
  apply speaks_then; [done | |].
  { apply sends_modify. intros s2 []. constructor; simpl; try done. by apply Forall_map_set. }
  intros s2 Hs2. destruct response as [r|]; [|by apply sends_done]. cbn [for_option].
  eapply speaks_bind; [apply speaks_send; [done | by apply Hr]|]. intros sent s3 Hs3 Hsent. simpl in Hsent.
  destruct (send_error sent); [by apply sends_done|]. apply speaks_then; [done | by apply sends_replies|]. intros. by apply speaks_close_fin.
Qed.

Lemma speaks_enqueueRequest session result s : peers_ok s -> client_ok session ->
  speaks client_ok (enqueueRequest local_ip local_mac key session result p frame now) s.
Proof.
  intros Hs (H1 & H2 & H3). unfold enqueueRequest. destruct (_ && _); [|by apply speaks_ret].
  destruct (buildHttpGetRequest _ _) as [bytes|] eqn:E; [|by apply speaks_ret].
  eapply speaks_bind; [apply speaks_send; [done | by apply (request_bytes _ _ _ H2 H3 E)]|]. intros sent s1 Hs1 Hsent. simpl in Hsent.
  destruct (send_error sent); [by apply speaks_ret|]. apply speaks_then; [done | by apply sends_replies | intros; by apply speaks_ret].
Qed.

Lemma sends_handleHttpClient result : sends (handleHttpClient local_ip local_mac key result p frame now).
Proof.
  intros s Hs. unfold handleHttpClient. apply speaks_read. destruct (map_find (http_client_sessions s) key) as [session|] eqn:E; [|by apply sends_done].
  pose proof (map_find_Forall _ _ _ _ (po_client _ Hs) E) as Hc. simpl in Hc.
  apply (speaks_bind client_ok); [by apply speaks_enqueueRequest|]. intros s1 st1 Hst1 Hc1.
  destruct (receiveResponse_ok s1 (accepted_payload result) (peer_closed result) Hc1) as (s2 & E2 & Hc2).
  apply (speaks_bind client_ok); [apply speaks_guard; [done|]; rewrite E2; by intros ? [= <-]|]. intros s3 st3 Hst3 Hc3.
  destruct (_ && _); [|by apply sends_set_client]. apply speaks_then; [done | by apply sends_set_client|]. intros. by apply speaks_close_fin.
Qed.

Lemma sends_dispatchResult result : Forall (well_formed key) (result_segments result) -> sends (dispatchResult local_ip local_mac key result p frame now).
Proof.
  unfold result_segments. rewrite !Forall_app. intros (H1 & H2 & H3). unfold dispatchResult.
  apply sends_then; [by apply sends_reply_option|]. apply sends_then; [by apply sends_reply_option|]. apply sends_then; [by apply sends_replies|].
  intros s Hs. apply speaks_read. apply sends_then; [apply sends_when, sends_handleHttpServer | | done].
  apply sends_then; [apply sends_handleHttpClient | auto with stack].
Qed.
End Connection.

Lemma sends_handleTcp p frame now g : ip_ok (ip_source p) -> bytes_ok (ip_payload p) -> isn_ok g -> sends (handleTcp local_ip local_mac p frame now g).
Proof.
  intros Hip Hb Hg s Hs. unfold handleTcp. destruct (tcp_total (ip_payload p) (ip_source p) (ip_destination p)) as (r & Er & Hr). rewrite Er.
  apply (speaks_bind (fun x => x = r)); [by apply speaks_guard; [|intros ? [= <-]]|]. clear s Hs. intros ? s Hs ->.
  destruct r as [seg|]; [|by apply sends_done]. specialize (Hr seg eq_refl Hb). apply tcp_ports in Er as [Hsp Hdp].
  apply speaks_read. set (key := mkKey _ _ _ _). assert (Hk : key_ok key) by (split; [done | by split]).
  apply (speaks_bind (fun x => table_peers (snd x) /\ Forall (well_formed key) (result_segments (fst x)))); [apply speaks_guard; [done|]|].
  - intros [r t] E. destruct (po_tcp s Hs) as [Ht1 Ht2].
    destruct (table_handle _ Ht2 key seg now g r t (proj2 Hk) eq_refl eq_refl Hr Hg E). split; [|done]. split; [by eapply keyed_handle | done].
  - intros [r t] s2 Hs2 [Ht Hsegs]. apply speaks_then; [done | |].
    + apply sends_modify. intros s3 []. by constructor.
    + intros s3 Hs3. by apply sends_dispatchResult.
Qed.

Lemma sends_receiveFrame port bytes arp_now now g : is_u16 port -> bytes_ok bytes -> Zlen bytes <= limit -> isn_ok g ->
  sends (receiveFrame local_ip local_mac port bytes arp_now now g).
Proof.
  intros Hport Hb Hl Hg s Hs. unfold receiveFrame. destruct (ethernet_total bytes) as (r & E & Hr). rewrite E.
  apply (speaks_bind (fun x => x = r)); [by apply speaks_guard; [|intros ? [= <-]]|]. clear s Hs. intros ? s Hs ->.
  destruct r as [frame|]; [|by apply sends_done]. specialize (Hr frame eq_refl Hb). apply ethernet_payload_length in E.
  destruct (_ =? kEtherTypeArp); [by apply sends_handleArp|].
  destruct (_ =? kEtherTypeIpv4); [|by apply sends_done]. unfold handleIpv4. destruct (ipv4_total (eth_payload frame)) as (r4 & E4 & _). rewrite E4.
  apply (speaks_bind (fun x => x = r4)); [by apply speaks_guard; [|intros ? [= <-]]|]. clear s Hs. intros ? s Hs ->.
  destruct r4 as [p|]; [|by apply sends_done]. destruct (ipv4_parsed _ _ Hr E4) as (Hip & Hpb & _ & Hpl).
  assert (Hlen : 34 + Zlen (ip_payload p) <= limit) by lia.
  destruct (ttl p =? 0); [by apply sends_done|]. destruct (negb _); [by apply sends_done|].
  apply speaks_then; [done | auto with stack|]. clear s Hs. intros s Hs.
  destruct (Z.eqb_spec (protocol p) kProtocolIcmp); [by apply sends_handleIcmp|]. destruct (_ =? kProtocolTcp); [by apply sends_handleTcp|].
  destruct (Z.eqb_spec (protocol p) kProtocolUdp); [|by apply sends_done].
  apply (speaks_bind (fun _ => True)); [by apply speaks_handleDnsClientUdp|]. intros consumed s2 Hs2 _.
  destruct consumed; [by apply sends_done | by apply sends_handleUdp].
Qed.

(** ** The event loop *)

Context (options : RuntimeOptions) (Hconfig : configured options).

Lemma options_ports : is_u16 (RuntimeOptions.source_port options) /\ is_u16 (opt_remote_port options).
Proof.
  destruct Hconfig as (Hvalid & _ & _). unfold valid_options in Hvalid. destruct (mode options); [by rewrite Hvalid | |].
  - destruct Hvalid as (ip & rp & sp & _ & H1 & H2 & ->). unfold is_port in *. simpl. split; ulia.
  - destruct Hvalid as (rp & sp & t & H1 & H2 & _ & [(ip & _ & ->)|(h & dip & dp & _ & _ & _ & _ & ->)]); unfold is_port in *; simpl; split; ulia.
Qed.

Lemma sends_neighborFailed ip : sends (neighborFailed ip).
Proof.
  apply sends_modify. intros s Hs. cbv zeta.
  assert (H : forall s, peers_ok s -> peers_ok (if negb (active_open_started s) && bool_decide (dial_target_ip s = Some ip) then s <| active_open_started := true |> else s)).
  { intros s0 []. destruct (_ && _); by constructor. }
  apply H. destruct (dns_state s) as [d|] eqn:Ed; [|done]. destruct (_ && _); [|done].
  destruct Hs as [? ? ? Hd ? ? ?]. constructor; simpl; try done. intros d' [= <-]. apply dns_peer_session; [by apply Hd | done].
Qed.

Lemma sends_arpTimers now : sends (arpTimers local_ip local_mac now).
Proof.
  intros s Hs. unfold arpTimers. speak_bind; [by apply speaks_arp|].
  apply sends_then; [apply sends_for_each, Forall_forall; intros; apply sends_sendArpRequest | | done].
  apply sends_for_each, Forall_forall. intros. apply sends_neighborFailed.
Qed.

Lemma sends_dnsTimers now lookup_now : sends (dnsTimers local_ip local_mac now lookup_now).
Proof.
  intros s Hs. unfold dnsTimers. apply speaks_read. destruct (dns_state s) as [d|] eqn:Ed; [|by apply sends_done].
  pose proof (po_dns _ Hs d Ed) as Hd. cbn [for_option]. destruct (s_state (dns_session d)); try by apply sends_done. destruct (query_started d).
  - unfold retryQuery. destruct (pollDnsTimeout_same (dns_session d) now) as [Hp Hq]. destruct (pollDnsTimeout (dns_session d) now) as [r session].
    simpl in Hp, Hq. apply sends_then; [by apply sends_set_dns, dns_peer_session | | done].
    apply sends_for_option. intros bytes Eb s1 Hs1. speak_bind; [by apply speaks_arp|].
    apply sends_for_option; [|done]. intros mac _. apply sends_sendUdpPacket; [rewrite (proj1 Hp); apply Hd | rewrite (Hq bytes Eb); apply Hd].
  - unfold startQuery. speak_bind; [by apply speaks_resolve|]. apply sends_for_option; [|done]. intros mac _.
    destruct (beginDnsQuery_query (dns_session d) (mkDnsQuery (dns_transaction_id d) (s_hostname (dns_session d))) now) as (Q1 & Q2 & Q3).
    destruct (beginDnsQuery _ _ _) as [bytes session]. simpl in Q1, Q2, Q3.
    assert (Hd' : dns_peer (d <| dns_session := session |>)) by (destruct Hd; constructor; simpl; try done; [by rewrite Q1 | by apply Q2]).
    destruct bytes as [bytes|]; [|by apply sends_set_dns].
    apply sends_then; [apply sends_set_dns; by destruct Hd' | apply sends_sendUdpPacket; [rewrite Q1; apply Hd | by apply Q3]].
Qed.

Lemma sends_connect key ip mac now g : mode options <> Passive -> key_ok key -> ip_ok ip -> isn_ok g ->
  sends (connect local_ip local_mac options key ip mac now g).
Proof.
  intros Hm Hk Hip Hg s Hs. unfold connect. apply (speaks_bind (fun r => Forall (well_formed key) (option_list (connect_syn r)))).
  { apply speaks_tcp; [done|]. intros t a t' [Ht1 Ht2] E. destruct (table_connect t Ht2 key now g a t' (proj2 Hk) Hg E).
    split; [|done]. split; [by eapply keyed_connect | done]. }
  intros r s1 Hs1 Hr. apply sends_then; [apply sends_modify; intros s2 []; by constructor | | done].
  destruct (connect_accepted r); [|apply sends_done]. apply sends_for_option. intros syn Esyn. rewrite Esyn in Hr.
  apply sends_then; [apply (sends_sendTcpSegment key); [done | by inversion Hr]|].
  intros s2 Hs2. apply speaks_read. destruct (mode options) eqn:Em; try by apply sends_done. apply sends_modify; [|done].
  intros s3 Hs3. destruct (map_contains _ _); [done|]. destruct Hs3. constructor; simpl; try done. apply Forall_map_set; [|done]. simpl.
  destruct Hconfig as (H1 & H2 & H3). apply clientSession_ok; try done; [congruence|]. intros d Ed. by apply (po_dns _ Hs2).
Qed.

Lemma sends_dial now g : isn_ok g -> sends (dial local_ip local_mac options now g).
Proof.
  intros Hg s Hs. unfold dial. do 2 apply speaks_read.
  destruct (mode options) eqn:Em, (active_open_started s), (dial_target_ip s) as [ip|] eqn:Ed; try (by apply sends_done).
  all: pose proof (po_dial _ Hs ip Ed) as Hip; speak_bind; [by apply speaks_resolve|]; apply sends_for_option; [|done]; intros mac _ s1 Hs1; apply speaks_read;
    apply (speaks_bind key_ok); [apply speaks_guard; [done | by apply po_open] | intros key s2 Hs2 Hk; apply sends_connect; try done; congruence].
Qed.

Lemma sends_timed now l : Forall (fun p => key_ok (fst p) /\ well_formed (fst p) (snd p)) l -> sends (for_each l (sendTimed local_ip local_mac now)).
Proof.
  intros H. apply sends_for_each. eapply Forall_impl; [exact H|]. intros p [[Hip _] Hw] s Hs. unfold sendTimed. speak_bind; [by apply speaks_resolve|].
  apply sends_for_option; [|done]. intros mac _. by apply (sends_sendTcpSegment (fst p)).
Qed.

(** What the timers send belongs to connections of the table. *)
Lemma timed_keys (l : list (TcpConnectionKey * TcpSegment)) : Forall (fun p => key_ok (fst p)) l ->
  Forall (fun p => ports_ok (fst p) /\ well_formed (fst p) (snd p)) l -> Forall (fun p => key_ok (fst p) /\ well_formed (fst p) (snd p)) l.
Proof. intros H1 H2. apply Forall_and. split; [done|]. eapply Forall_impl; [exact H2|]. by intros p [? ?]. Qed.

Lemma sends_tcpTimers now : sends (tcpTimers local_ip local_mac now).
Proof.
  assert (Herase : forall l, sends (for_each l eraseSessions)) by (intros; apply sends_for_each, Forall_forall; auto with stack).
  intros s Hs. unfold tcpTimers. apply (speaks_bind (fun r => Forall (fun p => key_ok (fst p) /\ well_formed (fst p) (snd p)) (retransmissions r))).
  { apply speaks_tcp; [done|]. intros t a t' [Ht1 Ht2] E. destruct (table_retransmissions t Ht2 now a t' E), (keyed_retransmissions _ _ _ _ _ Ht1 E).
    split; [done | by apply timed_keys]. }
  intros due s1 Hs1 Hdue. apply speaks_then; [done | by apply sends_timed|]. intros s2 Hs2.
  apply (speaks_bind (fun r => Forall (fun p => key_ok (fst p) /\ well_formed (fst p) (snd p)) r)).
  { apply speaks_tcp; [done|]. intros t a t' [Ht1 Ht2] E. destruct (table_probes t Ht2 now a t' E), (keyed_persist _ _ _ _ _ Ht1 E).
    split; [done | by apply timed_keys]. }
  intros probes s3 Hs3 Hp. by repeat apply sends_then; try apply sends_timed.
Qed.

Lemma sends_iteration frame clock g1 g2 : (forall bytes, frame = Some bytes -> bytes_ok bytes /\ Zlen bytes <= limit) -> isn_ok g1 -> isn_ok g2 ->
  sends (iteration local_ip local_mac options frame clock g1 g2).
Proof.
  intros Hf H1 H2. pose proof options_ports as [Hp _]. unfold iteration.
  apply sends_then; [apply sends_for_option; intros bytes E; by apply sends_receiveFrame; [|apply Hf..|]|].
  apply sends_then; [apply sends_arpTimers|]. apply sends_then; [apply sends_dnsTimers|]. apply sends_then; [by apply sends_dial | apply sends_tcpTimers].
Qed.

Lemma sends_initialResolution now : sends (initialResolution local_ip local_mac options now).
Proof.
  intros s Hs. unfold initialResolution. do 2 apply speaks_read. apply sends_for_option; [|done]. intros ip _ s1 Hs1.
  speak_bind; [by apply speaks_resolve | by apply sends_done].
Qed.

Lemma initial_peers random : peers_ok (initialStack local_ip options random).
Proof.
  pose proof options_ports as [Hp1 Hp2]. destruct Hconfig as (H1 & H2 & H3). destruct (initial_ok local_ip options H1 H2 H3 random) as [_ _ _ _ Hd Hh].
  constructor; try done.
  - split; constructor.
  - intros ip Ei. by apply Hd.
  - intros k. simpl. destruct (initialDial options) as [ip|] eqn:E; [|done]. intros [= <-]. split; [by apply Hd | done].
  - intros d Ed. specialize (Hh d Ed). simpl in Ed. unfold initialDnsState, valid_options in *. destruct (mode options) eqn:Em; [done..|].
    destruct H1 as (rp & sp & t & _ & _ & _ & [(ip0 & Hip & ->)|(h & dip & dp & _ & _ & Hdip & _ & ->)]); [done|].
    simpl in Ed. apply (inj Some) in Ed as <-. by constructor.
  - intros port request response. simpl. unfold udp_deliver. simpl. destruct (key_eqb _ _); [|done]. intros [= <-]. lia.
Qed.

End Output.

Lemma running_peers local_ip local_mac options s : ip_ok local_ip -> configured options -> running local_ip local_mac options s -> peers_ok s.
Proof.
  intros Hip Hc. induction 1 as [random now s out E|s frame clock i1 i2 s' out _ IH [Hf H1 H2] E].
  - by apply (sends_initialResolution local_ip local_mac 1514 ltac:(lia) options now _ (initial_peers local_ip options Hc random) _ _ _ E).
  - refine (proj1 (sends_iteration local_ip local_mac Hip (Z.max 1514 (from_option Zlen 0 frame)) ltac:(lia) options Hc frame clock i1 i2 _ H1 H2 s IH _ _ _ E)).
    intros bytes Eb. split; [by apply Hf|]. rewrite Eb. simpl. lia.
Qed.

(** A frame of ours is read back by any receiver that takes frames of its
    length. *)
Lemma emitted_parses local_ip local_mac limit bytes : emitted local_ip local_mac limit bytes -> limit <= kMaxEthernetFrameLength ->
  exists frame, parseEthernetFrame bytes = Some (inl frame) /\ eth_source frame = local_mac.
Proof.
  intros H Hl.
  assert (E : exists frame, bytes = serializeEthernetFrame frame /\ is_u16 (ether_type frame) /\ eth_source frame = local_mac /\ Zlen bytes <= limit)
    by (destruct H as [mac p -> _ _ ?|mac data p -> _ _ _ _ ?]; eexists; (split; [reflexivity | split; [by vm_compute | done]])).
  destruct E as (frame & -> & Ht & Hs & Hlen). exists frame. split; [|done]. apply parse_serialize_ethernet; [done|].
  rewrite ethernet_length in Hlen. unfold kMaxEthernetFrameLength in Hl. lia.
Qed.

(** C29 (safety). The stack only sends frames of its own. Whatever the command
    line and whatever frames have arrived, every frame the program writes in
    an iteration comes from our hardware address, is read back by the Ethernet
    parser, and carries either an ARP packet with our addresses as the sender,
    or an IPv4 packet that its receiver's parser accepts, from our address
    with TTL 64, whose payload is a serialized echo reply, UDP datagram or TCP
    segment, the latter read back by the TCP parser. And nothing is amplified:
    a frame longer than the 1514 bytes of a standard Ethernet frame is never
    longer than the frame that was just received. *)
Theorem stack_sends_its_own argv local_ip local_mac options s frame clock isn1 isn2 s' out :
  Forall bytes_ok argv -> startup argv = Some (local_ip, local_mac, options) -> running local_ip local_mac options s ->
  (forall bytes, frame = Some bytes -> bytes_ok bytes /\ Zlen bytes <= kMaxEthernetFrameLength) -> isn_ok isn1 -> isn_ok isn2 ->
  iteration local_ip local_mac options frame clock isn1 isn2 s = Some (tt, s', out) ->
  Forall (fun bytes => emitted local_ip local_mac (Z.max 1514 (from_option Zlen 0 frame)) bytes /\
    exists f, parseEthernetFrame bytes = Some (inl f) /\ eth_source f = local_mac) out.
Proof.
  intros Hargv Hst Hr Hf Hi1 Hi2 E. pose proof (startup_configured _ _ _ _ Hargv Hst) as Hc. pose proof (startup_local_ip _ _ _ _ Hst) as Hip.
  destruct (sends_iteration local_ip local_mac Hip (Z.max 1514 (from_option Zlen 0 frame)) ltac:(lia) options Hc frame clock isn1 isn2) with s tt s' out
    as (_ & Hout & _); try done.
  { intros bytes Eb. split; [by apply Hf|]. rewrite Eb. simpl. lia. }
  { by eapply running_peers. }
  eapply Forall_impl; [exact Hout|]. intros bytes Hb. split; [done|]. eapply emitted_parses; [exact Hb|].
  destruct frame as [bytes'|]; simpl; [|by vm_compute]. destruct (Hf bytes' eq_refl) as [_ Hl]. unfold kMaxEthernetFrameLength in *. lia.
Qed.

(** [stack_sends_its_own] for the reply to an ARP request. *)
Lemma stack_sends_its_own_witness :
  exists s' reply, iteration SampleStack.ip SampleStack.mac defaultOptions (Some SampleStack.who_has) SampleStack.clock None None
      (initialStack SampleStack.ip defaultOptions 0) = Some (tt, s', [reply]) /\ emitted SampleStack.ip SampleStack.mac 1514 reply.
Proof.
  assert (Hargv : Forall bytes_ok SampleStack.argv) by (vm_compute; repeat constructor; discriminate).
  assert (Hb : bytes_ok SampleStack.who_has) by (vm_compute; repeat constructor; discriminate).
  eexists _, _. split; [vm_compute; reflexivity|].
  assert (H : forall bytes, Some SampleStack.who_has = Some bytes -> bytes_ok bytes /\ Zlen bytes <= kMaxEthernetFrameLength)
    by (intros ? [= <-]; split; [exact Hb | by vm_compute]).
  assert (Hi : isn_ok None) by (by intros ? ?).
  pose proof (stack_sends_its_own SampleStack.argv SampleStack.ip SampleStack.mac defaultOptions (initialStack SampleStack.ip defaultOptions 0)
    (Some SampleStack.who_has) SampleStack.clock None None _ _ Hargv eq_refl
    (running_start SampleStack.ip SampleStack.mac defaultOptions 0 0 _ [] eq_refl) H Hi Hi eq_refl) as Ht.
  apply Forall_cons in Ht as [[Ht _] _]. exact Ht.
Defined.
