(* ===== verification/Link.v ===== *)
(** * Two programs on an Ethernet link

    Two copies of the program, each with its own command line, joined by a
    link that loses, repeats, delays and reorders frames. This file has the
    link, and a logic for what the handlers of one program do to its side of
    the TCP conversation ([TcpEndToEnd]) while they write frames. *)

From stdpp Require Import relations.
From S2P Require Import Prelude StdMap Checksum Addresses Text ArpCache.
From S2P Require Import Ethernet Arp Ipv4 Icmp Udp Tcp.
From S2P Require Import Dns Http HttpClient RuntimeOptions.
From S2P Require Import TcpState TcpHandler TcpTable TcpInvariant TcpOutput TcpEndToEnd TcpReports.
From S2P Require Import Stack EventLoop StackSafety StackServices StackOutput.

#[local] Opaque internetChecksum tcpChecksum.

(** ** The link *)

(** A running program: its state, the frames it has written, and the initial
    sequence number its generator has not given yet. *)
Record Node := mkNode { n_stack : Stack; n_frames : list (list Z); n_supply : option Z }.

(** What the generator gives in one iteration, for the frame and for the dial,
    and what it has left. It gives each number at most once; a call that it
    answers with nothing is a failure of the system's random source. *)
Inductive draws (supply : option Z) : option Z -> option Z -> option Z -> Prop :=
| draws_nothing : draws supply None None supply
| draws_receiving isn : supply = Some isn -> draws supply (Some isn) None None
| draws_dialling isn : supply = Some isn -> draws supply None (Some isn) None.

Section Program.
Context (local_ip : Ipv4Address) (local_mac : MacAddress) (options : RuntimeOptions).

Inductive boots (isn : Z) : Node -> Prop :=
| boot random now s out :
    initialResolution local_ip local_mac options now (initialStack local_ip options random) = Some (tt, s, out) ->
    boots isn (mkNode s out (Some isn)).

(** One iteration of the event loop, with no frame or any frame of the link. *)
Inductive node_step (incoming : list (list Z)) : Node -> Node -> Prop :=
| node_iterates n frame clock isn1 isn2 supply s' out :
    (forall bytes, frame = Some bytes -> bytes ∈ incoming) -> draws (n_supply n) isn1 isn2 supply ->
    iteration local_ip local_mac options frame clock isn1 isn2 (n_stack n) = Some (tt, s', out) ->
    node_step incoming n (mkNode s' (n_frames n ++ out) supply).

(** Whatever the link delivers next, the iteration completes without reading
    outside a buffer. *)
Definition proceeds (incoming : list (list Z)) (n : Node) : Prop := forall frame clock isn1 isn2 supply,
  (forall bytes, frame = Some bytes -> bytes ∈ incoming) -> draws (n_supply n) isn1 isn2 supply ->
  exists s' out, iteration local_ip local_mac options frame clock isn1 isn2 (n_stack n) = Some (tt, s', out).
End Program.

(** Who is on the link. *)
Record Party := mkParty { p_ip : Ipv4Address; p_mac : MacAddress; p_options : RuntimeOptions }.

(** The link remembers every frame: each may be delivered at any time, any
    number of times, or never. *)
Inductive link_step (A B : Party) : Node * Node -> Node * Node -> Prop :=
| link_left a a' b : node_step (p_ip A) (p_mac A) (p_options A) (n_frames b) a a' -> link_step A B (a, b) (a', b)
| link_right a b b' : node_step (p_ip B) (p_mac B) (p_options B) (n_frames a) b b' -> link_step A B (a, b) (a, b').

(** ** What a handler does to its side of a conversation *)

(** What the application has written and read. *)
Definition talk (sd : side) : list Z * list Z * bool := (s_written sd, s_read sd, s_eof sd).

(** What the applications and the dial keep in the stack. *)
Definition apps (s : Stack) := (http_sessions s, http_client_sessions s, active_open_key s, dial_target_ip s, dns_state s).

(** A frame that carries one of the segments [sent] on [key], or an ARP packet. *)
Definition framed (local_ip : Ipv4Address) (local_mac : MacAddress) (key : TcpConnectionKey) (sent : list TcpSegment) (bytes : list Z) : Prop :=
  (exists frame, parseEthernetFrame bytes = Some (inl frame) /\ ether_type frame = kEtherTypeArp) \/
  (exists mac seg tcp, seg ∈ sent /\ serializeTcpSegment seg local_ip (TcpState.remote_ip key) = inl tcp /\
     carries local_ip local_mac bytes mac kProtocolTcp (TcpState.remote_ip key) tcp).

Lemma framed_mono ip mac key l l' bytes : l `prefix_of` l' -> framed ip mac key l bytes -> framed ip mac key l' bytes.
Proof.
  intros [k ->] [H|(m & seg & tcp & H1 & H2 & H3)]; [by left|]. right. exists m, seg, tcp. split_and!; auto. apply elem_of_app. by left.
Qed.

(** Writing and reading leave [opened] decidable. *)
#[export] Instance opened_dec sd : Decision (opened sd).
Proof. unfold opened. apply Exists_dec. intros x. apply _. Defined.

Lemma opened_mono sd sd' : s_sent sd `prefix_of` s_sent sd' -> opened sd -> opened sd'.
Proof. intros [k E] H. unfold opened in *. rewrite E. apply Exists_app. by left. Qed.

(** What a program relies on of the conversation it takes part in: [good] are
    the sides it may have, with a fixed [peer]. *)
Class Conversation (key : TcpConnectionKey) (isn : Z) (peer : side) (good : side -> Prop) : Prop := {
  cv_local : ip_ok (TcpState.local_ip key);
  cv_remote : ip_ok (TcpState.remote_ip key);
  cv_isn : is_u32 isn;
  cv_step sd sd' : good sd -> side_step key isn (s_sent peer) sd sd' -> Zlen (s_written sd') <= 2 ^ 30 -> good sd';
  cv_engaged sd : good sd -> engaged key peer sd;
  cv_small sd : good sd -> Zlen (s_written sd) <= 2 ^ 30;
  cv_peer : Forall (well_formed (mirror key)) (s_sent peer)
}.

Section Side.
Context (local_mac : MacAddress) (key : TcpConnectionKey) (isn : Z) (peer : side) (good : side -> Prop) {conv : Conversation key isn peer good}.
#[local] Abbreviation local_ip := (TcpState.local_ip key).
#[local] Abbreviation remote_ip := (TcpState.remote_ip key).

(** From stack [s] and side [sd], the action completes without reading outside
    a buffer; the side moves by steps of the conversation, every frame written
    is an ARP packet or carries a segment of it, and, when [silent], the
    connection is not opened; [Q] holds at the end. *)
Definition does {A} (silent : Prop) (m : action A) (s : Stack) (sd : side) (Q : A -> Stack -> side -> Prop) : Prop :=
  exists a s' out sd', m s = Some (a, s', out) /\ good sd' /\ s_sent sd `prefix_of` s_sent sd' /\
    Forall (framed local_ip local_mac key (s_sent sd')) out /\ (silent -> opened sd' -> opened sd) /\ Q a s' sd'.

Lemma does_mono {A} (p p' : Prop) (m : action A) s sd (Q Q' : A -> Stack -> side -> Prop) : (p' -> p) ->
  (forall a s' sd', s_sent sd `prefix_of` s_sent sd' -> (p -> opened sd' -> opened sd) -> good sd' -> Q a s' sd' -> Q' a s' sd') -> does p m s sd Q -> does p' m s sd Q'.
Proof. intros Hp HQ (a & s' & out & sd' & H1 & H2 & H3 & H4 & H5 & H6). exists a, s', out, sd'. split_and!; auto. Qed.

Lemma does_bind {A B} (p p1 p2 : Prop) (m : action A) (k : A -> action B) s sd P Q : (p -> p1) -> (p -> p2) -> does p1 m s sd P ->
  (forall a s' sd', s_sent sd `prefix_of` s_sent sd' -> (p1 -> opened sd' -> opened sd) -> good sd' -> P a s' sd' -> does p2 (k a) s' sd' Q) -> does p (m ≫= k) s sd Q.
Proof.
  intros Hp1 Hp2 (a & s1 & o1 & sd1 & E1 & G1 & X1 & F1 & N1 & HP) Hk.
  destruct (Hk a s1 sd1 X1 N1 G1 HP) as (b & s2 & o2 & sd2 & E2 & G2 & X2 & F2 & N2 & HQ).
  exists b, s2, (o1 ++ o2), sd2. split_and!; auto.
  - unfold mbind, action_bind. by rewrite E1, E2.
  - by etransitivity.
  - apply Forall_app. split; [|done]. eapply Forall_impl; [exact F1|]. intros f. by apply framed_mono.
Qed.

(** The common case: the same [silent] throughout. *)
Lemma does_then {A B} p (m : action A) (k : A -> action B) s sd P Q : does p m s sd P ->
  (forall a s' sd', s_sent sd `prefix_of` s_sent sd' -> good sd' -> P a s' sd' -> does p (k a) s' sd' Q) -> does p (m ≫= k) s sd Q.
Proof. intros Hm Hk. by apply (does_bind p p p m k s sd P); [..|intros a s' sd' H1 _ H2 H3; apply Hk]. Qed.

Lemma does_here {A} p (a : A) (m : action A) s s' sd (Q : A -> Stack -> side -> Prop) : m s = Some (a, s', []) -> good sd -> Q a s' sd -> does p m s sd Q.
Proof. intros E Hg HQ. exists a, s', [], sd. split_and!; auto. Qed.

Lemma does_ret {A} p (a : A) s sd (Q : A -> Stack -> side -> Prop) : good sd -> Q a s sd -> does p (mret a) s sd Q.
Proof. by apply does_here. Qed.

Lemma does_read {A B} p (f : Stack -> A) (k : A -> action B) s sd Q : does p (k (f s)) s sd Q -> does p (read f ≫= k) s sd Q.
Proof. intros (b & s' & out & sd' & E & H). exists b, s', out, sd'. split; [|done]. by rewrite bind_read. Qed.

Lemma does_modify {B} p (f : Stack -> Stack) (k : action B) s sd Q : does p k (f s) sd Q -> does p (modify f ;; k) s sd Q.
Proof. intros (b & s' & out & sd' & E & H). exists b, s', out, sd'. split; [|done]. by rewrite bind_modify. Qed.

Lemma does_guard {A B} p (o : option A) a (k : A -> action B) s sd Q : o = Some a -> does p (k a) s sd Q -> does p (guard_bounds o ≫= k) s sd Q.
Proof. intros Eo (b & s' & out & sd' & E & H). exists b, s', out, sd'. split; [|done]. by rewrite (bind_guard _ _ a). Qed.

Lemma does_write p frame s sd (Q : unit -> Stack -> side -> Prop) : good sd -> framed local_ip local_mac key (s_sent sd) frame -> Q tt s sd -> does p (write frame) s sd Q.
Proof. intros Hg Hf HQ. exists tt, s, [frame], sd. split_and!; auto. Qed.

(** An action that leaves the side and the applications as they are, in a
    program that does not use DNS. *)
Definition aside {A} (m : action A) : Prop := forall p s sd, good sd -> dns_state s = None ->
  does p m s sd (fun _ s' sd' => sd' = sd /\ apps s' = apps s /\ tcp_connections s' = tcp_connections s).

Lemma aside_bind {A B} (m : action A) (k : A -> action B) : aside m -> (forall a, aside (k a)) -> aside (m ≫= k).
Proof.
  intros Hm Hk p s sd Hg Hd. eapply does_then; [by apply Hm|]. intros a s' sd' _ Hg' (-> & E1 & E2).
  assert (Hd' : dns_state s' = None) by (unfold apps in E1; congruence). eapply does_mono; [done| |by apply Hk]. intros b s2 sd2 _ _ _ (-> & E3 & E4). split_and!; congruence.
Qed.

Lemma aside_ret {A} (a : A) : aside (mret a).
Proof. intros p s sd Hg _. by apply does_ret. Qed.

Lemma aside_modify f : (forall s, dns_state s = None -> apps (f s) = apps s /\ tcp_connections (f s) = tcp_connections s) -> aside (modify f).
Proof. intros Hf p s sd Hg Hd. apply (does_here p tt _ s (f s)); [done | done|]. split; [done | by apply Hf]. Qed.

Lemma aside_on_arp {A} (f : ArpCache.ArpCache -> A * ArpCache.ArpCache) : aside (on_arp f).
Proof.
  intros p s sd Hg _. destruct (f (arp_cache s)) as [a c] eqn:E. apply (does_here p a _ s (s <| arp_cache := c |>)); [|done..].
  unfold on_arp. by rewrite E.
Qed.

Lemma aside_when b m : aside m -> aside (when b m).
Proof. intros H. destruct b; [done | apply aside_ret]. Qed.

Lemma aside_for_each {A} (l : list A) body : (forall x, aside (body x)) -> aside (for_each l body).
Proof. intros H. induction l as [|x l IH]; simpl; [apply aside_ret | by apply aside_bind]. Qed.

Lemma aside_arp_packet mac p : aside (write (serializeEthernetFrame (mkEthernetFrame mac local_mac kEtherTypeArp (serializeArpPacket p)))).
Proof.
  intros q s sd Hg _. apply does_write; [done | | done]. left. eexists.
  split; [apply parse_serialize_ethernet; [by vm_compute | cbn [eth_payload]; rewrite serialized_arp_length; lia] | done].
Qed.

Lemma aside_guard {A B} (o : option A) a (k : A -> action B) : o = Some a -> aside (k a) -> aside (guard_bounds o ≫= k).
Proof. intros E H p s sd Hg Hd. apply (does_guard _ _ a); [done | by apply H]. Qed.

(** *** ARP *)

Lemma aside_resolve ip now : aside (resolveNeighbor local_ip local_mac ip now).
Proof.
  unfold resolveNeighbor. apply aside_bind; [apply aside_on_arp|]. intros [mac|]; [apply aside_ret|]. apply aside_bind; [apply aside_on_arp|].
  intros started. apply aside_bind; [apply aside_when, aside_arp_packet | intros; apply aside_ret].
Qed.

Lemma aside_insertNeighbor ip mac now : aside (insertNeighbor ip mac now).
Proof. by apply aside_modify. Qed.

Lemma aside_handleArp frame now : aside (handleArp local_ip local_mac frame now).
Proof.
  unfold handleArp. destruct (arp_total (eth_payload frame)) as [r E]. apply (aside_guard _ r); [done|].
  destruct r as [packet|]; [|apply aside_ret]. destruct (_ || _); [apply aside_ret|]. destruct (arp_operation packet).
  - destruct (maybeReply _ _ _); [|apply aside_ret]. apply aside_bind; [apply aside_when, aside_insertNeighbor | intros; apply aside_arp_packet].
  - unfold handleArpReply. destruct (_ || _); [apply aside_ret|]. apply aside_bind; [apply aside_on_arp|]. intros state.
    destruct (negb _); [apply aside_ret | apply aside_insertNeighbor].
Qed.

Lemma aside_arpTimers now : aside (arpTimers local_ip local_mac now).
Proof.
  unfold arpTimers. apply aside_bind; [apply aside_on_arp|]. intros due. apply aside_bind; [apply aside_for_each; intros; apply aside_arp_packet|].
  intros _. apply aside_for_each. intros ip. apply aside_modify. intros s Hd. cbv beta zeta. rewrite Hd. by destruct (negb (active_open_started s) && _).
Qed.

Lemma aside_dnsTimers now lookup_now : aside (dnsTimers local_ip local_mac now lookup_now).
Proof. intros p s sd Hg Hd. unfold dnsTimers. apply does_read. rewrite Hd. by apply does_ret. Qed.

(** *** TCP *)

(** The stack holds the table of the side, with no other connection. *)
Record wired (s : Stack) (sd : side) : Prop := {
  wi_table : tcp_connections s = s_table sd;
  wi_keyed : keyed (eq key) (s_table sd);
  wi_dns : dns_state s = None;
  wi_http : map_ok (http_sessions s);
  wi_client : map_ok (http_client_sessions s)
}.

Definition gone (sd : side) : Prop := connection_of key (s_table sd) = None.

Lemma wired_aside s s' sd : wired s sd -> apps s' = apps s -> tcp_connections s' = tcp_connections s -> wired s' sd.
Proof. intros [] [=] E. constructor; congruence. Qed.

Lemma wired_table s t sd sd' : wired s sd -> s_table sd' = t -> keyed (eq key) t -> wired (s <| tcp_connections := t |>) sd'.
Proof. intros [] <- Hk. by constructor. Qed.

Lemma does_segment p seg mac s sd (Q : unit -> Stack -> side -> Prop) : good sd -> seg ∈ s_sent sd -> Q tt s sd ->
  does p (sendTcpSegment local_ip local_mac remote_ip mac seg) s sd Q.
Proof.
  intros Hg Hin HQ. pose proof (en_sent _ _ _ (cv_engaged sd Hg)) as Hs. rewrite Forall_forall in Hs. specialize (Hs seg Hin).
  destruct (well_formed_travels key seg local_ip remote_ip Hs cv_local cv_remote) as (tcp & E & _ & Hl). unfold sendTcpSegment. rewrite E.
  destruct (sendIpv4_carries local_ip local_mac cv_local mac kProtocolTcp remote_ip tcp s) as (bytes & Es & Hc); [by vm_compute | exact cv_remote | unfold kTcpMss in Hl; lia|].
  exists tt, s, [bytes], sd. split_and!; auto. apply Forall_singleton. right. by exists mac, seg, tcp.
Qed.

(** An operation of the table that is a step of the conversation. *)
Lemma does_tcp {A} p (f : TcpConnectionTable -> A * TcpConnectionTable) s sd a t' sd1 : good sd -> wired s sd -> f (s_table sd) = (a, t') ->
  side_step key isn (s_sent peer) sd sd1 -> s_table sd1 = t' -> Zlen (s_written sd1) <= 2 ^ 30 -> keyed (eq key) t' -> (p -> opened sd1 -> opened sd) ->
  does p (on_tcp f) s sd (fun r s' sd' => r = a /\ sd' = sd1 /\ apps s' = apps s /\ wired s' sd1).
Proof.
  intros Hg Hw E Hs <- Hl Hk Ho. exists a, (s <| tcp_connections := s_table sd1 |>), [], sd1. split_and!; auto.
  - unfold on_tcp. by rewrite (wi_table _ _ Hw), E.
  - by apply (cv_step sd).
  - destruct Hs; simpl; try by apply prefix_app_r. done.
  - by apply (wired_table s (s_table sd1) sd).
Qed.

(** Without a connection the side sends nothing. *)
Lemma unopened sd sd' segs : good sd -> s_sent sd' = s_sent sd ++ segs -> (gone sd -> segs = []) -> opened sd' -> opened sd.
Proof.
  intros Hg E Hs Ho. destruct (decide (opened sd)) as [|Hno]; [done|]. destruct (en_fresh _ _ _ (cv_engaged sd Hg) Hno) as [Hgone _].
  unfold opened in Ho. by rewrite E, (Hs Hgone), app_nil_r in Ho.
Qed.

Section Replies.
Context (ip_packet : Ipv4Packet) (frame : EthernetFrame) (Hsource : ip_source ip_packet = remote_ip).
#[local] Abbreviation sendReply := (sendTcpReply local_ip local_mac ip_packet frame).

Lemma does_replies p segs s sd (Q : unit -> Stack -> side -> Prop) : good sd -> Forall (fun seg => seg ∈ s_sent sd) segs -> Q tt s sd ->
  does p (for_each segs sendReply) s sd Q.
Proof.
  intros Hg Hin HQ. induction Hin as [|seg segs Hseg _ IH]; simpl; [by apply does_ret|].
  apply (does_then _ _ _ _ _ (fun _ s' sd' => s' = s /\ sd' = sd)); [|by intros _ s' sd' _ _ [-> ->]].
  unfold sendTcpReply. rewrite Hsource. by apply does_segment.
Qed.

Lemma does_reply_option p o s sd (Q : unit -> Stack -> side -> Prop) : good sd -> Forall (fun seg => seg ∈ s_sent sd) (option_list o) -> Q tt s sd ->
  does p (for_option o sendReply) s sd Q.
Proof.
  intros Hg Hin HQ. destruct o as [seg|]; [|by apply does_ret]. simpl. unfold sendTcpReply. rewrite Hsource. apply does_segment; [done | | done]. by inversion Hin.
Qed.

(** Writing: everything or nothing is taken, and sent. *)
Definition wrote (s : Stack) (sd : side) (bytes : list Z) (res : TcpSendResult) (s' : Stack) (sd' : side) : Prop :=
  wired s' sd' /\ apps s' = apps s /\ Forall (fun seg => seg ∈ s_sent sd') (send_segments res) /\
  talk sd' = (s_written sd ++ (if has_value (send_error res) then [] else bytes), s_read sd, s_eof sd) /\ (gone sd -> gone sd').

Lemma does_send p bytes now s sd : good sd -> wired s sd -> bytes_ok bytes -> Zlen (s_written sd) + Zlen bytes <= 2 ^ 30 ->
  does p (on_tcp (fun t => makeOutgoingData t key bytes now)) s sd (fun res s' sd' =>
    wrote s sd bytes res s' sd' /\ exists t', makeOutgoingData (s_table sd) key bytes now = (res, t')).
Proof.
  intros Hg Hw Hb Hl. destruct (makeOutgoingData (s_table sd) key bytes now) as [res t'] eqn:E. pose proof (send_whole _ _ _ _ _ _ E) as Hall.
  assert (Hgone : gone sd -> connection_of key t' = None /\ send_segments res = []) by (intros H; destruct (gone_send key _ H _ _ _ _ E) as (? & ? & _); auto).
  eapply does_mono; [done| |eapply (does_tcp _ _ s sd res); [done | done | exact E | by eapply side_send | done | | | intros _]].
  - intros r s' sd' _ _ _ (-> & -> & Ha & Hw'). split; [|by eexists]. unfold wrote. split_and!; auto.
    + simpl. apply Forall_forall. intros seg Hin. apply elem_of_app. by right.
    + unfold talk. simpl. by rewrite Hall.
    + intros H. apply (Hgone H).
  - simpl. rewrite Hall, Zlen_app. pose proof (Zlen_nonneg bytes). destruct (has_value _); [change (Zlen []) with 0|]; lia.
  - by eapply keyed_send; [|apply Hw|].
  - eapply unopened; [done | reflexivity|]. intros H. apply (Hgone H).
Qed.

Lemma does_close p now s sd : good sd -> wired s sd ->
  does p (close_result ← on_tcp (fun t => beginClose t key now); for_option (close_fin close_result) sendReply) s sd (fun _ s' sd' =>
    wired s' sd' /\ apps s' = apps s /\ talk sd' = talk sd /\ (gone sd -> gone sd')).
Proof.
  intros Hg Hw. destruct (beginClose (s_table sd) key now) as [res t'] eqn:E.
  eapply does_then; [eapply (does_tcp _ _ s sd res); [done | done | exact E | by eapply side_close | done | exact (cv_small sd Hg) | | intros _]|].
  - by eapply keyed_close; [|apply Hw|].
  - eapply unopened; [done | reflexivity|]. intros H. by apply (gone_close key _ H _ _ _ E).
  - intros _ s' sd' _ Hg' (-> & -> & Ha & Hw'). apply does_reply_option; [done | simpl; apply Forall_forall; intros seg Hin; apply elem_of_app; by right|].
    split_and!; auto. intros H. by apply (gone_close key _ H _ _ _ E).
Qed.
End Replies.

(** *** A segment arrives *)

(** The side after a segment was handled. *)
Definition received (sd : side) (res : TcpReceiveResult) (t' : TcpConnectionTable) : side :=
  mkSide t' (s_sent sd ++ result_segments res) (s_written sd) (s_read sd ++ accepted_payload res) (s_eof sd || peer_closed res).

(** The replies go out first; then the applications are told. *)
Lemma does_dispatch p res ip_packet frame now s sd (Q : unit -> Stack -> side -> Prop) : good sd -> ip_source ip_packet = remote_ip ->
  Forall (fun seg => seg ∈ s_sent sd) (result_segments res) ->
  does p (open_key ← read active_open_key;
    when ((negb (empty (accepted_payload res)) || peer_closed res) && negb (bool_decide (Some key = open_key)))
      (handleHttpServer local_ip local_mac key res ip_packet frame now) ;;
    handleHttpClient local_ip local_mac key res ip_packet frame now ;;
    when (connection_reset res || connection_closed res) (eraseSessions key)) s sd Q ->
  does p (dispatchResult local_ip local_mac key res ip_packet frame now) s sd Q.
Proof.
  intros Hg Hip Hin Hrest. unfold result_segments in Hin. rewrite !Forall_app in Hin. destruct Hin as (H1 & H2 & H3). unfold dispatchResult.
  apply (does_then _ _ _ _ _ (fun _ s' sd' => s' = s /\ sd' = sd)); [by apply does_reply_option|]. intros _ ? ? _ _ [-> ->].
  apply (does_then _ _ _ _ _ (fun _ s' sd' => s' = s /\ sd' = sd)); [by apply does_reply_option|]. intros _ ? ? _ _ [-> ->].
  apply (does_then _ _ _ _ _ (fun _ s' sd' => s' = s /\ sd' = sd)); [by apply does_replies|]. by intros _ ? ? _ _ [-> ->].
Qed.

Context (peer_mac : MacAddress).

(** What is known when a segment of the peer was handled. *)
Record arrival (s : Stack) (sd : side) (g : option Z) (res : TcpReceiveResult) (t' : TcpConnectionTable) (s1 : Stack) : Prop := {
  ar_handle : exists seg now, segment_ok seg /\ handle (s_table sd) key seg now g = Some (res, t');
  ar_draw : may_draw isn sd g;
  ar_before : good sd;
  ar_good : good (received sd res t');
  ar_apps : apps s1 = apps s;
  ar_wired : wired s1 (received sd res t')
}.

Lemma does_handleTcp p ip_packet frame now g seg s sd Q : good sd -> wired s sd -> isn_ok g -> may_draw isn sd g -> (p -> g = None) ->
  seg ∈ s_sent peer -> ip_source ip_packet = remote_ip -> ip_destination ip_packet = local_ip ->
  serializeTcpSegment seg remote_ip local_ip = inl (ip_payload ip_packet) ->
  (forall res t' s1, arrival s sd g res t' s1 -> does p (dispatchResult local_ip local_mac key res ip_packet frame now) s1 (received sd res t') Q) ->
  does p (handleTcp local_ip local_mac ip_packet frame now g) s sd Q.
Proof.
  intros Hg Hw Hi Hdraw Hp Hin Hsrc Hdst Hser Hnext. destruct (en_safe _ _ _ (cv_engaged sd Hg) seg Hin) as (bytes & S1 & S2 & S3).
  rewrite Hser in S1. injection S1 as <-. destruct (S3 now g Hi) as (res & t' & E). pose proof cv_peer as Hpeer. rewrite Forall_forall in Hpeer. pose proof (Hpeer seg Hin) as Hwf.
  assert (Hstep : side_step key isn (s_sent peer) sd (received sd res t')) by (by eapply side_receive).
  assert (Hg' : good (received sd res t')) by (apply (cv_step sd); [done | done | exact (cv_small sd Hg)]).
  unfold handleTcp. rewrite Hsrc, Hdst. apply (does_guard _ _ (inl seg)); [done|].
  assert (Hkey : mkKey local_ip (destination_port seg) remote_ip (Tcp.source_port seg) = key).
  { destruct Hwf as [W1 W2 _ _ _]. rewrite W1, W2. by destruct key. }
  rewrite Hkey. apply does_read. rewrite (wi_table _ _ Hw). apply (does_guard _ _ (res, t')); [done|]. apply does_modify.
  assert (Hnext' : does p (dispatchResult local_ip local_mac key res ip_packet frame now) (s <| tcp_connections := t' |>) (received sd res t') Q).
  { apply Hnext. constructor; auto.
    - exists seg, now. split; [by eapply well_formed_segment | done].
    - apply (wired_table s t' sd); [done | done|]. exact (keyed_handle (eq key) _ key _ _ _ _ _ eq_refl (wi_keyed _ _ Hw) E). }
  destruct Hnext' as (a & s' & out & sd' & N1 & N2 & N3 & N4 & N5 & N6). exists a, s', out, sd'. split_and!; auto.
  - etransitivity; [|exact N3]. simpl. by apply prefix_app_r.
  - intros Hsil Ho. specialize (N5 Hsil Ho). specialize (Hp Hsil). subst g. destruct (decide (opened sd)) as [|Hno]; [done|].
    destruct (en_fresh _ _ _ (cv_engaged sd Hg) Hno) as [Hgone _]. destruct (gone_handle key _ Hgone _ _ _ _ _ E) as (_ & _ & _ & _ & _ & Hs).
    destruct (Hs eq_refl) as [_ Hs']. unfold opened in N5. simpl in N5. apply Exists_app in N5 as [?|N5]; [done|]. exfalso.
    apply Exists_exists in N5 as (x & Hx & Hsyn). rewrite Forall_forall in Hs'. specialize (Hs' x Hx). congruence.
Qed.

Lemma does_receiveFrame p port bytes arp_now now g s sd Q : good sd -> wired s sd -> isn_ok g -> may_draw isn sd g -> (p -> g = None) ->
  framed remote_ip peer_mac (mirror key) (s_sent peer) bytes ->
  (forall s1, apps s1 = apps s -> wired s1 sd -> Q tt s1 sd) ->
  (forall res t' s1 ip_packet frame, ip_source ip_packet = remote_ip -> arrival s sd g res t' s1 ->
     does p (dispatchResult local_ip local_mac key res ip_packet frame now) s1 (received sd res t') Q) ->
  does p (receiveFrame local_ip local_mac port bytes arp_now now g) s sd Q.
Proof.
  intros Hg Hw Hi Hdraw Hp [(frame & E & Harp)|(mac & seg & tcp & Hin & Hser & data & E1 & E2)] Hq Hnext.
  - unfold receiveFrame. apply (does_guard _ _ (inl frame)); [done|]. rewrite Harp. cbn [Z.eqb kEtherTypeArp Pos.eqb].
    eapply does_mono; [done| |by apply aside_handleArp; [|apply Hw]]. intros [] s' sd' _ _ _ (-> & Ea & Et). apply Hq; [done|]. by eapply wired_aside.
  - set (frame := mkEthernetFrame mac peer_mac kEtherTypeIpv4 data) in *. set (packet := mkIpv4Packet 0 0 64 kProtocolTcp remote_ip local_ip tcp) in *.
    assert (H : does p (handleTcp local_ip local_mac packet frame now g) (learned arp_now s frame packet) sd Q).
    { apply (does_handleTcp p packet frame now g seg); auto.
      - apply (wired_aside s); done.
      - intros res t' s1 Har. apply Hnext; [done|]. destruct Har. by constructor. }
    destruct H as (a & s' & out & sd' & N1 & N2). exists a, s', out, sd'. split; [|done]. by rewrite (receive_packet local_ip local_mac port arp_now now g bytes frame packet s).
Qed.

(** *** An application, and the timers *)

Definition erased (s : Stack) : Stack :=
  s <| http_sessions := map_erase (http_sessions s) key |> <| http_client_sessions := map_erase (http_client_sessions s) key |>.

(** The stack agrees with the side, and [J] holds of the sessions and the
    conversation. *)
Definition holding (J : Stack -> side -> Prop) (s : Stack) (sd : side) : Prop := wired s sd /\ J s sd.

(** What the event loop relies on of the application: timers and ended
    connections do not disturb it, and it keeps [J] when a segment was handled
    and when the loop dials. *)
Class Application (options : RuntimeOptions) (J : Stack -> side -> Prop) : Prop := {
  app_aside s s' sd sd' : J s sd -> apps s' = apps s -> talk sd' = talk sd ->
    settles (connection_of key (s_table sd)) (connection_of key (s_table sd')) -> (opened sd -> opened sd') -> J s' sd';
  app_erase s sd : wired s sd -> J s sd -> gone sd -> J (erased s) sd;
  app_dispatch p s sd now g res t' s1 ip_packet frame : ip_source ip_packet = remote_ip -> holding J s sd -> arrival s sd g res t' s1 ->
    does p (dispatchResult local_ip local_mac key res ip_packet frame now) s1 (received sd res t') (fun _ s' sd' => holding J s' sd');
  app_dial p s sd now g : good sd -> holding J s sd -> may_draw isn sd g -> (p -> g = None) ->
    does p (dial local_ip local_mac options now g) s sd (fun _ s' sd' => holding J s' sd')
}.

Section Application.
Context (options : RuntimeOptions) (J : Stack -> side -> Prop) {app : Application options J}.
#[local] Abbreviation holding := (holding J).

Lemma holding_aside s s' sd : holding s sd -> apps s' = apps s -> tcp_connections s' = tcp_connections s -> holding s' sd.
Proof. intros [Hw HJ] E1 E2. split; [by eapply wired_aside|]. by apply (app_aside s s' sd sd); [..|apply settles_refl|]. Qed.

Lemma does_aside {A} p (m : action A) s sd : aside m -> good sd -> holding s sd -> does p m s sd (fun _ s' sd' => sd' = sd /\ apps s' = apps s /\ holding s' sd).
Proof.
  intros Hm Hg Hh. eapply does_mono; [done| |apply Hm; [done | apply Hh]]. intros a s' sd' _ _ _ (-> & E1 & E2). split_and!; auto. by eapply holding_aside.
Qed.

Lemma does_timed p now l s sd : good sd -> holding s sd -> Forall (fun q => fst q = key /\ snd q ∈ s_sent sd) l ->
  does p (for_each l (sendTimed local_ip local_mac now)) s sd (fun _ s' sd' => sd' = sd /\ holding s' sd).
Proof.
  intros Hg Hh Hl. revert s Hh. induction Hl as [|[k seg] l [Hk Hin] _ IH]; intros s Hh; simpl; [by apply does_ret|]. simpl in Hk, Hin. subst k.
  eapply (does_then _ _ _ _ _ (fun _ s' sd' => sd' = sd /\ holding s' sd)); [|intros _ s' sd' _ _ [-> Hh']; by apply IH].
  unfold sendTimed. eapply does_then; [by apply does_aside; [apply aside_resolve|..]|]. intros mac s' sd' _ _ (-> & _ & Hh'). simpl.
  destruct mac as [mac|]; [by apply does_segment | by apply does_ret].
Qed.

Lemma does_erases p ks s sd : good sd -> holding s sd -> Forall (fun k => k = key /\ gone sd) ks ->
  does p (for_each ks eraseSessions) s sd (fun _ s' sd' => sd' = sd /\ holding s' sd).
Proof.
  intros Hg Hh Hl. revert s Hh. induction Hl as [|k ks [-> Hgone] _ IH]; intros s [Hw HJ]; simpl; [by apply does_ret|].
  unfold eraseSessions at 1. apply does_modify, IH. split; [|by apply app_erase]. destruct Hw. constructor; simpl; auto using map_erase_ok.
Qed.

Lemma for_key_all l : Forall (fun q : TcpConnectionKey * TcpSegment => key = fst q) l -> Forall (fun q => fst q = key /\ snd q ∈ for_key key l) l.
Proof.
  intros H. rewrite Forall_forall in *. intros q Hq. split; [symmetry; by apply H|]. unfold for_key. apply list_elem_of_In, in_map, filter_In.
  split; [by apply list_elem_of_In|]. rewrite <- (H q Hq). apply key_eqb_refl.
Qed.

(** A step of a timer, which sends [segs]. *)
Lemma holding_timer s s' sd sd' segs : holding s sd -> wired s' sd' -> apps s' = apps s -> talk sd' = talk sd -> s_sent sd' = s_sent sd ++ segs ->
  settles (connection_of key (s_table sd)) (connection_of key (s_table sd')) -> holding s' sd'.
Proof.
  intros [_ HJ] Hw Ea Et Es Hset. split; [done|]. apply (app_aside s s' sd sd'); auto. apply opened_mono. rewrite Es. by apply prefix_app_r.
Qed.

Lemma timed_sent sd sd' (l : list (TcpConnectionKey * TcpSegment)) : s_sent sd' = s_sent sd ++ for_key key l -> Forall (fun q => key = fst q) l ->
  Forall (fun q => fst q = key /\ snd q ∈ s_sent sd') l.
Proof.
  intros E Hl. eapply Forall_impl; [by apply for_key_all|]. intros q [H1 H2]. split; [done|]. rewrite E. apply elem_of_app. by right.
Qed.

Lemma ended_key t now res t' : keyed (eq key) t -> pollRetransmissions t now = (res, t') -> Forall (eq key) (ended_keys res).
Proof.
  intros Hk. unfold pollRetransmissions. destruct (pollRetransmissions_loop now (connections t)) as [r l] eqn:E. intros [= <- <-].
  eapply Forall_impl; [by apply (poll_reports now _ _ _ E)|]. intros k (c & Hin & _). unfold keyed in Hk. rewrite Forall_forall in Hk.
  by apply (Hk (k, c)), list_elem_of_In.
Qed.

Lemma does_tcpTimers p now s sd : good sd -> holding s sd -> does p (tcpTimers local_ip local_mac now) s sd (fun _ s' sd' => holding s' sd').
Proof.
  intros Hg [Hw HJ]. unfold tcpTimers. destruct (pollRetransmissions (s_table sd) now) as [res t'] eqn:E.
  pose proof (en_table _ _ _ (cv_engaged sd Hg)) as Ht. destruct (keyed_retransmissions _ _ _ _ _ (wi_keyed _ _ Hw) E) as [Hk Hks].
  destruct (timeout_settles key _ _ _ _ Ht E) as [Hset Hend].
  eapply does_then; [eapply (does_tcp _ _ s sd res); [done | done | exact E | by eapply side_timeout | done | exact (cv_small sd Hg) | done | intros _]|].
  { eapply unopened; [done | reflexivity|]. intros H. by apply (gone_timeout key _ Ht H _ _ _ E). }
  intros _ s1 sd1 _ Hg1 (-> & Esd & Ea & Hw1). assert (Hh1 : holding s1 sd1) by (subst sd1; by eapply (holding_timer s s1 sd _ (for_key key (retransmissions res))); [split|..]).
  eapply does_then; [apply does_timed; [done | done | subst sd1; by eapply timed_sent]|]. intros _ s2 sd' _ _ [-> Hh2].
  destruct (pollPersistProbes (s_table sd1) now) as [probes t2] eqn:E2. pose proof (en_table _ _ _ (cv_engaged sd1 Hg1)) as Ht1.
  destruct (keyed_persist _ _ _ _ _ (wi_keyed _ _ (proj1 Hh2)) E2) as [Hk2 Hks2]. pose proof (probe_settles key _ _ _ _ Ht1 E2) as Hset2.
  eapply does_then; [eapply (does_tcp _ _ s2 sd1 probes); [done | apply Hh2 | exact E2 | by eapply side_probe | done | exact (cv_small sd1 Hg1) | done | intros _]|].
  { eapply unopened; [done | reflexivity|]. intros H. by apply (gone_probe key _ Ht1 H _ _ _ E2). }
  intros _ s3 sd2 _ Hg2 (-> & Esd2 & Ea2 & Hw2). assert (Hh3 : holding s3 sd2) by (subst sd2; by eapply (holding_timer s2 s3 sd1 _ (for_key key probes))).
  assert (Hends : Forall (fun k => k = key /\ gone sd2) (ended_keys res)).
  { pose proof (ended_key _ _ _ _ (wi_keyed _ _ Hw) E) as Hek. rewrite Forall_forall in Hek |- *. intros k Hin. pose proof (Hek k Hin) as Ek. rewrite <- Ek in Hin. split; [done|].
    specialize (Hend Hin). unfold gone. subst sd2. apply (settles_gone _ _ Hset2). by subst sd1. }
  eapply does_then; [apply does_timed; [done | done | subst sd2; by eapply timed_sent]|]. intros _ s4 sd' _ _ [-> Hh4].
  unfold ended_keys in Hends. apply Forall_app in Hends as [He1 He2]. eapply does_then; [by apply does_erases|]. intros _ s5 sd' _ _ [-> Hh5].
  eapply does_mono; [done| |by apply does_erases]. by intros _ s6 sd' _ _ _ [-> Hh6].
Qed.

(** *** One iteration *)

(** The generator has its number until the connection is opened. *)
Definition supplied (supply : option Z) (sd : side) : Prop := supply = None \/ (supply = Some isn /\ ~ opened sd).

Lemma draws_allowed supply g1 g2 supply' sd : draws supply g1 g2 supply' -> supplied supply sd ->
  may_draw isn sd g1 /\ (forall sd', (g1 = None -> opened sd' -> opened sd) -> may_draw isn sd' g2) /\
  (forall sd', (g1 = None /\ g2 = None -> opened sd' -> opened sd) -> supplied supply' sd').
Proof.
  intros Hd Hs. destruct Hd as [|i Ei|i Ei]; (destruct Hs as [Hs|[Hs Hno]]; [try congruence|]);
    try (injection (eq_trans (eq_sym Ei) Hs) as ->); unfold may_draw, supplied; split_and!; auto;
    intros sd' Ho; right; (split; [done|]); intros H; apply Hno, Ho; auto.
Qed.

Lemma does_frame p frame clock g s sd : good sd -> holding s sd -> may_draw isn sd g -> (p -> g = None) ->
  (forall bytes, frame = Some bytes -> framed remote_ip peer_mac (mirror key) (s_sent peer) bytes) ->
  does p (for_option frame (fun bytes =>
    receiveFrame local_ip local_mac (RuntimeOptions.source_port options) bytes (c_receive_arp clock) (c_receive_tcp clock) g)) s sd (fun _ s' sd' => holding s' sd').
Proof.
  intros Hg Hh Hd Hp Hf. destruct frame as [bytes|]; [|by apply does_ret]. simpl. apply does_receiveFrame; auto.
  - apply Hh.
  - eapply may_draw_ok; [exact cv_isn | done].
  - intros s1 Ea Hw. split; [done|]. by apply (app_aside s s1 sd sd (proj2 Hh)); [..|apply settles_refl|].
  - intros. by eapply app_dispatch.
Qed.

Lemma does_iteration frame clock supply g1 g2 supply' s sd : good sd -> holding s sd -> supplied supply sd -> draws supply g1 g2 supply' ->
  (forall bytes, frame = Some bytes -> framed remote_ip peer_mac (mirror key) (s_sent peer) bytes) ->
  does (g1 = None /\ g2 = None) (iteration local_ip local_mac options frame clock g1 g2) s sd (fun _ s' sd' => holding s' sd' /\ supplied supply' sd').
Proof.
  intros Hg Hh Hs Hd Hf. destruct (draws_allowed _ _ _ _ _ Hd Hs) as (D1 & D2 & D3).
  eapply does_mono; [by intros H; exact H | intros a s' sd' _ Ho _ HQ; split; [exact HQ | apply D3, Ho]|]. unfold iteration.
  eapply (does_bind _ (g1 = None) (g2 = None)); [tauto | tauto | by apply does_frame|]. intros [] s1 sd1 _ Ho1 Hg1 Hh1. simpl in Hh1.
  eapply does_then; [by apply does_aside; [apply aside_arpTimers|..]|]. intros _ s2 sd' _ _ (-> & _ & Hh2).
  eapply does_then; [by apply does_aside; [apply aside_dnsTimers|..]|]. intros _ s3 sd' _ _ (-> & _ & Hh3).
  eapply does_then; [by apply app_dial; [..|apply D2|]|]. intros [] s4 sd4 _ Hg4 Hh4. by apply does_tcpTimers.
Qed.

(** A node of the link and its side of the conversation. *)
Record node_ok (n : Node) (sd : side) : Prop := {
  nd_holding : holding (n_stack n) sd;
  nd_supply : supplied (n_supply n) sd;
  nd_frames : Forall (framed local_ip local_mac key (s_sent sd)) (n_frames n)
}.

Lemma node_iterates_ok n sd frame clock g1 g2 supply : good sd -> node_ok n sd -> draws (n_supply n) g1 g2 supply ->
  (forall bytes, frame = Some bytes -> framed remote_ip peer_mac (mirror key) (s_sent peer) bytes) ->
  exists s' out sd', iteration local_ip local_mac options frame clock g1 g2 (n_stack n) = Some (tt, s', out) /\ good sd' /\
    node_ok (mkNode s' (n_frames n ++ out) supply) sd'.
Proof.
  intros Hg [N1 N2 N3] Hd Hf. destruct (does_iteration frame clock _ _ _ _ _ _ Hg N1 N2 Hd Hf) as ([] & s' & out & sd' & E & Hg' & Hx & Hout & _ & Hh & Hs).
  exists s', out, sd'. split_and!; [done | done|]. constructor; simpl; [done | done|]. apply Forall_app. split; [|done].
  eapply Forall_impl; [exact N3|]. intros bytes. by apply framed_mono.
Qed.

(** A program that has just started. *)
Lemma boots_ok n t : boots local_ip local_mac options isn n -> good (start t) ->
  (forall random, holding (initialStack local_ip options random) (start t)) -> node_ok n (start t).
Proof.
  intros [random now s out E] Hg Hh. specialize (Hh random).
  assert (H : does True (initialResolution local_ip local_mac options now) (initialStack local_ip options random) (start t) (fun _ s' sd' => sd' = start t /\ holding s' sd')).
  { unfold initialResolution. do 2 apply does_read.
    match goal with |- does _ (for_option ?x _) _ _ _ => destruct x as [ip|]; [|by apply does_ret] end. simpl.
    eapply does_mono; [done| |apply does_aside; [apply aside_bind; [apply aside_resolve | intros; apply aside_ret] | done | done]].
    by intros _ s' sd' _ _ _ (-> & _ & H). }
  destruct H as ([] & s' & out' & sd' & E' & _ & _ & Hout & _ & -> & Hh'). rewrite E in E'. injection E' as <- <-.
  constructor; [done | right; split; [done|] | done]. intros H. inversion H.
Qed.

End Application.
End Side.
