(* ===== verification/Fetch.v ===== *)
(** * Fetching a page over an unreliable link

    One program fetches a page from another. The link between them loses,
    repeats, delays and reorders frames; whenever the client's session is
    complete, it holds the response the server selects for the target. *)

From Stdlib Require Import String Ascii.
From stdpp Require Import relations.
From S2P Require Import Prelude StdMap Checksum Addresses Text ArpCache.
From S2P Require Import Ethernet Arp Ipv4 Icmp Udp Tcp.
From S2P Require Import Dns Http HttpClient RuntimeOptions.
From S2P Require Import TcpState TcpHandler TcpTable TcpInvariant TcpOutput TcpEndToEnd TcpReports.
From S2P Require Import Stack EventLoop StackSafety StackServices StackOutput Link.

#[local] Opaque internetChecksum tcpChecksum.

(** ** The server's answer *)

(** What the server answers when it has received [b], and the end if [fin]. *)
Definition answer (b : list Z) (fin : bool) : option HttpResponse :=
  match serveHttp (mkHttpConnection b false) [] fin with Some (_, response) => response | None => None end.

Lemma serve_answer s p fin : Http.pending s -> Zlen (http_buffer s ++ p) <= kMaxHttpHeaderBlockLength ->
  exists s', serveHttp s p fin = Some (s', answer (http_buffer s ++ p) fin) /\
    match answer (http_buffer s ++ p) fin with
    | Some _ => responded s' = true
    | None => Http.pending s' /\ http_buffer s' = http_buffer s ++ p /\ fin = false
    end.
Proof.
  intros Hs Hl. destruct (serve_pending s p fin Hs) as (s' & r & E & Hr). exists s'.
  assert (Hb : http_buffer (if empty p then s else appendHttpBytes s p) = http_buffer s ++ p).
  { destruct p as [|x p]; [by rewrite app_nil_r|]. rewrite Zlen_app in Hl. cbn [empty]. unfold appendHttpBytes. destruct Hs as [_ Hs].
    rewrite (proj2 (Z.leb_gt _ _)) by done. simpl. f_equal. apply take_ge. unfold Zlen in *. simpl in *. lia. }
  assert (answer (http_buffer s ++ p) fin = r) as ->; [|done].
  unfold answer. revert E. unfold serveHttp. rewrite (proj1 Hs). cbn [responded empty http_buffer]. rewrite Hb.
  destruct (parseHttpRequest (http_buffer s ++ p)) as [parsed|]; [|done]. cbn [mbind option_bind]. by intros [= _ <-].
Qed.

Lemma answer_cases b fin r : answer b fin = Some r -> response_ok r /\
  exists parsed, parseHttpRequest b = Some parsed /\
    match req_status parsed with
    | ReqIncomplete => fin = true
    | ReqComplete => exists request, req_request parsed = Some request /\ r = selectResponse request
    | _ => True
    end.
Proof.
  unfold answer, serveHttp. cbn [responded empty http_buffer]. destruct (parseHttpRequest b) as [parsed|]; [|done]. cbn [mbind option_bind].
  destruct (req_status parsed) eqn:Es.
  - destruct fin; [|done]. intros [= <-]. split; [by vm_compute|]. exists parsed. by rewrite Es.
  - destruct (req_request parsed) as [request|] eqn:Er; [|done]. simpl. intros [= <-]. split; [apply select_ok|]. exists parsed. rewrite Es. eauto.
  - intros [= <-]. split; [by vm_compute|]. exists parsed. by rewrite Es.
  - intros [= <-]. split; [by vm_compute|]. exists parsed. by rewrite Es.
  - intros [= <-]. split; [by vm_compute|]. exists parsed. by rewrite Es.
  - intros [= <-]. split; [by vm_compute|]. exists parsed. by rewrite Es.
Qed.

Lemma answer_bytes b fin r : Zlen b <= kMaxHttpHeaderBlockLength -> answer b fin = Some r -> bytes_ok (serializeHttpResponse r).
Proof.
  unfold answer. intros Hb. destruct (serveHttp_ok (mkHttpConnection b false) [] fin Hb) as (s' & r' & -> & _ & Hr). apply Hr.
Qed.

(** The requests within the server's limits. *)
Definition fits_limits (host target : list Z) : Prop := Zlen target <= 2033 /\ Zlen target + Zlen host <= 8148.

Lemma request_parsed host target request : buildHttpGetRequest host target = Some request -> fits_limits host target ->
  Zlen request <= kMaxHttpHeaderBlockLength /\ request <> [] /\
  parseHttpRequest request = Some (mkHttpParseResult ReqComplete (Some (mkHttpRequest (str "GET") target (str "HTTP/1.0")))).
Proof.
  intros Eb [Ht Hh]. assert (Hlen : Zlen request = Zlen target + Zlen host + 44).
  { revert Eb. rewrite build_spec. destruct (decide _); [|done]. intros Eb. apply (inj Some) in Eb as <-. apply request_length. }
  assert (Hs : small request) by (unfold small; lia). destruct (request_accepted _ _ _ Eb Hs) as [_ Hp].
  rewrite (proj2 (Z.ltb_ge 2048 _)), (proj2 (Z.ltb_ge 8192 _)) in Hp by lia. cbn [orb] in Hp. split_and!; [unfold kMaxHttpHeaderBlockLength; lia | | done].
  intros ->. pose proof (Zlen_nonneg target). pose proof (Zlen_nonneg host). change (Zlen []) with 0 in Hlen. lia.
Qed.

(** A part of a request calls for an answer only at the end of the stream. *)
Lemma answer_request host target request b fin r : buildHttpGetRequest host target = Some request -> fits_limits host target ->
  b `prefix_of` request -> (fin = true -> b = request) -> answer b fin = Some r -> r = selectResponse (mkHttpRequest (str "GET") target (str "HTTP/1.0")).
Proof.
  intros Eb Hfit [e Ee] Hfin Ha. destruct (request_parsed _ _ _ Eb Hfit) as (Hlen & _ & Hp). destruct (answer_cases _ _ _ Ha) as (_ & parsed & Eparsed & Hc).
  assert (Hwhole : b = request -> r = selectResponse (mkHttpRequest (str "GET") target (str "HTTP/1.0"))).
  { intros E. rewrite E, Hp in Eparsed. injection Eparsed as <-. simpl in Hc. by destruct Hc as (q & [= <-] & ->). }
  destruct (decide (req_status parsed = ReqIncomplete)) as [Hi|Hi]; [apply Hwhole, Hfin; by rewrite Hi in Hc|].
  destruct e as [|x e]; [apply Hwhole; by rewrite app_nil_r in Ee|]. exfalso.
  assert (Hs : small (b ++ x :: e)) by (rewrite <- Ee; unfold small, kMaxHttpHeaderBlockLength in *; lia).
  pose proof (verdict_final b (x :: e) parsed Hs Eparsed Hi) as Hv. rewrite <- Ee, Hp in Hv. unfold after_more in Hv. destruct parsed as [[] q]; done.
Qed.

(** ** The client's verdict *)

Lemma response_verdict r b fin code body cl : response_ok r -> b `prefix_of` serializeHttpResponse r -> (fin = true -> b = serializeHttpResponse r) ->
  parseHttpResponse b fin = Some (mkHttpResponseResult RespComplete (Some code) body cl) -> code = statusCode (response_status r) /\ body = response_body r.
Proof.
  intros Hr [e Ee] Hfin E. pose proof (serialize_length _ Hr) as Hl.
  assert (Hsm : small (b ++ e)) by (rewrite <- Ee; unfold small, kCap, kMaxHttpResponseHeaderBlockLength, kMaxHttpResponseBodyLength in *; lia).
  assert (Hb : b = serializeHttpResponse r).
  { destruct fin; [by apply Hfin|]. destruct e as [|x e]; [by rewrite app_nil_r in Ee|]. exfalso.
    destruct (response_prefix r b (x :: e) Hr) as (v & Ev & Hv); [done | done | done|]. rewrite E in Ev. by injection Ev as <-. }
  rewrite Hb, response_accepted in E by done. by injection E as -> -> _.
Qed.

Lemma receive_nothing s : waiting s -> response_buffer s = [] -> receiveResponse s [] false = Some s.
Proof. intros (H1 & H2 & H3 & H4 & _) Hb. unfold receiveResponse. rewrite H1, H2. cbn [empty]. rewrite H3, Hb, H4. done. Qed.

Lemma receive_enqueued s p fin s' : receiveResponse s p fin = Some s' -> request_enqueued s' = request_enqueued s.
Proof.
  unfold receiveResponse. destruct (response_complete s); [destruct (empty p); by intros [= <-]|]. destruct (HttpClient.failed s); [by intros [= <-]|].
  set (s1 := if empty p then s else appendHttpClientBytes s p).
  assert (H1 : request_enqueued s1 = request_enqueued s).
  { unfold s1. destruct (empty p); [done|]. unfold appendHttpClientBytes. destruct (response_overflowed s); [done|]. by destruct (_ <? _). }
  clearbody s1. rewrite <- H1. set (s2 := if fin then _ else _). assert (H2 : request_enqueued s2 = request_enqueued s1) by (unfold s2; by destruct fin).
  clearbody s2. rewrite <- H2. destruct (response_overflowed s2); [by intros [= <-]|]. destruct (parseHttpResponse _ _) as [r|]; [|done]. cbn [mbind option_bind].
  destruct (resp_status r); try by intros [= <-]. destruct (resp_code r); [|done]. by intros [= <-].
Qed.

(** ** The client *)

Section Client.
Context (local_mac : MacAddress) (key : TcpConnectionKey) (isn : Z) (peer : side) (good : side -> Prop) {conv : Conversation key isn peer good}.
Context (host page request : list Z) (Hreq : buildHttpGetRequest host page = Some request) (Hfits : fits_limits host page) (Hbytes : bytes_ok request).
#[local] Abbreviation does := (does local_mac key good).

(** A complete session has parsed a prefix of what was read. *)
Definition fetched (ss : HttpClientSession) (sd : side) : Prop := exists b fin cl, b `prefix_of` s_read sd /\
  parseHttpResponse b fin = Some (mkHttpResponseResult RespComplete (Some (status_code ss)) (session_body ss) cl) /\
  (fin = true -> s_eof sd = true /\ b = s_read sd).

(** The request was written, and the session has seen all that was read. *)
Definition asked (ss : HttpClientSession) (sd : side) : Prop := request_enqueued ss = true /\ s_written sd = request /\
  (waiting ss /\ response_buffer ss = s_read sd /\ s_eof sd = false \/
   HttpClient.failed ss = true /\ response_complete ss = false \/
   response_complete ss = true /\ fetched ss sd).

(** The connection is still being dialled. *)
Definition calling (ss : HttpClientSession) (sd : side) : Prop := request_enqueued ss = false /\ host_header ss = host /\ session_target ss = page /\
  waiting ss /\ response_buffer ss = [] /\ talk sd = ([], [], false) /\ dialling (connection_of key (s_table sd)).

Record client_inv (s : Stack) (sd : side) : Prop := {
  cl_key : active_open_key s = Some key;
  cl_dial : dial_target_ip s = Some (TcpState.remote_ip key);
  cl_written : s_written sd = [] \/ s_written sd = request;
  cl_session : forall ss, map_find (http_client_sessions s) key = Some ss -> opened sd /\ (calling ss sd \/ asked ss sd)
}.

Lemma fetched_talk ss sd sd' : fetched ss sd -> talk sd' = talk sd -> fetched ss sd'.
Proof. unfold talk. intros H [= H1 H2 H3]. unfold fetched. by rewrite H2, H3. Qed.

Lemma asked_talk ss sd sd' : asked ss sd -> talk sd' = talk sd -> asked ss sd'.
Proof.
  intros (H1 & H2 & H3) E. pose proof E as E'. unfold talk in E'. injection E' as E1 E2 E3. unfold asked. rewrite E1, E2, E3.
  split_and!; auto. destruct H3 as [H3|[H3|[H3 H4]]]; [by left | by right; left | right; right]. split; [done|]. by eapply fetched_talk.
Qed.

Lemma client_aside s s' sd sd' : client_inv s sd -> apps s' = apps s -> talk sd' = talk sd ->
  settles (connection_of key (s_table sd)) (connection_of key (s_table sd')) -> (opened sd -> opened sd') -> client_inv s' sd'.
Proof.
  intros [C1 C2 C3 C4] Ea Et Hset Ho. unfold apps in Ea. injection Ea as E1 E2 E3 E4 E5. pose proof Et as Et'. unfold talk in Et'. injection Et' as T1 T2 T3.
  constructor; [congruence | congruence | by rewrite T1|]. rewrite E2. intros ss Hss. destruct (C4 ss Hss) as [H1 H2]. split; [auto|].
  destruct H2 as [(D1 & D2 & D3 & D4 & D5 & D6 & D7)|H2]; [left | right; by eapply asked_talk]. unfold calling. rewrite Et. split_and!; auto.
  by eapply settles_dialling.
Qed.

Lemma client_erase s sd : wired key s sd -> client_inv s sd -> client_inv (erased key s) sd.
Proof.
  intros Hw [C1 C2 C3 C4]. constructor; auto. simpl. intros ss. by rewrite map_find_erase, key_eqb_refl by apply Hw.
Qed.

Lemma client_set s sd ss : wired key s sd -> active_open_key s = Some key -> dial_target_ip s = Some (TcpState.remote_ip key) ->
  s_written sd = [] \/ s_written sd = request -> opened sd -> calling ss sd \/ asked ss sd ->
  holding key client_inv (s <| http_client_sessions := map_set (http_client_sessions s) key ss |>) sd.
Proof.
  intros Hw H1 H2 H3 H4 H5. split; [destruct Hw; constructor; simpl; auto using map_set_ok|]. constructor; simpl; auto.
  intros ss'. rewrite map_find_set, key_eqb_refl by apply Hw. by intros [= <-].
Qed.

(** After the end nothing more is read. *)
Lemma read_final sd sd' more : good sd -> good sd' -> s_eof sd = true -> s_read sd' = s_read sd ++ more -> more = [].
Proof.
  intros Hg Hg' He Er. destruct (en_delivers _ _ _ (cv_engaged sd Hg)) as [_ D]. specialize (D He). destruct (en_delivers _ _ _ (cv_engaged sd' Hg')) as [D' _].
  rewrite Er in D'. apply (f_equal length) in D'. rewrite length_take, <- D, length_app in D'. destruct more; [done|]. simpl in D'. lia.
Qed.

(** A delivery keeps the session in step with the conversation. *)
Lemma asked_receive ss sd res t' : asked ss sd -> good sd -> good (received sd res t') ->
  exists ss', receiveResponse ss (accepted_payload res) (peer_closed res) = Some ss' /\ asked ss' (received sd res t').
Proof.
  intros (H1 & H2 & H3) Hg Hg'. set (sd' := received sd res t') in *.
  assert (Hall : exists ss', receiveResponse ss (accepted_payload res) (peer_closed res) = Some ss' /\
    (waiting ss' /\ response_buffer ss' = s_read sd' /\ s_eof sd' = false \/ HttpClient.failed ss' = true /\ response_complete ss' = false \/
     response_complete ss' = true /\ fetched ss' sd')).
  { destruct H3 as [(Hw & Eb & Ee)|[[Hf Hc]|[Hc (b & fin & cl & F1 & F2 & F3)]]].
    - destruct (receive_waiting ss (accepted_payload res) (peer_closed res) Hw) as (ss' & E & H). exists ss'. split; [done|].
      unfold sd'. simpl. rewrite Ee, <- Eb. simpl. destruct H as [(W1 & W2 & W3 & _)|[(S1 & S2 & _)|(S1 & S2 & _ & cl & S3)]]; [by left | by right; left|].
      right; right. split; [done|]. eexists _, _, cl. split; [reflexivity|]. simpl. rewrite <- Eb. split; [exact S3|]. intros Hcl. by rewrite Ee, Hcl.
    - exists ss. unfold receiveResponse. rewrite Hc, Hf. split; [done|]. by right; left.
    - unfold receiveResponse. rewrite Hc. eexists. split; [reflexivity|]. right; right. split; [by destruct (empty _)|].
      exists b, fin, cl. split_and!.
      + simpl. by apply prefix_app_r.
      + by destruct (empty _).
      + intros Hfin. destruct (F3 Hfin) as [Ee Eb]. simpl. rewrite Ee. split; [done|].
        by rewrite (read_final sd sd' (accepted_payload res) Hg Hg' Ee eq_refl), app_nil_r. }
  destruct Hall as (ss' & E & H). exists ss'. split; [done|]. split_and!; [by rewrite (receive_enqueued _ _ _ _ E) | done | done].
Qed.

(** Dialling ends when the connection is established. *)
Lemma calling_arrival s sd g res t' s1 : arrival key isn good s sd g res t' s1 -> opened sd -> talk sd = ([], [], false) ->
  dialling (connection_of key (s_table sd)) ->
  talk (received sd res t') = ([], [], false) /\ accepted_payload res = [] /\ peer_closed res = false /\
  (connection_established res = false /\ dialling (connection_of key t') \/
   connection_established res = true /\ exists c, connection_of key t' = Some c /\ ready c).
Proof.
  intros [(seg & now & Hseg & E) Hd Hg Hg' _ _] Ho Ht Hc. destruct Hd as [-> |[_ Hno]]; [|done]. unfold talk in *. injection Ht as T1 T2 T3.
  destruct (connection_of key (s_table sd)) as [c|] eqn:Ef.
  - destruct (dialled_handle key _ c seg now None res t' (en_table _ _ _ (cv_engaged sd Hg)) Ef Hc Hseg E) as (H1 & H2 & H3). simpl. by rewrite H1, H2, T1, T2, T3.
  - destruct (gone_handle key _ Ef _ _ _ _ _ E) as (H1 & H2 & H3 & _ & _ & H4). simpl. rewrite H1, H2, T1, T2, T3. split_and!; auto. left.
    destruct (H4 eq_refl) as [-> _]. done.
Qed.

Section Told.
Context (ip_packet : Ipv4Packet) (frame : EthernetFrame) (now : Z) (Hsource : ip_source ip_packet = TcpState.remote_ip key).

(** The session is stored, and the connection closed when it has ended. *)
Lemma does_finish p s sd ss : good sd -> wired key s sd -> active_open_key s = Some key -> dial_target_ip s = Some (TcpState.remote_ip key) ->
  s_written sd = [] \/ s_written sd = request -> opened sd -> calling ss sd \/ asked ss sd ->
  does p (if (response_complete ss || HttpClient.failed ss) && negb (close_initiated ss) then
      set_client key (ss <| close_initiated := true |>) ;;
      close_result ← on_tcp (fun t => beginClose t key now);
      for_option (close_fin close_result) (sendTcpReply (TcpState.local_ip key) local_mac ip_packet frame)
    else set_client key ss) s sd (fun _ s' sd' => holding key client_inv s' sd').
Proof.
  intros Hg Hw Hk Hd Hwr Ho Hss. destruct (_ && _) eqn:Eb.
  2:{ apply (does_here _ _ _ p tt _ s (s <| http_client_sessions := map_set (http_client_sessions s) key ss |>)); [done | done|]. by apply client_set. }
  assert (Ha : asked (ss <| close_initiated := true |>) sd).
  { destruct Hss as [(_ & _ & _ & (W1 & W2 & _) & _)|Ha]; [by rewrite W1, W2 in Eb | exact Ha]. }
  unfold set_client. apply does_modify.
  pose proof (client_set s sd _ Hw Hk Hd Hwr Ho (or_intror Ha)) as [Hw' [C1 C2 C3 C4]].
  eapply does_mono; [done| |by apply (does_close local_mac key isn peer good)]. intros [] s' sd' Hx _ _ (W & Eapps & Et & _). split; [done|].
  unfold apps in Eapps. injection Eapps as E1 E2 E3 E4 E5. pose proof Et as Et'. unfold talk in Et'. injection Et' as T1 T2 T3.
  constructor; [congruence | congruence | by rewrite T1|]. rewrite E2. simpl. rewrite map_find_set, key_eqb_refl by apply Hw. intros ss' [= <-].
  split; [by eapply opened_mono | right; by eapply asked_talk].
Qed.

(** The first request goes out when the handshake completes. *)
Lemma does_enqueue p res t' s sd ss : good (received sd res t') -> wired key s (received sd res t') -> opened (received sd res t') -> calling ss sd ->
  talk (received sd res t') = ([], [], false) -> connection_established res = true -> (exists c, connection_of key t' = Some c /\ ready c) ->
  does p (enqueueRequest (TcpState.local_ip key) local_mac key ss res ip_packet frame now) s (received sd res t') (fun ss' s' sd' =>
    ss' = ss <| request_enqueued := true |> /\ wired key s' sd' /\ apps s' = apps s /\ opened sd' /\ talk sd' = (request, [], false)).
Proof.
  intros Hg Hw Ho (D1 & D2 & D3 & D4 & D5 & _) Ht He (c & Hc & Hready). destruct (request_parsed _ _ _ Hreq Hfits) as (Hlen & Hne & _).
  unfold kMaxHttpHeaderBlockLength in Hlen. unfold talk in Ht. injection Ht as T1 T2 T3.
  destruct (ready_send key t' c request now Hc Hready Hne) as (segs & t2 & E); [unfold kMaxApplicationSendSize; lia|].
  unfold enqueueRequest. rewrite He, D1, D2, D3, Hreq. cbn [negb andb].
  eapply does_then; [apply (does_send local_mac key isn peer good _ request now s); [done | done | done|]|].
  { simpl. rewrite T1. change (Zlen []) with 0. lia. }
  intros sent s2 sd2 Hx Hg2 [(W1 & W2 & W3 & W4 & _) (t3 & E3)]. simpl in E3. rewrite E in E3. injection E3 as <- <-. cbn [send_error].
  cbn [send_error has_value send_segments] in W3, W4. simpl in W4. rewrite T1, T2, T3 in W4.
  eapply (does_then _ _ _ _ _ _ _ _ (fun _ s' sd' => s' = s2 /\ sd' = sd2)); [by apply (does_replies local_mac key isn peer good)|].
  intros _ ? ? _ _ [-> ->]. apply does_ret; [done|]. split_and!; auto. by eapply opened_mono.
Qed.

Lemma does_client p s sd g res t' s1 : holding key client_inv s sd -> arrival key isn good s sd g res t' s1 ->
  does p (handleHttpClient (TcpState.local_ip key) local_mac key res ip_packet frame now) s1 (received sd res t')
    (fun _ s' sd' => holding key client_inv s' sd').
Proof.
  intros [Hw [C1 C2 C3 C4]] Har. pose proof Har as [_ _ Hg Hg' Eapps Hw1]. unfold apps in Eapps. injection Eapps as E1 E2 E3 E4 E5.
  unfold handleHttpClient. apply does_read. rewrite E2. destruct (map_find (http_client_sessions s) key) as [ss|] eqn:Ess.
  2:{ apply does_ret; [done|]. split; [done|]. constructor; [congruence | congruence | done | by rewrite E2, Ess]. }
  destruct (C4 ss eq_refl) as [Ho Hss]. assert (Ho1 : opened (received sd res t')) by (eapply opened_mono; [|done]; simpl; by apply prefix_app_r).
  destruct Hss as [Hcall|Hask].
  - pose proof Hcall as (D1 & D2 & D3 & D4 & D5 & D6 & D7). destruct (calling_arrival _ _ _ _ _ _ Har Ho D6 D7) as (T & A1 & A2 & [[A3 A4]|[A3 A4]]).
    + unfold enqueueRequest. rewrite A3. cbn [andb]. eapply does_then; [by apply (does_ret _ _ _ _ ss _ _ (fun a s' sd' => a = ss /\ s' = s1 /\ sd' = received sd res t'))|].
      intros _ ? ? _ _ (-> & -> & ->). rewrite A1, A2. apply (does_guard _ _ _ _ _ ss); [by apply receive_nothing|].
      apply does_finish; auto; [congruence | congruence|]. left. by split_and!.
    + eapply does_then; [by apply does_enqueue|]. intros ss' s2 sd2 _ Hg2 (-> & W1 & W2 & W3 & W4). rewrite A1, A2.
      set (ss' := ss <| request_enqueued := true |>). assert (Hwait : waiting ss') by exact D4.
      apply (does_guard _ _ _ _ _ ss'); [by apply receive_nothing|]. unfold apps in W2. injection W2 as X1 X2 X3 X4 X5. unfold talk in W4. injection W4 as T1 T2 T3.
      apply does_finish; auto; [congruence | congruence|]. right. split_and!; [done | done|]. left. rewrite T2. done.
  - destruct (asked_receive ss sd res t' Hask Hg Hg') as (ss' & Er & Hask'). unfold enqueueRequest. rewrite (proj1 Hask), andb_false_r.
    eapply does_then; [by apply (does_ret _ _ _ _ ss _ _ (fun a s' sd' => a = ss /\ s' = s1 /\ sd' = received sd res t'))|].
    intros _ ? ? _ _ (-> & -> & ->). apply (does_guard _ _ _ _ _ ss'); [done|]. apply does_finish; auto; [congruence | congruence].
Qed.

Lemma client_dispatch p s sd g res t' s1 : holding key client_inv s sd -> arrival key isn good s sd g res t' s1 ->
  does p (dispatchResult (TcpState.local_ip key) local_mac key res ip_packet frame now) s1 (received sd res t') (fun _ s' sd' => holding key client_inv s' sd').
Proof.
  intros Hh Har. pose proof Har as [_ _ _ Hg' Eapps Hw1].
  apply (does_dispatch local_mac key isn peer good); [done | done | simpl; apply Forall_forall; intros seg Hin; apply elem_of_app; by right|].
  apply does_read. assert (active_open_key s1 = Some key) as -> by (unfold apps in Eapps; pose proof (cl_key _ _ (proj2 Hh)); congruence).
  rewrite bool_decide_true, andb_false_r by done. eapply does_then; [by apply (does_ret _ _ _ _ tt _ _ (fun _ s' sd' => s' = s1 /\ sd' = received sd res t'))|].
  intros _ ? ? _ _ [-> ->]. eapply does_then; [by eapply does_client|]. intros [] s2 sd2 _ Hg2 [Hw2 Hi2]. destruct (_ || _); [|by apply does_ret].
  apply (does_here _ _ _ p tt _ s2 (erased key s2)); [done | done|]. split; [destruct Hw2; constructor; simpl; auto using map_erase_ok | by apply client_erase].
Qed.
End Told.

(** *** Dialling *)

Context (options : RuntimeOptions) (port : Z) (Hmode : mode options = HttpGet).
Context (Hnew : forall dns, clientSession options (TcpState.remote_ip key) dns = new_client_session (TcpState.remote_ip key) port host page).

Lemma does_connect p mac s sd now g : good sd -> holding key client_inv s sd -> may_draw isn sd g -> (p -> g = None) ->
  does p (connect (TcpState.local_ip key) local_mac options key (TcpState.remote_ip key) mac now g) s sd (fun _ s' sd' => holding key client_inv s' sd').
Proof.
  intros Hg [Hw HJ] Hd Hp. unfold connect. destruct (beginConnect (s_table sd) key now g) as [res t'] eqn:E. pose proof HJ as [C1 C2 C3 C4].
  pose proof (en_table _ _ _ (cv_engaged sd Hg)) as Ht. pose proof (dial_report key _ _ _ _ _ Ht E) as Hrep.
  eapply does_then; [eapply (does_tcp local_mac key isn peer good _ _ s sd res); [done | done | exact E | by eapply side_dial | done | exact (cv_small sd Hg) | |]|].
  { by eapply keyed_connect; [|apply Hw|]. }
  { intros Hs. rewrite (Hp Hs) in E. destruct (gone_dial key _ _ _ _ E) as (_ & _ & Hsyn). unfold opened. simpl. by rewrite Hsyn, app_nil_r. }
  intros _ s1 sd1 _ Hg1 (-> & Esd & Ea & Hw1). apply does_modify. set (s2 := s1 <| active_open_started := true |>).
  assert (Hw2 : wired key s2 sd1) by (subst sd1; by apply (wired_aside key s1)). assert (Ea2 : apps s2 = apps s) by done.
  destruct (connect_accepted res).
  2:{ destruct Hrep as [Hsyn Hc]. apply does_ret; [done|]. split; [done|]. apply (client_aside s s2 sd sd1); auto; subst sd1; simpl; [done | |].
      - unfold connection_of. rewrite Hc. apply settles_refl.
      - by rewrite Hsyn, app_nil_r. }
  destruct Hrep as (Hgn & (seg & Hsyn & Hflag) & c & Hc & Hst). rewrite Hsyn. simpl.
  assert (Hno : ~ opened sd) by (destruct Hd as [?|[_ ?]]; done). destruct (en_fresh _ _ _ (cv_engaged sd Hg) Hno) as (_ & F1 & F2 & F3).
  assert (Hin : seg ∈ s_sent sd1) by (subst sd1; simpl; rewrite Hsyn; apply elem_of_app; right; by left).
  eapply (does_then _ _ _ _ _ _ _ _ (fun _ s' sd' => s' = s2 /\ sd' = sd1)); [by apply (does_segment local_mac key isn peer good)|]. intros _ ? ? _ _ [-> ->].
  apply does_read. rewrite Hmode, Hnew. unfold emplace_client. set (ss := new_client_session _ _ _ _).
  assert (E2 : http_client_sessions s2 = http_client_sessions s) by (unfold apps in Ea2; congruence).
  apply (does_here _ _ _ p tt _ s2 (s2 <| http_client_sessions := map_set (http_client_sessions s2) key ss |>)); [|done|].
  { unfold modify, map_contains. rewrite E2. destruct (map_find (http_client_sessions s) key) as [x|] eqn:Ex; [by destruct (C4 x eq_refl) | done]. }
  apply client_set; auto; [unfold apps in Ea2; congruence | unfold apps in Ea2; congruence | by subst sd1 | |].
  - subst sd1. unfold opened. simpl. rewrite Hsyn. apply Exists_app. right. by left.
  - left. subst sd1. unfold calling, talk. simpl. rewrite F1, F2, F3, Hc. by split_and!.
Qed.

Lemma client_dials p s sd now g : good sd -> holding key client_inv s sd -> may_draw isn sd g -> (p -> g = None) ->
  does p (dial (TcpState.local_ip key) local_mac options now g) s sd (fun _ s' sd' => holding key client_inv s' sd').
Proof.
  intros Hg Hh Hd Hp. unfold dial. do 2 apply does_read. rewrite Hmode, (cl_dial _ _ (proj2 Hh)). destruct (active_open_started s); [by apply does_ret|].
  eapply does_then; [apply aside_resolve; [done | apply Hh]|]. intros mac s1 sd' _ _ (-> & Ea & Et).
  assert (Hh1 : holding key client_inv s1 sd) by (split; [by eapply wired_aside; [apply Hh|..] | by eapply client_aside; [apply Hh|..|apply settles_refl|]]).
  destruct mac as [mac|]; [|by apply does_ret]. simpl. apply does_read. apply (does_guard _ _ _ _ _ key); [apply Hh1|]. by apply does_connect.
Qed.

#[export] Instance client_app : Application local_mac key isn good options client_inv.
Proof.
  constructor; [exact client_aside | intros s sd Hw Hi _; by apply client_erase | intros; by eapply client_dispatch | intros; by apply client_dials].
Qed.
End Client.

(** ** The server *)

Section Server.
Context (local_mac : MacAddress) (key : TcpConnectionKey) (isn : Z) (peer : side) (good : side -> Prop) {conv : Conversation key isn peer good}.
Context (Hshort : Zlen (s_written peer) <= kMaxHttpHeaderBlockLength).
#[local] Abbreviation does := (does local_mac key good).

(** The response is the answer to a part of what was read. *)
Definition answered (r : HttpResponse) (sd : side) : Prop := exists b fin, b `prefix_of` s_read sd /\ answer b fin = Some r /\
  (fin = true -> s_eof sd = true /\ b = s_read sd).

Definition response_written (sd : side) : Prop := s_written sd = [] \/ exists r, s_written sd = serializeHttpResponse r /\ answered r sd.

(** The session has seen all that was read, or has answered. *)
Definition serving (ss : HttpConnectionState) (sd : side) : Prop :=
  (Http.pending ss /\ http_buffer ss = s_read sd /\ s_eof sd = false /\ s_written sd = []) \/ responded ss = true.

Definition session_of (s : Stack) : HttpConnectionState := default new_http_session (map_find (http_sessions s) key).

Record server_inv (s : Stack) (sd : side) : Prop := {
  sv_key : active_open_key s = None;
  sv_clients : http_client_sessions s = [];
  sv_written : response_written sd;
  sv_fresh : ~ opened sd -> map_find (http_sessions s) key = None;
  sv_session : connection_of key (s_table sd) <> None -> serving (session_of s) sd
}.

Lemma response_talk sd sd' : response_written sd -> talk sd' = talk sd -> response_written sd'.
Proof. unfold talk. intros H [= H1 H2 H3]. unfold response_written, answered in *. by rewrite H1, H2, H3. Qed.

Lemma serving_talk ss sd sd' : serving ss sd -> talk sd' = talk sd -> serving ss sd'.
Proof. unfold talk. intros H [= H1 H2 H3]. unfold serving in *. by rewrite H1, H2, H3. Qed.

Lemma server_aside s s' sd sd' : server_inv s sd -> apps s' = apps s -> talk sd' = talk sd ->
  settles (connection_of key (s_table sd)) (connection_of key (s_table sd')) -> (opened sd -> opened sd') -> server_inv s' sd'.
Proof.
  intros [S1 S2 S3 S4 S5] Ea Et Hset Ho. unfold apps in Ea. injection Ea as E1 E2 E3 E4 E5.
  constructor; [congruence | congruence | by eapply response_talk | rewrite E1; auto|]. unfold session_of. rewrite E1. intros Hc.
  eapply serving_talk; [|done]. apply S5. intros Hn. apply Hc. by apply (settles_gone _ _ Hset).
Qed.

Lemma server_erase s sd : wired key s sd -> server_inv s sd -> gone key sd -> server_inv (erased key s) sd.
Proof.
  intros Hw [S1 S2 S3 S4 S5] Hgone. constructor; auto; simpl; [by rewrite S2 | by rewrite map_find_erase, key_eqb_refl by apply Hw|]. by intros [].
Qed.

Lemma read_short sd : good sd -> Zlen (s_read sd) <= kMaxHttpHeaderBlockLength.
Proof.
  intros Hg. destruct (en_delivers _ _ _ (cv_engaged sd Hg)) as [D _]. apply (f_equal length) in D. rewrite length_take in D. unfold Zlen in *. lia.
Qed.

(** What is written stays the answer to what was read. *)
Lemma response_receive sd res t' : good sd -> good (received sd res t') -> response_written sd -> response_written (received sd res t').
Proof.
  intros Hg Hg' [H|(r & H & b & fin & H1 & H2 & H3)]; [by left | right]. exists r. split; [done|]. exists b, fin. split_and!; [simpl; by apply prefix_app_r | done|].
  intros Hf. destruct (H3 Hf) as [He Hb]. simpl. rewrite He. split; [done|].
  by rewrite (read_final key isn peer good sd (received sd res t') (accepted_payload res) Hg Hg' He eq_refl), app_nil_r.
Qed.

(** A segment that brings nothing to the application. *)
Lemma server_quiet s sd g res t' s1 : holding key server_inv s sd -> arrival key isn good s sd g res t' s1 ->
  accepted_payload res = [] -> peer_closed res = false -> holding key server_inv s1 (received sd res t').
Proof.
  intros [Hw [S1 S2 S3 S4 S5]] [(seg & now & _ & E) Hd Hg Hg' Ea Hw1] Hacc Hcl. split; [done|]. unfold apps in Ea. injection Ea as E1 E2 E3 E4 E5.
  assert (Et : talk (received sd res t') = talk sd) by (unfold talk; simpl; by rewrite Hacc, Hcl, app_nil_r, orb_false_r).
  constructor; [congruence | congruence | by eapply response_talk | |].
  - rewrite E1. intros Hno. apply S4. intros Ho. apply Hno. eapply opened_mono; [|done]. simpl. by apply prefix_app_r.
  - unfold session_of. rewrite E1. intros Hc. destruct (connection_of key (s_table sd)) as [c|] eqn:Ef; [eapply serving_talk; [by apply S5 | done]|].
    assert (Hno : ~ opened sd).
    { destruct Hd as [-> |[_ Hd]]; [|done]. exfalso. apply Hc. by destruct (gone_handle key _ Ef _ _ _ _ _ E) as (_ & _ & _ & _ & _ & [? _]). }
    destruct (en_fresh _ _ _ (cv_engaged sd Hg) Hno) as (_ & F1 & F2 & F3). rewrite (S4 Hno). left. simpl. rewrite Hacc, Hcl, F1, F2, F3.
    by split_and!.
Qed.

Section Told.
Context (ip_packet : Ipv4Packet) (frame : EthernetFrame) (now : Z) (Hsource : ip_source ip_packet = TcpState.remote_ip key).

(** The answer is written, and the connection closed behind it. *)
Lemma does_respond p s sd r : good sd -> wired key s sd -> server_inv s sd -> s_written sd = [] -> answered r sd -> responded (session_of s) = true ->
  opened sd -> does p (sent ← on_tcp (fun t => makeOutgoingData t key (serializeHttpResponse r) now);
    match send_error sent with
    | None =>
        for_each (send_segments sent) (sendTcpReply (TcpState.local_ip key) local_mac ip_packet frame) ;;
        close_result ← on_tcp (fun t => beginClose t key now);
        for_option (close_fin close_result) (sendTcpReply (TcpState.local_ip key) local_mac ip_packet frame)
    | Some _ => done_
    end) s sd (fun _ s' sd' => holding key server_inv s' sd' /\ (gone key sd -> gone key sd')).
Proof.
  intros Hg Hw [S1 S2 S3 S4 S5] Hn Ha Hr Ho. destruct Ha as (b & fin & B1 & B2 & B3).
  assert (Hb : Zlen b <= kMaxHttpHeaderBlockLength) by (pose proof (read_short sd Hg); apply prefix_length in B1; unfold Zlen in *; lia).
  pose proof (answer_bytes _ _ _ Hb B2) as Hbytes. pose proof (serialize_length _ (proj1 (answer_cases _ _ _ B2))) as Hl.
  unfold kCap, kMaxHttpResponseHeaderBlockLength, HttpClient.kMaxHttpResponseBodyLength in Hl.
  assert (Hdone : forall s' sd', wired key s' sd' -> apps s' = apps s -> s_sent sd `prefix_of` s_sent sd' -> response_written sd' -> holding key server_inv s' sd').
  { intros s' sd' W Ea Hx Hwr. split; [done|]. unfold apps in Ea. injection Ea as E1 E2 E3 E4 E5.
    constructor; [congruence | congruence | done | intros H; exfalso; apply H; by eapply opened_mono|]. intros _. right. unfold session_of. by rewrite E1. }
  eapply does_then; [apply (does_send local_mac key isn peer good _ (serializeHttpResponse r) now s); [done | done | done|]|].
  { rewrite Hn. change (Zlen []) with 0. lia. }
  intros sent s1 sd1 Hx Hg1 [(W1 & W2 & W3 & W4 & W5) _]. rewrite Hn in W4.
  assert (Hwr : response_written sd1).
  { unfold talk in W4. injection W4 as T1 T2 T3. destruct (send_error sent); [by left | right]. exists r. split; [done|]. exists b, fin. by rewrite T2, T3. }
  destruct (send_error sent); [apply does_ret; [done|]; split; auto|].
  eapply (does_then _ _ _ _ _ _ _ _ (fun _ s' sd' => s' = s1 /\ sd' = sd1)); [by apply (does_replies local_mac key isn peer good)|]. intros _ ? ? _ _ [-> ->].
  eapply does_mono; [done| |by apply (does_close local_mac key isn peer good)]. intros [] s2 sd2 Hx2 _ _ (X1 & X2 & X3 & X4). split; [|auto].
  apply Hdone; [done | by rewrite X2 | by etransitivity | by eapply response_talk].
Qed.

Lemma does_server p s sd g res t' s1 : holding key server_inv s sd -> arrival key isn good s sd g res t' s1 -> connection_of key (s_table sd) <> None ->
  does p (handleHttpServer (TcpState.local_ip key) local_mac key res ip_packet frame now) s1 (received sd res t')
    (fun _ s' sd' => holding key server_inv s' sd' /\ (gone key (received sd res t') -> gone key sd')).
Proof.
  intros [Hw [S1 S2 S3 S4 S5]] [_ Hd Hg Hg' Ea Hw1] Hc. specialize (S5 Hc). pose proof Ea as Ea'. unfold apps in Ea'. injection Ea' as E1 E2 E3 E4 E5.
  assert (Ho : opened sd) by (destruct (decide (opened sd)) as [|Hno]; [done|]; by destruct (en_fresh _ _ _ (cv_engaged sd Hg) Hno)).
  set (sd1 := received sd res t') in *. assert (Ho1 : opened sd1) by (eapply opened_mono; [|done]; simpl; by apply prefix_app_r).
  pose proof (response_receive sd res t' Hg Hg' S3) as Hwr. fold sd1 in Hwr.
  unfold handleHttpServer. apply does_read. rewrite E1. fold (session_of s).
  assert (Hset : forall ss, serving ss sd1 -> let s2 := s1 <| http_sessions := map_set (http_sessions s1) key ss |> in
    wired key s2 sd1 /\ server_inv s2 sd1 /\ session_of s2 = ss).
  { intros ss Hss s2. assert (Es : session_of s2 = ss) by (unfold session_of; simpl; by rewrite map_find_set, key_eqb_refl by apply Hw1).
    split_and!; [destruct Hw1; constructor; simpl; auto using map_set_ok | | done]. constructor; [simpl; congruence | simpl; congruence | done | by intros [] | by rewrite Es]. }
  destruct S5 as [(P1 & P2 & P3 & P4)|Hr].
  - assert (Hl : Zlen (http_buffer (session_of s) ++ accepted_payload res) <= kMaxHttpHeaderBlockLength) by (rewrite P2; exact (read_short sd1 Hg')).
    destruct (serve_answer (session_of s) (accepted_payload res) (peer_closed res) P1 Hl) as (ss & E & Hss). rewrite P2 in Hss, E.
    apply (does_guard _ _ _ _ _ (ss, answer (s_read sd ++ accepted_payload res) (peer_closed res))); [done|]. apply does_modify.
    destruct (answer _ _) as [r|] eqn:Er; simpl.
    + destruct (Hset ss) as (H1 & H2 & H3); [by right|]. apply does_respond; try done; [|by rewrite H3].
      exists (s_read sd1), (peer_closed res). split_and!; [done | done|]. intros Hcl. simpl. by rewrite Hcl, orb_true_r.
    + destruct Hss as (Q1 & Q2 & Q3). destruct (Hset ss) as (H1 & H2 & H3); [|by apply does_ret]. left. unfold sd1. simpl. by rewrite P3, Q3, P4.
  - unfold serveHttp. rewrite Hr. apply (does_guard _ _ _ _ _ (session_of s, None)); [done|]. apply does_modify.
    destruct (Hset (session_of s)) as (H1 & H2 & H3); [by right | by apply does_ret].
Qed.

Lemma server_dispatch p s sd g res t' s1 : holding key server_inv s sd -> arrival key isn good s sd g res t' s1 ->
  does p (dispatchResult (TcpState.local_ip key) local_mac key res ip_packet frame now) s1 (received sd res t') (fun _ s' sd' => holding key server_inv s' sd').
Proof.
  intros Hh Har. pose proof Har as [(seg & at_ & _ & E) _ Hg Hg' Ea Hw1]. set (sd1 := received sd res t') in *.
  apply (does_dispatch local_mac key isn peer good); [done | done | simpl; apply Forall_forall; intros x Hin; apply elem_of_app; by right|].
  apply does_read. assert (active_open_key s1 = None) as -> by (unfold apps in Ea; pose proof (sv_key _ _ (proj2 Hh)); congruence).
  rewrite bool_decide_false by done. cbn [negb]. rewrite andb_true_r.
  eapply (does_then _ _ _ _ _ _ _ _ (fun _ s' sd' => holding key server_inv s' sd' /\ (gone key sd1 -> gone key sd'))).
  { destruct (_ || _) eqn:Eb; simpl; [|apply does_ret; [done|]; split; [|done]].
    - apply (does_server p s sd g); [done | done|]. intros Hn. destruct (gone_handle key _ Hn _ _ _ _ _ E) as (Ha & Hc & _). by rewrite Ha, Hc in Eb.
    - apply orb_false_iff in Eb as [Ha Hc]. eapply server_quiet; [done | done | by destruct (accepted_payload res) | done]. }
  intros [] s2 sd2 _ Hg2 [[Hw2 Hi2] Hgone]. unfold handleHttpClient.
  eapply (does_then _ _ _ _ _ _ _ _ (fun _ s' sd' => s' = s2 /\ sd' = sd2)); [apply does_read; rewrite (sv_clients _ _ Hi2); by apply does_ret|].
  intros _ ? ? _ _ [-> ->]. destruct (_ || _) eqn:Eend; [|by apply does_ret].
  apply (does_here _ _ _ p tt _ s2 (erased key s2)); [done | done|]. split; [destruct Hw2; constructor; simpl; auto using map_erase_ok|].
  apply server_erase; [done | done|]. apply Hgone. exact (handle_ended key _ _ _ _ _ _ (en_table _ _ _ (cv_engaged sd Hg)) E Eend).
Qed.
End Told.

(** A passive program dials nobody. *)
Lemma server_dials options p s sd now g : mode options = Passive -> good sd -> holding key server_inv s sd ->
  does p (dial (TcpState.local_ip key) local_mac options now g) s sd (fun _ s' sd' => holding key server_inv s' sd').
Proof. intros Hm Hg Hh. unfold dial. do 2 apply does_read. rewrite Hm. by apply does_ret. Qed.

#[export] Instance server_app options : mode options = Passive -> Application local_mac key isn good options server_inv.
Proof.
  intros Hm. constructor; [exact server_aside | exact server_erase | intros; by eapply server_dispatch | intros; by apply server_dials].
Qed.
End Server.

(** ** The two programs *)

(** The authority the client names, and its request, are well formed. *)
Definition authority_of (ip : Ipv4Address) (port : Z) : list Z := Ipv4Address_toString ip ++ [ch ":"] ++ to_string port.

Lemma number_text v : 0 <= v < 10 ^ 20 -> Forall visible (to_string v) /\ (length (to_string v) <= 20)%nat /\ to_string v <> [].
Proof.
  intros Hv. destruct (to_string_spec v Hv) as (Hd & _ & Hn & _). split_and!; [by apply digits_visible | | done].
  pose proof (decimal_digits_length 20 v []) as H. rewrite Nat.add_0_r in H. exact H.
Qed.

Lemma authority_text ip port : ip_ok ip -> is_port port -> validateHttpClientHost (authority_of ip port) = None /\ Zlen (authority_of ip port) <= 200.
Proof.
  intros Hip Hp. unfold is_port in Hp. destruct (number_text port) as (P1 & P2 & P3); [lia|].
  assert (Hnum : forall v, is_u8 v -> Forall visible (to_string v) /\ (length (to_string v) <= 20)%nat /\ to_string v <> []) by (intros v Hv; apply number_text; unfold is_u8 in Hv; lia).
  destruct ip as [a b c d]. unfold ip_ok, ip_bytes in Hip. apply Forall_cons in Hip as [Ha Hip]. apply Forall_cons in Hip as [Hb Hip].
  apply Forall_cons in Hip as [Hc Hip]. apply Forall_cons in Hip as [Hd _].
  destruct (Hnum a Ha) as (A1 & A2 & A3), (Hnum b Hb) as (B1 & B2 & _), (Hnum c Hc) as (C1 & C2 & _), (Hnum d Hd) as (D1 & D2 & _).
  unfold authority_of, Ipv4Address_toString, ip_bytes. cbn [map join]. clear Hnum.
  generalize dependent (to_string a). generalize dependent (to_string b). generalize dependent (to_string c). generalize dependent (to_string d).
  generalize dependent (to_string port). intros tp P1 P2 P3 td D1 D2 tc C1 C2 tb B1 B2 ta A1 A2 A3. split.
  - apply validate_host. split; [by destruct ta|]. repeat first [apply Forall_app; split | apply Forall_cons; split]; auto; by vm_compute.
  - unfold Zlen. repeat (rewrite length_app; cbn [length]). lia.
Qed.

Section Fetching.
Context (A B : Party) (rp sp : Z) (page : list Z) (isn_a isn_b : Z).
Context (Hoptions : p_options A = mkOptions HttpGet false (p_ip B) [] rp sp zero_ip 0 page) (Hpassive : p_options B = defaultOptions).
Context (Ha : ip_ok (p_ip A)) (Hb : ip_ok (p_ip B)) (Hrp : is_port rp) (Hsp : is_port sp) (Hia : is_u32 isn_a) (Hib : is_u32 isn_b).
Context (Hpage : validateHttpClientTarget page = None) (Hpb : bytes_ok page) (Hlen : Zlen page <= 2033).

Definition fetch_key : TcpConnectionKey := mkKey (p_ip A) sp (p_ip B) rp.
Definition fetch_host : list Z := authority_of (p_ip B) rp.
Definition fetch_request : list Z := default [] (buildHttpGetRequest fetch_host page).
Definition first_table : TcpConnectionTable := new_table kTcpListenPort kDefaultMaxTcpConnections kDefaultMaxTcpHalfOpenConnections.

Lemma fetch_request_ok : buildHttpGetRequest fetch_host page = Some fetch_request /\ fits_limits fetch_host page /\ bytes_ok fetch_request.
Proof.
  destruct (authority_text (p_ip B) rp Hb Hrp) as [H1 H2]. assert (E : buildHttpGetRequest fetch_host page = Some fetch_request).
  { unfold fetch_request. rewrite build_spec. by rewrite decide_True by (split; [exact Hpage | exact H1]). }
  split_and!; [done | unfold fits_limits, fetch_host in *; lia|]. eapply request_bytes; [|exact Hpb | exact E].
  unfold fetch_host, authority_of. unfold is_port in Hrp. apply bytes_app. split; [by apply ipv4_text_bytes|]. apply bytes_app. split; [by repeat constructor|]. apply number_bytes. lia.
Qed.

Lemma fetch_ports : ports_ok fetch_key /\ ports_ok (mirror fetch_key).
Proof. unfold is_port in Hrp, Hsp. unfold ports_ok. simpl. split_and!; ulia. Qed.

(** The conversations the two applications have. *)
Definition conversed (a b : side) : Prop := rtc (world_step fetch_key isn_a isn_b) (start first_table, start first_table) (a, b).

Lemma conversed_engaged a b : conversed a b -> Zlen (s_written a) <= 2 ^ 30 -> Zlen (s_written b) <= 2 ^ 30 -> engaged fetch_key b a /\ engaged (mirror fetch_key) a b.
Proof.
  intros H Hwa Hwb. assert (Ht : table_ok first_table) by apply new_table_ok. assert (Hty : typed_table first_table) by apply typed_empty.
  apply (conversation_engaged fetch_key isn_a isn_b first_table first_table a b); auto. apply fetch_ports.
Qed.

Definition good_client (b a : side) : Prop := conversed a b /\ Zlen (s_written a) <= 2 ^ 30.
Definition good_server (a b : side) : Prop := conversed a b /\ Zlen (s_written b) <= 2 ^ 30.

Lemma client_conversation a b : conversed a b -> Zlen (s_written a) <= 2 ^ 30 -> Zlen (s_written b) <= 2 ^ 30 -> Conversation fetch_key isn_a b (good_client b).
Proof.
  intros H Hwa Hwb. constructor; auto.
  - intros sd sd' [Hc _] Hs Hw. split; [|done]. eapply rtc_r; [exact Hc|]. by apply step_left.
  - intros sd [Hc Hw]. by destruct (conversed_engaged sd b Hc Hw Hwb).
  - by intros sd [_ Hw].
  - by destruct (conversed_engaged a b H Hwa Hwb) as [_ [_ _ _ ? _]].
Qed.

Lemma server_conversation a b : conversed a b -> Zlen (s_written a) <= 2 ^ 30 -> Zlen (s_written b) <= 2 ^ 30 ->
  Conversation (mirror fetch_key) isn_b a (good_server a).
Proof.
  intros H Hwa Hwb. constructor; auto.
  - intros sd sd' [Hc _] Hs Hw. split; [|done]. eapply rtc_r; [exact Hc|]. by apply step_right.
  - intros sd [Hc Hw]. by destruct (conversed_engaged a sd Hc Hwa Hw).
  - by intros sd [_ Hw].
  - by destruct (conversed_engaged a b H Hwa Hwb) as [[_ _ _ ? _] _].
Qed.

Definition client_holds : Stack -> side -> Prop := client_inv fetch_key fetch_host page fetch_request.
Definition server_holds : Stack -> side -> Prop := server_inv (mirror fetch_key).

Definition link_ok (p : Node * Node) : Prop := exists a b, conversed a b /\
  node_ok (p_mac A) fetch_key isn_a client_holds p.1 a /\ node_ok (p_mac B) (mirror fetch_key) isn_b server_holds p.2 b.

Lemma link_bounds s s' a b : client_holds s a -> server_holds s' b -> Zlen (s_written a) <= kMaxHttpHeaderBlockLength /\ Zlen (s_written b) <= 2 ^ 30.
Proof.
  intros Hc Hs. destruct fetch_request_ok as (E & Hfit & _). destruct (request_parsed _ _ _ E Hfit) as (Hl & _). split.
  - destruct (cl_written _ _ _ _ _ _ Hc) as [-> | ->]; [by vm_compute | done].
  - destruct (sv_written _ _ _ Hs) as [-> |(r & -> & x & fin & _ & Hans & _)]; [by vm_compute|].
    pose proof (serialize_length _ (proj1 (answer_cases _ _ _ Hans))) as H. unfold kCap, kMaxHttpResponseHeaderBlockLength, HttpClient.kMaxHttpResponseBodyLength in H. lia.
Qed.

Lemma fetch_client_app b : Conversation fetch_key isn_a b (good_client b) ->
  Application (p_mac A) fetch_key isn_a (good_client b) (p_options A) client_holds.
Proof.
  intros Hc. destruct fetch_request_ok as (E & Hfit & Hby). apply (client_app (p_mac A) fetch_key isn_a b (good_client b) fetch_host page fetch_request E Hfit Hby (p_options A) rp).
  - by rewrite Hoptions.
  - intros dns. by rewrite Hoptions.
Qed.

(** What arrives at one program was written by the other. *)
Lemma framed_arrives ip mac k l frames frame : Forall (framed ip mac k l) frames -> (forall bytes, frame = Some bytes -> bytes ∈ frames) ->
  forall bytes, frame = Some bytes -> framed ip mac k l bytes.
Proof. rewrite Forall_forall. eauto. Qed.

Lemma left_iterates na nb frame clock g1 g2 supply : link_ok (na, nb) -> (forall bytes, frame = Some bytes -> bytes ∈ n_frames nb) ->
  draws (n_supply na) g1 g2 supply -> exists s' out,
    iteration (p_ip A) (p_mac A) (p_options A) frame clock g1 g2 (n_stack na) = Some (tt, s', out) /\ link_ok (mkNode s' (n_frames na ++ out) supply, nb).
Proof.
  intros (a & b & Hc & Na & Nb) Hf Hd. simpl in Na, Nb. destruct (link_bounds _ _ _ _ (proj2 (nd_holding _ _ _ _ _ _ Na)) (proj2 (nd_holding _ _ _ _ _ _ Nb))) as [Wa Wb].
  unfold kMaxHttpHeaderBlockLength in Wa. assert (Wa' : Zlen (s_written a) <= 2 ^ 30) by lia. pose proof (client_conversation a b Hc Wa' Wb) as Hconv.
  destruct (node_iterates_ok (p_mac A) fetch_key isn_a b (good_client b) (p_mac B) (p_options A) client_holds (app := fetch_client_app b Hconv) na a frame clock g1 g2 supply)
    as (s' & out & sd' & E & [Hc' _] & Hn); [done | done | done | by eapply framed_arrives; [apply Nb | done]|].
  exists s', out. split; [exact E|]. by exists sd', b.
Qed.

Lemma right_iterates na nb frame clock g1 g2 supply : link_ok (na, nb) -> (forall bytes, frame = Some bytes -> bytes ∈ n_frames na) ->
  draws (n_supply nb) g1 g2 supply -> exists s' out,
    iteration (p_ip B) (p_mac B) (p_options B) frame clock g1 g2 (n_stack nb) = Some (tt, s', out) /\ link_ok (na, mkNode s' (n_frames nb ++ out) supply).
Proof.
  intros (a & b & Hc & Na & Nb) Hf Hd. simpl in Na, Nb. destruct (link_bounds _ _ _ _ (proj2 (nd_holding _ _ _ _ _ _ Na)) (proj2 (nd_holding _ _ _ _ _ _ Nb))) as [Wa Wb].
  assert (Wa' : Zlen (s_written a) <= 2 ^ 30) by (unfold kMaxHttpHeaderBlockLength in Wa; lia). pose proof (server_conversation a b Hc Wa' Wb) as Hconv.
  assert (Happ : Application (p_mac B) (mirror fetch_key) isn_b (good_server a) (p_options B) server_holds) by (by apply (server_app (p_mac B) (mirror fetch_key) isn_b a (good_server a) Wa (p_options B)); rewrite Hpassive).
  destruct (node_iterates_ok (p_mac B) (mirror fetch_key) isn_b a (good_server a) (p_mac A) (p_options B) server_holds nb b frame clock g1 g2 supply)
    as (s' & out & sd' & E & [Hc' _] & Hn); [done | done | done | by eapply framed_arrives; [apply Na | done]|].
  exists s', out. split; [exact E|]. by exists a, sd'.
Qed.

Lemma link_step_ok p p' : link_ok p -> link_step A B p p' -> link_ok p'.
Proof.
  intros Hok Hs. destruct Hs as [a a' b [n frame clock g1 g2 supply s' out Hf Hd E]|a b b' [n frame clock g1 g2 supply s' out Hf Hd E]].
  - destruct (left_iterates _ _ frame clock g1 g2 supply Hok Hf Hd) as (s2 & out2 & E2 & H). rewrite E in E2. by injection E2 as <- <-.
  - destruct (right_iterates _ _ frame clock g1 g2 supply Hok Hf Hd) as (s2 & out2 & E2 & H). rewrite E in E2. by injection E2 as <- <-.
Qed.

Lemma fetch_boots na nb : boots (p_ip A) (p_mac A) (p_options A) isn_a na -> boots (p_ip B) (p_mac B) (p_options B) isn_b nb -> link_ok (na, nb).
Proof.
  intros Ba Bb. assert (H0 : conversed (start first_table) (start first_table)) by apply rtc_refl. exists (start first_table), (start first_table). split; [done|].
  assert (W : Zlen (s_written (start first_table)) <= 2 ^ 30) by (by vm_compute). pose proof (client_conversation _ _ H0 W W) as Ca. pose proof (server_conversation _ _ H0 W W) as Cb.
  split.
  - apply (boots_ok (p_mac A) fetch_key isn_a (good_client (start first_table)) (p_options A) client_holds (app := fetch_client_app _ Ca)); [done | done|].
    intros random. rewrite Hoptions. split; constructor; try done; [by constructor..| by left].
  - assert (Happ : Application (p_mac B) (mirror fetch_key) isn_b (good_server (start first_table)) (p_options B) server_holds).
    { assert (Hs : Zlen (s_written (start first_table)) <= kMaxHttpHeaderBlockLength) by (by vm_compute).
      by apply (server_app (p_mac B) (mirror fetch_key) isn_b (start first_table) (good_server (start first_table)) Hs (p_options B)); rewrite Hpassive. }
    apply (boots_ok (p_mac B) (mirror fetch_key) isn_b (good_server (start first_table)) (p_options B) server_holds); [done | done|].
    intros random. rewrite Hpassive. split; constructor; try done; [by constructor..| by left].
Qed.

(** The response of a complete session is the one the server selects. *)
Lemma link_fetched na nb ss : link_ok (na, nb) -> map_find (http_client_sessions (n_stack na)) fetch_key = Some ss -> response_complete ss = true ->
  let r := selectResponse (mkHttpRequest (str "GET") page (str "HTTP/1.0")) in
  status_code ss = statusCode (response_status r) /\ session_body ss = response_body r.
Proof.
  intros (a & b & Hc & [[_ Ca] _ _] & [[_ Sb] _ _]) Hss Hdone r. simpl in Ca, Sb. destruct (link_bounds _ _ _ _ Ca Sb) as [Wa Wb].
  destruct (conversed_engaged a b Hc) as [Ea Eb]; [unfold kMaxHttpHeaderBlockLength in Wa; lia | done|]. destruct fetch_request_ok as (Er & Hfit & _).
  destruct (cl_session _ _ _ _ _ _ Ca ss Hss) as [_ [(_ & _ & _ & (H & _) & _)|(_ & Hw & Hs)]]; [congruence|].
  destruct Hs as [[(H & _) _]|[[_ H]|[_ (x & fin & cl & X1 & X2 & X3)]]]; [congruence | congruence|].
  destruct (en_delivers _ _ _ Ea) as [Da Da']. destruct (en_delivers _ _ _ Eb) as [Db Db'].
  assert (Px : x `prefix_of` s_written b) by (etransitivity; [exact X1|]; rewrite Da; apply prefix_take).
  assert (Hx : fin = true -> x = s_written b) by (intros Hf; destruct (X3 Hf) as [He ->]; by apply Da').
  destruct (sv_written _ _ _ Sb) as [Hn|(r' & Hr' & y & fin' & Y1 & Y2 & Y3)].
  - rewrite Hn in Px. apply prefix_nil_inv in Px. subst x. exfalso. revert X2. vm_compute. by destruct fin.
  - assert (r' = r) as ->.
    { eapply (answer_request _ _ _ y fin' r' Er Hfit); [|intros Hf|exact Y2].
      - etransitivity; [exact Y1|]. rewrite Db, Hw. apply prefix_take.
      - destruct (Y3 Hf) as [He ->]. rewrite <- Hw. by apply Db'. }
    rewrite Hr' in Px, Hx. apply (response_verdict r x fin _ _ cl); [apply select_ok | done | done | done].
Qed.

Lemma fetch_run a0 b0 a b : boots (p_ip A) (p_mac A) (p_options A) isn_a a0 -> boots (p_ip B) (p_mac B) (p_options B) isn_b b0 ->
  rtc (link_step A B) (a0, b0) (a, b) -> link_ok (a, b).
Proof.
  intros Ba Bb Hrun. pose proof (fetch_boots _ _ Ba Bb) as H0. revert H0. induction Hrun as [p|p q r Hs _ IH]; [done|]. intros H0. apply IH. by eapply link_step_ok.
Qed.

Lemma fetch_result a b : link_ok (a, b) ->
  proceeds (p_ip A) (p_mac A) (p_options A) (n_frames b) a /\ proceeds (p_ip B) (p_mac B) (p_options B) (n_frames a) b /\
  forall key session, active_open_key (n_stack a) = Some key -> map_find (http_client_sessions (n_stack a)) key = Some session ->
    response_complete session = true ->
    session_body session = response_body (selectResponse (mkHttpRequest (str "GET") page (str "HTTP/1.0"))) /\
    status_code session = if text_eqb page (str "/") || text_eqb page (str "/sack-test") then 200 else 404.
Proof.
  intros Hok. split_and!.
  - intros frame clock g1 g2 supply Hf Hd. destruct (left_iterates a b frame clock g1 g2 supply Hok Hf Hd) as (s' & out & E & _). eauto.
  - intros frame clock g1 g2 supply Hf Hd. destruct (right_iterates a b frame clock g1 g2 supply Hok Hf Hd) as (s' & out & E & _). eauto.
  - intros key session Hk Hss Hdone. assert (key = fetch_key) as ->.
    { destruct Hok as (sa & sb & _ & [[_ Ca] _ _] & _). pose proof (cl_key _ _ _ _ _ _ Ca) as H. simpl in H. congruence. }
    destruct (link_fetched a b session Hok Hss Hdone) as [H1 H2]. split; [done|]. rewrite H1, select_status. done.
Qed.
End Fetching.


(** ** A fetch *)

Module Page.
Definition client_argv : list (list Z) :=
  [str "wirestack"; str "tap0"; str "10.0.0.1"; str "02:00:00:00:00:01"; str "--http-get"; str "10.0.0.2:8080";
   str "--source-port"; str "40000"; str "--target"; str "/"].
Definition server_argv : list (list Z) := [str "wirestack"; str "tap1"; str "10.0.0.2"; str "02:00:00:00:00:02"].
Definition client : Party :=
  mkParty (Ipv4 10 0 0 1) (Mac 2 0 0 0 0 1) (mkOptions HttpGet false (Ipv4 10 0 0 2) [] 8080 40000 zero_ip 0 (str "/")).
Definition server : Party := mkParty (Ipv4 10 0 0 2) (Mac 2 0 0 0 0 2) defaultOptions.

Definition boot_node (p : Party) (isn : Z) : option Node :=
  match initialResolution (p_ip p) (p_mac p) (p_options p) 0 (initialStack (p_ip p) (p_options p) 0) with
  | Some (_, s, out) => Some (mkNode s out (Some isn))
  | None => None
  end.

Inductive Draw := NoDraw | Receiving | Dialling.

(** One iteration of [p] at time [t], with one of the frames, or without. *)
Definition turn (p : Party) (incoming : list (list Z)) (i : option nat) (t : Z) (d : Draw) (n : Node) : option Node :=
  let clock := mkClock t t t t t t t in
  let '(isn1, isn2, supply) :=
    match d with NoDraw => (None, None, n_supply n) | Receiving => (n_supply n, None, None) | Dialling => (None, n_supply n, None) end in
  match iteration (p_ip p) (p_mac p) (p_options p) (i ≫= fun i => incoming !! i) clock isn1 isn2 (n_stack n) with
  | Some (_, s, out) => Some (mkNode s (n_frames n ++ out) supply)
  | None => None
  end.

(** Whose turn it is, and the turn. *)
Record Move := mkMove { m_left : bool; m_frame : option nat; m_time : Z; m_draw : Draw }.

Definition move (m : Move) (p : Node * Node) : option (Node * Node) :=
  let '(a, b) := p in
  if m_left m then a' ← turn client (n_frames b) (m_frame m) (m_time m) (m_draw m) a; Some (a', b)
  else b' ← turn server (n_frames a) (m_frame m) (m_time m) (m_draw m) b; Some (a, b').

Definition play (ms : list Move) (p : option (Node * Node)) : option (Node * Node) := foldl (fun p m => p ≫= move m) p ms.

Definition first : option (Node * Node) := a ← boot_node client 7000; b ← boot_node server 9000; Some (a, b).

(** The server's answer to the ARP request; the dial; the SYN, twice; the
    SYN-ACK; the request before the ACK of the handshake, so that it is lost and
    comes again; the server's FIN before its response. *)
Definition moves : list Move :=
  [mkMove false (Some 0%nat) 1 NoDraw; mkMove true (Some 0%nat) 2 Dialling; mkMove false (Some 1%nat) 3 Receiving; mkMove false (Some 1%nat) 4 NoDraw;
   mkMove true (Some 1%nat) 5 NoDraw; mkMove false (Some 3%nat) 6 NoDraw; mkMove false (Some 2%nat) 7 NoDraw; mkMove false (Some 3%nat) 8 NoDraw;
   mkMove true (Some 4%nat) 9 NoDraw; mkMove true (Some 3%nat) 10 NoDraw].

Lemma boot_boots p isn n : boot_node p isn = Some n -> boots (p_ip p) (p_mac p) (p_options p) isn n.
Proof. unfold boot_node. destruct (initialResolution _ _ _ _ _) as [[[[] s] out]|] eqn:E; [|done]. intros [= <-]. by econstructor. Qed.

Lemma turn_steps p incoming i t d n n' : turn p incoming i t d n = Some n' -> node_step (p_ip p) (p_mac p) (p_options p) incoming n n'.
Proof.
  unfold turn. set (frame := i ≫= fun i => incoming !! i). assert (Hf : forall bytes, frame = Some bytes -> bytes ∈ incoming).
  { unfold frame. destruct i as [i|]; [|done]. intros bytes. apply list_elem_of_lookup_2. }
  clearbody frame. destruct d; cbv iota beta; destruct (iteration _ _ _ _ _ _ _ _) as [[[[] s] out]|] eqn:E; try done; intros [= <-]; econstructor; try exact E; auto.
  - constructor.
  - destruct (n_supply n); by constructor.
  - destruct (n_supply n); by constructor.
Qed.

Lemma move_steps m p p' : move m p = Some p' -> link_step client server p p'.
Proof.
  destruct p as [a b]. unfold move. destruct (m_left m).
  - destruct (turn _ _ _ _ _ a) as [a'|] eqn:E; [|done]. intros [= <-]. by eapply link_left, turn_steps.
  - destruct (turn _ _ _ _ _ b) as [b'|] eqn:E; [|done]. intros [= <-]. by eapply link_right, turn_steps.
Qed.

Lemma play_runs ms : forall p p', play ms (Some p) = Some p' -> rtc (link_step client server) p p'.
Proof.
  unfold play. induction ms as [|m ms IH]; intros p p'; simpl; [by intros [= <-]|]. destruct (move m p) as [q|] eqn:E.
  - intros H. eapply rtc_l; [by eapply move_steps | by apply IH].
  - assert (Hn : foldl (fun p m => p ≫= move m) None ms = None) by (clear; by induction ms). by rewrite Hn.
Qed.

(** The session of the client after the moves. *)
Definition session_after (p : Node * Node) : option HttpClientSession :=
  key ← active_open_key (n_stack p.1); map_find (http_client_sessions (n_stack p.1)) key.

Example moves_fetch : option_map response_complete (play moves first ≫= session_after) = Some true.
Proof. vm_compute. reflexivity. Qed.

#[local] Opaque play moves boot_node.

Lemma run : exists a0 b0 a b key session, boots (p_ip client) (p_mac client) (p_options client) 7000 a0 /\
  boots (p_ip server) (p_mac server) (p_options server) 9000 b0 /\ rtc (link_step client server) (a0, b0) (a, b) /\
  active_open_key (n_stack a) = Some key /\ map_find (http_client_sessions (n_stack a)) key = Some session /\ response_complete session = true.
Proof.
  pose proof moves_fetch as H. unfold first in H. destruct (boot_node client 7000) as [a0|] eqn:Ea; [|done]. destruct (boot_node server 9000) as [b0|] eqn:Eb; [|done].
  cbn [mbind option_bind] in H. destruct (play moves (Some (a0, b0))) as [[a b]|] eqn:Ep; [|done]. cbn [mbind option_bind] in H. unfold session_after in H. cbn [fst] in H.
  destruct (active_open_key (n_stack a)) as [key|] eqn:Ek; [|done]. cbn [mbind option_bind] in H.
  destruct (map_find (http_client_sessions (n_stack a)) key) as [session|] eqn:Es; [|done]. cbn [option_map] in H. injection H as H.
  exists a0, b0, a, b, key, session. split_and!; [by apply boot_boots | by apply boot_boots | by apply (play_runs moves) | done | done | done].
Qed.
End Page.

