(* ===== verification/SysCalls.v ===== *)
(** * System calls and interactive programs

    The operating system as the program sees it: the system calls of
    [src/src/tap_device.cpp] are events, a program is an interaction tree of
    events, and what the documentation of a call asks of the caller and
    promises in return is an [EventSpec]. [wp] says that a program that may
    run for ever never makes a call it may not make; [reaches] is what one of
    its finite runs looks like. *)

From stdpp Require Import gmap.
From ITree Require Import Core.ITreeDefinition.
From Paco Require Import paco.
From S2P Require Import Prelude StdMap Addresses TcpState TcpTable Stack EventLoop StackSafety.

(** ** Programs that may run for ever *)

Notation "'do' x <- t ; k" := (ITree.bind t (fun x => k)) (at level 100, x pattern, t at level 99, k at level 200, right associativity) : wire_scope.

Class EventSpec (E : Type -> Type) (S : Type) := {
  (** When the program may raise the event. *)
  requires : forall {T}, E T -> S -> Prop;
  (** Which answers it may get, with the new state of the environment. *)
  answers : forall {T}, E T -> S -> T -> S -> Prop
}.

Section Logic.
Context {E : Type -> Type} {S : Type} {spec : EventSpec E S}.

Definition wpF {R} (Q : R -> S -> Prop) (r : itree E R -> S -> Prop) (t : itree E R) (s : S) : Prop :=
  match observe t with
  | RetF x => Q x s
  | TauF t => r t s
  | VisF e k => requires e s /\ forall a s', answers e s a s' -> r (k a) s'
  end.

Lemma wpF_mono {R} (Q : R -> S -> Prop) : monotone2 (wpF Q).
Proof. intros t s r r' H Hle. unfold wpF in *. destruct (observe t); auto. destruct H; auto. Qed.
#[local] Hint Resolve wpF_mono : paco.

(** Run from [s], the program only raises events it may raise, for ever or
    until it returns a result and a state that satisfy [Q]. *)
Definition wp {R} (t : itree E R) (Q : R -> S -> Prop) (s : S) : Prop := paco2 (wpF Q) bot2 t s.

Lemma wp_ret {R} (x : R) (Q : R -> S -> Prop) s : Q x s -> wp (Ret x) Q s.
Proof. intros H. pfold. exact H. Qed.

Lemma wp_trigger {T} (e : E T) (Q : T -> S -> Prop) s :
  requires e s -> (forall a s', answers e s a s' -> Q a s') -> wp (ITree.trigger e) Q s.
Proof. intros Hp H. pfold. split; [done|]. intros a s' Ha. left. apply wp_ret. auto. Qed.

Lemma observe_bind {R T} (t : itree E R) (k : R -> itree E T) : observe (ITree.bind t k) =
  match observe t with
  | RetF r => observe (k r)
  | TauF t => TauF (ITree.bind t k)
  | VisF e h => VisF e (fun x => ITree.bind (h x) k)
  end.
Proof.
  transitivity (observe (match observe t with RetF r => k r | TauF t => Tau (ITree.bind t k) | VisF e h => Vis e (fun x => ITree.bind (h x) k) end));
    [reflexivity|].
  by destruct (observe t).
Qed.

Lemma wp_bind {R T} (t : itree E R) (k : R -> itree E T) (P : R -> S -> Prop) (Q : T -> S -> Prop) s :
  wp t P s -> (forall x s', P x s' -> wp (k x) Q s') -> wp (ITree.bind t k) Q s.
Proof.
  intros Ht Hk. revert t s Ht. pcofix CIH. intros t s Ht. punfold Ht. unfold wpF in Ht. destruct (observe t) as [x|t'|T' e k'] eqn:Ho.
  - assert (Hr : paco2 (wpF Q) r (k x) s) by (eapply paco2_mon; [exact (Hk x s Ht) | intros ? ? []]).
    punfold Hr. pfold. unfold wpF in *. rewrite observe_bind, Ho. exact Hr.
  - pclearbot. pfold. unfold wpF. rewrite observe_bind, Ho. right. by apply CIH.
  - destruct Ht as [Hp Hv]. pfold. unfold wpF. rewrite observe_bind, Ho. split; [done|].
    intros a s' Ha. right. apply CIH. destruct (Hv a s' Ha); [done | contradiction].
Qed.

Lemma wp_bind_ret {R T} (x : R) (k : R -> itree E T) (Q : T -> S -> Prop) s : wp (k x) Q s -> wp (ITree.bind (Ret x) k) Q s.
Proof. intros H. apply (wp_bind _ _ (fun y s' => y = x /\ s' = s)); [by apply wp_ret|]. by intros ? ? [-> ->]. Qed.

Lemma wp_mono {R} (t : itree E R) (P Q : R -> S -> Prop) s : (forall x s', P x s' -> Q x s') -> wp t P s -> wp t Q s.
Proof.
  intros H. revert t s. pcofix CIH. intros t s Ht. punfold Ht. pfold. unfold wpF in *. destruct (observe t); auto.
  - pclearbot. right. by apply CIH.
  - destruct Ht as [Hp Hv]. split; [done|]. intros a s' Ha. right. apply CIH. destruct (Hv a s' Ha); [done | contradiction].
Qed.

(** A loop with an invariant. *)
Lemma wp_iter {I R} (body : I -> itree E (I + R)) (Inv : I -> S -> Prop) (Q : R -> S -> Prop) i s : Inv i s ->
  (forall i s, Inv i s -> wp (body i) (fun next s => match next with inl i => Inv i s | inr x => Q x s end) s) ->
  wp (ITree.iter body i) Q s.
Proof.
  intros Hi Hbody. pose (k := fun next : I + R => match next with inl l => Tau (ITree.iter body l) | inr r => Ret r end).
  enough (H : forall t' (t : itree E (I + R)) s, observe t' = observe (ITree.bind t k) ->
    wp t (fun next s => match next with inl i => Inv i s | inr x => Q x s end) s -> wp t' Q s) by (apply (H _ (body i)); [done | auto]).
  clear i s Hi. pcofix CIH. intros t' t s Ho Ht. punfold Ht. unfold wpF in Ht. pfold. unfold wpF. rewrite Ho, observe_bind.
  destruct (observe t) as [[i|x]|t1|T' e k'].
  - right. apply (CIH _ (body i)); [done | auto].
  - done.
  - pclearbot. right. by apply (CIH _ t1).
  - destruct Ht as [Hp Hv]. split; [done|]. intros a s' Ha. right. apply (CIH _ (k' a)); [done|]. destruct (Hv a s' Ha); [done | contradiction].
Qed.

(** ** Finite runs *)

Inductive reaches {R} : itree E R -> S -> itree E R -> S -> Prop :=
| reaches_refl t s : reaches t s t s
| reaches_tau t u s t' s' : observe t = TauF u -> reaches u s t' s' -> reaches t s t' s'
| reaches_vis {T} (e : E T) k a t s s1 t' s' :
    observe t = VisF e k -> answers e s a s1 -> reaches (k a) s1 t' s' -> reaches t s t' s'.

(** What the program does next is allowed. *)
Definition allowed_next {R} (Q : R -> S -> Prop) (t : itree E R) (s : S) : Prop :=
  match observe t with RetF x => Q x s | TauF _ => True | VisF e _ => requires e s end.

Lemma wp_reaches {R} (t : itree E R) (Q : R -> S -> Prop) s t' s' : wp t Q s -> reaches t s t' s' -> wp t' Q s'.
Proof.
  intros Ht H. induction H as [|t u s t' s' Ho _ IH|T e k a t s s1 t' s' Ho Ha _ IH]; [done| |].
  - apply IH. punfold Ht. unfold wpF in Ht. rewrite Ho in Ht. by pclearbot.
  - apply IH. punfold Ht. unfold wpF in Ht. rewrite Ho in Ht. destruct Ht as [_ Ht]. destruct (Ht a s1 Ha); [done | contradiction].
Qed.

Lemma wp_allowed {R} (t : itree E R) (Q : R -> S -> Prop) s t' s' : wp t Q s -> reaches t s t' s' -> allowed_next Q t' s'.
Proof.
  intros Ht H. pose proof (wp_reaches _ _ _ _ _ Ht H) as Hw. punfold Hw. unfold wpF in Hw. unfold allowed_next.
  destruct (observe t'); [done | done | apply Hw].
Qed.

End Logic.

(** ** The operating system *)

Definition EINTR : Z := 4.

(** A call that can fail answers [inr errno]. [Now] and [RandomDevice] are the
    clock and [std::random_device]; [Ambient] gathers the readings of the clock
    and of the generator of initial sequence numbers during one iteration of
    the event loop, its arguments say what they are used for; [Undefined] is
    what the program does after a read outside a buffer. *)
Variant sysE : Type -> Type :=
| SysOpen : sysE (Z + Z)
| SysIoctl (fd : Z) (ifr_name : list Z) : sysE (list Z + Z)
| SysClose (fd : Z) : sysE unit
| SysPoll (fd timeout_ms : Z) : sysE (Z + Z)
| SysRead (fd size : Z) : sysE (list Z + Z)
| SysWrite (fd : Z) (bytes : list Z) : sysE (Z + Z)
| SysGetRandom (size : Z) : sysE (list Z + Z)
| Now : sysE Z
| RandomDevice : sysE Z
| Ambient (local_ip : Ipv4Address) (s : Stack) (frame : option (list Z)) : sysE (Clock * option Z * option Z)
| Undefined : sysE Empty_set.

(** The open descriptors of the process and the bytes taken by each write. *)
Record Kernel := mkKernel { open_fds : gset Z; sent : list (list Z) }.
#[export] Instance eta_Kernel : Eta Kernel := fun k => mkKernel (open_fds k) (sent k).

Definition initial_kernel : Kernel := mkKernel ∅ [].

(** [whole]: a write takes all the bytes or fails, as on a TAP device;
    [may_send]: what the program may write. *)
Definition kernel_requires (may_send : list Z -> Prop) {T} (e : sysE T) (k : Kernel) : Prop :=
  match e with
  | SysOpen | Now | RandomDevice | Ambient _ _ _ => True
  | SysIoctl fd ifr_name => fd ∈ open_fds k /\ Zlen ifr_name = 16
  | SysClose fd => fd ∈ open_fds k
  | SysPoll fd timeout_ms => fd ∈ open_fds k /\ -1 <= timeout_ms < 2 ^ 31
  | SysRead fd size => fd ∈ open_fds k /\ 0 < size
  | SysWrite fd bytes => fd ∈ open_fds k /\ may_send bytes
  | SysGetRandom size => 0 < size
  | Undefined => False
  end.

Definition kernel_answers (whole : bool) {T} (e : sysE T) (k : Kernel) : T -> Kernel -> Prop :=
  match e in sysE T return T -> Kernel -> Prop with
  | SysOpen => fun r k' =>
      match r with inl fd => 0 <= fd /\ (fd ∉ open_fds k) /\ k' = (k <| open_fds := {[fd]} ∪ open_fds k |>) | inr _ => k' = k end
  | SysIoctl _ _ => fun r k' => match r with inl ifr_name => Zlen ifr_name = 16 | inr _ => True end /\ k' = k
  | SysClose fd => fun _ k' => k' = (k <| open_fds := open_fds k ∖ {[fd]} |>)
  | SysPoll _ _ => fun r k' => match r with inl n => 0 <= n | inr _ => True end /\ k' = k
  | SysRead _ size => fun r k' => match r with inl bytes => bytes_ok bytes /\ Zlen bytes <= size | inr _ => True end /\ k' = k
  | SysWrite _ bytes => fun r k' =>
      match r with
      | inl n => 0 <= n <= Zlen bytes /\ (whole = true -> n = Zlen bytes) /\ k' = (k <| sent := sent k ++ [take (Z.to_nat n) bytes] |>)
      | inr _ => k' = k
      end
  | SysGetRandom size => fun r k' => match r with inl bytes => bytes_ok bytes /\ Zlen bytes <= size | inr _ => True end /\ k' = k
  | Now | RandomDevice => fun _ k' => k' = k
  | Ambient local_ip s frame => fun '(_, isn1, isn2) k' => input_ok local_ip s frame isn1 isn2 /\ k' = k
  | Undefined => fun _ _ => False
  end.

Definition kernel (whole : bool) (may_send : list Z -> Prop) : EventSpec sysE Kernel :=
  {| requires T e k := kernel_requires may_send e k; answers T e k a k' := kernel_answers whole e k a k' |}.

(** A kernel that takes whole frames has only got frames that may be sent. *)
Lemma wp_sent may_send {R} (t : itree sysE R) (Q : R -> Kernel -> Prop) k t' k' : wp (spec := kernel true may_send) t Q k ->
  reaches (spec := kernel true may_send) t k t' k' -> Forall may_send (sent k) -> Forall may_send (sent k').
Proof.
  intros Ht H. induction H as [|t u k t' k' Ho _ IH|T e h a t k k1 t' k' Ho Ha Hr IH]; [done| |].
  - apply IH. eapply wp_reaches; [exact Ht|]. eapply reaches_tau; [exact Ho | constructor].
  - pose proof (wp_allowed _ _ _ _ _ Ht (reaches_refl _ _)) as Hreq. unfold allowed_next in Hreq. rewrite Ho in Hreq.
    assert (Hw : wp (spec := kernel true may_send) (h a) Q k1) by (eapply wp_reaches; [exact Ht | by eapply reaches_vis; [..|constructor]]).
    intros Hk. apply IH; [done|]. clear IH Hr Ho Ht Hw. destruct e as [|fd name|fd|fd ms|fd size|fd bytes|size| | |ip s frame|]; simpl in Ha.
    + destruct a; [by destruct Ha as (_ & _ & ->) | by subst].
    + by destruct Ha as [_ ->].
    + by subst.
    + by destruct Ha as [_ ->].
    + by destruct Ha as [_ ->].
    + destruct a as [n|e]; [|by subst]. destruct Ha as (_ & Hn & ->). simpl. apply Forall_app. split; [done|]. apply Forall_singleton.
      rewrite (Hn eq_refl), take_ge; [apply Hreq | unfold Zlen; lia].
    + by destruct Ha as [_ ->].
    + by subst.
    + by subst.
    + destruct a as [[? ?] ?], Ha as [_ ->]. done.
    + done.
Qed.

(** ** Running a program

    [respond] gives the answer to an event, and the next state of a simulated
    environment; the run stops after [fuel] steps. *)
Fixpoint run {X R} (respond : forall T, sysE T -> X -> option (T * X)) (fuel : nat) (t : itree sysE R) (x : X) : option R * X :=
  match fuel with
  | O => (None, x)
  | S fuel =>
      match observe t with
      | RetF r => (Some r, x)
      | TauF t => run respond fuel t x
      | VisF e k => match respond _ e x with Some (a, x) => run respond fuel (k a) x | None => (None, x) end
      end
  end.

(** A run with answers that the kernel may give is one of the program's runs. *)
Lemma run_reaches {X R} {spec : EventSpec sysE Kernel} (Sim : X -> Kernel -> Prop) respond fuel (t : itree sysE R) x k r x' :
  (forall T (e : sysE T) x k a x', Sim x k -> respond T e x = Some (a, x') -> exists k', answers e k a k' /\ Sim x' k') ->
  Sim x k -> run respond fuel t x = (Some r, x') -> exists t' k', reaches t k t' k' /\ observe t' = RetF r /\ Sim x' k'.
Proof.
  intros Hresp. revert t x k. induction fuel as [|fuel IH]; intros t x k Hs Hr; [done|]. simpl in Hr.
  destruct (observe t) as [r0|t0|T e h] eqn:Ho.
  - injection Hr as -> ->. exists t, k. split; [constructor | done].
  - destruct (IH t0 x k Hs Hr) as (t' & k' & H1 & H2). exists t', k'. split; [by eapply reaches_tau | done].
  - destruct (respond T e x) as [[a x1]|] eqn:Ea; [|done]. destruct (Hresp T e x k a x1 Hs Ea) as (k1 & Hk & Hs1).
    destruct (IH (h a) x1 k1 Hs1 Hr) as (t' & k' & H1 & H2). exists t', k'. split; [by eapply reaches_vis | done].
Qed.

(** An environment with one device, on which the given frames arrive and which
    then fails; at time 0 all along, and without initial sequence numbers. *)
Definition simulated (T : Type) (e : sysE T) (x : Kernel * list (list Z)) : option (T * (Kernel * list (list Z))) :=
  let '(k, frames) := x in
  match e in sysE T return option (T * (Kernel * list (list Z))) with
  | SysOpen => if bool_decide (3 ∈ open_fds k) then Some (inr 24, x) else Some (inl 3, (k <| open_fds := {[3]} ∪ open_fds k |>, frames))
  | SysIoctl _ ifr_name => Some (if Zlen ifr_name =? 16 then inl ifr_name else inr 22, x)
  | SysClose fd => Some (tt, (k <| open_fds := open_fds k ∖ {[fd]} |>, frames))
  | SysPoll _ _ => Some (match frames with [] => inr 5 | _ => inl 1 end, x)
  | SysRead _ size =>
      match frames with
      | [] => Some (inr 5, x)
      | bytes :: frames => if size <? 0 then None else Some (inl (take (Z.to_nat size) bytes), (k, frames))
      end
  | SysWrite _ bytes => Some (inl (Zlen bytes), (k <| sent := sent k ++ [take (Z.to_nat (Zlen bytes)) bytes] |>, frames))
  | SysGetRandom _ => Some (inr 38, x)
  | Now | RandomDevice => Some (0, x)
  | Ambient _ s frame =>
      match connections (tcp_connections s), frame with
      | [], Some bytes => if forallb (fun b => (0 <=? b) && (b <? 256)) bytes then Some ((mkClock 0 0 0 0 0 0 0, None, None), x) else None
      | [], None => Some ((mkClock 0 0 0 0 0 0 0, None, None), x)
      | _, _ => None
      end
  | Undefined => None
  end.

Definition simulates (x : Kernel * list (list Z)) (k : Kernel) : Prop := fst x = k /\ Forall bytes_ok (snd x).

Lemma simulated_sound may_send T (e : sysE T) x k a x' : simulates x k -> simulated T e x = Some (a, x') ->
  exists k', answers (EventSpec := kernel true may_send) e k a k' /\ simulates x' k'.
Proof.
  destruct x as [k0 frames]. intros [<- Hf] H. destruct e; simpl in H.
  - case_bool_decide; simplify_eq; eexists; (split; [|done]); by simpl.
  - injection H as <- <-. exists k0. split; [|done]. simpl. destruct (Z.eqb_spec (Zlen ifr_name) 16); by simpl.
  - injection H as <- <-. eexists. split; [|done]. done.
  - injection H as <- <-. exists k0. split; [|done]. by destruct frames.
  - destruct frames as [|bytes frames]; [by simplify_eq; exists k0|]. destruct (Z.ltb_spec size 0); simplify_eq. exists k0. apply Forall_cons in Hf as [Hb Hf]. split; [|done]. simpl.
    split; [|done]. split; [by apply Forall_take|]. unfold Zlen. rewrite length_take. lia.
  - injection H as <- <-. eexists. split; [|done]. simpl. pose proof (Zlen_nonneg bytes). split; [lia | done].
  - injection H as <- <-. by exists k0.
  - injection H as <- <-. by exists k0.
  - injection H as <- <-. by exists k0.
  - destruct (connections _) eqn:Ec; [|done].
    assert (H' : (forall bytes, frame = Some bytes -> bytes_ok bytes) /\ a = (mkClock 0 0 0 0 0 0 0, None, None) /\ x' = (k0, frames)).
    { destruct frame as [bytes|]; [|by simplify_eq]. destruct (forallb _ bytes) eqn:Eb; [|done]. simplify_eq. split; [|done]. intros ? [= <-].
      apply Forall_forall. intros b Hb. apply (proj1 (forallb_forall _ bytes)) with (x := b) in Eb; [unfold is_u8; lia | by apply list_elem_of_In]. }
    destruct H' as (Hb & -> & ->). exists k0. split; [|done]. split; [|done]. constructor; [|done|done].
    intros bytes E. split; [by apply Hb|]. intros f p _ _ seg c _ Hc. by rewrite Ec in Hc.
  - done.
Qed.
