(* ===== verification/TapDevice.v ===== *)
(** * The TAP device ([src/src/tap_device.cpp], [src/include/wirestack/tap_device.hpp])

    The device owns a file descriptor; its operations retry interrupted
    calls, and moving a device moves the descriptor. *)

From Stdlib Require Import String Ascii.
From stdpp Require Import gmap.
From ITree Require Import Core.ITreeDefinition.
From S2P Require Import Prelude Text SysCalls.

Definition kMaxInterfaceNameLength : Z := 15.
Definition fitsInterfaceName (name : list Z) : bool := Zlen name <=? kMaxInterfaceNameLength.

Record TapDevice := mkTap { fd_ : Z; name_ : list Z }.
#[export] Instance eta_TapDevice : Eta TapDevice := fun d => mkTap (fd_ d) (name_ d).

Definition TapOpenError : Type := list Z.

(** A character array read as a C string. *)
Fixpoint c_string (buffer : list Z) : list Z :=
  match buffer with
  | [] => []
  | c :: buffer => if c =? 0 then [] else c :: c_string buffer
  end.

Section Device.
(** [std::strerror], and what a moved-from [std::string] holds. *)
Context (strerror : Z -> list Z) (moved_from : list Z -> list Z).

Definition formatErrno (context : list Z) (err : Z) : list Z := context ++ str ": " ++ strerror err.

(** ** Ownership *)

(** The move constructor: the new device and what is left of the old one. *)
Definition moveConstruct (other : TapDevice) : TapDevice * TapDevice :=
  (mkTap (fd_ other) (name_ other), mkTap (-1) (moved_from (name_ other))).

Definition destroy (self : TapDevice) : itree sysE unit :=
  if 0 <=? fd_ self then ITree.trigger (SysClose (fd_ self)) else Ret tt.

(** The move assignment; [same] is [this == &other]. The device assigned to
    is left without a descriptor first, as by its destructor. *)
Definition moveAssign (same : bool) (self other : TapDevice) : itree sysE (TapDevice * TapDevice) :=
  if negb same then
    do _ <- (if 0 <=? fd_ self then ITree.trigger (SysClose (fd_ self)) else Ret tt);
    Ret (mkTap (fd_ other) (name_ other), mkTap (-1) (moved_from (name_ other)))
  else Ret (self, other).

(** The [ifreq] starts zeroed; the name is copied without its terminator. *)
Definition ifr_name (name : list Z) : list Z :=
  let copied := take (Z.to_nat kMaxInterfaceNameLength) name in copied ++ replicate (16 - length copied) 0.

(** The device is constructed, moved into the result, and the temporary
    destroyed. *)
Definition openDevice (requested_name : list Z) : itree sysE (TapDevice + TapOpenError) :=
  if negb (fitsInterfaceName requested_name) then Ret (inr (str "interface name too long: " ++ requested_name)) else
  do r <- ITree.trigger SysOpen;
  match r with
  | inr errno => Ret (inr (formatErrno (str "failed to open /dev/net/tun") errno))
  | inl fd =>
      do r <- ITree.trigger (SysIoctl fd (ifr_name requested_name));
      match r with
      | inr errno =>
          do _ <- ITree.trigger (SysClose fd);
          Ret (inr (formatErrno (str "TUNSETIFF failed") errno))
      | inl name =>
          let '(result, temporary) := moveConstruct (mkTap fd (c_string name)) in
          do _ <- destroy temporary;
          Ret (inl result)
      end
  end.

(** ** Input and output *)

Definition waitReadable (self : TapDevice) (timeout_ms : Z) : itree sysE (bool + list Z) :=
  ITree.iter (fun _ : unit =>
    do r <- ITree.trigger (SysPoll (fd_ self) timeout_ms);
    Ret (match r with
         | inl result => if 0 <? result then inr (inl true) else inr (inl false)
         | inr errno => if errno =? EINTR then inl tt else inr (inr (formatErrno (str "TAP poll failed") errno))
         end)) tt.

(** The bytes read into a buffer of [size] bytes. *)
Definition readFrame (self : TapDevice) (size : Z) : itree sysE (list Z + list Z) :=
  ITree.iter (fun _ : unit =>
    do r <- ITree.trigger (SysRead (fd_ self) size);
    Ret (match r with
         | inl bytes => inr (inl bytes)
         | inr errno => if errno =? EINTR then inl tt else inr (inr (formatErrno (str "TAP read failed") errno))
         end)) tt.

(** One turn of the loop that writes a frame. *)
Definition writeSome (self : TapDevice) (frame : list Z) (total_written : Z) : itree sysE (Z + (Z + list Z)) :=
  if total_written <? Zlen frame then
    do r <- ITree.trigger (SysWrite (fd_ self) (drop (Z.to_nat total_written) frame));
    Ret (match r with
         | inr errno => if errno =? EINTR then inl total_written else inr (inr (formatErrno (str "TAP write failed") errno))
         | inl n => inl (total_written + n)
         end)
  else Ret (inr (inl total_written)).

Definition writeFrame (self : TapDevice) (frame : list Z) : itree sysE (Z + list Z) := ITree.iter (writeSome self frame) 0.

(** ** What the operations guarantee *)

Section Calls.
Context (whole : bool) (may_send : list Z -> Prop).
#[local] Instance device_kernel : EventSpec sysE Kernel := kernel whole may_send.

Ltac call := apply wp_trigger; [simpl; auto | simpl].

Lemma wp_close_fd fd k : fd ∈ open_fds k ->
  wp (ITree.trigger (SysClose fd)) (fun _ k' => k' = (k <| open_fds := open_fds k ∖ {[fd]} |>)) k.
Proof. intros H. call. done. Qed.

(** A descriptor is opened exactly when a device is returned. *)
Lemma wp_openDevice name k : wp (openDevice name) (fun r k' =>
  match r with
  | inl d => 0 <= fd_ d /\ (fd_ d ∉ open_fds k) /\ k' = (k <| open_fds := {[fd_ d]} ∪ open_fds k |>)
  | inr _ => k' = k
  end) k.
Proof.
  unfold openDevice. destruct (negb (fitsInterfaceName name)) eqn:En; [by apply wp_ret|].
  eapply wp_bind; [call; intros a s' H; exact H|]. intros [fd|e] k1; simpl; [|intros ->; by apply wp_ret]. intros (H0 & Hn & ->).
  eapply wp_bind; [call; [|intros a s' H; exact H]|].
  - split; [set_solver|]. unfold ifr_name, Zlen. rewrite length_app, length_replicate, length_take. unfold kMaxInterfaceNameLength. lia.
  - intros [buffer|e] k1; simpl; intros [_ ->]; [by apply wp_bind_ret, wp_ret|].
    eapply wp_bind; [apply wp_close_fd; set_solver|]. intros _ k1 ->. apply wp_ret. destruct k as [fds out]. simpl in *. unfold update; simpl.
    f_equal. set_solver.
Qed.

Lemma wp_destroy d k : (0 <= fd_ d -> fd_ d ∈ open_fds k) ->
  wp (destroy d) (fun _ k' => k' = (k <| open_fds := if 0 <=? fd_ d then open_fds k ∖ {[fd_ d]} else open_fds k |>)) k.
Proof.
  intros H. unfold destroy. destruct (Z.leb_spec 0 (fd_ d)); [by apply wp_close_fd, H|]. apply wp_ret. by destruct k.
Qed.

Lemma wp_waitReadable d timeout_ms k : fd_ d ∈ open_fds k -> -1 <= timeout_ms < 2 ^ 31 -> wp (waitReadable d timeout_ms) (fun _ k' => k' = k) k.
Proof.
  intros Hfd Hms. apply (wp_iter _ (fun _ k' => k' = k)); [done|]. intros _ _ ->.
  eapply wp_bind; [call; intros a s' H; exact H|]. intros r k' [_ ->]. apply wp_ret. destruct r as [n|e]; [by destruct (0 <? n) | by destruct (e =? EINTR)].
Qed.

Lemma wp_readFrame d size k : fd_ d ∈ open_fds k -> 0 < size ->
  wp (readFrame d size) (fun r k' => k' = k /\ forall bytes, r = inl bytes -> bytes_ok bytes /\ Zlen bytes <= size) k.
Proof.
  intros Hfd Hs. apply (wp_iter _ (fun _ k' => k' = k)); [done|]. intros _ _ ->.
  eapply wp_bind; [call; intros a s' H; exact H|]. intros r k' [H ->]. apply wp_ret. destruct r as [bytes|e]; [by split; [|intros ? [= <-]]|].
  by destruct (e =? EINTR).
Qed.

(** The bytes taken by the kernel are a prefix of the frame, all of it when
    the operation succeeds; a kernel that takes whole frames gets the frame in
    one piece or, when the operation fails, nothing of it. *)
Lemma wp_writeFrame d frame k : fd_ d ∈ open_fds k -> (forall n, 0 <= n < Zlen frame -> (whole = true -> n = 0) -> may_send (drop (Z.to_nat n) frame)) ->
  wp (writeFrame d frame) (fun r k' => exists chunks, k' = (k <| sent := sent k ++ chunks |>) /\ concat chunks `prefix_of` frame /\
    (whole = true -> 0 < Zlen frame -> chunks = match r with inl _ => [frame] | inr _ => [] end) /\
    forall n, r = inl n -> n = Zlen frame /\ concat chunks = frame) k.
Proof.
  intros Hfd Hsend. apply (wp_iter _ (fun n k' => exists chunks, k' = (k <| sent := sent k ++ chunks |>) /\ 0 <= n <= Zlen frame /\
    concat chunks = take (Z.to_nat n) frame /\ (whole = true -> chunks = [] /\ n = 0 \/ chunks = [frame] /\ n = Zlen frame))).
  { exists []. rewrite app_nil_r. split; [by destruct k|]. pose proof (Zlen_nonneg frame). split; [lia|]. split; [done|]. intros _. by left. }
  intros n k1 (chunks & -> & Hn & Hc & Hw). unfold writeSome. destruct (Z.ltb_spec n (Zlen frame)) as [Hlt|Hge].
  - eapply wp_bind.
    { apply wp_trigger; [|intros a s' H; exact H]. simpl. split; [done|]. apply Hsend; [lia|]. intros Ht. destruct (Hw Ht) as [[_ ?]|[_ ?]]; lia. }
    intros [m|e] k1; simpl.
    + intros (Hm & Hm' & ->). apply wp_ret. exists (chunks ++ [take (Z.to_nat m) (drop (Z.to_nat n) frame)]).
      assert (Hld : Zlen (drop (Z.to_nat n) frame) = Zlen frame - n) by (unfold Zlen in *; rewrite length_drop; lia).
      split; [by destruct k; rewrite app_assoc|]. split; [lia|]. split.
      * rewrite concat_app, Hc. simpl. rewrite app_nil_r, Z2Nat.inj_add, <- take_take_drop by lia. done.
      * intros Ht. specialize (Hm' Ht). destruct (Hw Ht) as [[-> ->]|[_ ?]]; [|lia]. right. simpl. rewrite drop_0 in *. split; [|lia].
        rewrite take_ge; [done|]. unfold Zlen in *. lia.
    + intros ->. apply wp_ret. destruct (e =? EINTR); [by exists chunks|]. exists chunks. split_and!; [done | | |done].
      * rewrite Hc. apply prefix_take.
      * intros Ht _. destruct (Hw Ht) as [[-> _]|[_ ?]]; [done | lia].
  - apply wp_ret. exists chunks. assert (n = Zlen frame) as -> by lia. assert (Hall : concat chunks = frame).
    { rewrite Hc, take_ge; [done|]. unfold Zlen. lia. }
    split_and!; [done | by rewrite Hall | | by intros ? [= <-]]. intros Ht Hpos. destruct (Hw Ht) as [[_ ?]|[-> _]]; [lia | done].
Qed.

(** ** Objects

    What a program can do with device objects: open one, construct one by
    moving another, assign one to another by moving, destroy one. *)

Inductive object_op :=
| OpOpen (id : nat) (name : list Z)
| OpMove (new old : nat)
| OpAssign (target source : nat)
| OpDestroy (id : nat).

(** An operation that names an object that does not exist, or constructs one
    that does, is no C++ program and does nothing. *)
Definition exec_object (objects : gmap nat TapDevice) (op : object_op) : itree sysE (gmap nat TapDevice) :=
  match op with
  | OpOpen id name =>
      match objects !! id with
      | Some _ => Ret objects
      | None => do r <- openDevice name; Ret (match r with inl d => <[id := d]> objects | inr _ => objects end)
      end
  | OpMove new old =>
      match objects !! new, objects !! old with
      | None, Some d => let '(d1, d2) := moveConstruct d in Ret (<[new := d1]> (<[old := d2]> objects))
      | _, _ => Ret objects
      end
  | OpAssign target source =>
      match objects !! target, objects !! source with
      | Some d, Some other => do r <- moveAssign (bool_decide (target = source)) d other; Ret (<[target := fst r]> (<[source := snd r]> objects))
      | _, _ => Ret objects
      end
  | OpDestroy id =>
      match objects !! id with
      | Some d => do _ <- destroy d; Ret (delete id objects)
      | None => Ret objects
      end
  end.

Fixpoint exec_objects (objects : gmap nat TapDevice) (ops : list object_op) : itree sysE (gmap nat TapDevice) :=
  match ops with
  | [] => Ret objects
  | op :: ops => do objects <- exec_object objects op; exec_objects objects ops
  end.

(** The open descriptors are those the objects own, each owned by one. *)
Record owns (objects : gmap nat TapDevice) (k : Kernel) : Prop := {
  ow_open : forall id d, objects !! id = Some d -> 0 <= fd_ d -> fd_ d ∈ open_fds k;
  ow_owner : forall fd, fd ∈ open_fds k -> 0 <= fd /\ exists id d, objects !! id = Some d /\ fd_ d = fd;
  ow_unique : forall i j d e, objects !! i = Some d -> objects !! j = Some e -> 0 <= fd_ d -> fd_ d = fd_ e -> i = j
}.

(** Handing a descriptor from one object to another. *)
Lemma owns_transfer objects k i j e name1 name2 : i <> j -> owns objects k -> objects !! j = Some e ->
  (forall d, objects !! i = Some d -> fd_ d < 0) ->
  owns (<[i := mkTap (fd_ e) name1]> (<[j := mkTap (-1) name2]> objects)) k.
Proof.
  intros Hij [H1 H2 H3] He Hneg. constructor.
  - intros id x. destruct (decide (id = i)) as [->|Hne]; [rewrite lookup_insert_eq; intros [= <-]; simpl; by apply (H1 j)|].
    rewrite lookup_insert_ne by done. destruct (decide (id = j)) as [->|Hne2]; [rewrite lookup_insert_eq; intros [= <-]; simpl; lia|].
    rewrite lookup_insert_ne by done. apply H1.
  - intros fd Hfd. destruct (H2 fd Hfd) as (Hpos & id & x & Hx & Ex). split; [done|]. destruct (decide (id = j)) as [->|Hne].
    + exists i. eexists. rewrite lookup_insert_eq. split; [done|]. simpl. congruence.
    + exists id, x. destruct (decide (id = i)) as [->|Hne2]; [specialize (Hneg x Hx); lia|]. by rewrite !lookup_insert_ne.
  - assert (Hother : forall id x, id <> i -> (<[i := mkTap (fd_ e) name1]> (<[j := mkTap (-1) name2]> objects)) !! id = Some x -> 0 <= fd_ x ->
      id <> j /\ objects !! id = Some x).
    { intros id x Hne. rewrite lookup_insert_ne by done. destruct (decide (id = j)) as [->|]; [rewrite lookup_insert_eq; intros [= <-]; simpl; lia|].
      by rewrite lookup_insert_ne. }
    intros a b x y Ha Hb Hpos Heq. destruct (decide (a = i)) as [->|Hai], (decide (b = i)) as [->|Hbi]; [done| | |].
    + rewrite lookup_insert_eq in Ha. injection Ha as <-. simpl in *. destruct (Hother b y Hbi Hb ltac:(lia)) as [Hbj Hy]. destruct Hbj. by apply (H3 b j y e); try lia.
    + rewrite lookup_insert_eq in Hb. injection Hb as <-. simpl in *. destruct (Hother a x Hai Ha Hpos) as [Haj Hx]. destruct Haj. by apply (H3 a j x e).
    + destruct (Hother a x Hai Ha Hpos) as [_ Hx]. destruct (Hother b y Hbi Hb ltac:(lia)) as [_ Hy]. by apply (H3 a b x y).
Qed.

(** Closing the descriptor of an object, and forgetting an empty object. *)
Lemma owns_close objects k i d name : owns objects k -> objects !! i = Some d ->
  owns (<[i := mkTap (-1) name]> objects) (k <| open_fds := if 0 <=? fd_ d then open_fds k ∖ {[fd_ d]} else open_fds k |>).
Proof.
  intros [H1 H2 H3] Hd.
  assert (Hother : forall id x, <[i := mkTap (-1) name]> objects !! id = Some x -> 0 <= fd_ x -> id <> i /\ objects !! id = Some x).
  { intros id x. destruct (decide (id = i)) as [->|]; [rewrite lookup_insert_eq; intros [= <-]; simpl; lia|]. by rewrite lookup_insert_ne. }
  constructor; simpl.
  - intros id x Hx Hpos. destruct (Hother id x Hx Hpos) as [Hne Hx']. specialize (H1 id x Hx' Hpos). destruct (0 <=? fd_ d); [|done].
    apply elem_of_difference. split; [done|]. rewrite elem_of_singleton. intros E. destruct Hne. by apply (H3 id i x d).
  - intros fd Hfd. assert (Hin : fd ∈ open_fds k /\ (0 <= fd_ d -> fd <> fd_ d)).
    { destruct (Z.leb_spec 0 (fd_ d)); [|split; [done | lia]]. apply elem_of_difference in Hfd as [? ?]. split; [done|]. rewrite elem_of_singleton in *. done. }
    destruct Hin as [Hin Hne]. destruct (H2 fd Hin) as (Hpos & id & x & Hx & Ex). split; [done|]. exists id, x. split; [|done].
    rewrite lookup_insert_ne; [done|]. intros <-. rewrite Hd in Hx. injection Hx as ->. by apply Hne; [lia|].
  - intros a b x y Ha Hb Hpos E. apply Hother in Ha as [_ Ha]; [|done]. apply Hother in Hb as [_ Hb]; [|lia]. by apply (H3 a b x y).
Qed.

Lemma owns_delete objects k i d : owns objects k -> objects !! i = Some d -> fd_ d < 0 -> owns (delete i objects) k.
Proof.
  intros [H1 H2 H3] Hd Hneg. constructor.
  - intros id x Hx. apply lookup_delete_Some in Hx as [_ Hx]. by apply (H1 id x).
  - intros fd Hfd. destruct (H2 fd Hfd) as (Hpos & id & x & Hx & Ex). split; [done|]. exists id, x. split; [|done].
    rewrite lookup_delete_ne; [done|]. intros <-. rewrite Hd in Hx. injection Hx as ->. lia.
  - intros a b x y Ha Hb. apply lookup_delete_Some in Ha as [_ Ha]. apply lookup_delete_Some in Hb as [_ Hb]. by apply (H3 a b x y).
Qed.

Lemma owns_open objects k i d : owns objects k -> objects !! i = None -> 0 <= fd_ d -> fd_ d ∉ open_fds k ->
  owns (<[i := d]> objects) (k <| open_fds := {[fd_ d]} ∪ open_fds k |>).
Proof.
  intros [H1 H2 H3] Hi Hpos Hnew. constructor; simpl.
  - intros id x. destruct (decide (id = i)) as [->|]; [rewrite lookup_insert_eq; intros [= <-]; set_solver|].
    rewrite lookup_insert_ne by done. intros Hx Hp. specialize (H1 id x Hx Hp). set_solver.
  - intros fd Hfd. apply elem_of_union in Hfd as [Hfd|Hfd].
    + apply elem_of_singleton in Hfd as ->. split; [done|]. exists i, d. by rewrite lookup_insert_eq.
    + destruct (H2 fd Hfd) as (Hp & id & x & Hx & Ex). split; [done|]. exists id, x. split; [|done]. rewrite lookup_insert_ne; [done|]. congruence.
  - assert (Hfresh : forall id x, objects !! id = Some x -> 0 <= fd_ x -> fd_ x <> fd_ d) by (intros id x Hx Hp E; specialize (H1 id x Hx Hp); congruence).
    intros a b x y. destruct (decide (a = i)) as [->|], (decide (b = i)) as [->|]; rewrite ?lookup_insert_eq, ?lookup_insert_ne by done; [done| | |apply H3].
    + intros [= <-] Hb _ E. by destruct (Hfresh b y Hb); [lia|].
    + intros Ha [= <-] Hp E. by destruct (Hfresh a x Ha).
Qed.

Lemma wp_exec_object objects op k : owns objects k -> wp (exec_object objects op) owns k.
Proof.
  intros H. destruct op as [id name|new old|target source|id]; simpl.
  - destruct (objects !! id) eqn:E; [by apply wp_ret|]. eapply wp_bind; [apply wp_openDevice|]. intros [d|e] k'; simpl; [|by intros ->; apply wp_ret].
    intros (H0 & Hn & ->). apply wp_ret. by apply owns_open.
  - destruct (objects !! new) eqn:En; [by apply wp_ret|]. destruct (objects !! old) as [d|] eqn:Eo; [|by apply wp_ret]. apply wp_ret.
    apply owns_transfer; [congruence | done | done | by rewrite En].
  - destruct (objects !! target) as [d|] eqn:Ed; [|by apply wp_ret]. destruct (objects !! source) as [other|] eqn:Eo; [|by apply wp_ret].
    unfold moveAssign. destruct (bool_decide_reflect (target = source)) as [<-|Hne]; simpl.
    { apply wp_bind_ret, wp_ret. simpl. assert (other = d) as -> by congruence. by rewrite insert_insert_eq, insert_id. }
    apply (wp_bind _ _ (fun r k' => r = (mkTap (fd_ other) (name_ other), mkTap (-1) (moved_from (name_ other))) /\
      k' = (k <| open_fds := if 0 <=? fd_ d then open_fds k ∖ {[fd_ d]} else open_fds k |>))).
    { eapply wp_bind; [apply (wp_destroy d); by apply (ow_open _ _ H target)|]. intros _ k' ->. by apply wp_ret. }
    intros r k' [-> ->]. apply wp_ret. simpl.
    pose proof (owns_close objects k target d [] H Ed) as Hc.
    apply (fun Hc => owns_transfer _ _ target source other (name_ other) (moved_from (name_ other)) Hne Hc) in Hc;
      [|by rewrite lookup_insert_ne | intros x; rewrite lookup_insert_eq; by intros [= <-]].
    by rewrite (insert_insert_ne _ source target), insert_insert_eq in Hc by done.
  - destruct (objects !! id) as [d|] eqn:E; [|by apply wp_ret]. eapply wp_bind; [apply wp_destroy; by apply (ow_open _ _ H id)|].
    intros _ k' ->. apply wp_ret. pose proof (owns_close objects k id d [] H E) as Hc.
    eapply owns_delete in Hc; [|apply lookup_insert_eq | simpl; lia]. by rewrite delete_insert_eq in Hc.
Qed.

Lemma wp_exec_objects objects ops k : owns objects k -> wp (exec_objects objects ops) owns k.
Proof.
  revert objects k. induction ops as [|op ops IH]; intros objects k H; simpl; [by apply wp_ret|].
  eapply wp_bind; [by apply wp_exec_object|]. exact IH.
Qed.

Lemma owns_initial : owns ∅ initial_kernel.
Proof. by constructor. Qed.

(** C31 (invariant). Whatever a program does with device objects (opening them, moving
    them in and out of each other, assigning over open ones, destroying them,
    in any order, with any answers of the kernel, failures included), no
    descriptor is used or closed that is not open at that moment, and when the
    program is done the open descriptors are exactly those the remaining
    objects own, each owned by exactly one: nothing is closed twice and
    nothing leaks. *)
Theorem tap_device_ownership ops t k : reaches (exec_objects ∅ ops) initial_kernel t k ->
  allowed_next (fun objects k => forall fd,
    fd ∈ open_fds k <-> 0 <= fd /\ exists! id, exists d, objects !! id = Some d /\ fd_ d = fd) t k.
Proof.
  intros H. refine (wp_allowed _ _ _ _ _ (wp_mono _ owns _ _ _ (wp_exec_objects ∅ ops _ owns_initial)) H).
  intros objects k' [H1 H2 H3] fd. split.
  - intros Hfd. destruct (H2 fd Hfd) as (Hpos & id & d & Hd & <-). split; [done|]. exists id. split; [by exists d|].
    intros j (e & He & E). by apply (H3 id j d e).
  - intros [Hpos (id & (d & Hd & <-) & _)]. by apply (H1 id d).
Qed.

End Calls.

(** ** Interrupted calls

    An environment that plays a script of answers, and keeps the bytes taken
    by the writes. *)

Inductive answer :=
| Fails (errno : Z)
| Transfers (n : Z)
| Delivers (bytes : list Z).

Definition scripted (T : Type) (e : sysE T) (x : list answer * list (list Z)) : option (T * (list answer * list (list Z))) :=
  match e in sysE T return option (T * (list answer * list (list Z))) with
  | SysPoll _ _ =>
      match x with
      | (Fails errno :: script, out) => Some (inr errno, (script, out))
      | (Transfers n :: script, out) => Some (inl n, (script, out))
      | _ => None
      end
  | SysRead _ size =>
      match x with
      | (Fails errno :: script, out) => Some (inr errno, (script, out))
      | (Delivers bytes :: script, out) => Some (inl (take (Z.to_nat size) bytes), (script, out))
      | _ => None
      end
  | SysWrite _ bytes =>
      match x with
      | (Fails errno :: script, out) => Some (inr errno, (script, out))
      | (Transfers n :: script, out) => Some (inl (Z.min n (Zlen bytes)), (script, out ++ [take (Z.to_nat n) bytes]))
      | _ => None
      end
  | _ => None
  end.

(** The answers after which a write goes on, and how much they let through. *)
Definition goes_on (a : answer) : Prop := a = Fails EINTR \/ exists n, a = Transfers n /\ 0 <= n.
Fixpoint transferred (script : list answer) : Z :=
  match script with
  | Transfers n :: script => n + transferred script
  | _ :: script => transferred script
  | [] => 0
  end.

Lemma transferred_nonneg script : Forall goes_on script -> 0 <= transferred script.
Proof. induction 1 as [|a script [->|(n & -> & Hn)] _ IH]; simpl; lia. Qed.

Lemma run_interrupted {R} (t : itree sysE R) n a rest out fuel :
  (forall script fuel, run scripted (S (S fuel)) t (Fails EINTR :: script, out) = run scripted fuel t (script, out)) ->
  run scripted (2 * n + fuel) t (replicate n (Fails EINTR) ++ a :: rest, out) = run scripted fuel t (a :: rest, out).
Proof.
  intros H. induction n as [|n IH]; [done|]. replace (2 * S n + fuel)%nat with (S (S (2 * n + fuel))) by lia. simpl app. by rewrite H.
Qed.

(** The write loop from its state [n]: it is done, it goes on, it fails. *)
Lemma run_write_done d frame x fuel : run scripted (S fuel) (ITree.iter (writeSome d frame) (Zlen frame)) x = (Some (inl (Zlen frame)), x).
Proof. simpl. unfold observe. simpl. unfold writeSome. by rewrite Z.ltb_irrefl. Qed.

Lemma run_write_step d frame n a script out fuel : n < Zlen frame ->
  run scripted (S (S fuel)) (ITree.iter (writeSome d frame) n) (a :: script, out) =
  match a with
  | Transfers m => run scripted fuel (ITree.iter (writeSome d frame) (n + Z.min m (Zlen (drop (Z.to_nat n) frame))))
                     (script, out ++ [take (Z.to_nat m) (drop (Z.to_nat n) frame)])
  | Fails e => if e =? EINTR then run scripted fuel (ITree.iter (writeSome d frame) n) (script, out)
               else (Some (inr (formatErrno (str "TAP write failed") e)), (script, out))
  | Delivers _ => (None, (a :: script, out))
  end.
Proof.
  intros Hn. unfold run at 1. fold (@run (list answer * list (list Z)) (Z + list Z)). unfold observe. simpl. unfold writeSome at 1.
  rewrite (proj2 (Z.ltb_lt _ _) Hn). destruct a as [e|m|bytes]; simpl; [|done|done]. by destruct (e =? EINTR).
Qed.

Lemma run_write d frame script e rest n out : e <> EINTR -> Forall goes_on script -> 0 <= n <= Zlen frame ->
  exists left chunks, run scripted (2 * length script + 2) (ITree.iter (writeSome d frame) n) (script ++ Fails e :: rest, out) =
    (Some (if Zlen frame <=? n + transferred script then inl (Zlen frame) else inr (formatErrno (str "TAP write failed") e)), (left, out ++ chunks)) /\
  concat chunks = take (Z.to_nat (transferred script)) (drop (Z.to_nat n) frame).
Proof.
  intros He Hs. revert n out. induction Hs as [|a script Ha Hs IH]; intros n out Hn.
  all: destruct (decide (n = Zlen frame)) as [->|Hne].
  1, 3: simpl length; rewrite Nat.add_comm; simpl plus; rewrite run_write_done; eexists _, []; rewrite app_nil_r;
    rewrite drop_ge, take_nil by (unfold Zlen; lia); split; [|done].
  1: by rewrite (proj2 (Z.leb_le _ _)) by (simpl; lia).
  1: rewrite (proj2 (Z.leb_le _ _)); [done|]; pose proof (transferred_nonneg (a :: script) (Forall_cons_2 _ _ _ Ha Hs)); lia.
  - simpl app. change (2 * length (@nil answer) + 2)%nat with 2%nat. rewrite run_write_step by lia. rewrite (proj2 (Z.eqb_neq _ _) He), (proj2 (Z.leb_gt _ _)) by (simpl; lia).
    exists rest, []. by rewrite app_nil_r.
  - simpl length. replace (2 * S (length script) + 2)%nat with (S (S (2 * length script + 2))) by lia. simpl app. rewrite run_write_step by lia.
    pose proof (transferred_nonneg script Hs) as Ht. destruct Ha as [->|(m & -> & Hm)]; [by apply IH|].
    assert (Hl : Zlen (drop (Z.to_nat n) frame) = Zlen frame - n) by (unfold Zlen in *; rewrite length_drop; lia). rewrite Hl.
    destruct (IH (n + Z.min m (Zlen frame - n)) (out ++ [take (Z.to_nat m) (drop (Z.to_nat n) frame)])) as (left & chunks & -> & Hc); [lia|].
    exists left, (take (Z.to_nat m) (drop (Z.to_nat n) frame) :: chunks). rewrite <- app_assoc. simpl. split.
    + destruct (Z.leb_spec (Zlen frame) (n + Z.min m (Zlen frame - n) + transferred script)), (Z.leb_spec (Zlen frame) (n + (m + transferred script))); try done; lia.
    + rewrite Hc, (Z2Nat.inj_add m), <- take_take_drop, drop_drop by lia. f_equal. destruct (Z.min_spec m (Zlen frame - n)) as [[? ->]|[? ->]].
      * f_equal. f_equal. lia.
      * rewrite !drop_ge, !take_nil; [done | unfold Zlen in *; lia..].
Qed.

(** C32 (termination). A call that keeps being interrupted returns after the first answer
    that is not an interruption, within two steps for each answer: waiting
    says whether the device is readable, reading returns the bytes of one
    frame, at most the size of the buffer, and writing goes on over short
    writes until the whole frame is taken, in order, each byte once, and then
    returns its length; when the call fails first, the error is reported and
    what was taken is the beginning of the frame. *)
Theorem tap_calls_return (d : TapDevice) n e rest out : e <> EINTR ->
  (forall timeout_ms ready, run scripted (2 * n + 2) (waitReadable d timeout_ms) (replicate n (Fails EINTR) ++ Transfers ready :: rest, out) =
     (Some (inl (0 <? ready)), (rest, out))) /\
  (forall timeout_ms, run scripted (2 * n + 2) (waitReadable d timeout_ms) (replicate n (Fails EINTR) ++ Fails e :: rest, out) =
     (Some (inr (formatErrno (str "TAP poll failed") e)), (rest, out))) /\
  (forall size bytes, run scripted (2 * n + 2) (readFrame d size) (replicate n (Fails EINTR) ++ Delivers bytes :: rest, out) =
     (Some (inl (take (Z.to_nat size) bytes)), (rest, out))) /\
  (forall size, run scripted (2 * n + 2) (readFrame d size) (replicate n (Fails EINTR) ++ Fails e :: rest, out) =
     (Some (inr (formatErrno (str "TAP read failed") e)), (rest, out))) /\
  (forall frame script, Forall goes_on script -> exists left chunks,
     run scripted (2 * length script + 2) (writeFrame d frame) (script ++ Fails e :: rest, out) =
       (Some (if Zlen frame <=? transferred script then inl (Zlen frame) else inr (formatErrno (str "TAP write failed") e)), (left, out ++ chunks)) /\
     concat chunks = take (Z.to_nat (transferred script)) frame).
Proof.
  intros He. apply Z.eqb_neq in He as He'. split_and!; intros.
  1-4: rewrite run_interrupted by done; simpl; rewrite ?He'; try done; by destruct (0 <? ready).
  destruct (run_write d frame script e rest 0 out) as (left & chunks & Hr & Hc); [done..| pose proof (Zlen_nonneg frame); lia |]. by exists left, chunks.
Qed.

End Device.

(** Two interruptions, a short write, and the rest. *)
Lemma tap_calls_return_witness : exists left chunks,
  run scripted 10 (writeFrame (fun _ => []) (mkTap 3 (str "tap0")) [1; 2; 3; 4]) ([Fails EINTR; Transfers 3; Fails EINTR; Transfers 9] ++ [Fails 5], []) =
    (Some (inl 4), (left, chunks)) /\ concat chunks = [1; 2; 3; 4].
Proof.
  destruct (tap_calls_return (fun _ => []) (mkTap 3 (str "tap0")) 0 5 [] []) as (_ & _ & _ & _ & H); [done|].
  destruct (H [1; 2; 3; 4] [Fails EINTR; Transfers 3; Fails EINTR; Transfers 9]) as (left & chunks & Hr & Hc).
  { repeat apply Forall_cons_2; [by left | right; by exists 3 | by left | right; by exists 9 | constructor]. }
  exists left, chunks. split; [exact Hr | exact Hc].
Defined.

(** A device is opened, moved, and both objects are destroyed. *)
Lemma tap_device_ownership_witness : exists (t : itree sysE (gmap nat TapDevice)) (k : Kernel),
  observe t = RetF ∅ /\ allowed_next (spec := kernel true (fun _ => True)) (fun (objects : gmap nat TapDevice) k => forall fd,
    fd ∈ open_fds k <-> 0 <= fd /\ exists! id, exists d, objects !! id = Some d /\ fd_ d = fd) t k.
Proof.
  destruct (run_reaches (spec := kernel true (fun _ => True)) simulates simulated 10
    (exec_objects (fun _ => []) (fun _ => []) ∅ [OpOpen 0 (str "tap0"); OpMove 1 0; OpDestroy 0; OpDestroy 1]) (initial_kernel, []) initial_kernel ∅
    (initial_kernel, []) (simulated_sound _)) as (t & k & Hr & Ho & _); [by split | by vm_compute|].
  exists t, k. split; [exact Ho|]. exact (tap_device_ownership (fun _ => []) (fun _ => []) true (fun _ => True) _ t k Hr).
Defined.
