(* ===== verification/SystemIsn.v ===== *)
(** * Initial sequence numbers ([systemIsn] of src/src/tcp_connection.cpp)

    The default generator draws four bytes from the kernel, going on after
    interruptions and short answers. What it returns is what the connection
    table assumes of its generator. *)

From ITree Require Import Core.ITreeDefinition.
From S2P Require Import Prelude Checksum TcpInvariant SysCalls TapDevice.

(** The bytes of an [std::uint32_t], lowest first. *)
Fixpoint little_endian (bytes : list Z) : Z :=
  match bytes with
  | [] => 0
  | b :: bytes => b + 256 * little_endian bytes
  end.

(** One turn of the loop; [received] are the bytes of [value] filled so far. *)
Definition drawSome (received : list Z) : itree sysE (list Z + option Z) :=
  if Zlen received <? 4 then
    do r <- ITree.trigger (SysGetRandom (4 - Zlen received));
    Ret (match r with
         | inr errno => if errno =? EINTR then inl received else inr None
         | inl [] => inr None
         | inl bytes => inl (received ++ bytes)
         end)
  else Ret (inr (Some (little_endian received))).

Definition systemIsn : itree sysE (option Z) := ITree.iter drawSome [].

Lemma little_endian_range bytes : bytes_ok bytes -> 0 <= little_endian bytes < 256 ^ Zlen bytes.
Proof.
  induction 1 as [|b bytes Hb _ IH]; [by vm_compute|]. rewrite Zlen_cons. pose proof (Zlen_nonneg bytes). unfold is_u8 in Hb.
  replace (Zlen bytes + 1) with (1 + Zlen bytes) by lia. rewrite Z.pow_add_r by lia. simpl. lia.
Qed.

(** It only asks for the bytes that are missing, and a number it returns is an
    unsigned 32-bit number. *)
Lemma wp_systemIsn whole may_send k :
  wp (spec := kernel whole may_send) systemIsn (fun isn k' => isn_ok isn /\ k' = k) k.
Proof.
  apply (wp_iter _ (fun received k' => bytes_ok received /\ Zlen received <= 4 /\ k' = k)); [by split_and!; [constructor | by vm_compute |]|].
  intros received ? (Hb & Hl & ->). unfold drawSome. destruct (Z.ltb_spec (Zlen received) 4) as [Hlt|Hge].
  - eapply wp_bind; [apply wp_trigger; [simpl; lia | intros a k' H; exact H]|]. intros r k' [H ->]. apply wp_ret.
    destruct r as [[|b bytes]|e]; [done | | by destruct (e =? EINTR)]. destruct H as [H1 H2]. rewrite bytes_ok_app, Zlen_app. split_and!; [done | done | lia | done].
  - apply wp_ret. split; [|done]. intros v [= <-]. pose proof (little_endian_range received Hb) as H. replace (Zlen received) with 4 in H by lia. exact H.
Qed.

(** ** Interruptions and short answers *)

Definition random_scripted (T : Type) (e : sysE T) (script : list answer) : option (T * list answer) :=
  match e in sysE T return option (T * list answer) with
  | SysGetRandom size =>
      match script with
      | Fails errno :: script => Some (inr errno, script)
      | Delivers bytes :: script => Some (inl (take (Z.to_nat size) bytes), script)
      | _ => None
      end
  | _ => None
  end.

(** The answers after which it goes on, and the bytes they bring. *)
Definition draws (a : answer) : Prop := a = Fails EINTR \/ exists bytes, a = Delivers bytes /\ bytes <> [].
Definition drawn (script : list answer) : list Z := concat (map (fun a => match a with Delivers bytes => bytes | _ => [] end) script).

Lemma run_draw received a script fuel : Zlen received < 4 ->
  run random_scripted (S (S fuel)) (ITree.iter drawSome received) (a :: script) =
  match a with
  | Fails e => if e =? EINTR then run random_scripted fuel (ITree.iter drawSome received) script else (Some None, script)
  | Delivers bytes => match take (Z.to_nat (4 - Zlen received)) bytes with
      | [] => (Some None, script)
      | bytes => run random_scripted fuel (ITree.iter drawSome (received ++ bytes)) script
      end
  | Transfers _ => (None, a :: script)
  end.
Proof.
  intros Hn. unfold run at 1. fold (@run (list answer) (option Z)). unfold observe. simpl. unfold drawSome at 1.
  rewrite (proj2 (Z.ltb_lt _ _) Hn). destruct a as [e|m|bytes]; simpl; [by destruct (e =? EINTR) | done | by destruct (take _ _)].
Qed.

Lemma run_drawn received script fuel : Zlen received = 4 ->
  run random_scripted (S fuel) (ITree.iter drawSome received) script = (Some (Some (little_endian received)), script).
Proof. intros H. simpl. unfold observe. simpl. unfold drawSome. by rewrite H. Qed.

(** Bytes beyond the fourth do not matter. *)
Lemma draw_rest received bytes more : Zlen received <= 4 ->
  (if Zlen ((received ++ take (Z.to_nat (4 - Zlen received)) bytes) ++ more) <? 4 then None
   else Some (little_endian (take 4 ((received ++ take (Z.to_nat (4 - Zlen received)) bytes) ++ more)))) =
  (if Zlen (received ++ bytes ++ more) <? 4 then None else Some (little_endian (take 4 (received ++ bytes ++ more)))).
Proof.
  intros Hl. set (n := Z.to_nat (4 - Zlen received)). destruct (decide (length bytes <= n)%nat) as [Hle|Hgt]; [by rewrite take_ge, <- app_assoc by lia|].
  assert (Hlen : length (received ++ take n bytes) = 4%nat) by (rewrite length_app, length_take; unfold n, Zlen in *; lia).
  rewrite !(proj2 (Z.ltb_ge _ _)) by (unfold n, Zlen in *; rewrite !length_app, ?length_take in *; lia).
  rewrite take_app_length' by done. do 2 f_equal. rewrite take_app_ge, take_app_le by (unfold n, Zlen in *; lia). do 2 f_equal. unfold n, Zlen. lia.
Qed.

Lemma run_systemIsn_full script answers received : Zlen received = 4 ->
  exists left, run random_scripted (2 * length script + 2) (ITree.iter drawSome received) answers =
    (Some (if Zlen (received ++ drawn script) <? 4 then None else Some (little_endian (take 4 (received ++ drawn script)))), left).
Proof.
  intros H4. replace (2 * length script + 2)%nat with (S (S (2 * length script))) by lia. rewrite run_drawn by done. eexists.
  pose proof (Zlen_nonneg (drawn script)). rewrite (proj2 (Z.ltb_ge _ _)) by (rewrite Zlen_app; lia).
  by rewrite take_app_length' by (unfold Zlen in H4; lia).
Qed.

Lemma run_systemIsn script e rest received : e <> EINTR -> Forall draws script -> Zlen received <= 4 ->
  exists left, run random_scripted (2 * length script + 2) (ITree.iter drawSome received) (script ++ Fails e :: rest) =
    (Some (if Zlen (received ++ drawn script) <? 4 then None else Some (little_endian (take 4 (received ++ drawn script)))), left).
Proof.
  intros He Hs. revert received. induction Hs as [|a script Ha Hs IH]; intros received Hl.
  all: destruct (decide (Zlen received = 4)) as [H4|Hne]; [by apply run_systemIsn_full|].
  - simpl app. change (2 * length (@nil answer) + 2)%nat with 2%nat. rewrite run_draw by lia. rewrite (proj2 (Z.eqb_neq _ _) He). unfold drawn. simpl. rewrite app_nil_r.
    rewrite (proj2 (Z.ltb_lt _ _)) by lia. by exists rest.
  - simpl length. replace (2 * S (length script) + 2)%nat with (S (S (2 * length script + 2))) by lia. simpl app. rewrite run_draw by lia.
    destruct Ha as [->|(bytes & -> & Hb)]; [by apply IH|].
    destruct (take (Z.to_nat (4 - Zlen received)) bytes) as [|x l] eqn:Et.
    { destruct bytes; [done|]. destruct (Z.to_nat (4 - Zlen received)) eqn:En; [lia | done]. }
    assert (Hlen : Zlen (received ++ x :: l) <= 4).
    { rewrite Zlen_app, <- Et. unfold Zlen. rewrite length_take. unfold Zlen in Hl. lia. }
    destruct (IH (received ++ x :: l) Hlen) as (left & ->). exists left. f_equal. f_equal. rewrite <- Et.
    apply draw_rest; done.
Qed.

(** Whatever interruptions and short answers come first, [systemIsn] returns:
    the number formed by the first four bytes drawn, or nothing when the
    kernel fails before it has given them. *)
Theorem systemIsn_returns script e rest : e <> EINTR -> Forall draws script ->
  exists left, run random_scripted (2 * length script + 2) systemIsn (script ++ Fails e :: rest) =
    (Some (if Zlen (drawn script) <? 4 then None else Some (little_endian (take 4 (drawn script)))), left).
Proof. intros He Hs. by apply (run_systemIsn script e rest []). Qed.

Example systemIsn_short : fst (run random_scripted 8 systemIsn [Delivers [1; 2]; Fails EINTR; Delivers [3; 4; 5]]) = Some (Some 67305985).
Proof. reflexivity. Qed.
