(* ===== verification/Program.v ===== *)
(** * The program ([main] of src/src/main.cpp)

    The stack and the device put together: the command line, opening the
    device, the first ARP request, and the loop that sleeps, receives, runs
    the timers and sends, until the device fails. The program is an
    interaction tree of system calls; it may run for ever.

    The readings of the clock and of the generator of initial sequence numbers
    taken during one iteration are gathered in one event before it, and the
    frames of the iteration are written, in their order, at its end: the
    result of a write is only logged, nothing in between depends on it. *)

From stdpp Require Import gmap.
From ITree Require Import Core.ITreeDefinition.
From S2P Require Import Prelude Addresses Text RuntimeOptions Stack EventLoop StackSafety StackOutput.
From S2P Require Import SysCalls TapDevice.

Definition kReceiveBufferSize : Z := 2048.

Section Program.
Context (strerror : Z -> list Z) (moved_from : list Z -> list Z).

Fixpoint writeAll (tap : TapDevice) (frames : list (list Z)) : itree sysE unit :=
  match frames with
  | [] => Ret tt
  | frame :: frames => do _ <- writeFrame strerror tap frame; writeAll tap frames
  end.

(** What an action of the stack does to the device. *)
Definition perform {R} (tap : TapDevice) (m : option (unit * Stack * list (list Z))) (k : Stack -> itree sysE R) : itree sysE R :=
  match m with
  | None => do nothing <- ITree.trigger Undefined; match nothing : Empty_set with end
  | Some (_, s, out) => do _ <- writeAll tap out; k s
  end.

Section Loop.
Context (local_ip : Ipv4Address) (local_mac : MacAddress) (options : RuntimeOptions).

(** How long to wait; the clock is read when a timer is pending. *)
Definition sleepTime (s : Stack) : itree sysE Z :=
  match loopDeadline s with
  | None => Ret (timeout_ms None 0)
  | Some deadline => do now <- ITree.trigger Now; Ret (timeout_ms (Some deadline) now)
  end.

Definition receive (tap : TapDevice) (readable : bool) : itree sysE (option (list Z) + list Z) :=
  if readable then
    do result <- readFrame strerror tap kReceiveBufferSize;
    Ret (match result with inl bytes => inl (Some bytes) | inr error => inr error end)
  else Ret (inl None).

(** One turn of the loop: the next state, or the exit status. *)
Definition loopBody (tap : TapDevice) (s : Stack) : itree sysE (Stack + Z) :=
  do timeout <- sleepTime s;
  do readable <- waitReadable strerror tap timeout;
  match readable with
  | inr error => Ret (inr 1)
  | inl readable =>
      do received <- receive tap readable;
      match received with
      | inr error => Ret (inr 1)
      | inl frame =>
          do r <- ITree.trigger (Ambient local_ip s frame);
          let '(clock, isn1, isn2) := r in
          perform tap (iteration local_ip local_mac options frame clock isn1 isn2 s) (fun s => Ret (inl s))
      end
  end.

(** [std::random_device] is used for the transaction id of a DNS query, the
    clock for the first ARP request. *)
Definition start (tap : TapDevice) : itree sysE Z :=
  do random <- (match mode options with
                | HttpGet => if destination_is_hostname options then ITree.trigger RandomDevice else Ret 0
                | _ => Ret 0
                end);
  do now <- (match mode options with Passive => Ret 0 | _ => ITree.trigger Now end);
  perform tap (initialResolution local_ip local_mac options now (initialStack local_ip options random)) (ITree.iter (loopBody tap)).

End Loop.

(** The device is closed when [main] returns. *)
Definition main (argv : list (list Z)) : itree sysE Z :=
  match startup argv, argv with
  | Some (local_ip, local_mac, options), _ :: name :: _ =>
      do opened <- openDevice strerror moved_from name;
      match opened with
      | inr error => Ret 1
      | inl tap =>
          do status <- start local_ip local_mac options tap;
          do _ <- destroy tap;
          Ret status
      end
  | _, _ => Ret 1
  end.

(** ** What the program may do *)

Section Calls.
Context (local_ip : Ipv4Address) (local_mac : MacAddress) (options : RuntimeOptions) (Hconfig : configured options) (Hlocal : ip_ok local_ip).
#[local] Instance program_kernel : EventSpec sysE Kernel := kernel true (emitted local_ip local_mac kReceiveBufferSize).

Lemma timeout_range deadline now : -1 <= timeout_ms deadline now < 2 ^ 31.
Proof.
  destruct deadline as [d|]; simpl; [|lia]. destruct (Z.ltb_spec now d); [|lia]. pose proof (Z.div_pos (d - now) 1000000 ltac:(lia) ltac:(lia)). lia.
Qed.

Lemma wp_writeAll tap frames k : fd_ tap ∈ open_fds k -> Forall (emitted local_ip local_mac kReceiveBufferSize) frames ->
  wp (writeAll tap frames) (fun _ k' => open_fds k' = open_fds k) k.
Proof.
  revert k. induction frames as [|frame frames IH]; intros k Hfd; [by intros; apply wp_ret|]. rewrite Forall_cons. intros [Hframe Hframes]. simpl.
  eapply wp_bind; [apply wp_writeFrame; [done|]|].
  - intros n _ Hn. by rewrite (Hn eq_refl).
  - intros r k' (chunks & -> & _). by eapply wp_mono, (IH (k <| sent := sent k ++ chunks |>)); [intros _ k1 ->|..].
Qed.

Lemma wp_sleepTime s k : wp (sleepTime s) (fun timeout k' => -1 <= timeout < 2 ^ 31 /\ k' = k) k.
Proof.
  unfold sleepTime. destruct (loopDeadline s) as [d|]; [|by apply wp_ret].
  eapply wp_bind; [apply wp_trigger; [exact I | intros a k' H; exact H]|]. intros now k' ->. apply wp_ret. split; [apply timeout_range | done].
Qed.

Lemma wp_receive tap readable k : fd_ tap ∈ open_fds k ->
  wp (receive tap readable) (fun r k' => k' = k /\ forall bytes, r = inl (Some bytes) -> Zlen bytes <= kReceiveBufferSize) k.
Proof.
  intros Hfd. unfold receive. destruct readable; [|by apply wp_ret]. eapply wp_bind; [by apply wp_readFrame|]. intros r k' [-> Hr]. apply wp_ret.
  split; [done|]. intros bytes. destruct r as [bytes'|e]; [|done]. intros [= <-]. by apply Hr.
Qed.

(** The invariant of the loop. *)
Definition loop_inv (tap : TapDevice) (s : Stack) (k : Kernel) : Prop := running local_ip local_mac options s /\ open_fds k = {[fd_ tap]}.

Lemma wp_loopBody tap s k : loop_inv tap s k ->
  wp (loopBody local_ip local_mac options tap s)
    (fun next k => match next with inl s => loop_inv tap s k | inr status => status = 1 /\ open_fds k = {[fd_ tap]} end) k.
Proof.
  intros [Hr Hk]. assert (Hfd : fd_ tap ∈ open_fds k) by (by rewrite Hk, elem_of_singleton). unfold loopBody.
  eapply wp_bind; [apply wp_sleepTime|]. intros timeout ? [Ht ->]. eapply wp_bind; [by apply wp_waitReadable|].
  intros [readable|e] ? ->; [|by apply wp_ret]. eapply wp_bind; [by apply wp_receive|]. intros [frame|e] ? [-> Hlen]; [|by apply wp_ret].
  eapply wp_bind; [apply wp_trigger; [exact I | intros a k' H; exact H]|]. intros [[clock isn1] isn2] k' [Hin ->].
  pose proof Hconfig as (H1 & H2 & H3). pose proof Hin as [Hf Hi1 Hi2].
  destruct (ensures_iteration local_ip local_mac options H1 H2 H3 frame clock isn1 isn2 s) as ([] & s' & out & E & _); [by eapply running_ok | done..|].
  rewrite E. assert (Hout : Forall (emitted local_ip local_mac kReceiveBufferSize) out).
  { refine (proj1 (proj2 (sends_iteration local_ip local_mac Hlocal kReceiveBufferSize _ options Hconfig frame clock isn1 isn2 _ Hi1 Hi2 s _ _ _ _ E)));
      [by vm_compute | | by eapply running_peers]. intros bytes Eb. split; [by apply Hf | apply Hlen; by rewrite Eb]. }
  simpl. eapply wp_bind; [by apply wp_writeAll|]. intros u k' Hk'; simpl in Hk'. apply wp_ret. split; [by eapply running_iteration | congruence].
Qed.

Lemma wp_start tap k : open_fds k = {[fd_ tap]} -> wp (start local_ip local_mac options tap) (fun status k => status = 1 /\ open_fds k = {[fd_ tap]}) k.
Proof.
  intros Hk. assert (Hfd : fd_ tap ∈ open_fds k) by (by rewrite Hk, elem_of_singleton). unfold start. eapply (wp_bind _ _ (fun _ k' => k' = k)).
  { destruct (mode options); try by apply wp_ret. destruct (destination_is_hostname options); [by apply wp_trigger | by apply wp_ret]. }
  intros random ? ->. eapply (wp_bind _ _ (fun _ k' => k' = k)).
  { destruct (mode options); first [by apply wp_ret | by apply wp_trigger]. }
  intros now ? ->. pose proof Hconfig as (H1 & H2 & H3).
  destruct (keeps_initialResolution local_ip local_mac options now _ (initial_ok local_ip options H1 H2 H3 random)) as ([] & s & out & E & _). rewrite E.
  assert (Hout : Forall (emitted local_ip local_mac kReceiveBufferSize) out).
  { exact (proj1 (proj2 (sends_initialResolution local_ip local_mac kReceiveBufferSize ltac:(by vm_compute) options now _ (initial_peers local_ip options Hconfig random) _ _ _ E))). }
  simpl. eapply wp_bind; [by apply wp_writeAll|]. intros u k' Hk'; simpl in Hk'. apply (wp_iter _ (loop_inv tap)); [|by intros; apply wp_loopBody].
  split; [by eapply running_start | congruence].
Qed.

End Calls.

Lemma wp_main argv local_ip local_mac options : Forall bytes_ok argv -> startup argv = Some (local_ip, local_mac, options) ->
  wp (spec := kernel true (emitted local_ip local_mac kReceiveBufferSize)) (main argv) (fun status k => status = 1 /\ open_fds k = ∅) initial_kernel.
Proof.
  intros Hargv Hst. pose proof (startup_configured _ _ _ _ Hargv Hst) as Hc. pose proof (startup_local_ip _ _ _ _ Hst) as Hip.
  unfold main. rewrite Hst. destruct argv as [|prog [|name rest]]; [done | done|].
  eapply wp_bind; [apply wp_openDevice|]. intros [tap|e] k; simpl; [|by intros ->; apply wp_ret]. intros (H0 & _ & ->).
  eapply wp_bind; [apply wp_start; [done | done | apply union_empty_r_L]|]. intros status k [-> Hk]. simpl in Hk.
  eapply wp_bind; [apply wp_destroy; intros _; by rewrite Hk, elem_of_singleton|]. intros _ k' ->. apply wp_ret. split; [done|]. simpl.
  rewrite (proj2 (Z.leb_le _ _) H0), Hk. apply difference_diag_L.
Qed.


End Program.

