(* ===== verification/TapSend.v ===== *)
(** * The frame writer ([src/tools/tap_send.cpp])

    A program that writes one fixed frame to a TAP device, a second client of
    the device. Its messages are left out. *)

From Stdlib Require Import String Ascii.
From stdpp Require Import gmap.
From ITree Require Import Core.ITreeDefinition.
From S2P Require Import Prelude Addresses Text Ethernet Stack SysCalls TapDevice.

Section Program.
Context (strerror : Z -> list Z) (moved_from : list Z -> list Z).

(** The frame; [None] where an empty [std::optional] would be dereferenced. *)
Definition fixedFrame : option EthernetFrame :=
  destination ← MacAddress_parse (str "ff:ff:ff:ff:ff:ff");
  source ← MacAddress_parse (str "02:00:00:00:00:01");
  Some {| eth_destination := destination; eth_source := source; ether_type := kEtherTypeIpv4; eth_payload := [222; 173; 190; 239] |}.

(** What is done with the open device: the exit status. *)
Definition sendFixed (tap : TapDevice) : itree sysE Z :=
  match fixedFrame with
  | None => do nothing <- ITree.trigger Undefined; match nothing : Empty_set with end
  | Some frame =>
      do result <- writeFrame strerror tap (serializeEthernetFrame frame);
      Ret (match result with inr error => 1 | inl written => 0 end)
  end.

(** The device is closed when [main] returns. *)
Definition main (argv : list (list Z)) : itree sysE Z :=
  match argv with
  | [_; name] =>
      do opened <- openDevice strerror moved_from name;
      match opened with
      | inr error => Ret 1
      | inl tap =>
          do status <- sendFixed tap;
          do _ <- destroy tap;
          Ret status
      end
  | _ => Ret 1
  end.

Definition fixed : EthernetFrame := mkEthernetFrame kBroadcast (Mac 2 0 0 0 0 1) 2048 [222; 173; 190; 239].

Lemma fixedFrame_defined : fixedFrame = Some fixed.
Proof. by vm_compute. Qed.

(** On a device that takes whole frames, the program writes nothing but the
    frame, at most once, and it returns 0 exactly when the device has taken
    it; the descriptor is closed whatever happens. *)
Lemma wp_tap_send argv :
  wp (spec := kernel true (eq (serializeEthernetFrame fixed))) (main argv)
    (fun status k => open_fds k = ∅ /\ (status = 0 /\ sent k = [serializeEthernetFrame fixed] \/ status = 1 /\ sent k = [])) initial_kernel.
Proof.
  unfold main. destruct argv as [|prog [|name [|? ?]]]; try (apply wp_ret; by auto).
  eapply wp_bind; [apply wp_openDevice|]. intros [tap|e] k; simpl; [|by intros ->; apply wp_ret; auto]. intros (H0 & _ & ->).
  eapply wp_bind.
  { unfold sendFixed. rewrite fixedFrame_defined. eapply wp_bind; [apply wp_writeFrame; [set_solver|]|].
    - intros n _ Hn. by rewrite (Hn eq_refl).
    - intros r k (chunks & -> & _ & Hw & _). apply wp_ret. rewrite (Hw eq_refl ltac:(by vm_compute)).
      instantiate (1 := fun status k => open_fds k = {[fd_ tap]} /\ (status = 0 /\ sent k = [serializeEthernetFrame fixed] \/ status = 1 /\ sent k = [])).
      split; [apply union_empty_r_L | destruct r; auto]. }
  intros status k [Hk Hs]. simpl in Hk.
  eapply wp_bind; [apply wp_destroy; intros _; by rewrite Hk, elem_of_singleton|]. intros _ k' ->. apply wp_ret. simpl.
  rewrite (proj2 (Z.leb_le _ _) H0), Hk. split; [apply difference_diag_L | done].
Qed.

(** In any run: the calls are made on the open descriptor, the only bytes
    written are those of the frame, which the stack's parser reads back. *)
Theorem tap_send_obeys_kernel argv t k :
  reaches (spec := kernel true (eq (serializeEthernetFrame fixed))) (main argv) initial_kernel t k ->
  Forall (fun bytes => parseEthernetFrame bytes = Some (inl fixed)) (sent k) /\
  allowed_next (spec := kernel true (eq (serializeEthernetFrame fixed)))
    (fun status k => open_fds k = ∅ /\ (status = 0 /\ sent k = [serializeEthernetFrame fixed] \/ status = 1 /\ sent k = [])) t k.
Proof.
  intros Hr. pose proof (wp_tap_send argv) as Hw. split; [|by eapply wp_allowed].
  eapply Forall_impl; [by eapply wp_sent|]. intros ? <-. by vm_compute.
Qed.

End Program.

Example tap_send_writes : fst (run simulated 20 (main (fun _ => []) (fun _ => []) [str "tap_send"; str "tap0"]) (initial_kernel, [])) = Some 0.
Proof. by vm_compute. Qed.

