(* ===== verification/Fuzz.v ===== *)
(** * The fuzz targets ([src/fuzz/])

    Each target runs parsers on the bytes it is given and returns 0; a fuzzer
    searches for bytes on which it does not. [None] stands for a read outside
    a buffer or a loop that does not end. *)

From Stdlib Require Import String Ascii.
From S2P Require Import Prelude Addresses Text Ethernet Ipv4 Tcp Dns Http StackSafety.

Definition fuzz_ethernet (bytes : list Z) : option Z := _ ← parseEthernetFrame bytes; Some 0.

Definition fuzz_ipv4 (bytes : list Z) : option Z := _ ← parseIpv4Packet bytes; Some 0.

Definition fuzz_tcp (bytes : list Z) : option Z :=
  let source := Ipv4 10 0 0 1 in
  let destination := Ipv4 10 0 0 2 in
  _ ← parseTcpSegment bytes source destination;
  _ ← parseTcpOptions bytes;
  Some 0.

Definition fuzz_dns (bytes : list Z) : option Z := _ ← parseDnsResponse bytes 4660 (str "example.test"); Some 0.

Definition fuzz_http (bytes : list Z) : option Z := _ ← parseHttpRequest bytes; Some 0.

(** There is no such failure to find: every target returns 0 on every input. *)
Theorem fuzzers_find_nothing bytes : bytes_ok bytes ->
  Forall (fun target => target bytes = Some 0) [fuzz_ethernet; fuzz_ipv4; fuzz_tcp; fuzz_dns; fuzz_http].
Proof.
  intros Hb. repeat apply Forall_cons_2; [..|constructor].
  - unfold fuzz_ethernet. by destruct (ethernet_total bytes) as (r & -> & _).
  - unfold fuzz_ipv4. by destruct (ipv4_total bytes) as (r & -> & _).
  - unfold fuzz_tcp. destruct (tcp_total bytes (Ipv4 10 0 0 1) (Ipv4 10 0 0 2)) as (r & -> & _).
    by destruct (parseTcpOptions_total bytes) as (r' & -> & _).
  - unfold fuzz_dns. by destruct (parseDnsResponse_sound bytes 4660 (str "example.test") Hb) as (r & -> & _).
  - unfold fuzz_http. by destruct (parseHttpRequest_total bytes) as (r & ->).
Qed.

